(* ===== verification/_CoqProject ===== *)
-Q . S2P
Prelude.v
RustStr.v
F64.v
F64Round.v
Contracts.v
Domain.v
Planning.v
Aggregation.v
Lua.v
Redis.v
RedisMem.v
Coordination.v
ExecutionLease.v
Leader.v
Dispatch.v
RunStore.v
RunSummary.v
RunLedger.v
RunSpec.v
RunDecode.v
RunRefine.v
RunIngest.v
RunTheorems.v
RunHistory.v
RunProperties.v
Metrics.v
Effects.v
Runner.v
RunnerReport.v
Worker.v
WorkerProtocol.v
Wire.v
WireCodec.v
WireRoundtrip.v
Gateway.v
Template.v
Steps.v
Scenarios.v
Config.v
Startup.v
Node.v
SchedulerProtocol.v
ElectionProtocol.v
NodeRun.v
Health.v
EndToEnd.v
Aggregator.v
AggregatorProtocol.v
Kafka.v
KafkaProperties.v
Runtime.v
RuntimeSettings.v
RuntimeInit.v
RuntimeProtocol.v
RuntimeSample.v
DlqReplay.v
DlqTool.v
DlqProperties.v
