(* ===== verification/Prelude.v ===== *)
(** * Pulse: a verification development

    Pulse is a distributed load generator written in Rust ([src/src]). Every node
    runs the same process. One node is elected leader through Redis; its scheduler
    opens dispatch windows for the configured scenarios, cuts each into slices and
    publishes one job per slice to Kafka. The workers of all nodes consume the jobs,
    claim each execution under a lease in Redis, run the slice against a gRPC
    target, publish its result or a dead letter, record the outcome and commit the
    source offset. An aggregation service consumes the results, merges the slices of
    a run in Redis, and publishes summaries from an outbox. A separate tool replays
    dead letters. This library translates that code into Rocq definitions and proves
    what makes it correct. The names of definitions are those of the code, with a
    prefix where two parts of it use the same name.

    ** Files and the parts they model

    - Foundations. [Prelude]: results and [?], machine integers at their width,
      durations in nanoseconds, generic lemmas, tactics and hints. [RustStr]: strings
      as UTF-8 bytes. [F64], [F64Round]: binary64 on the Standard Library's
      executable specification, and that a quotient is the nearest binary64.
      [Effects]: asynchronous tasks as programs over calls, with [select!], join sets
      and dropped tasks, monitors of their calls, and a logic for all their runs.
    - Contracts and planning. [Contracts] ([domain/contracts.rs], [error.rs]),
      [Domain] ([scenario.rs], [context.rs], [ports.rs]), [Planning] (slices, loads,
      fingerprints and retry delays of [application/service.rs]).
    - Redis. [Lua], [Redis], [RedisMem]: the scripting language, the documented laws
      of the server, and a database that satisfies them. [Coordination] (the
      types, and invocations whose reply may be lost), [ExecutionLease], [Leader],
      [Dispatch] ([infrastructure/redis/mod.rs]); [RunStore], [RunSummary]
      ([infrastructure/redis/aggregation.rs]). Scripts are translated command by
      command. [RunLedger] is the logic for the aggregation scripts, [RunSpec] their
      specification, [RunDecode], [RunRefine], [RunIngest], [RunTheorems] the
      refinement, [RunHistory], [RunProperties] what follows for every history.
      [Aggregation] is the in-process aggregator ([application/aggregation.rs]).
    - Load. [Metrics] ([application/metrics.rs]), [Runner] ([rate_limiter.rs],
      [runner.rs]), [RunnerReport] (the tasks of a run beside its launch loop),
      [Template], [Steps], [Scenarios] ([template.rs], [steps.rs], [scenarios.rs]).
    - The node ([application/service.rs]). [Worker], [Node] (election, scheduler,
      consumer pump), [NodeRun] ([PulseNode::run]: the four tasks together);
      [WorkerProtocol], [SchedulerProtocol], [ElectionProtocol]: what their runs obey.
    - The aggregation service ([application/aggregation_service.rs]). [Aggregator],
      [AggregatorProtocol].
    - gRPC ([infrastructure/grpc/dynamic_gateway.rs]). [Wire] (the codec),
      [WireCodec], [WireRoundtrip] (termination and round trip), [Gateway].
    - Kafka ([infrastructure/kafka/mod.rs]). [Kafka], [KafkaProperties].
    - The process. [Config] ([infrastructure/config/mod.rs]), [Startup] (limits and
      plans of [main.rs]), [Health] (the flags and endpoints of
      [infrastructure/metrics/mod.rs]), [Runtime] (the rest of [main.rs]), and about it
      [RuntimeSettings], [RuntimeInit], [RuntimeProtocol], [RuntimeSample].
      [EndToEnd]: from an accepted scenario to the worker's claim.
    - Replay. [DlqReplay] ([application/dlq_replay.rs]), [DlqTool]
      ([bin/pulse_dlq.rs]), [DlqProperties].

    ** What the theorems show

    - Exclusion and fencing. Two workers never hold a lease of one execution
      together and a settled outcome stays while its record is kept; two nodes never
      lead together and fencing tokens grow; a stale leader cannot dispatch.
    - Refinement. The stores of execution leases, dispatch windows and runs
      implement abstract specifications on every branch, errors and lost replies
      included. A summary that loads counts each slice once, only grows, and is not
      lost before it is acknowledged; an overdue run is listed and finalized.
    - Protocols. In every run of the worker, the scheduler, the election, the
      aggregation service and the replay tool, whatever the environment answers and
      wherever a task is dropped, the calls come in the order the design relies on:
      publication before acknowledgement, durable disposition before commit,
      withdrawal of an announced lease at once. A node commits the records of its
      consumer in their order, and the process starts its components only when
      everything they need is there.
    - Functions. Scenario files and configurations are accepted as documented, loads
      are partitioned, rates included up to rounding, reports and merged metrics are
      exact, a message decodes back from its encoding and decoding always ends, dead
      letters are recognized and replayed under fresh identities.
    - The components agree: a dispatched job passes the checks of every worker with
      the same settings and is claimed, unless its slice alone allows no start.

    The hypotheses of a theorem are discharged at a concrete input by the lemma of its
    name with [_witness]; the database there is [RedisMem], and other parameters are instantiated
    by the samples at the end of their files.

    ** Bounds

    Loops that end when their data does are structural or bounded by it: the codec by
    the length of the payload, in its loops and in its nesting, which
    [decode_message_terminates] shows to be enough, the character-boundary search by the position it starts from.
    Loops that end when their environment says so take fuel; out of fuel they make a
    call that is never answered, so the theorems, which hold for every fuel, speak of
    every finite part of an unbounded run and no result is due to the bound.
    Integers are integers of [Z] with the saturation, wrap-around and checks of the
    source written out; a length that cannot exceed the memory of the machine is not
    bounded again.

    ** Not modelled

    - Third-party code: Redis, the Kafka client, the JSON, YAML, base64, URL and
      descriptor parsers, the gRPC channel, the HDR histogram, random draws. These are
      parameters, with documented behaviour as named laws where a theorem needs it.
    - Logging, tracing and the Prometheus counters with their HTTP server: output
      that nothing reads back. Of the server only the health endpoints are here.
    - The benchmark tool [bin/pulse_bench.rs], a timing harness; tests, scripts, the
      demo target and deployment files.
    - Real time and fairness of the scheduler of tasks: clocks answer what they like,
      so nothing is said of how soon something happens.
    - The depth of the native stack: recursion of the decoder and of templates is
      bounded here by their input, and on a machine also by its stack.
    - The pipelined reads of all pending summaries are one invocation; concurrent
      writes between the reads of one pipeline are not interleaved. *)

From Stdlib Require Export ZArith Lia String Ascii Sorted.
From stdpp Require Export base list sorting strings gmap option numbers pretty.
From Hammer Require Export Tactics.

#[global] Open Scope Z_scope.

(** ** Fallible code: [Result<T, E>] and the [?] operator *)

Inductive result (E A : Type) : Type :=
| Ok (a : A)
| Err (e : E).

Arguments Ok {E A} a.
Arguments Err {E A} e.

#[global] Instance result_ret {E} : MRet (result E) := fun A => @Ok E A.

#[global] Instance result_bind {E} : MBind (result E) :=
  fun A B f m => match m with Ok a => f a | Err e => Err e end.

#[global] Instance result_fmap {E} : FMap (result E) :=
  fun A B f m => match m with Ok a => Ok (f a) | Err e => Err e end.

#[global] Instance result_eq_dec {E A} `{EqDecision E, EqDecision A} :
  EqDecision (result E A).
Proof. solve_decision. Defined.

(** [if cond { return Err(e) }], the guard that opens most of the code's
    validators: the error is returned when the condition holds. *)
Definition reject_if {E} (cond : bool) (e : E) : result E unit :=
  if cond then Err e else Ok tt.

Definition map_err {E F A} (f : E -> F) (m : result E A) : result F A :=
  match m with Ok a => Ok a | Err e => Err (f e) end.

Definition ok_or {E A} (o : option A) (e : E) : result E A :=
  match o with Some a => Ok a | None => Err e end.

Definition is_ok {E A} (m : result E A) : bool :=
  match m with Ok _ => true | Err _ => false end.

Definition result_ok {E A} (m : result E A) : option A :=
  match m with Ok a => Some a | Err _ => None end.

(** A [for] loop whose body may return early with an error. *)
Fixpoint try_fold {E S A} (f : S -> A -> result E S) (s : S) (l : list A) : result E S :=
  match l with
  | [] => Ok s
  | a :: l' => s' ← f s a; try_fold f s' l'
  end.

Definition try_for {E A} (f : A -> result E unit) (l : list A) : result E unit :=
  try_fold (fun _ a => f a) tt l.

Section result_lemmas.
Context {E : Type}.

Lemma ok_bind {A B} (m : result E A) (f : A -> result E B) a : m = Ok a -> (m ≫= f) = f a.
Proof. by intros ->. Qed.

Lemma bind_Ok {A B} (m : result E A) (f : A -> result E B) b :
  (m ≫= f) = Ok b <-> exists a, m = Ok a /\ f a = Ok b.
Proof. destruct m; sauto. Qed.

Lemma then_Ok {B} (m : result E unit) (k : result E B) b :
  (m ;; k) = Ok b <-> m = Ok tt /\ k = Ok b.
Proof. destruct m as [[]|]; sauto. Qed.

Lemma bind_Err {A B} (m : result E A) (f : A -> result E B) e :
  (m ≫= f) = Err e <-> m = Err e \/ exists a, m = Ok a /\ f a = Err e.
Proof. destruct m; sauto. Qed.

Lemma reject_if_Ok cond (e : E) u : reject_if cond e = Ok u <-> cond = false.
Proof. destruct cond, u; sauto. Qed.

Lemma reject_if_Err cond (e e' : E) :
  reject_if cond e = Err e' <-> cond = true /\ e = e'.
Proof. destruct cond; sauto. Qed.

Lemma ok_or_Ok {A} (o : option A) (e : E) a : ok_or o e = Ok a <-> o = Some a.
Proof. destruct o; sauto. Qed.

Lemma map_err_Ok {F A} (f : E -> F) (m : result E A) a :
  map_err f m = Ok a <-> m = Ok a.
Proof. destruct m; sauto. Qed.

Lemma try_for_Ok {A} (f : A -> result E unit) l u :
  try_for f l = Ok u <-> Forall (fun a => f a = Ok tt) l.
Proof.
  destruct u. unfold try_for. generalize tt at 1. revert l.
  induction l as [|a l IH]; intros []; simpl; [sauto|].
  rewrite bind_Ok, Forall_cons. split.
  - intros ([] & ? & ?). sauto.
  - intros [? ?]. exists tt. sauto.
Qed.
End result_lemmas.

(** Turn a hypothesis [code = Ok v] into what every guard on the way decided. *)
Ltac inv_ok :=
  repeat match goal with
  | H : (_ ≫= _) = Ok _ |- _ => apply bind_Ok in H as (? & ? & H)
  | H : reject_if _ _ = Ok _ |- _ => apply reject_if_Ok in H
  | H : ok_or _ _ = Ok _ |- _ => apply ok_or_Ok in H
  | H : map_err _ _ = Ok _ |- _ => apply map_err_Ok in H
  | H : Ok _ = Ok _ |- _ => injection H as H
  | H : Err _ = Ok _ |- _ => discriminate H
  | H : Ok _ = Err _ |- _ => discriminate H
  | x : unit |- _ => destruct x
  end.

(** Reflect boolean hypotheses into propositions on integers. *)
Ltac bool_hyps :=
  repeat match goal with
  | H : (_ && _)%bool = true |- _ => apply andb_true_iff in H as [? ?]
  | H : (_ || _)%bool = false |- _ => apply orb_false_iff in H as [? ?]
  | H : negb _ = true |- _ => apply negb_true_iff in H
  | H : negb _ = false |- _ => apply negb_false_iff in H
  | H : (_ <? _)%Z = true |- _ => apply Z.ltb_lt in H
  | H : (_ <? _)%Z = false |- _ => apply Z.ltb_ge in H
  | H : (_ <=? _)%Z = true |- _ => apply Z.leb_le in H
  | H : (_ <=? _)%Z = false |- _ => apply Z.leb_gt in H
  | H : (_ >? _)%Z = true |- _ => rewrite Z.gtb_ltb in H
  | H : (_ >? _)%Z = false |- _ => rewrite Z.gtb_ltb in H
  | H : (_ >=? _)%Z = true |- _ => rewrite Z.geb_leb in H
  | H : (_ >=? _)%Z = false |- _ => rewrite Z.geb_leb in H
  | H : (_ =? _)%Z = true |- _ => apply Z.eqb_eq in H
  | H : (_ =? _)%Z = false |- _ => apply Z.eqb_neq in H
  | H : bool_decide _ = true |- _ => apply bool_decide_eq_true in H
  | H : bool_decide _ = false |- _ => apply bool_decide_eq_false in H
  end.

(** ** Machine integers

    An unsigned integer of the code is a [Z] between 0 and the maximum of its
    width; every operation that can leave the range is written out with what
    Rust does there. *)

Abbreviation u16_max := 65535%Z (only parsing).
Abbreviation u32_max := 4294967295%Z (only parsing).
Abbreviation u64_max := 18446744073709551615%Z (only parsing).
Abbreviation u128_max := 340282366920938463463374607431768211455%Z (only parsing).
Abbreviation usize_max := 18446744073709551615%Z (only parsing).
Abbreviation i32_max := 2147483647%Z (only parsing).
Abbreviation i64_max := 9223372036854775807%Z (only parsing).

(** The values of an unsigned type whose largest value is [max]. *)
Definition in_range (max z : Z) : Prop := 0 <= z <= max.

#[global] Instance in_range_dec max z : Decision (in_range max z).
Proof. unfold in_range. apply _. Defined.

Definition checked_add (max a b : Z) : option Z :=
  if a + b <=? max then Some (a + b) else None.

Definition checked_mul (max a b : Z) : option Z :=
  if a * b <=? max then Some (a * b) else None.

Definition checked_sub (a b : Z) : option Z :=
  if b <=? a then Some (a - b) else None.

Definition saturating_add (max a b : Z) : Z := Z.min max (a + b).

Definition saturating_mul (max a b : Z) : Z := Z.min max (a * b).

Definition saturating_sub (a b : Z) : Z := Z.max 0 (a - b).

(** Arithmetic at the width of a type with largest value [max]; the plain
    operators of a release build. *)
Definition wrapping (max z : Z) : Z := z mod (max + 1).

(** [T::try_from(z)] into a type with largest value [max]. *)
Definition try_from (max z : Z) : option Z :=
  if (0 <=? z) && (z <=? max) then Some z else None.

Section integer_lemmas.
Implicit Types max a b c z : Z.

Lemma checked_add_Some max a b c :
  checked_add max a b = Some c <-> c = a + b /\ a + b <= max.
Proof. unfold checked_add. destruct (Z.leb_spec (a + b) max); split; [naive_solver lia..]. Qed.

Lemma checked_add_None max a b : checked_add max a b = None <-> max < a + b.
Proof. unfold checked_add. destruct (Z.leb_spec (a + b) max); split; [naive_solver lia..]. Qed.

Lemma checked_mul_Some max a b c :
  checked_mul max a b = Some c <-> c = a * b /\ a * b <= max.
Proof. unfold checked_mul. destruct (Z.leb_spec (a * b) max); split; [naive_solver lia..]. Qed.

Lemma checked_sub_Some a b c :
  checked_sub a b = Some c <-> c = a - b /\ b <= a.
Proof. unfold checked_sub. destruct (Z.leb_spec b a); split; [naive_solver lia..]. Qed.

Lemma try_from_Some max z c :
  try_from max z = Some c <-> c = z /\ in_range max z.
Proof.
  unfold try_from, in_range.
  destruct (Z.leb_spec 0 z), (Z.leb_spec z max); simpl; split; [naive_solver lia..].
Qed.

Lemma wrapping_small max z : in_range max z -> wrapping max z = z.
Proof. unfold in_range, wrapping. intros. apply Z.mod_small. lia. Qed.

Lemma wrapping_range max z : 0 <= max -> in_range max (wrapping max z).
Proof.
  unfold in_range, wrapping. intros.
  pose proof (Z.mod_pos_bound z (max + 1)). lia.
Qed.

Lemma saturating_add_range max a b :
  in_range max a -> in_range max b -> in_range max (saturating_add max a b).
Proof. unfold in_range, saturating_add. lia. Qed.
End integer_lemmas.

Create HintDb pulse.
#[export] Hint Resolve wrapping_range saturating_add_range : pulse.
#[export] Hint Unfold in_range : pulse.

(** Linear arithmetic up to the definitions above. *)
Ltac mlia :=
  unfold in_range, saturating_add, saturating_sub, saturating_mul in *; bool_hyps; lia.

(** ** [std::time::Duration], in nanoseconds *)

Definition duration := Z.

Definition nanos_per_milli : Z := 1000000.
Definition nanos_per_sec : Z := 1000000000.

(** [Duration::MAX]: [u64::MAX] seconds and 999999999 nanoseconds. *)
Definition duration_max : duration := u64_max * 1000000000 + 999999999.

Definition as_millis (d : duration) : Z := d / nanos_per_milli.
Definition from_millis (ms : Z) : duration := ms * nanos_per_milli.
Definition from_secs (s : Z) : duration := s * nanos_per_sec.
Definition duration_is_zero (d : duration) : bool := d =? 0.
Definition duration_checked_add (a b : duration) : option duration := checked_add duration_max a b.
Definition duration_saturating_sub (a b : duration) : duration := saturating_sub a b.
Definition duration_saturating_mul (d : duration) (k : Z) : duration := saturating_mul duration_max d k.

Lemma as_millis_from_millis ms : as_millis (from_millis ms) = ms.
Proof. unfold as_millis, from_millis, nanos_per_milli. apply Z.div_mul. lia. Qed.

(** ** Lists *)

Lemma elem_of_map {A B} (f : A -> B) l y : y ∈ map f l <-> exists x, y = f x /\ x ∈ l.
Proof. apply list_elem_of_fmap. Qed.

(** ** Sums *)

Definition sumZ (l : list Z) : Z := foldr Z.add 0 l.

Section sum_lemmas.
Context {A : Type}.
Implicit Types (f g : A -> Z) (l : list A).

Lemma sumZ_app k1 k2 : sumZ (k1 ++ k2) = sumZ k1 + sumZ k2.
Proof. induction k1; simpl; [done|lia]. Qed.

Lemma sumZ_perm k1 k2 : k1 ≡ₚ k2 -> sumZ k1 = sumZ k2.
Proof. induction 1; simpl; lia. Qed.

Lemma sumZ_nonneg k : Forall (fun z => 0 <= z) k -> 0 <= sumZ k.
Proof. induction 1; simpl; lia. Qed.

Lemma sumZ_map_add f g l :
  sumZ (map (fun a => f a + g a) l) = sumZ (map f l) + sumZ (map g l).
Proof. induction l; simpl; lia. Qed.

Lemma sumZ_map_const c l : sumZ (map (fun _ => c) l) = c * Z.of_nat (length l).
Proof. induction l; simpl length; simpl; lia. Qed.

Lemma sumZ_map_ext f g l :
  Forall (fun a => f a = g a) l -> sumZ (map f l) = sumZ (map g l).
Proof. induction 1; simpl; lia. Qed.

Lemma sumZ_elem_le k z : Forall (fun y => 0 <= y) k -> z ∈ k -> z <= sumZ k.
Proof.
  induction 1 as [|y k ? Hk IH]; intros Hz; [set_solver|].
  pose proof (sumZ_nonneg _ Hk). apply elem_of_cons in Hz as [->|Hz]; simpl; [lia|].
  specialize (IH Hz). lia.
Qed.
End sum_lemmas.

(** The half-open range [0..n] of the code's [for] loops. *)
Definition rangeZ (n : Z) : list Z := map Z.of_nat (seq 0 (Z.to_nat n)).

Section range_lemmas.
Lemma elem_of_rangeZ n i : i ∈ rangeZ n <-> 0 <= i < n.
Proof.
  unfold rangeZ. rewrite list_elem_of_fmap. split.
  - intros (k & -> & Hk). apply elem_of_seq in Hk. lia.
  - intros. exists (Z.to_nat i). rewrite elem_of_seq. lia.
Qed.

Lemma length_rangeZ n : 0 <= n -> Z.of_nat (length (rangeZ n)) = n.
Proof. intros. unfold rangeZ. rewrite length_map, length_seq. lia. Qed.

Lemma rangeZ_succ n : 0 <= n -> rangeZ (n + 1) = rangeZ n ++ [n].
Proof.
  intros. unfold rangeZ. rewrite Z2Nat.inj_add by lia. rewrite seq_app, map_app.
  simpl. do 2 f_equal. lia.
Qed.

Lemma rangeZ_sorted n : StronglySorted Z.lt (rangeZ n).
Proof.
  unfold rangeZ. generalize 0%nat as a. induction (Z.to_nat n) as [|k IH]; intros a; simpl; [constructor|].
  constructor; [apply IH|]. apply Forall_forall. intros x (j & -> & Hj)%list_elem_of_fmap.
  apply elem_of_seq in Hj. lia.
Qed.

Lemma filter_all {A} (P : A -> Prop) `{!forall x, Decision (P x)} (l : list A) :
  (forall x, x ∈ l -> P x) -> filter P l = l.
Proof.
  induction l as [|x l IH]; [done|]. intros Hl. rewrite filter_cons, decide_True by (apply Hl; constructor).
  f_equal. apply IH. intros. apply Hl. by constructor.
Qed.

Lemma StronglySorted_filter_list {A} (R : A -> A -> Prop) (P : A -> Prop) `{!forall x, Decision (P x)} l :
  StronglySorted R l -> StronglySorted R (filter P l).
Proof.
  induction 1 as [|x l Hl IH Hx]; [constructor|]. rewrite filter_cons. case_decide; [|done].
  constructor; [done|]. apply Forall_forall. intros y [_ Hy]%list_elem_of_filter.
  rewrite Forall_forall in Hx. auto.
Qed.

Lemma NoDup_rangeZ n : NoDup (rangeZ n).
Proof. unfold rangeZ. apply NoDup_fmap_2; [apply _|apply NoDup_seq]. Qed.
End range_lemmas.

