(* ===== verification/RustStr.v ===== *)
(** * Rust strings

    A [String] or [&str] of the code is a [string] of its UTF-8 bytes.  This
    file models the operations of the standard library the sources use on
    them: lengths in bytes, character boundaries, [trim], decimal and
    hexadecimal formatting, integer parsing, prefixes, splitting and searching. *)

From S2P Require Import Prelude.

(** ** Lengths, characters and boundaries *)

Definition str_len (s : string) : Z := Z.of_nat (String.length s).

Definition str_is_empty (s : string) : bool := str_len s =? 0.

Definition byte_of (c : ascii) : Z := Z.of_N (N_of_ascii c).

Definition bytes_of (s : string) : list Z := map byte_of (list_ascii_of_string s).

(** [str::is_char_boundary]. *)
Definition is_char_boundary (s : string) (i : Z) : bool :=
  if i =? 0 then true
  else if str_len s <=? i then i =? str_len s
  else match String.get (Z.to_nat i) s with
       | Some c => negb ((128 <=? byte_of c) && (byte_of c <? 192))
       | None => false
       end.

(** [String::truncate], defined at a character boundary. *)
Definition str_truncate (s : string) (n : Z) : string := String.substring 0 (Z.to_nat n) s.

(** ** [str::trim]: Unicode [White_Space] in its UTF-8 encoding *)

Definition ws1 (a : ascii) : bool :=
  let a := byte_of a in ((9 <=? a) && (a <=? 13)) || (a =? 32).

Definition ws2 (a b : ascii) : bool :=
  (byte_of a =? 194) && ((byte_of b =? 133) || (byte_of b =? 160)).

Definition ws3 (a b c : ascii) : bool :=
  let a := byte_of a in let b := byte_of b in let c := byte_of c in
  ((a =? 225) && (b =? 154) && (c =? 128))
  || ((a =? 226) && (b =? 128)
      && (((128 <=? c) && (c <=? 138)) || (c =? 168) || (c =? 169) || (c =? 175)))
  || ((a =? 226) && (b =? 129) && (c =? 159))
  || ((a =? 227) && (b =? 128) && (c =? 128)).

Fixpoint trim_start_by (w2 : ascii -> ascii -> bool) (w3 : ascii -> ascii -> ascii -> bool)
    (s : string) : string :=
  match s with
  | EmptyString => EmptyString
  | String a r =>
      if ws1 a then trim_start_by w2 w3 r else
      match r with
      | String b r2 =>
          if w2 a b then trim_start_by w2 w3 r2 else
          match r2 with
          | String c r3 => if w3 a b c then trim_start_by w2 w3 r3 else s
          | EmptyString => s
          end
      | EmptyString => s
      end
  end.

Definition trim_start (s : string) : string := trim_start_by ws2 ws3 s.

Definition trim_end (s : string) : string :=
  String.rev (trim_start_by (fun b a => ws2 a b) (fun c b a => ws3 a b c) (String.rev s)).

Definition trim (s : string) : string := trim_end (trim_start s).

(** [value.trim().is_empty()]. *)
Definition blank (s : string) : bool := str_is_empty (trim s).

(** ** Formatting *)

(** [{}] on an integer. *)
Definition show (z : Z) : string := pretty z.

Definition hex_char (d : Z) : ascii :=
  if d <? 10 then ascii_of_N (Z.to_N (48 + d)) else ascii_of_N (Z.to_N (87 + d)).

(** [{:0<width>x}] on an integer below 16^width. *)
Fixpoint show_hex (width : nat) (z : Z) : string :=
  match width with
  | O => EmptyString
  | S w => show_hex w (z / 16) +:+ String (hex_char (z mod 16)) EmptyString
  end.

Definition show_bool (b : bool) : string := if b then "true" else "false".

Fixpoint join (sep : string) (l : list string) : string :=
  match l with
  | [] => EmptyString
  | [s] => s
  | s :: l' => s +:+ sep +:+ join sep l'
  end.

(** ** Integer parsing *)

Definition digit_val (c : ascii) : option Z :=
  let b := byte_of c in if (48 <=? b) && (b <=? 57) then Some (b - 48) else None.

Fixpoint parse_digits (acc : Z) (s : string) : option Z :=
  match s with
  | EmptyString => Some acc
  | String c r => d ← digit_val c; parse_digits (acc * 10 + d) r
  end.

(** At least one digit. *)
Definition parse_nat (s : string) : option Z :=
  match s with EmptyString => None | _ => parse_digits 0 s end.

(** [str::parse] into an unsigned type with largest value [max]: an optional
    [+], at least one digit, no overflow. *)
Definition parse_uint (max : Z) (s : string) : option Z :=
  z ← match s with
      | String "+" r => parse_nat r
      | _ => parse_nat s
      end;
  if z <=? max then Some z else None.

(** [str::parse] into a signed type with largest value [max]. *)
Definition parse_int (max : Z) (s : string) : option Z :=
  match s with
  | String "-" r => z ← parse_nat r; if z <=? max + 1 then Some (- z) else None
  | _ => parse_uint max s
  end.

(** ** Prefixes, splitting, searching *)

Fixpoint strip_prefix (p s : string) : option string :=
  match p, s with
  | EmptyString, _ => Some s
  | String a p', String b s' => if Ascii.eqb a b then strip_prefix p' s' else None
  | String _ _, EmptyString => None
  end.

Definition starts_with (p s : string) : bool :=
  match strip_prefix p s with Some _ => true | None => false end.

(** [str::strip_suffix]. *)
Definition strip_suffix (p s : string) : option string :=
  String.rev <$> strip_prefix (String.rev p) (String.rev s).

(** [s.split_once(sep)] for a string separator: the text before and after its
    first occurrence. *)
Fixpoint split_once (sep s : string) : option (string * string) :=
  match strip_prefix sep s with
  | Some r => Some (EmptyString, r)
  | None =>
      match s with
      | EmptyString => None
      | String c r => '(a, b) ← split_once sep r; Some (String c a, b)
      end
  end.

(** [s.split(c)] for a character separator. *)
Fixpoint split_char (sep : ascii) (s : string) : list string :=
  match s with
  | EmptyString => [EmptyString]
  | String c r =>
      if Ascii.eqb c sep then EmptyString :: split_char sep r
      else match split_char sep r with
           | [] => [String c EmptyString]
           | w :: ws => String c w :: ws
           end
  end.

Definition str_contains (sep s : string) : bool :=
  match split_once sep s with Some _ => true | None => false end.

Fixpoint all_chars (p : ascii -> bool) (s : string) : bool :=
  match s with
  | EmptyString => true
  | String c r => p c && all_chars p r
  end.

Definition is_digit (c : ascii) : bool := (48 <=? byte_of c) && (byte_of c <=? 57).

(** [char::to_ascii_lowercase] on every byte. *)
Definition ascii_lower (c : ascii) : ascii :=
  if (65 <=? byte_of c) && (byte_of c <=? 90) then ascii_of_N (Z.to_N (byte_of c + 32)) else c.

Fixpoint to_ascii_lowercase (s : string) : string :=
  match s with
  | EmptyString => EmptyString
  | String c r => String (ascii_lower c) (to_ascii_lowercase r)
  end.

(** [{:?}] on a [Duration]. *)
Definition strip_trailing_zeros (s : string) : string :=
  let fix go (l : string) := match l with String "0" r => go r | _ => l end in
  String.rev (go (String.rev s)).

Definition pad_left_zeros (width : nat) (s : string) : string :=
  Nat.iter (width - String.length s) (fun t => String "0" t) s.

Definition fmt_decimal (int frac : Z) (digits : nat) : string :=
  if frac =? 0 then show int
  else show int +:+ "." +:+ strip_trailing_zeros (pad_left_zeros digits (show frac)).

Definition show_duration (d : duration) : string :=
  let secs := d / nanos_per_sec in
  let nanos := d mod nanos_per_sec in
  if 0 <? secs then fmt_decimal secs nanos 9 +:+ "s"
  else if 1000000 <=? nanos then fmt_decimal (nanos / 1000000) (nanos mod 1000000) 6 +:+ "ms"
  else if 1000 <=? nanos then fmt_decimal (nanos / 1000) (nanos mod 1000) 3 +:+ "µs"
  else show nanos +:+ "ns".

(** ** Lemmas *)

Section string_lemmas.
Implicit Types (s r : string) (c : ascii).

Lemma str_app_assoc s1 s2 s3 : (s1 +:+ s2) +:+ s3 = s1 +:+ s2 +:+ s3.
Proof. induction s1; simpl; [done|]. unfold String.append in *; fold String.append in *. congruence. Qed.

Lemma str_app_cons c s r : String c s +:+ r = String c (s +:+ r).
Proof. done. Qed.

Lemma str_app_nil_l r : EmptyString +:+ r = r.
Proof. done. Qed.

Lemma str_app_nil_r s : s +:+ EmptyString = s.
Proof. induction s; [done|]. rewrite str_app_cons. congruence. Qed.

Lemma str_app_inj_l p s r : p +:+ s = p +:+ r -> s = r.
Proof. induction p; [done|]. rewrite !str_app_cons. intros [=]. auto. Qed.

Lemma str_len_nonneg s : 0 <= str_len s.
Proof. unfold str_len. lia. Qed.

Lemma str_len_cons c s : str_len (String c s) = 1 + str_len s.
Proof. unfold str_len. simpl String.length. lia. Qed.

Lemma str_len_app s r : str_len (s +:+ r) = str_len s + str_len r.
Proof.
  induction s; [done|]. rewrite str_app_cons, !str_len_cons. lia.
Qed.

Lemma str_app_inj_len s1 s2 r1 r2 :
  str_len s1 = str_len s2 -> s1 +:+ r1 = s2 +:+ r2 -> s1 = s2 /\ r1 = r2.
Proof.
  revert s2. induction s1 as [|a s1 IH]; intros [|b s2]; rewrite ?str_len_cons; intros Hl.
  - done.
  - pose proof (str_len_nonneg s2). change (str_len EmptyString) with 0 in Hl. lia.
  - pose proof (str_len_nonneg s1). change (str_len EmptyString) with 0 in Hl. lia.
  - rewrite !str_app_cons. intros [= -> H]. apply IH in H; [naive_solver|lia].
Qed.

Lemma rev_app_spec s r : String.rev_app s r = String.rev s +:+ r.
Proof.
  unfold String.rev. revert r. induction s as [|c s IH]; intros r; [done|]. cbn [String.rev_app].
  by rewrite IH, (IH (String c EmptyString)), str_app_assoc.
Qed.

Lemma rev_str_cons c s : String.rev (String c s) = String.rev s +:+ String c EmptyString.
Proof. exact (rev_app_spec s (String c EmptyString)). Qed.

Lemma rev_str_app s r : String.rev (s +:+ r) = String.rev r +:+ String.rev s.
Proof.
  induction s as [|c s IH]; [by rewrite str_app_nil_r|]. rewrite str_app_cons, !rev_str_cons, IH. apply str_app_assoc.
Qed.

Lemma rev_str_involutive s : String.rev (String.rev s) = s.
Proof. induction s as [|c s IH]; [done|]. by rewrite rev_str_cons, rev_str_app, IH. Qed.

Lemma str_len_0 s : str_len s = 0 -> s = EmptyString.
Proof. destruct s; [done|]. rewrite str_len_cons. pose proof (str_len_nonneg s). lia. Qed.

Lemma str_is_empty_true s : str_is_empty s = true <-> s = EmptyString.
Proof.
  unfold str_is_empty. rewrite Z.eqb_eq. split; [apply str_len_0|by intros ->].
Qed.

Lemma strip_prefix_app p s : strip_prefix p (p +:+ s) = Some s.
Proof. induction p; [done|]. rewrite str_app_cons. simpl. by rewrite Ascii.eqb_refl. Qed.

Lemma strip_prefix_Some p s r : strip_prefix p s = Some r -> s = p +:+ r.
Proof.
  revert s. induction p as [|a p IH]; simpl; intros s; [by intros [= ->]|].
  destruct s as [|b s]; [done|]. destruct (Ascii.eqb_spec a b) as [->|]; [|done].
  intros H%IH. rewrite str_app_cons. congruence.
Qed.

Lemma strip_suffix_app p s : strip_suffix p (s +:+ p) = Some s.
Proof. unfold strip_suffix. rewrite rev_str_app, strip_prefix_app. cbn. by rewrite rev_str_involutive. Qed.

Lemma strip_suffix_Some p s r : strip_suffix p s = Some r -> s = r +:+ p.
Proof.
  unfold strip_suffix. destruct (strip_prefix _ _) as [q|] eqn:E; [|done]. cbn. intros [= <-].
  apply strip_prefix_Some, (f_equal String.rev) in E. by rewrite rev_str_app, !rev_str_involutive in E.
Qed.

Lemma strip_suffix_other a b s :
  a <> b -> strip_suffix (String a EmptyString) (s +:+ String b EmptyString) = None.
Proof.
  intros Hne. unfold strip_suffix. rewrite rev_str_app. change (String.rev (String b EmptyString)) with (String b EmptyString).
  rewrite str_app_cons. cbn. by destruct (Ascii.eqb_spec a b).
Qed.

Lemma split_once_Some sep s a b : split_once sep s = Some (a, b) -> s = a +:+ sep +:+ b.
Proof.
  revert a. induction s as [|c s IH]; simpl; intros a.
  - destruct (strip_prefix sep EmptyString) eqn:E; [|done].
    intros [= <- <-]. by apply strip_prefix_Some in E.
  - destruct (strip_prefix sep (String c s)) eqn:E.
    + intros [= <- <-]. by apply strip_prefix_Some in E.
    + destruct (split_once sep s) as [[x y]|] eqn:E2; [|done]. simpl.
      intros [= <- <-]. rewrite str_app_cons. f_equal. auto.
Qed.

Lemma all_chars_app p s r : all_chars p (s +:+ r) = all_chars p s && all_chars p r.
Proof. induction s; [done|]. rewrite str_app_cons. simpl. rewrite IHs. by rewrite andb_assoc. Qed.

(** Two texts of characters of a class, each ended by the same character
    outside the class, agree when the whole strings do. *)
Lemma delimited_inj p c s1 s2 r1 r2 :
  all_chars p s1 = true -> all_chars p s2 = true -> p c = false ->
  s1 +:+ String c r1 = s2 +:+ String c r2 -> s1 = s2 /\ r1 = r2.
Proof.
  intros H1 H2 Hc. revert s2 H2. induction s1 as [|a s1 IH]; intros [|b s2] H2.
  - rewrite !str_app_nil_l. naive_solver.
  - rewrite str_app_nil_l, str_app_cons. intros [= -> _]. simpl in H2. by rewrite Hc in H2.
  - rewrite str_app_nil_l, str_app_cons. intros [= -> _]. simpl in H1. by rewrite Hc in H1.
  - rewrite !str_app_cons. intros [= -> H]. simpl in *. bool_hyps.
    apply IH in H; naive_solver.
Qed.
Lemma split_char_none c s : all_chars (fun x => negb (Ascii.eqb x c)) s = true -> split_char c s = [s].
Proof.
  induction s as [|x s IH]; [done|]. simpl. intros [Hx Hs]%andb_true_iff.
  apply negb_true_iff in Hx. by rewrite Hx, IH.
Qed.

Lemma split_char_app c s r :
  all_chars (fun x => negb (Ascii.eqb x c)) s = true ->
  split_char c (s +:+ String c r) = s :: split_char c r.
Proof.
  induction s as [|x s IH].
  - intros _. change (EmptyString +:+ String c r) with (String c r). simpl. by rewrite Ascii.eqb_refl.
  - rewrite str_app_cons. simpl. intros [Hx Hs]%andb_true_iff. apply negb_true_iff in Hx.
    by rewrite Hx, IH.
Qed.

(** Splitting undoes joining texts that do not contain the separator. *)
Lemma split_join c l :
  l <> [] -> Forall (fun s => all_chars (fun x => negb (Ascii.eqb x c)) s = true) l ->
  split_char c (join (String c EmptyString) l) = l.
Proof.
  intros Hne Hall. induction Hall as [|s l Hs Hl IH]; [done|].
  destruct l as [|s' l]; [by apply split_char_none|].
  change (join (String c EmptyString) (s :: s' :: l))
    with (s +:+ String c EmptyString +:+ join (String c EmptyString) (s' :: l)).
  change (String c EmptyString +:+ join (String c EmptyString) (s' :: l))
    with (String c (join (String c EmptyString) (s' :: l))).
  rewrite split_char_app, IH; done.
Qed.

Lemma all_chars_impl p q s : (forall c, p c = true -> q c = true) -> all_chars p s = true -> all_chars q s = true.
Proof. intros Hpq. induction s as [|c s IH]; [done|]. simpl. rewrite !andb_true_iff. naive_solver. Qed.
End string_lemmas.

(** Decimal text. *)
Section decimal_lemmas.
Implicit Types (x : N) (z : Z).

Lemma digit_val_pretty x :
  (x < 10)%N -> digit_val (pretty_N_char x) = Some (Z.of_N x) /\ is_digit (pretty_N_char x) = true.
Proof.
  intros. assert (x ∈ N.of_nat <$> seq 0 10) as Hx.
  { apply list_elem_of_fmap. exists (N.to_nat x). rewrite elem_of_seq. lia. }
  simpl in Hx. repeat (apply elem_of_cons in Hx as [->|Hx]; [by vm_compute|]).
  by apply not_elem_of_nil in Hx.
Qed.

Lemma parse_digits_pretty_go x s :
  parse_digits 0 (pretty_N_go x s) = parse_digits (Z.of_N x) s.
Proof.
  revert s. induction (N.lt_wf_0 x) as [x _ IH]; intros s.
  destruct (decide (x = 0)%N) as [->|]; [by rewrite pretty_N_go_0|].
  rewrite pretty_N_go_step by lia. rewrite IH by (apply N.div_lt; lia).
  simpl. destruct (digit_val_pretty (x `mod` 10)%N) as [-> _]; [apply N.mod_lt; lia|].
  simpl. f_equal. pose proof (N.div_mod x 10). lia.
Qed.

Lemma digits_pretty_go x s :
  all_chars is_digit s = true -> all_chars is_digit (pretty_N_go x s) = true.
Proof.
  revert s. induction (N.lt_wf_0 x) as [x _ IH]; intros s Hs.
  destruct (decide (x = 0)%N) as [->|]; [by rewrite pretty_N_go_0|].
  rewrite pretty_N_go_step by lia. apply IH; [apply N.div_lt; lia|]. simpl.
  destruct (digit_val_pretty (x `mod` 10)%N) as [_ ->]; [apply N.mod_lt; lia|done].
Qed.

Lemma length_pretty_go k x s :
  (x < 10 ^ N.of_nat k)%N -> (String.length (pretty_N_go x s) <= k + String.length s)%nat.
Proof.
  revert x s. induction k as [|k IH]; intros x s Hx.
  - assert (x = 0)%N as -> by (simpl in Hx; lia). by rewrite pretty_N_go_0.
  - destruct (decide (x = 0)%N) as [->|]; [rewrite pretty_N_go_0; lia|].
    rewrite pretty_N_go_step by lia. etrans; [apply IH|simpl; lia].
    apply N.Div0.div_lt_upper_bound. rewrite Nat2N.inj_succ, N.pow_succ_r' in Hx. lia.
Qed.

Lemma length_pretty_go_ge x s : (String.length s <= String.length (pretty_N_go x s))%nat.
Proof.
  revert s. induction (N.lt_wf_0 x) as [x _ IH]; intros s.
  destruct (decide (x = 0)%N) as [->|]; [by rewrite pretty_N_go_0|].
  rewrite pretty_N_go_step by lia.
  etrans; [|apply IH; apply N.div_lt; lia]. simpl. lia.
Qed.

Lemma show_nonneg z : 0 < z -> show z = pretty_N_go (Z.to_N z) EmptyString.
Proof. destruct z; [lia| |lia]. intros _. unfold show, pretty, pretty_Z. done. Qed.

Lemma show_zero : show 0 = "0".
Proof. done. Qed.

Lemma parse_digits_show z : 0 <= z -> parse_digits 0 (show z) = Some z.
Proof.
  intros. destruct (decide (z = 0)) as [->|]; [done|].
  rewrite show_nonneg, parse_digits_pretty_go by lia. simpl. f_equal. lia.
Qed.

Lemma show_digits z : 0 <= z -> all_chars is_digit (show z) = true.
Proof.
  intros. destruct (decide (z = 0)) as [->|]; [done|].
  rewrite show_nonneg by lia. by apply digits_pretty_go.
Qed.

Lemma show_len_pos z : 0 <= z -> 1 <= str_len (show z).
Proof.
  intros. destruct (decide (z = 0)) as [->|]; [by vm_compute|].
  rewrite show_nonneg, pretty_N_go_step by lia. unfold str_len.
  pose proof (length_pretty_go_ge (Z.to_N z `div` 10)
                (String (pretty_N_char (Z.to_N z `mod` 10)) EmptyString)) as Hl.
  simpl in Hl. lia.
Qed.

Lemma show_len k z : (1 <= k)%nat -> 0 <= z < 10 ^ Z.of_nat k -> str_len (show z) <= Z.of_nat k.
Proof.
  intros. destruct (decide (z = 0)) as [->|]; [change (str_len (show 0)) with 1; lia|].
  rewrite show_nonneg by lia. unfold str_len.
  pose proof (length_pretty_go k (Z.to_N z) EmptyString) as Hl. simpl in Hl.
  assert (Z.to_N z < 10 ^ N.of_nat k)%N.
  { apply N2Z.inj_lt. rewrite N2Z.inj_pow, nat_N_Z, Z2N.id by lia. simpl. lia. }
  specialize (Hl ltac:(done)). lia.
Qed.

Lemma show_inj z1 z2 : show z1 = show z2 -> z1 = z2.
Proof. apply pretty_Z_inj. Qed.

Lemma parse_uint_show max z : in_range max z -> parse_uint max (show z) = Some z.
Proof.
  intros [Hz Hm]. pose proof (show_digits z Hz) as Hd. pose proof (show_len_pos z Hz) as Hl.
  pose proof (parse_digits_show z Hz) as Hp.
  unfold parse_uint, parse_nat. destruct (show z) as [|c r] eqn:E; [by vm_compute in Hl|].
  assert (c <> "+"%char) as Hc by (intros ->; by vm_compute in Hd).
  destruct c as [[] [] [] [] [] [] [] []]; rewrite ?Hp; simpl; try done;
    by apply Z.leb_le in Hm as ->.
Qed.
End decimal_lemmas.

(** ** Texts that are not blank *)

Section solid.
Variable c : ascii.
Hypothesis c_ascii : byte_of c < 128.
Hypothesis c_visible : ws1 c = false.

Fixpoint has (s : string) : bool :=
  match s with EmptyString => false | String a r => Ascii.eqb a c || has r end.

Lemma has_app s t : has (s +:+ t) = has s || has t.
Proof. induction s as [|a s IH]; [done|]. rewrite str_app_cons. simpl. by rewrite IH, orb_assoc. Qed.

Lemma has_rev s : has (String.rev s) = has s.
Proof.
  induction s as [|a s IH]; [done|]. rewrite rev_str_cons, has_app, IH. simpl. by rewrite orb_false_r, orb_comm.
Qed.

Lemma has_trim_start w2 w3 s :
  (forall a b, w2 a b = true -> a <> c /\ b <> c) -> (forall a b d, w3 a b d = true -> a <> c /\ b <> c /\ d <> c) ->
  has s = true -> has (trim_start_by w2 w3 s) = true.
Proof.
  intros H2 H3. remember (String.length s) as n eqn:En. revert s En.
  induction n as [n IH] using lt_wf_ind; intros s -> Hs. destruct s as [|a r]; [done|].
  assert (forall t, has t = true -> (String.length t < S (String.length r))%nat -> has (trim_start_by w2 w3 t) = true) as IH'
    by (intros t Ht Hl; by eapply IH).
  assert (forall x, Ascii.eqb x c = true -> x = c) as Heq by (intros x; by destruct (Ascii.eqb_spec x c)).
  simpl in *. destruct (ws1 a) eqn:E1.
  { apply IH'; [|lia]. apply orb_true_iff in Hs as [->%Heq|Hs]; [congruence|done]. }
  destruct r as [|b r2]; [done|]. simpl in *. destruct (w2 a b) eqn:E2.
  { destruct (H2 _ _ E2). apply IH'; [|lia]. rewrite !orb_true_iff in Hs. naive_solver. }
  destruct r2 as [|d r3]; [done|]. destruct (w3 a b d) eqn:E3; [|done].
  destruct (H3 _ _ _ E3) as (? & ? & ?). apply IH'; [|simpl; lia]. simpl in Hs. rewrite !orb_true_iff in Hs. naive_solver.
Qed.

Lemma has_not_blank s : has s = true -> blank s = false.
Proof.
  intros Hs. unfold blank, trim, trim_start, trim_end.
  assert (forall a b, ws2 a b = true -> a <> c /\ b <> c) as H2.
  { unfold ws2. intros a b Hw. bool_hyps. split; intros ->; [lia|]. apply orb_true_iff in H0 as [?|?]; bool_hyps; lia. }
  assert (forall a b d, ws3 a b d = true -> a <> c /\ b <> c /\ d <> c) as H3.
  { unfold ws3. intros a b d Hw. rewrite !orb_true_iff, !andb_true_iff, !orb_true_iff, !andb_true_iff, !Z.eqb_eq, !Z.leb_le in Hw.
    split_and!; intros ->; lia. }
  match goal with |- str_is_empty ?t = false => assert (has t = true) as Ht end.
  { rewrite has_rev. apply has_trim_start; [intros a b ?%H2; tauto|intros a b d ?%H3; tauto|].
    rewrite has_rev. by apply has_trim_start. }
  by destruct (String.rev _).
Qed.
End solid.

#[export] Hint Resolve str_len_nonneg show_digits show_len_pos : pulse.
