(* ===== verification/F64.v ===== *)
(** * IEEE 754 binary64

    Rust's [f64] as the Standard Library's executable specification of binary
    floating point ([SpecFloat]) at precision 53 and maximal exponent 1024,
    with the conversions, comparisons, rounding and formatting functions the
    sources use. *)

From Stdlib Require Export SpecFloat.
From S2P Require Import Prelude RustStr.

Definition f64 := spec_float.

#[global] Instance f64_eq_dec : EqDecision f64.
Proof. solve_decision. Defined.

Definition f64_prec : Z := 53.
Definition f64_emax : Z := 1024.

(** [z as f64] on an integer: round to nearest, ties to even. *)
Definition f64_of_Z (z : Z) : f64 := binary_normalize f64_prec f64_emax z 0 false.

(** The binary64 nearest to the rational [p / q]. *)
Definition f64_of_ratio (p q : positive) : f64 :=
  let '(m, e, l) := SFdiv_core_binary f64_prec f64_emax (Zpos p) 0 (Zpos q) 0 in
  binary_round_aux f64_prec f64_emax false m e l.

Definition f64_add : f64 -> f64 -> f64 := SFadd f64_prec f64_emax.
Definition f64_sub : f64 -> f64 -> f64 := SFsub f64_prec f64_emax.
Definition f64_mul : f64 -> f64 -> f64 := SFmul f64_prec f64_emax.
Definition f64_div : f64 -> f64 -> f64 := SFdiv f64_prec f64_emax.
Definition f64_ltb : f64 -> f64 -> bool := SFltb.
Definition f64_leb : f64 -> f64 -> bool := SFleb.
Definition f64_eqb : f64 -> f64 -> bool := SFeqb.

Definition f64_zero : f64 := S754_zero false.
Definition f64_one : f64 := f64_of_Z 1.

Definition f64_is_nan (x : f64) : bool :=
  match x with S754_nan => true | _ => false end.

Definition f64_is_finite (x : f64) : bool :=
  match x with S754_nan | S754_infinity _ => false | _ => true end.

(** [f64::max] and [f64::min] ignore a NaN operand. *)
Definition f64_max (x y : f64) : f64 :=
  if f64_is_nan x then y else if f64_is_nan y then x else if f64_ltb x y then y else x.

Definition f64_min (x y : f64) : f64 :=
  if f64_is_nan x then y else if f64_is_nan y then x else if f64_ltb y x then y else x.

(** The integer part of a finite value, rounded down, and whether it was exact. *)
Definition floor_finite (s : bool) (m : positive) (e : Z) : Z * bool :=
  let z := if s then Zneg m else Zpos m in
  if 0 <=? e then (z * 2 ^ e, true)
  else (z / 2 ^ (- e), (z mod 2 ^ (- e) =? 0)).

Definition f64_of_int_signed (s : bool) (z : Z) : f64 :=
  if z =? 0 then S754_zero s else f64_of_Z z.

Definition f64_floor (x : f64) : f64 :=
  match x with
  | S754_finite s m e => f64_of_int_signed s (fst (floor_finite s m e))
  | _ => x
  end.

Definition f64_ceil (x : f64) : f64 :=
  match x with
  | S754_finite s m e =>
      let '(fl, exact) := floor_finite s m e in
      f64_of_int_signed s (if exact then fl else fl + 1)
  | _ => x
  end.

(** [x as u32] and the other casts to an unsigned type with largest value
    [max]: truncation towards zero, saturation at both ends, 0 for NaN. *)
Definition f64_as_uint (max : Z) (x : f64) : Z :=
  match x with
  | S754_finite true _ _ | S754_zero _ | S754_nan | S754_infinity true => 0
  | S754_infinity false => max
  | S754_finite false m e => Z.min max (fst (floor_finite false m e))
  end.

(** [f64::to_bits]. *)
Definition f64_to_bits (x : f64) : Z :=
  let sign (s : bool) := if s then 2 ^ 63 else 0 in
  match x with
  | S754_zero s => sign s
  | S754_infinity s => sign s + 2047 * 2 ^ 52
  | S754_nan => 2047 * 2 ^ 52 + 2 ^ 51
  | S754_finite s m e =>
      sign s + if 2 ^ 52 <=? Zpos m then (e + 1075) * 2 ^ 52 + (Zpos m - 2 ^ 52) else Zpos m
  end.

(** [Duration::as_secs_f64]. *)
Definition as_secs_f64 (d : duration) : f64 :=
  f64_add (f64_of_Z (d / nanos_per_sec))
          (f64_div (f64_of_Z (d mod nanos_per_sec)) (f64_of_Z nanos_per_sec)).

(** ** [{}]: the shortest decimal that reads back as the same value *)

(** [10^k] as a ratio. *)
Definition pow10_ratio (k : Z) : positive * positive :=
  if 0 <=? k then (Z.to_pos (10 ^ k), 1%positive) else (1%positive, Z.to_pos (10 ^ (- k))).

(** The least [k >= lo] with [num / den < 10^k]. *)
Fixpoint decimal_exponent (fuel : nat) (num den : positive) (lo : Z) : Z :=
  match fuel with
  | O => lo
  | S f =>
      let '(p, q) := pow10_ratio lo in
      if (Zpos num * Zpos q <? Zpos p * Zpos den) then lo
      else decimal_exponent f num den (lo + 1)
  end.

Definition reads_back (x : f64) (d q : Z) : bool :=
  if d <=? 0 then false
  else let '(p, r) := pow10_ratio q in
       bool_decide (f64_of_ratio (Z.to_pos d * p) r = x).

(** The shortest digits [d] and exponent [q], [d * 10^q] reading back as [x]. *)
Fixpoint shortest_from (fuel : nat) (n : Z) (x : f64) (num den : positive) (k : Z) : Z * Z :=
  match fuel with
  | O => (0, 0)
  | S f =>
      let q := k - n in
      let '(p, r) := pow10_ratio (- q) in
      let top := Zpos num * Zpos p in
      let bot := Zpos den * Zpos r in
      let lo := top / bot in
      let near_up := (bot <? 2 * (top mod bot)) in
      let fst_c := if near_up then lo + 1 else lo in
      let snd_c := if near_up then lo else lo + 1 in
      if reads_back x fst_c q then (fst_c, q)
      else if reads_back x snd_c q then (snd_c, q)
      else shortest_from f (n + 1) x num den k
  end.

Definition zeros (n : Z) : string := Nat.iter (Z.to_nat n) (String "0") EmptyString.

Definition show_digits_at (d q : Z) : string :=
  let ds := show d in
  let n := str_len ds in
  if 0 <=? q then ds +:+ zeros q
  else if 0 <? n + q
  then String.substring 0 (Z.to_nat (n + q)) ds +:+ "."
       +:+ String.substring (Z.to_nat (n + q)) (Z.to_nat (- q)) ds
  else "0." +:+ zeros (- (n + q)) +:+ ds.

Definition show_f64 (x : f64) : string :=
  match x with
  | S754_nan => "NaN"
  | S754_infinity s => if s then "-inf" else "inf"
  | S754_zero s => if s then "-0" else "0"
  | S754_finite s m e =>
      let num := if 0 <=? e then (m * Z.to_pos (2 ^ e))%positive else m in
      let den := if 0 <=? e then 1%positive else Z.to_pos (2 ^ (- e)) in
      let lo := (Z.log2 (Zpos num) - Z.log2 (Zpos den) - 1) * 30103 / 100000 - 1 in
      let k := decimal_exponent 6 num den lo in
      let '(d, q) := shortest_from 17 1 (S754_finite false m e) num den k in
      (if s then "-" else EmptyString) +:+ show_digits_at d q
  end.

(** ** Conversions from integers *)

Section rounding_lemmas.
Implicit Types (p : positive) (m e : Z).

Lemma digits2_pos_log2 p : Zpos (digits2_pos p) = Z.log2 (Zpos p) + 1.
Proof.
  induction p as [p IH|p IH|]; simpl digits2_pos; [| |done].
  - rewrite Pos2Z.inj_succ, IH. change (Zpos (p~1)) with (2 * Zpos p + 1).
    rewrite Z.log2_succ_double by lia. lia.
  - rewrite Pos2Z.inj_succ, IH. change (Zpos (p~0)) with (2 * Zpos p).
    rewrite Z.log2_double by lia. lia.
Qed.

Lemma Zdigits2_log2 m : 0 < m -> Zdigits2 m = Z.log2 m + 1.
Proof. destruct m; [lia| |lia]. intros _. apply digits2_pos_log2. Qed.

Lemma shr_1_half mrs : 0 <= shr_m mrs -> shr_m (shr_1 mrs) = shr_m mrs / 2.
Proof.
  destruct mrs as [m r s]. simpl. intros. destruct m as [|[p|p|]|p]; simpl; try done; try lia.
  - change (Zpos (p~1)) with (2 * Zpos p + 1). apply Z.div_unique with 1; lia.
  - change (Zpos (p~0)) with (2 * Zpos p). rewrite Z.mul_comm, Z.div_mul; lia.
Qed.

Lemma shr_iter_div k mrs :
  0 <= shr_m mrs -> shr_m (SpecFloat.iter_pos shr_1 k mrs) = shr_m mrs / 2 ^ Zpos k.
Proof.
  assert (forall a b x, 0 <= a -> 0 <= b -> x / 2 ^ a / 2 ^ b = x / 2 ^ (a + b)) as Hdd.
  { intros. rewrite Z.div_div by (try apply Z.pow_pos_nonneg; try apply Z.pow_nonzero; lia).
    by rewrite Z.pow_add_r. }
  assert (forall a x, 0 <= a -> 0 <= x -> 0 <= x / 2 ^ a) as Hpos.
  { intros. apply Z.div_pos; [done|]. apply Z.pow_pos_nonneg; lia. }
  revert mrs. induction k as [k IH|k IH|]; intros mrs Hm; simpl SpecFloat.iter_pos.
  - assert (0 <= shr_m (shr_1 mrs)) by (rewrite shr_1_half by done; apply Z.div_pos; lia).
    rewrite IH, IH, shr_1_half by (rewrite ?IH by done; auto with lia).
    change 2 with (2 ^ 1) at 1. rewrite !Hdd by lia. do 2 f_equal. lia.
  - rewrite IH, IH by (rewrite ?IH by done; auto with lia). rewrite Hdd by lia. do 2 f_equal. lia.
  - by rewrite shr_1_half.
Qed.

(** Right shifts done by [shr_fexp] on a positive mantissa. *)
Lemma shr_fexp_spec m e l :
  0 < m ->
  let n := Z.max 0 (fexp f64_prec f64_emax (Zdigits2 m + e) - e) in
  shr_m (fst (shr_fexp f64_prec f64_emax m e l)) = m / 2 ^ n
  /\ snd (shr_fexp f64_prec f64_emax m e l) = e + n.
Proof.
  intros Hm n. unfold shr_fexp, shr.
  assert (shr_m (shr_record_of_loc m l) = m) as Hr by (by destruct l as [|[]]).
  subst n. destruct (_ - e) as [|k|k] eqn:E; simpl.
  - rewrite Hr, Z.div_1_r. lia.
  - rewrite shr_iter_div, Hr by lia. split; [done|lia].
  - rewrite Hr, Z.div_1_r. lia.
Qed.

Lemma shl_align_down p d : d <= 0 -> shl_align p 0 d = (Z.to_pos (Zpos p * 2 ^ (- d)), d).
Proof.
  intros Hd. unfold shl_align. rewrite Z.sub_0_r. destruct d as [|k|k]; [|lia|].
  - simpl. do 2 f_equal. lia.
  - f_equal. apply Pos2Z.inj. rewrite Z2Pos.id by (simpl; lia).
    change (- Zneg k) with (Zpos k).
    clear. induction k using Pos.peano_ind.
    + simpl. lia.
    + rewrite Pos.iter_succ, Pos2Z.inj_succ, Z.pow_succ_r by lia.
      change (Zpos (Pos.iter xO p k)~0) with (2 * Zpos (Pos.iter xO p k)). lia.
Qed.
End rounding_lemmas.

Section of_integer.
#[local] Arguments Z.log2 : simpl never.
Implicit Types (p : positive) (m e : Z).

Lemma fexp_integer d : -1000 <= d -> fexp f64_prec f64_emax d = d - 53.
Proof. unfold fexp, SpecFloat.emin, f64_prec, f64_emax. lia. Qed.

Lemma log2_bounds m : 0 < m -> 2 ^ Z.log2 m <= m < 2 * 2 ^ Z.log2 m.
Proof.
  intros. pose proof (Z.log2_spec m ltac:(done)) as Hl.
  rewrite Z.pow_succ_r in Hl by apply Z.log2_nonneg. lia.
Qed.

Lemma log2_mul_pow2 m k : 0 < m -> 0 <= k -> Z.log2 (m * 2 ^ k) = Z.log2 m + k.
Proof. intros. rewrite Z.log2_mul_pow2 by done. lia. Qed.

(** A mantissa of exactly 53 bits at an exponent in range is left alone. *)
Lemma round_aux_exact s m e :
  2 ^ 52 <= m < 2 ^ 53 -> -1000 <= e <= 971 ->
  binary_round_aux f64_prec f64_emax s m e loc_Exact = S754_finite s (Z.to_pos m) e.
Proof.
  intros Hm He.
  assert (Z.log2 m = 52) as Hlog by (apply Z.log2_unique; lia).
  assert (shr_fexp f64_prec f64_emax m e loc_Exact = (shr_record_of_loc m loc_Exact, e)) as Hs.
  { unfold shr_fexp. rewrite Zdigits2_log2, Hlog, fexp_integer by lia.
    replace (52 + 1 + e - 53 - e) with 0 by lia. done. }
  unfold binary_round_aux. rewrite Hs. simpl. rewrite Hs. simpl.
  destruct m as [|p|p]; [lia| |lia]. simpl.
  destruct (Z.leb_spec e (f64_emax - f64_prec)) as [|Hgt]; [done|].
  unfold f64_emax, f64_prec in Hgt. lia.
Qed.

(** Integers below 2^53 are exact. *)
Lemma f64_of_Z_small p :
  Zpos p < 2 ^ 53 ->
  let k := 52 - Z.log2 (Zpos p) in
  f64_of_Z (Zpos p) = S754_finite false (Z.to_pos (Zpos p * 2 ^ k)) (- k).
Proof.
  intros Hp k. pose proof (log2_bounds (Zpos p) ltac:(lia)) as [Hlo Hhi].
  assert (Z.log2 (Zpos p) <= 52).
  { apply Z.lt_succ_r. apply (Z.log2_lt_pow2 (Zpos p) 53); lia. }
  pose proof (Z.log2_nonneg (Zpos p)).
  unfold f64_of_Z, binary_normalize, binary_round.
  rewrite digits2_pos_log2, fexp_integer by lia.
  rewrite shl_align_down by lia.
  replace (- (Z.log2 (Zpos p) + 1 + 0 - 53)) with k by lia.
  assert (0 < 2 ^ k) by (apply Z.pow_pos_nonneg; lia).
  assert (2 ^ 52 = 2 ^ Z.log2 (Zpos p) * 2 ^ k) as H52
    by (rewrite <- Z.pow_add_r by lia; f_equal; lia).
  rewrite Z2Pos.id by lia. rewrite round_aux_exact by nia. f_equal. lia.
Qed.

(** Rounding an integer of more than 53 bits keeps it at least 1. *)
Lemma f64_of_Z_large p :
  2 ^ 53 <= Zpos p ->
  f64_of_Z (Zpos p) = S754_infinity false
  \/ exists (m : positive) e, f64_of_Z (Zpos p) = S754_finite false m e /\ 0 <= e.
Proof.
  intros Hp. assert (53 <= Z.log2 (Zpos p)) by (apply Z.log2_le_pow2; lia).
  unfold f64_of_Z, binary_normalize, binary_round.
  rewrite digits2_pos_log2, fexp_integer by lia.
  unfold shl_align. destruct (_ - 0) as [|q|q] eqn:E; [lia| |lia].
  unfold binary_round_aux.
  pose proof (shr_fexp_spec (Zpos p) 0 loc_Exact ltac:(lia)) as [Hm He]. simpl in Hm, He.
  destruct (shr_fexp f64_prec f64_emax (Zpos p) 0 loc_Exact) as [mrs e'] eqn:Es. simpl in *.
  assert (0 < shr_m mrs) as Hmpos.
  { rewrite Hm. apply Z.div_str_pos. split; [apply Z.pow_pos_nonneg; lia|].
    rewrite digits2_pos_log2, fexp_integer by lia.
    etrans; [|apply (log2_bounds (Zpos p)); lia]. apply Z.pow_le_mono_r; lia. }
  set (m2 := round_nearest_even (shr_m mrs) (loc_of_shr_record mrs)).
  assert (0 < m2) as Hm2.
  { subst m2. destruct mrs as [? [] []]; simpl in *; try lia. destruct (Z.even _); lia. }
  pose proof (shr_fexp_spec m2 e' loc_Exact Hm2) as [_ He2].
  destruct (shr_fexp f64_prec f64_emax m2 e' loc_Exact) as [mrs2 e2] eqn:Es2. simpl in *.
  assert (shr_m mrs2 = m2 / 2 ^ Z.max 0 (fexp f64_prec f64_emax (Zdigits2 m2 + e') - e')) as Hm3.
  { pose proof (shr_fexp_spec m2 e' loc_Exact Hm2) as [Hx _]. by rewrite Es2 in Hx. }
  assert (0 < shr_m mrs2) as Hpos2.
  { rewrite Hm3. apply Z.div_str_pos. split; [apply Z.pow_pos_nonneg; lia|].
    rewrite Zdigits2_log2 by done. pose proof (Z.log2_nonneg m2).
    rewrite fexp_integer by lia. etrans; [|apply (log2_bounds m2 Hm2)].
    apply Z.pow_le_mono_r; lia. }
  destruct (shr_m mrs2) as [|m3|m3]; [lia| |lia].
  destruct (_ <=? _); [right|by left]. eexists _, _. split; [done|]. lia.
Qed.

Lemma f64_as_uint_of_Z_pos max z : 1 <= max -> 1 <= z -> 1 <= f64_as_uint max (f64_of_Z z).
Proof.
  intros Hmax Hz. destruct z as [|p|p]; [lia| |lia].
  destruct (Z.lt_ge_cases (Zpos p) (2 ^ 53)) as [Hlt|Hge].
  - rewrite f64_of_Z_small by done. set (k := 52 - _).
    assert (0 <= k). { apply Z.le_0_sub, Z.lt_succ_r, (Z.log2_lt_pow2 (Zpos p) 53); lia. }
    assert (0 < 2 ^ k) by (apply Z.pow_pos_nonneg; lia).
    simpl. unfold floor_finite. rewrite Z2Pos.id by lia.
    destruct (Z.leb_spec 0 (- k)); simpl.
    + replace (- k) with 0 by lia. lia.
    + rewrite Z.opp_involutive, Z.div_mul by lia. lia.
  - destruct (f64_of_Z_large p Hge) as [->|(m & e & -> & He)]; simpl; [lia|].
    unfold floor_finite. apply Z.leb_le in He as He'. rewrite He'. simpl.
    assert (0 < 2 ^ e) by (apply Z.pow_pos_nonneg; lia). nia.
Qed.

Lemma f64_of_Z_neg_ltb z x :
  z < 0 -> f64_is_nan (f64_of_Z z) = true \/ f64_ltb (f64_of_Z z) (S754_finite false x.1 x.2) = true.
Proof.
  intros Hz. destruct z as [|p|p]; [lia|lia|].
  unfold f64_of_Z, binary_normalize, binary_round. destruct (shl_align _ _ _) as [mz ez].
  unfold binary_round_aux. destruct (shr_fexp _ _ _ _ _) as [mrs e'].
  destruct (shr_fexp _ _ (round_nearest_even _ _) _ _) as [mrs2 e2].
  destruct (shr_m mrs2); [by right| |by left]. by destruct (_ <=? _); right.
Qed.
End of_integer.

(** ** Division by one *)

Section division_by_one.
Notation fexp := (SpecFloat.fexp f64_prec f64_emax).

Lemma shr_fexp_fixed m e : fexp (Zdigits2 m + e) = e -> shr_fexp f64_prec f64_emax m e loc_Exact = (Build_shr_record m false false, e).
Proof. intros Hf. unfold shr_fexp. by rewrite Hf, Z.sub_diag. Qed.

Lemma shr_fexp_even m e : fexp (Zpos (digits2_pos m) + e) = e ->
  shr_fexp f64_prec f64_emax (Zpos (xO m)) (e - 1) loc_Exact = (Build_shr_record (Zpos m) false false, e).
Proof.
  intros Hf. unfold shr_fexp. cbn [Zdigits2 digits2_pos].
  replace (Z.pos (Pos.succ (digits2_pos m)) + (e - 1)) with (Z.pos (digits2_pos m) + e) by lia.
  rewrite Hf. replace (e - (e - 1)) with 1 by lia. cbn. f_equal. lia.
Qed.

Lemma round_canonical s m e q e' :
  SpecFloat.bounded f64_prec f64_emax m e = true ->
  shr_fexp f64_prec f64_emax q e' loc_Exact = (Build_shr_record (Zpos m) false false, e) ->
  binary_round_aux f64_prec f64_emax s q e' loc_Exact = S754_finite s m e.
Proof.
  unfold bounded, canonical_mantissa. rewrite andb_true_iff, Z.eqb_eq. intros [Hc He] Hs.
  unfold binary_round_aux. rewrite Hs. cbn [shr_m loc_of_shr_record round_nearest_even].
  rewrite shr_fexp_fixed by done. cbn [shr_m]. by rewrite He.
Qed.

Lemma f64_div_one x : SpecFloat.valid_binary f64_prec f64_emax x = true -> f64_div x f64_one = x.
Proof.
  intros Hv. destruct x as [s|s| |s m e]; try (by destruct s); [done|].
  change f64_one with (S754_finite false 4503599627370496 (-52)).
  unfold f64_div, SFdiv, SFdiv_core_binary. rewrite xorb_false_r. change (Zdigits2 4503599627370496) with 53. cbn [Zdigits2].
  pose proof Hv as Hb. unfold valid_binary, bounded, canonical_mantissa in Hb. apply andb_true_iff in Hb as [Hc _].
  apply Z.eqb_eq in Hc. pose proof Hc as Hc'. unfold SpecFloat.fexp, emin, f64_prec, f64_emax in Hc'.
  set (d := Z.pos (digits2_pos m)) in *. assert (0 < d) by (unfold d; lia).
  set (e' := Z.min _ _).
  assert (e' = e /\ d < 53 \/ e' = e /\ d = 53 \/ e' = e - 1) as He' by (unfold e', SpecFloat.fexp, emin, f64_prec, f64_emax; lia).
  assert (Z.div_eucl (Z.shiftl (Z.pos m) (e - -52 - e')) 4503599627370496 = (Z.shiftl (Z.pos m) (e - e'), 0)) as Hq.
  { assert (0 <= e - e') by lia. rewrite !Z.shiftl_mul_pow2 by lia. replace (e - -52 - e') with (e - e' + 52) by lia.
    rewrite Z.pow_add_r by lia. change (2 ^ 52) with 4503599627370496.
    pose proof (Z_div_mod (Z.pos m * (2 ^ (e - e') * 4503599627370496)) 4503599627370496 ltac:(lia)) as Hd.
    destruct (Z.div_eucl _ _) as [q r]. destruct Hd as [Hd Hr]. f_equal; nia. }
  destruct (e - -52 - e') as [|p|p] eqn:Es; [lia| |lia]. rewrite Hq.
  change (new_location 4503599627370496 0) with loc_Exact. apply round_canonical; [done|].
  destruct He' as [[-> _]|[[-> _]|E]]; [rewrite Z.sub_diag; by apply shr_fexp_fixed..|].
  rewrite E. replace (e - (e - 1)) with 1 by lia. by apply shr_fexp_even.
Qed.
End division_by_one.
