(* ===== verification/F64Round.v ===== *)
(** * Rounding of binary64

    The quotient of two binary64 numbers is the binary64 nearest to the exact
    quotient. Values are counted in units of [2 ^ -1074], the smallest positive
    binary64, of which every binary64 is a whole number. *)

From S2P Require Import Prelude RustStr F64.

Definition f64_units (x : f64) : Z :=
  match x with S754_finite s m e => cond_Zopp s (Zpos m) * 2 ^ (e + 1074) | _ => 0 end.

#[local] Arguments Z.log2 : simpl never.
#[local] Notation fexp := (SpecFloat.fexp f64_prec f64_emax).
#[local] Notation shr_fexp := (SpecFloat.shr_fexp f64_prec f64_emax).
#[local] Notation round_aux := (binary_round_aux f64_prec f64_emax).

Lemma fexp_max d : fexp d = Z.max (d - 53) (-1074).
Proof. done. Qed.

Lemma pow2_pos k : 0 <= k -> 0 < 2 ^ k.
Proof. intros. apply Z.pow_pos_nonneg; lia. Qed.

(** ** Shifts *)

(** A mantissa with its round and sticky bits stands for [a / b]. *)
Definition located (mrs : shr_record) (a b : Z) : Prop :=
  let half := 2 * shr_m mrs + (if shr_r mrs then 1 else 0) in
  if shr_s mrs then half * b < 2 * a < (half + 1) * b else 2 * a = half * b.

Lemma located_shr_1 mrs a b : 0 < b -> 0 <= shr_m mrs -> located mrs a b -> located (shr_1 mrs) a (2 * b).
Proof.
  destruct mrs as [m r s]. unfold located. simpl. intros Hb Hm Hl.
  destruct m as [|[p|p|]|p]; [| | | |lia]; destruct r, s; cbn [orb] in *; simpl in *; nia.
Qed.

Lemma shr_1_nonneg mrs : 0 <= shr_m mrs -> 0 <= shr_m (shr_1 mrs).
Proof. intros Hm. rewrite shr_1_half by done. apply Z.div_pos; lia. Qed.

Lemma located_shift k mrs a b :
  0 < b -> 0 <= shr_m mrs -> located mrs a b ->
  located (SpecFloat.iter_pos shr_1 k mrs) a (2 ^ Zpos k * b) /\ 0 <= shr_m (SpecFloat.iter_pos shr_1 k mrs).
Proof.
  revert mrs b. induction k as [k IH|k IH|]; intros mrs b Hb Hm Hl; simpl SpecFloat.iter_pos.
  - pose proof (pow2_pos (Zpos k) ltac:(lia)).
    destruct (IH (shr_1 mrs) (2 * b)) as [H1 H1']; [lia|by apply shr_1_nonneg|by apply located_shr_1|].
    destruct (IH _ (2 ^ Zpos k * (2 * b)) ltac:(nia) H1' H1) as [H2 H2']. split; [|done].
    replace (2 ^ Zpos k~1 * b) with (2 ^ Zpos k * (2 ^ Zpos k * (2 * b))); [done|].
    replace (Zpos k~1) with (Zpos k + Zpos k + 1) by lia. rewrite !Z.pow_add_r by lia. change (2 ^ 1) with 2. ring.
  - pose proof (pow2_pos (Zpos k) ltac:(lia)).
    destruct (IH mrs b Hb Hm Hl) as [H1 H1']. destruct (IH _ (2 ^ Zpos k * b) ltac:(nia) H1' H1) as [H2 H2']. split; [|done].
    replace (2 ^ Zpos k~0 * b) with (2 ^ Zpos k * (2 ^ Zpos k * b)); [done|].
    replace (Zpos k~0) with (Zpos k + Zpos k) by lia. rewrite !Z.pow_add_r by lia. ring.
  - split; [|by apply shr_1_nonneg]. by apply located_shr_1.
Qed.

(** The nearest integer. *)
Lemma located_nearest mrs a b :
  0 < b -> located mrs a b ->
  let c := round_nearest_even (shr_m mrs) (loc_of_shr_record mrs) in
  - b <= 2 * a - 2 * (c * b) <= b /\ shr_m mrs <= c <= shr_m mrs + 1.
Proof.
  destruct mrs as [m r s]. unfold located. simpl. intros Hb Hl.
  destruct r, s; cbn [loc_of_shr_record round_nearest_even]; try destruct (Z.even m); nia.
Qed.

Lemma located_floor mrs a b : 0 < b -> located mrs a b -> shr_m mrs * b <= a.
Proof. destruct mrs as [m r s]. unfold located. simpl. intros Hb Hl. destruct r, s; nia. Qed.

Lemma located_quotient a b q r :
  0 < b -> a = b * q + r -> 0 <= r < b -> located (shr_record_of_loc q (new_location b r)) a b.
Proof.
  intros Hb -> Hr. unfold new_location, new_location_even, new_location_odd, located.
  destruct (Z.even b) eqn:Ev; destruct (Z.eqb_spec r 0) as [->|Hne]; simpl; [lia| |lia|].
  - destruct (Z.compare_spec (2 * r) b); simpl; nia.
  - destruct (Z.compare_spec (2 * r + 1) b); simpl; try nia.
    rewrite <- Z.negb_odd in Ev. apply negb_false_iff, Z.odd_spec in Ev as [h Hh]. nia.
Qed.

(** ** Rounding a quotient *)

(** The exponent after rounding, and how far the exact value was shifted. *)
Definition shift_of (m e : Z) : Z := Z.max 0 (fexp (Zdigits2 m + e) - e).

Lemma shr_fexp_located m e l a b :
  0 < b -> 0 <= m -> located (shr_record_of_loc m l) a b ->
  let k := shift_of m e in
  (shr_fexp m e l).2 = e + k /\ located (shr_fexp m e l).1 a (2 ^ k * b) /\ shr_m (shr_fexp m e l).1 = m / 2 ^ k.
Proof.
  intros Hb Hm Hl. assert (shr_m (shr_record_of_loc m l) = m) as Hr by (by destruct l as [|[]]).
  unfold SpecFloat.shr_fexp, shr, shift_of. cbv zeta. destruct (_ - e) as [|k|k] eqn:E.
  - rewrite Z.max_id. cbn [fst snd]. change (2 ^ 0) with 1. rewrite Hr, Z.div_1_r, Z.mul_1_l. split_and!; [lia|done|done].
  - rewrite Z.max_r by lia. cbn [fst snd]. rewrite shr_iter_div, Hr by lia. split_and!; [done|by apply located_shift; rewrite ?Hr|done].
  - rewrite Z.max_l by lia. cbn [fst snd]. change (2 ^ 0) with 1. rewrite Hr, Z.div_1_r, Z.mul_1_l. split_and!; [lia|done|done].
Qed.

(** A mantissa that is rounded again is not changed, but for a carry to the next
    power of two. *)
Lemma shr_fexp_again c e : 0 <= c <= 2 ^ 53 -> -1074 <= e ->
  let r := shr_fexp c e loc_Exact in
  shr_m r.1 * 2 ^ (r.2 + 1074) = c * 2 ^ (e + 1074) /\ e <= r.2 <= e + 1 /\ 0 <= shr_m r.1 /\ (r.2 = e + 1 -> c = 2 ^ 53).
Proof.
  intros Hc He. cbv zeta.
  destruct (shr_fexp_located c e loc_Exact c 1 ltac:(lia) ltac:(lia)) as (He' & _ & Hm); [unfold located; simpl; lia|].
  rewrite He', Hm. clear He' Hm. unfold shift_of. rewrite fexp_max.
  destruct (decide (c = 2 ^ 53)) as [->|Hne].
  - change (Zdigits2 (2 ^ 53)) with 54. replace (Z.max 0 _) with 1 by lia. change (2 ^ 53 / 2 ^ 1) with (2 ^ 52).
    replace (e + 1 + 1074) with (1 + (e + 1074)) by lia. rewrite (Z.pow_add_r 2 1) by lia. change (2 ^ 53) with (2 ^ 52 * 2). lia.
  - assert (Zdigits2 c <= 53) as Hd.
    { destruct (Z.eq_dec c 0) as [->|Hz]; [done|]. rewrite Zdigits2_log2 by lia.
      assert (Z.log2 c < 53) by (apply Z.log2_lt_pow2; lia). lia. }
    replace (Z.max 0 _) with 0 by lia. rewrite Z.add_0_r. change (2 ^ 0) with 1. rewrite Z.div_1_r. lia.
Qed.

(** The shift leaves 53 bits, unless it is to the least exponent. *)
Lemma shifted_bits m e : 0 <= m -> 2 ^ 52 <= m \/ e = -1074 -> -1074 <= e ->
  m / 2 ^ shift_of m e < 2 ^ 53 /\ (2 ^ 52 <= m / 2 ^ shift_of m e \/ e + shift_of m e = -1074).
Proof.
  intros Hm Hnorm He. unfold shift_of. rewrite fexp_max. destruct (Z.eq_dec m 0) as [->|Hz].
  { rewrite Z.div_0_l by (apply Z.pow_nonzero; lia). change (Zdigits2 0) with 0. lia. }
  rewrite Zdigits2_log2 by lia. pose proof (log2_bounds m ltac:(lia)) as [Hlo Hhi]. pose proof (Z.log2_nonneg m).
  assert (2 ^ 52 <= m -> 52 <= Z.log2 m) as H52 by (intros; apply Z.log2_le_pow2; lia).
  set (j := Z.max 0 _). assert (Z.log2 m - 52 <= j /\ 0 <= j) as [Hj Hj0] by lia. pose proof (pow2_pos j Hj0). split.
  - apply Z.div_lt_upper_bound; [done|]. rewrite <- Z.pow_add_r by lia. eapply Z.lt_le_trans; [exact Hhi|].
    rewrite <- Z.pow_succ_r by lia. apply Z.pow_le_mono_r; lia.
  - destruct (decide (e + j = -1074)); [by right|]. left. apply Z.div_le_lower_bound; [done|].
    rewrite Z.mul_comm, <- Z.pow_add_r by lia. etransitivity; [|exact Hlo]. apply Z.pow_le_mono_r; lia.
Qed.

(** What is rounded has 53 significant bits, or is at the least exponent. The
    result is within half a unit in its last place, which is at most [2 ^ -53] of
    it, or half the least binary64. *)
Lemma round_aux_nearest m e l a b :
  0 < b -> 0 <= m -> located (shr_record_of_loc m l) a b -> 2 ^ 52 <= m \/ e = -1074 -> -1074 <= e ->
  a * 2 ^ (e + 1074) <= b * ((2 ^ 53 - 1) * 2 ^ 2045) ->
  let x := round_aux false m e l in
  f64_is_finite x = true
  /\ 2 ^ 53 * Z.abs (b * f64_units x - a * 2 ^ (e + 1074)) <= b * Z.max (f64_units x) (2 ^ 52).
Proof.
  intros Hb Hm Hl Hnorm He Hsmall. cbv zeta. unfold binary_round_aux.
  destruct (shr_fexp_located m e l a b Hb Hm Hl) as (He1 & Hl1 & Hm1). set (k := shift_of m e) in *.
  assert (0 <= k) by (unfold k, shift_of; lia). pose proof (pow2_pos k ltac:(done)) as Hk.
  destruct (shr_fexp m e l) as [mrs e1]. cbn [fst snd] in *. subst e1.
  pose proof (located_nearest mrs a (2 ^ k * b) ltac:(nia) Hl1) as [Hnear Hc]. cbv zeta in Hnear, Hc.
  set (c := round_nearest_even _ _) in *. rewrite Hm1 in Hc.
  assert (0 <= m / 2 ^ k) by (apply Z.div_pos; lia).
  assert (m / 2 ^ k < 2 ^ 53 /\ (2 ^ 52 <= m / 2 ^ k \/ e + k = -1074)) as [Hlt Hbig]. by (by apply shifted_bits).
  destruct (shr_fexp_again c (e + k)) as (Hval & He2 & Hpos & Hcarry); [lia|lia|].
  destruct (shr_fexp c (e + k) loc_Exact) as [mrs2 e2]. cbn [fst snd] in *.
  set (u := 2 ^ (e + k + 1074)) in *. assert (0 < u) as Hu by (apply pow2_pos; lia).
  assert (2 ^ (e + 1074) * 2 ^ k = u) as Hs by (unfold u; rewrite <- Z.pow_add_r by lia; f_equal; lia).
  pose proof (pow2_pos (e + 1074) ltac:(lia)) as Hpe. set (pe := 2 ^ (e + 1074)) in *.
  assert (2 ^ k * b * pe = b * u) as Hbu by (rewrite <- Hs; ring). assert (0 < b * u) by (by apply Z.mul_pos_pos).
  pose proof (located_floor mrs a (2 ^ k * b) ltac:(by apply Z.mul_pos_pos) Hl1) as Hfl. rewrite Hm1 in Hfl.
  apply (Z.mul_le_mono_nonneg_r _ _ pe) in Hfl; [|lia]. rewrite <- Z.mul_assoc, Hbu in Hfl.
  assert (- (b * u) <= 2 * (a * pe) - 2 * (c * (b * u)) <= b * u) as Hnear'.
  { rewrite <- Hbu. destruct Hnear as [Hn1 Hn2]. apply (Z.mul_le_mono_nonneg_r _ _ pe) in Hn1, Hn2; lia. }
  clear Hnear. assert (e2 <= 971) as Hexp.
  { apply Z.nlt_ge. intros Hover. assert (forall n, n <= e + k + 1074 -> b * 2 ^ n <= b * u) as Hpow.
    { intros n Hn. apply Z.mul_le_mono_nonneg_l; [lia|]. apply Z.pow_le_mono_r; lia. }
    destruct (decide (e2 = e + k + 1)) as [E|E].
    - specialize (Hpow 2045 ltac:(lia)). rewrite (Hcarry E) in Hnear'. lia.
    - specialize (Hpow 2046 ltac:(lia)). assert (2 ^ 52 <= m / 2 ^ k) as H52 by lia.
      apply (Z.mul_le_mono_nonneg_r _ _ (b * u)) in H52; [|lia]. lia. }
  assert (2 ^ 53 * Z.abs (b * (c * u) - a * pe) <= b * Z.max (c * u) (2 ^ 52)) as Hbound.
  { assert (2 * Z.abs (b * (c * u) - a * pe) <= b * u) as Habs by lia.
    assert (b * (u * 2 ^ 52) <= b * Z.max (c * u) (2 ^ 52)); [|lia]. apply Z.mul_le_mono_nonneg_l; [lia|].
    destruct Hbig as [Hbig|Hbig]; [|unfold u; rewrite Hbig; change (2 ^ (-1074 + 1074)) with 1; lia].
    transitivity (c * u); [|lia]. rewrite Z.mul_comm. apply Z.mul_le_mono_nonneg_r; lia. }
  rewrite <- Hval in Hbound. destruct (shr_m mrs2) as [|m2|m2]; [by split| |lia].
  rewrite (proj2 (Z.leb_le e2 (f64_emax - f64_prec))) by (unfold f64_emax, f64_prec; lia). by split.
Qed.

(** ** Division by an integer *)

(** The quotient as the division makes it before rounding: enough bits of it. *)
Lemma quotient_bits m1 m2 e :
  2 ^ 52 <= m2 < 2 ^ 53 -> 0 < m1 < 2 ^ 53 -> -1074 <= e ->
  let e' := Z.min (fexp (Zdigits2 m1 + e - 53)) e in
  -1074 <= e' <= e /\ (2 ^ 52 <= m1 * 2 ^ (e - e') / m2 \/ e' = -1074).
Proof.
  intros Hm2 Hm1 He. cbv zeta. rewrite fexp_max, Zdigits2_log2 by lia.
  pose proof (log2_bounds m1 ltac:(lia)) as [Hlo _]. pose proof (Z.log2_nonneg m1).
  assert (Z.log2 m1 <= 52) by (apply Z.lt_succ_r, Z.log2_lt_pow2; lia).
  set (e' := Z.min _ _). split; [lia|]. destruct (decide (e' = -1074)); [by right|left].
  assert (e - e' = 105 - Z.log2 m1) as -> by lia. apply Z.div_le_lower_bound; [lia|].
  assert (2 ^ 105 <= m1 * 2 ^ (105 - Z.log2 m1)) as Hp.
  { replace 105 with (Z.log2 m1 + (105 - Z.log2 m1)) at 1 by lia. rewrite Z.pow_add_r by lia.
    apply Z.mul_le_mono_nonneg_r; [|done]. apply Z.pow_nonneg; lia. }
  etransitivity; [|exact Hp]. change (2 ^ 105) with (2 ^ 53 * 2 ^ 52). apply Z.mul_le_mono_nonneg_r; lia.
Qed.

(** An integer of at most 53 bits, with exactly 53 of them. *)
Lemma f64_of_Z_bits n : 1 <= n < 2 ^ 53 ->
  exists k, 0 <= k <= 52 /\ 2 ^ 52 <= n * 2 ^ k < 2 ^ 53 /\ Zdigits2 (n * 2 ^ k) = 53
    /\ f64_of_Z n = S754_finite false (Z.to_pos (n * 2 ^ k)) (- k).
Proof.
  intros Hn. destruct n as [|p|p]; [lia| |lia]. exists (52 - Z.log2 (Zpos p)).
  assert (0 <= Z.log2 (Zpos p) <= 52) by (split; [apply Z.log2_nonneg|apply Z.lt_succ_r, Z.log2_lt_pow2; lia]).
  set (k := 52 - _). pose proof (pow2_pos k ltac:(lia)) as Hk. pose proof (log2_bounds (Zpos p) ltac:(lia)) as [Hlo Hhi].
  assert (2 ^ 52 <= Zpos p * 2 ^ k < 2 ^ 53) as Hm2.
  { assert (2 ^ 52 = 2 ^ Z.log2 (Zpos p) * 2 ^ k) as E by (rewrite <- Z.pow_add_r by lia; f_equal; lia).
    change (2 ^ 53) with (2 * 2 ^ 52). rewrite E. nia. }
  split_and!; try lia; [|by apply f64_of_Z_small; lia].
  rewrite Zdigits2_log2 by lia. assert (Z.log2 (Zpos p * 2 ^ k) = 52) as ->; [apply Z.log2_unique; lia|done].
Qed.

Lemma shiftl_or_not m s : 0 <= s -> (match s with Z0 => m | Zpos _ => Z.shiftl m s | Zneg _ => 0 end) = m * 2 ^ s.
Proof. intros Hs. destruct s as [|s|s]; [simpl; lia|by rewrite Z.shiftl_mul_pow2 by lia|lia]. Qed.

(** A positive number divided by a positive integer: the quotient, taken as often
    as the integer says, is the number again, but for a part in [2 ^ 53], or half
    the least binary64 each time. *)
Lemma f64_div_nearest m e n :
  SpecFloat.bounded f64_prec f64_emax m e = true -> 1 <= n < 2 ^ 53 ->
  let x := S754_finite false m e in let y := f64_div x (f64_of_Z n) in
  f64_is_finite y = true
  /\ 2 ^ 53 * Z.abs (n * f64_units y - f64_units x) <= n * Z.max (f64_units y) (2 ^ 52).
Proof.
  intros Hv Hn. cbv zeta. unfold bounded, canonical_mantissa in Hv. apply andb_true_iff in Hv as [Hc He].
  apply Z.eqb_eq in Hc. apply Z.leb_le in He. unfold f64_emax, f64_prec in He. rewrite fexp_max in Hc.
  assert (0 < Zpos m < 2 ^ 53) as Hm.
  { split; [lia|]. rewrite digits2_pos_log2 in Hc. apply Z.log2_lt_pow2; lia. }
  destruct (f64_of_Z_bits n Hn) as (k & Hk52 & Hm2 & Hd2 & ->). pose proof (pow2_pos k ltac:(lia)) as Hk.
  unfold f64_div, SFdiv, SFdiv_core_binary. rewrite Z2Pos.id by lia. cbn [xorb].
  rewrite Hd2. replace (Zdigits2 (Zpos m) + e - (53 + - k)) with (Zdigits2 (Zpos m) + (e + k) - 53) by lia.
  replace (e - - k) with (e + k) by lia.
  destruct (quotient_bits (Zpos m) (n * 2 ^ k) (e + k) Hm2 Hm ltac:(lia)) as [He' Hbits]. cbv zeta in He', Hbits.
  set (e' := Z.min _ _) in *. set (m2 := n * 2 ^ k) in *. rewrite shiftl_or_not by lia.
  set (a := Zpos m * 2 ^ (e + k - e')) in *.
  pose proof (Z_div_mod a m2 ltac:(lia)) as Hdiv. rewrite (surjective_pairing (Z.div_eucl a m2)).
  change (Z.div_eucl a m2).1 with (a / m2). change (Z.div_eucl a m2).2 with (a mod m2).
  assert (a * 2 ^ (e' + 1074) = Zpos m * 2 ^ (e + 1074) * 2 ^ k) as Ha.
  { unfold a. rewrite <- !Z.mul_assoc, <- !Z.pow_add_r by lia. do 2 f_equal. lia. }
  destruct (round_aux_nearest (a / m2) e' (new_location m2 (a mod m2)) a m2) as [Hfin Hbound].
  - lia.
  - apply Z.div_pos; [|lia]. apply Z.mul_nonneg_nonneg; [lia|]. apply Z.pow_nonneg; lia.
  - apply located_quotient; [lia|apply Z.div_mod; lia|apply Z.mod_pos_bound; lia].
  - exact Hbits.
  - lia.
  - rewrite Ha. unfold m2. assert (Zpos m * 2 ^ (e + 1074) <= (2 ^ 53 - 1) * 2 ^ 2045) as Hmax.
    { apply Z.mul_le_mono_nonneg; [lia|lia|apply Z.pow_nonneg; lia|apply Z.pow_le_mono_r; lia]. }
    pose proof (pow2_pos 2045 ltac:(lia)) as HP. set (P := 2 ^ 2045) in *. nia.
  - split; [exact Hfin|]. cbv zeta in Hbound. set (y := round_aux false _ _ _) in *. cbn [f64_units cond_Zopp].
    rewrite Ha in Hbound. unfold m2 in Hbound. set (ux := Zpos m * 2 ^ (e + 1074)) in *.
    replace (n * 2 ^ k * f64_units y - ux * 2 ^ k) with ((n * f64_units y - ux) * 2 ^ k) in Hbound by ring.
    rewrite Z.abs_mul, (Z.abs_eq (2 ^ k)) in Hbound by lia. apply (Z.mul_le_mono_pos_r _ _ (2 ^ k)); [done|].
    etransitivity; [|etransitivity; [exact Hbound|]]; apply Z.eq_le_incl; ring.
Qed.
