(* ===== verification/Contracts.v ===== *)
(** * Message contracts

    The jobs, results and dead letters that cross Kafka, and the validation
    each record passes before it is published or used:
    [src/src/domain/contracts.rs] and the error types of
    [src/src/domain/error.rs]. *)

From S2P Require Import Prelude RustStr F64.

Definition CURRENT_CONTRACT_VERSION : Z := 2.
Definition MIN_SUPPORTED_CONTRACT_VERSION : Z := 1.
Definition MAX_CONTRACT_ID_BYTES : Z := 1024.
Definition MAX_CONTRACT_SLICES : Z := 4096.
Definition MAX_CONTRACT_ATTEMPT : Z := 32.
Definition MAX_CONTRACT_ERROR_KINDS : Z := 64.
Definition MAX_CONTRACT_ERROR_KIND_BYTES : Z := 256.
Definition MAX_CONTRACT_HISTOGRAM_BUCKETS : Z := 128.
Definition MAX_CONTRACT_EXACT_INTEGER : Z := 9007199254740991.
Definition MAX_POISON_EVIDENCE_FIELD_BYTES : Z := 256 * 1024.

Definition LATENCY_BUCKET_BOUNDS_MS : list Z :=
  [1; 2; 5; 10; 25; 50; 100; 250; 500; 1000; 2500; 5000; 10000; 30000; 60000; 120000].

(** ** Errors *)

Inductive ContractError : Type :=
| UnsupportedVersion (found min_supported max_supported : Z)
| FutureVersion (found max_supported : Z)
| MissingField (field : string)
| InvalidLoad (message : string)
| InvalidSlice (message : string)
| InvalidAttempt (attempt max_retries : Z)
| InvalidResult (message : string)
| SafetyLimit (message : string)
| Malformed (message : string).

#[global] Instance ContractError_eq_dec : EqDecision ContractError.
Proof. solve_decision. Defined.

Definition show_ContractError (e : ContractError) : string :=
  match e with
  | UnsupportedVersion found min_supported max_supported =>
      "unsupported contract version " +:+ show found +:+ "; supported range is "
      +:+ show min_supported +:+ "..=" +:+ show max_supported
  | FutureVersion found max_supported =>
      "future contract version " +:+ show found +:+ "; maximum supported is " +:+ show max_supported
  | MissingField field => "required field '" +:+ field +:+ "' is empty"
  | InvalidLoad message => "invalid load configuration: " +:+ message
  | InvalidSlice message => "invalid slice metadata: " +:+ message
  | InvalidAttempt attempt max_retries =>
      "invalid attempt " +:+ show attempt +:+ "; maximum retry attempt is " +:+ show max_retries
  | InvalidResult message => "invalid result: " +:+ message
  | SafetyLimit message => "safety limit exceeded: " +:+ message
  | Malformed message => "malformed contract: " +:+ message
  end.

Inductive PulseError : Type :=
| MissingContextVar (key : string)
| Client (message : string)
| GrpcStatus (code message : string)
| InvalidScenario (message : string)
| TargetTransport (message : string)
| TargetStatus (code message : string)
| RequestTimeout (step : string)
| TransientInfrastructure (message : string)
| PermanentProcessing (message : string)
| Cancelled (message : string)
| InvariantViolation (message : string).

#[global] Instance PulseError_eq_dec : EqDecision PulseError.
Proof. solve_decision. Defined.

Definition show_PulseError (e : PulseError) : string :=
  match e with
  | MissingContextVar k => "missing context var: " +:+ k
  | Client m => "client error: " +:+ m
  | GrpcStatus code message => "grpc status error (" +:+ code +:+ "): " +:+ message
  | InvalidScenario m => "invalid scenario: " +:+ m
  | TargetTransport m => "target transport error: " +:+ m
  | TargetStatus code message => "target status (" +:+ code +:+ "): " +:+ message
  | RequestTimeout step => "request deadline exceeded for " +:+ step
  | TransientInfrastructure m => "transient infrastructure error: " +:+ m
  | PermanentProcessing m => "permanent processing error: " +:+ m
  | Cancelled m => "cancelled: " +:+ m
  | InvariantViolation m => "internal invariant violation: " +:+ m
  end.

Definition kind_label (e : PulseError) : string :=
  match e with
  | MissingContextVar _ => "missing_context_var"
  | Client _ => "invalid_scenario"
  | GrpcStatus code _ => "target_status:" +:+ code
  | InvalidScenario _ => "invalid_scenario"
  | TargetTransport _ => "target_transport"
  | TargetStatus code _ => "target_status:" +:+ code
  | RequestTimeout _ => "target_timeout"
  | TransientInfrastructure _ => "pulse_infrastructure"
  | PermanentProcessing _ => "permanent_processing"
  | Cancelled _ => "cancelled"
  | InvariantViolation _ => "invariant_violation"
  end.

Definition is_target_measurement (e : PulseError) : bool :=
  match e with
  | GrpcStatus _ _ | TargetTransport _ | TargetStatus _ _ | RequestTimeout _ => true
  | _ => false
  end.

Definition is_retryable_infrastructure (e : PulseError) : bool :=
  match e with TransientInfrastructure _ => true | _ => false end.

(** ** Records *)

Record JobSlice := mkSlice { index : Z; total : Z }.

Record JobLoadConfig := mkLoad {
  scenarios_per_sec : f64;
  load_duration : duration;
  max_concurrency : Z;
  startup_burst : Z;
}.

Record ScenarioJob := mkJob {
  job_schema_version : Z;
  job_scenario_id : string;
  job_run_id : string;
  job_execution_key : string;
  job_plan_fingerprint : string;
  job_scheduled_at_unix_ms : Z;
  job_not_before_unix_ms : Z;
  job_slice : JobSlice;
  job_load : JobLoadConfig;
  job_attempt : Z;
  job_max_retries : Z;
}.

Inductive PartitionKeyStrategy := ScenarioId | ExecutionKey.

Inductive ScenarioRunStatus := RunSuccess | RunFailed.

Record LatencyBucket := mkBucket { upper_bound_ms : Z; bucket_count : Z }.

Record ErrorCount := mkErrorCount { error_kind : string; error_count : Z }.

Record ScenarioRunResult := mkResult {
  res_schema_version : Z;
  res_scenario_id : string;
  res_run_id : string;
  res_execution_key : string;
  res_event_id : string;
  res_attempt : Z;
  res_slice : JobSlice;
  res_started_at_unix_ms : Z;
  res_finished_at_unix_ms : Z;
  res_status : ScenarioRunStatus;
  res_total : Z;
  res_success : Z;
  res_failure : Z;
  res_latency_p50_ms : Z;
  res_latency_p95_ms : Z;
  res_latency_p99_ms : Z;
  res_latency_histogram : list LatencyBucket;
  res_error_breakdown : list ErrorCount;
}.

Inductive ScenarioRunSummaryStatus := SummaryComplete | SummaryPartial | SummaryTimedOut | SummaryCancelled.

Record ScenarioRunSummary := mkSummary {
  sum_schema_version : Z;
  sum_scenario_id : string;
  sum_run_id : string;
  sum_status : ScenarioRunSummaryStatus;
  sum_expected_slices : Z;
  sum_received_slices : Z;
  sum_missing_slices : list Z;
  sum_total : Z;
  sum_success : Z;
  sum_failure : Z;
  sum_latency_p50_ms : Z;
  sum_latency_p95_ms : Z;
  sum_latency_p99_ms : Z;
  sum_latency_histogram : list LatencyBucket;
  sum_error_breakdown : list ErrorCount;
  sum_first_result_at_unix_ms : Z;
  sum_finalized_at_unix_ms : Z;
}.

Record ScenarioRunSummaryEvent := mkSummaryEvent {
  evt_schema_version : Z;
  evt_event_id : string;
  evt_revision : Z;
  evt_summary : ScenarioRunSummary;
}.

Record FailedScenarioJob := mkFailed {
  fail_schema_version : Z;
  fail_event_id : string;
  fail_scenario_id : string;
  fail_run_id : string;
  fail_execution_key : string;
  fail_slice : JobSlice;
  fail_failed_at_unix_ms : Z;
  fail_attempt : Z;
  fail_max_retries : Z;
  fail_reason : string;
}.

Record PoisonMessageRecord := mkPoison {
  poi_schema_version : Z;
  poi_event_id : string;
  poi_failed_at_unix_ms : Z;
  poi_source_topic : string;
  poi_source_partition : Z;
  poi_source_offset : Z;
  poi_source_key_base64 : option string;
  poi_source_key_original_bytes : option Z;
  poi_source_key_truncated : bool;
  poi_payload_base64 : option string;
  poi_payload_original_bytes : option Z;
  poi_payload_truncated : bool;
  poi_reason : string;
}.

#[global] Instance JobSlice_eq_dec : EqDecision JobSlice.
Proof. solve_decision. Defined.
#[global] Instance LatencyBucket_eq_dec : EqDecision LatencyBucket.
Proof. solve_decision. Defined.
#[global] Instance ErrorCount_eq_dec : EqDecision ErrorCount.
Proof. solve_decision. Defined.
#[global] Instance ScenarioRunStatus_eq_dec : EqDecision ScenarioRunStatus.
Proof. solve_decision. Defined.
#[global] Instance SummaryStatus_eq_dec : EqDecision ScenarioRunSummaryStatus.
Proof. solve_decision. Defined.
#[global] Instance ScenarioRunResult_eq_dec : EqDecision ScenarioRunResult.
Proof. solve_decision. Defined.
#[global] Instance JobLoadConfig_eq_dec : EqDecision JobLoadConfig.
Proof. solve_decision. Defined.
#[global] Instance ScenarioJob_eq_dec : EqDecision ScenarioJob.
Proof. solve_decision. Defined.
#[global] Instance FailedScenarioJob_eq_dec : EqDecision FailedScenarioJob.
Proof. solve_decision. Defined.
#[global] Instance PoisonMessageRecord_eq_dec : EqDecision PoisonMessageRecord.
Proof. solve_decision. Defined.

(** ** Identities *)

Definition key_for (strategy : PartitionKeyStrategy) (job : ScenarioJob) : string :=
  match strategy with
  | ScenarioId => job_scenario_id job
  | ExecutionKey => job_execution_key job
  end.

Definition build_execution_key (scenario_id : string) (window_start_unix_ms : Z)
    (slice : JobSlice) : string :=
  scenario_id +:+ ":" +:+ show window_start_unix_ms +:+ ":slice-" +:+ show (index slice)
  +:+ "-of-" +:+ show (total slice).

Definition build_versioned_execution_key (contract_version : Z) (scenario_id : string)
    (window_start_unix_ms : Z) (slice : JobSlice) : string :=
  "v" +:+ show contract_version +:+ ":" +:+ scenario_id +:+ ":" +:+ show window_start_unix_ms
  +:+ ":slice-" +:+ show (index slice) +:+ "-of-" +:+ show (total slice).

Definition build_run_id (contract_version : Z) (scenario_id : string)
    (window_start_unix_ms : Z) : string :=
  "v" +:+ show contract_version +:+ ":" +:+ scenario_id +:+ ":" +:+ show window_start_unix_ms.

Definition build_terminal_event_id (execution_key : string) (attempt : Z) (kind : string) : string :=
  execution_key +:+ ":attempt-" +:+ show attempt +:+ ":" +:+ kind.

(** ** Validation *)

Definition validate_contract_version (version : Z) : result ContractError unit :=
  reject_if (version <? MIN_SUPPORTED_CONTRACT_VERSION)
    (UnsupportedVersion version MIN_SUPPORTED_CONTRACT_VERSION CURRENT_CONTRACT_VERSION);;
  reject_if (CURRENT_CONTRACT_VERSION <? version)
    (FutureVersion version CURRENT_CONTRACT_VERSION).

Definition validate_slice (slice : JobSlice) : result ContractError unit :=
  reject_if (total slice =? 0) (InvalidSlice "slice total must be greater than zero");;
  reject_if (MAX_CONTRACT_SLICES <? total slice)
    (InvalidSlice ("slice total " +:+ show (total slice) +:+ " exceeds maximum "
                   +:+ show MAX_CONTRACT_SLICES));;
  reject_if (total slice <=? index slice)
    (InvalidSlice ("slice index " +:+ show (index slice) +:+ " must be less than total "
                   +:+ show (total slice))).

Definition require_non_empty (field value : string) : result ContractError unit :=
  reject_if (blank value) (MissingField field).

Definition validate_identity_lengths (fields : list (string * string)) : result ContractError unit :=
  try_for (fun '(field, value) =>
    reject_if (MAX_CONTRACT_ID_BYTES <? str_len value)
      (Malformed (field +:+ " exceeds " +:+ show MAX_CONTRACT_ID_BYTES +:+ " bytes"))) fields.

Definition ScenarioJob_validate (self : ScenarioJob) : result ContractError unit :=
  validate_contract_version (job_schema_version self);;
  require_non_empty "scenario_id" (job_scenario_id self);;
  require_non_empty "run_id" (job_run_id self);;
  require_non_empty "execution_key" (job_execution_key self);;
  (if 2 <=? job_schema_version self
   then require_non_empty "plan_fingerprint" (job_plan_fingerprint self) else Ok tt);;
  validate_identity_lengths
    [("scenario_id", job_scenario_id self); ("run_id", job_run_id self);
     ("execution_key", job_execution_key self); ("plan_fingerprint", job_plan_fingerprint self)];;
  validate_slice (job_slice self);;
  let load := job_load self in
  let bad_attempt := InvalidAttempt (job_attempt self) (job_max_retries self) in
  reject_if (negb (f64_is_finite (scenarios_per_sec load))
             || f64_leb (scenarios_per_sec load) f64_zero)
    (InvalidLoad "scenarios_per_sec must be finite and > 0");;
  reject_if (duration_is_zero (load_duration load))
    (InvalidLoad "duration must be greater than zero");;
  reject_if (max_concurrency load =? 0) (InvalidLoad "max_concurrency must be greater than zero");;
  reject_if (max_concurrency load <? startup_burst load)
    (InvalidLoad ("startup_burst " +:+ show (startup_burst load)
                  +:+ " exceeds slice max_concurrency " +:+ show (max_concurrency load)));;
  reject_if (job_max_retries self <? job_attempt self) bad_attempt;;
  reject_if (MAX_CONTRACT_ATTEMPT <? job_max_retries self) bad_attempt;;
  reject_if ((2 <=? job_schema_version self) && (0 <? job_attempt self)
             && (job_not_before_unix_ms self =? 0)) bad_attempt.

Definition ScenarioJob_validate_limits (self : ScenarioJob) (max_duration : duration)
    (max_rate : f64) (max_conc : Z) : result ContractError unit :=
  ScenarioJob_validate self;;
  let load := job_load self in
  reject_if (max_duration <? load_duration load)
    (SafetyLimit ("duration " +:+ show_duration (load_duration load) +:+ " exceeds maximum "
                  +:+ show_duration max_duration));;
  reject_if (f64_ltb max_rate (scenarios_per_sec load))
    (SafetyLimit ("rate " +:+ show_f64 (scenarios_per_sec load) +:+ " exceeds maximum "
                  +:+ show_f64 max_rate));;
  reject_if (max_conc <? max_concurrency load)
    (SafetyLimit ("concurrency " +:+ show (max_concurrency load) +:+ " exceeds maximum "
                  +:+ show max_conc)).

(** One iteration of the bucket loop of [validate_latency_buckets]: the
    previous bound and the running count. *)
Definition latency_bucket_step (st : option Z * Z) (bucket : LatencyBucket)
    : result ContractError (option Z * Z) :=
  let '(previous, count) := st in
  reject_if (match previous with Some bound => upper_bound_ms bucket <=? bound | None => false end)
    (InvalidResult "latency histogram bounds must be strictly increasing");;
  count ← ok_or (checked_add u64_max count (bucket_count bucket))
            (InvalidResult "latency histogram count overflowed u64");
  Ok (Some (upper_bound_ms bucket), count).

Definition validate_latency_buckets (buckets : list LatencyBucket) (expected_total : Z)
    : result ContractError unit :=
  reject_if (MAX_CONTRACT_HISTOGRAM_BUCKETS <? Z.of_nat (length buckets))
    (InvalidResult ("latency histogram has " +:+ show (Z.of_nat (length buckets))
                    +:+ " buckets; maximum is " +:+ show MAX_CONTRACT_HISTOGRAM_BUCKETS));;
  match buckets with
  | [] => Ok tt
  | _ =>
      '(_, count) ← try_fold latency_bucket_step (None, 0) buckets;
      reject_if (negb (count =? expected_total))
        (InvalidResult ("latency histogram count " +:+ show count +:+ " does not equal total "
                        +:+ show expected_total))
  end.

(** One iteration of the error loop of [ScenarioRunResult::validate]: the
    kinds seen so far and the running count. *)
Definition error_count_step (st : gset string * Z) (error : ErrorCount)
    : result ContractError (gset string * Z) :=
  let '(kinds, error_total) := st in
  require_non_empty "error_breakdown.kind" (error_kind error);;
  reject_if (MAX_CONTRACT_ERROR_KIND_BYTES <? str_len (error_kind error))
    (InvalidResult ("error kind exceeds " +:+ show MAX_CONTRACT_ERROR_KIND_BYTES +:+ " bytes"));;
  reject_if (bool_decide (error_kind error ∈ kinds))
    (InvalidResult ("duplicate error kind '" +:+ error_kind error +:+ "'"));;
  error_total ← ok_or (checked_add u64_max error_total (error_count error))
                  (InvalidResult "error counts overflowed u64");
  Ok ({[error_kind error]} ∪ kinds, error_total).

Definition validate_result_v2_identity (self : ScenarioRunResult) : result ContractError unit :=
  require_non_empty "event_id" (res_event_id self);;
  reject_if (MAX_CONTRACT_ID_BYTES <? str_len (res_event_id self))
    (InvalidResult ("event_id exceeds " +:+ show MAX_CONTRACT_ID_BYTES +:+ " bytes"));;
  reject_if (negb (bool_decide (res_event_id self =
      build_terminal_event_id (res_execution_key self) (res_attempt self) "result")))
    (InvalidResult "event_id is not the deterministic result identity");;
  reject_if ((0 <? res_total self) && bool_decide (res_latency_histogram self = []))
    (InvalidResult "version 2 results with observations require a mergeable latency histogram").

Definition validate_result_counts (self : ScenarioRunResult) (error_total : Z)
    : result ContractError unit :=
  if 2 <=? res_schema_version self then
    try_for (fun '(field, value) =>
        reject_if (MAX_CONTRACT_EXACT_INTEGER <? value)
          (InvalidResult (field +:+ " exceeds the exact aggregation integer range")))
      [("total", res_total self); ("success", res_success self);
       ("failure", res_failure self); ("error count", error_total)];;
    reject_if (negb (error_total =? res_failure self))
      (InvalidResult ("error count total " +:+ show error_total
                      +:+ " does not equal failure count " +:+ show (res_failure self)));;
    reject_if (existsb (fun bucket => MAX_CONTRACT_EXACT_INTEGER <? bucket_count bucket)
                 (res_latency_histogram self))
      (InvalidResult "latency bucket count exceeds the exact aggregation integer range")
  else
    reject_if (res_failure self <? error_total)
      (InvalidResult ("error count total " +:+ show error_total +:+ " exceeds failure count "
                      +:+ show (res_failure self))).

Definition ScenarioRunResult_validate (self : ScenarioRunResult) : result ContractError unit :=
  validate_contract_version (res_schema_version self);;
  require_non_empty "scenario_id" (res_scenario_id self);;
  require_non_empty "run_id" (res_run_id self);;
  require_non_empty "execution_key" (res_execution_key self);;
  validate_identity_lengths
    [("scenario_id", res_scenario_id self); ("run_id", res_run_id self);
     ("execution_key", res_execution_key self)];;
  validate_slice (res_slice self);;
  reject_if (MAX_CONTRACT_ATTEMPT <? res_attempt self)
    (InvalidResult ("attempt " +:+ show (res_attempt self) +:+ " exceeds maximum "
                    +:+ show MAX_CONTRACT_ATTEMPT));;
  (if 2 <=? res_schema_version self then validate_result_v2_identity self else Ok tt);;
  outcome_total ← ok_or (checked_add u64_max (res_success self) (res_failure self))
                    (InvalidResult "success + failure overflowed u64");
  reject_if (negb (outcome_total =? res_total self))
    (InvalidResult "success + failure must equal total");;
  reject_if (MAX_CONTRACT_ERROR_KINDS <? Z.of_nat (length (res_error_breakdown self)))
    (InvalidResult ("error breakdown has " +:+ show (Z.of_nat (length (res_error_breakdown self)))
                    +:+ " kinds; maximum is " +:+ show MAX_CONTRACT_ERROR_KINDS));;
  '(_, error_total) ← try_fold error_count_step (∅, 0) (res_error_breakdown self);
  validate_result_counts self error_total;;
  reject_if (res_finished_at_unix_ms self <? res_started_at_unix_ms self)
    (InvalidResult "finished timestamp precedes started timestamp");;
  validate_latency_buckets (res_latency_histogram self) (res_total self).

(** ** What the validators decide *)

(** The ranges the Rust types of a result's fields give. *)
Definition result_typed (r : ScenarioRunResult) : Prop :=
  in_range u64_max (res_success r) /\ in_range u64_max (res_failure r)
  /\ in_range u64_max (res_total r) /\ in_range u32_max (index (res_slice r))
  /\ in_range u32_max (total (res_slice r))
  /\ Forall (fun e => in_range u64_max (error_count e)) (res_error_breakdown r)
  /\ Forall (fun b => in_range u64_max (bucket_count b)) (res_latency_histogram r).

Definition version_ok (v : Z) : Prop := 1 <= v <= 2.
Definition identity_ok (s : string) : Prop := blank s = false /\ str_len s <= 1024.
Definition slice_ok (s : JobSlice) : Prop := index s < total s <= 4096 /\ total s <> 0.

(** A histogram that merges with any other of its shape: bounded, strictly
    increasing in its bounds, and counting every observation once. *)
Definition histogram_ok (h : list LatencyBucket) (n : Z) : Prop :=
  Z.of_nat (length h) <= 128
  /\ (h <> [] -> Sorted Z.lt (map upper_bound_ms h) /\ sumZ (map bucket_count h) = n).

Definition errors_ok (l : list ErrorCount) : Prop :=
  Z.of_nat (length l) <= 64
  /\ Forall (fun e => blank (error_kind e) = false /\ str_len (error_kind e) <= 256) l
  /\ NoDup (map error_kind l)
  /\ sumZ (map error_count l) <= u64_max.

(** The contract of a slice result, as a proposition. *)
Record result_contract (r : ScenarioRunResult) : Prop := {
  rc_version : version_ok (res_schema_version r);
  rc_ids : identity_ok (res_scenario_id r) /\ identity_ok (res_run_id r)
           /\ identity_ok (res_execution_key r);
  rc_slice : slice_ok (res_slice r);
  rc_attempt : res_attempt r <= 32;
  rc_event : 2 <= res_schema_version r ->
    identity_ok (res_event_id r)
    /\ res_event_id r = build_terminal_event_id (res_execution_key r) (res_attempt r) "result"
    /\ (0 < res_total r -> res_latency_histogram r <> []);
  rc_outcomes : res_success r + res_failure r = res_total r;
  rc_errors : errors_ok (res_error_breakdown r);
  rc_error_total :
    if 2 <=? res_schema_version r
    then sumZ (map error_count (res_error_breakdown r)) = res_failure r
         /\ res_total r <= MAX_CONTRACT_EXACT_INTEGER
         /\ Forall (fun b => bucket_count b <= MAX_CONTRACT_EXACT_INTEGER) (res_latency_histogram r)
    else sumZ (map error_count (res_error_breakdown r)) <= res_failure r;
  rc_times : res_started_at_unix_ms r <= res_finished_at_unix_ms r;
  rc_histogram : histogram_ok (res_latency_histogram r) (res_total r);
}.

Section validator_lemmas.
Lemma validate_contract_version_Ok v :
  validate_contract_version v = Ok tt <-> version_ok v.
Proof.
  unfold validate_contract_version, version_ok, MIN_SUPPORTED_CONTRACT_VERSION,
    CURRENT_CONTRACT_VERSION.
  rewrite bind_Ok. setoid_rewrite reject_if_Ok. split.
  - intros (_ & ? & ?). mlia.
  - intros. exists tt. rewrite !Z.ltb_ge. lia.
Qed.

Lemma require_non_empty_Ok f s : require_non_empty f s = Ok tt <-> blank s = false.
Proof. apply reject_if_Ok. Qed.

Lemma validate_slice_Ok s : validate_slice s = Ok tt <-> slice_ok s.
Proof.
  unfold validate_slice, slice_ok, MAX_CONTRACT_SLICES.
  rewrite bind_Ok. setoid_rewrite bind_Ok. setoid_rewrite reject_if_Ok. split.
  - intros (_ & ? & _ & ? & ?). mlia.
  - intros. exists tt. split; [apply Z.eqb_neq; lia|].
    exists tt. rewrite Z.ltb_ge, Z.leb_gt. lia.
Qed.

Lemma validate_identity_lengths_Ok l :
  validate_identity_lengths l = Ok tt <-> Forall (fun p => str_len p.2 <= 1024) l.
Proof.
  unfold validate_identity_lengths, MAX_CONTRACT_ID_BYTES.
  rewrite try_for_Ok, !Forall_forall. split; intros H [f v] Hin; specialize (H _ Hin); simpl in *.
  - apply reject_if_Ok in H. mlia.
  - apply reject_if_Ok, Z.ltb_ge. lia.
Qed.

Lemma latency_bucket_step_Ok prev c b st :
  latency_bucket_step (prev, c) b = Ok st
  <-> from_option (fun b0 => b0 < upper_bound_ms b) True prev
      /\ c + bucket_count b <= u64_max
      /\ st = (Some (upper_bound_ms b), c + bucket_count b).
Proof.
  unfold latency_bucket_step. rewrite bind_Ok. setoid_rewrite reject_if_Ok.
  setoid_rewrite bind_Ok. setoid_rewrite ok_or_Ok. setoid_rewrite checked_add_Some. split.
  - intros (_ & Hp & d & [-> ?] & [= <-]). split; [destruct prev; simpl; mlia|done].
  - intros (Hp & ? & ->). exists tt. split; [destruct prev; simpl in *; [apply Z.leb_gt|]; done|].
    eexists. done.
Qed.

Lemma latency_bucket_fold_Ok l prev c c' :
  Forall (fun b => in_range u64_max (bucket_count b)) l -> in_range u64_max c ->
  (exists p, try_fold latency_bucket_step (prev, c) l = Ok (p, c'))
  <-> Sorted Z.lt (from_option (fun b => [b]) [] prev ++ map upper_bound_ms l)
      /\ c' = c + sumZ (map bucket_count l) /\ c' <= u64_max.
Proof.
  intros Hl. revert prev c. induction Hl as [|b l Hb Hl IH]; intros prev c Hc; simpl.
  - split; [intros [p [= <- <-]]|intros (_ & -> & _)].
    + split; [destruct prev; repeat constructor|mlia].
    + exists prev. do 2 f_equal. lia.
  - assert (0 <= sumZ (map bucket_count l)) as Hs.
    { apply sumZ_nonneg, Forall_fmap. eapply Forall_impl; [done|]. simpl. mlia. }
    split.
    + intros [p H]. apply bind_Ok in H as (st & Hst & H).
      apply latency_bucket_step_Ok in Hst as (Hp & Hle & ->).
      destruct (proj1 (IH (Some (upper_bound_ms b)) (c + bucket_count b) ltac:(mlia)))
        as (Hsort & -> & Hmax); [by exists p|].
      split; [|split; [lia|done]]. destruct prev as [b0|]; simpl in *; [|done].
      constructor; [done|]. by constructor.
    + intros (Hsort & -> & Hmax).
      destruct (proj2 (IH (Some (upper_bound_ms b)) (c + bucket_count b) ltac:(mlia))) as [p Hp].
      { split; [|lia]. destruct prev; simpl in *; [by inversion Hsort|done]. }
      exists p. apply bind_Ok. eexists. split; [|exact Hp].
      apply latency_bucket_step_Ok. split; [|split; [lia|done]].
      destruct prev as [b0|]; simpl in *; [|done].
      inversion Hsort as [|? ? ? Hd]; subst. by inversion Hd.
Qed.

Lemma validate_latency_buckets_Ok h n :
  Forall (fun b => in_range u64_max (bucket_count b)) h -> in_range u64_max n ->
  validate_latency_buckets h n = Ok tt <-> histogram_ok h n.
Proof.
  intros Hh Hn. unfold validate_latency_buckets, histogram_ok, MAX_CONTRACT_HISTOGRAM_BUCKETS.
  pose proof (latency_bucket_fold_Ok h None 0) as Hf.
  rewrite bind_Ok. setoid_rewrite reject_if_Ok. destruct h as [|b h].
  - split; [intros (_ & ? & _); simpl; split; [lia|done]|intros _; by exists tt].
  - split.
    + intros (_ & Hlen & H). inv_ok. destruct x as [p c].
      apply reject_if_Ok in H. bool_hyps. subst c.
      split; [lia|intros _]. destruct (Hf n) as [Hf' _]; [done|mlia|].
      destruct Hf' as (? & ? & ?); [by exists p|]. split; [done|lia].
    + intros (Hlen & Hrest). destruct Hrest as [Hsort Hsum]; [done|].
      exists tt. split; [apply Z.ltb_ge; lia|].
      destruct (Hf n) as [_ Hf']; [done|mlia|].
      destruct Hf' as [p ->]; [split; [done|mlia]|].
      simpl. rewrite Z.eqb_refl. done.
Qed.
Lemma error_count_step_Ok ks c e st :
  error_count_step (ks, c) e = Ok st
  <-> (blank (error_kind e) = false /\ str_len (error_kind e) <= 256)
      /\ error_kind e ∉ ks /\ c + error_count e <= u64_max
      /\ st = ({[error_kind e]} ∪ ks, c + error_count e).
Proof.
  unfold error_count_step, MAX_CONTRACT_ERROR_KIND_BYTES.
  repeat setoid_rewrite bind_Ok. setoid_rewrite ok_or_Ok. setoid_rewrite checked_add_Some.
  setoid_rewrite reject_if_Ok. split.
  - intros ([] & ? & _ & ? & _ & ? & d & [-> ?] & [= <-]).
    bool_hyps. done.
  - intros ([? ?] & ? & ? & ->). exists tt. split; [done|].
    exists tt. split; [apply Z.ltb_ge; lia|]. exists tt.
    split; [by apply bool_decide_eq_false|]. by eexists.
Qed.

Lemma error_count_fold_Ok l ks c c' :
  Forall (fun e => in_range u64_max (error_count e)) l -> in_range u64_max c ->
  (exists ks', try_fold error_count_step (ks, c) l = Ok (ks', c'))
  <-> Forall (fun e => blank (error_kind e) = false /\ str_len (error_kind e) <= 256) l
      /\ NoDup (map error_kind l) /\ Forall (fun e => error_kind e ∉ ks) l
      /\ c' = c + sumZ (map error_count l) /\ c' <= u64_max.
Proof.
  intros Hl. revert ks c. induction Hl as [|e l He Hl IH]; intros ks c Hc; simpl.
  - split; [intros [p [= <- <-]]|intros (_ & _ & _ & -> & _)].
    + repeat split; [constructor..|lia|mlia].
    + exists ks. do 2 f_equal. lia.
  - assert (0 <= sumZ (map error_count l)) as Hs.
    { apply sumZ_nonneg, Forall_fmap. eapply Forall_impl; [done|]. simpl. mlia. }
    rewrite NoDup_cons, !Forall_cons. split.
    + intros [p H]. apply bind_Ok in H as (st & Hst & H).
      apply error_count_step_Ok in Hst as (Hk & Hn & Hle & ->).
      destruct (proj1 (IH ({[error_kind e]} ∪ ks) (c + error_count e) ltac:(mlia)))
        as (Hf & Hd & Hks & -> & Hmax); [by exists p|].
      split; [done|]. split; [split; [|done]|split; [split; [done|]|split; [lia|done]]].
      * intros (e' & Heq & Hin)%elem_of_map.
        eapply Forall_forall in Hks; [|exact Hin]. set_solver.
      * eapply Forall_impl; [exact Hks|]. simpl. set_solver.
    + intros ([Hk Hf] & [Hnin Hd] & [Hn Hks] & -> & Hmax).
      destruct (proj2 (IH ({[error_kind e]} ∪ ks) (c + error_count e) ltac:(mlia))) as [p Hp].
      { split_and!; try done; try lia. apply Forall_forall. intros e' Hin.
        eapply Forall_forall in Hks; [|exact Hin].
        assert (error_kind e' <> error_kind e); [|set_solver].
        intros Heq. apply Hnin, elem_of_map. by exists e'. }
      exists p. apply bind_Ok. eexists. split; [|exact Hp].
      apply error_count_step_Ok. destruct Hk. split_and!; try done; lia.
Qed.

Lemma errors_fold_Ok l c :
  Forall (fun e => in_range u64_max (error_count e)) l ->
  (exists ks, try_fold error_count_step (∅, 0) l = Ok (ks, c)) /\ Z.of_nat (length l) <= 64
  <-> errors_ok l /\ c = sumZ (map error_count l).
Proof.
  intros Hl. rewrite error_count_fold_Ok by first [done|mlia]. unfold errors_ok. split.
  - intros ((? & ? & _ & -> & ?) & ?). split_and!; try done; lia.
  - intros ((? & ? & ? & ?) & ->). split_and!; try done; try lia.
    apply Forall_forall. set_solver.
Qed.

Lemma validate_result_v2_identity_Ok r :
  validate_result_v2_identity r = Ok tt
  <-> identity_ok (res_event_id r)
      /\ res_event_id r = build_terminal_event_id (res_execution_key r) (res_attempt r) "result"
      /\ (0 < res_total r -> res_latency_histogram r <> []).
Proof.
  unfold validate_result_v2_identity, identity_ok, MAX_CONTRACT_ID_BYTES.
  repeat setoid_rewrite bind_Ok. setoid_rewrite reject_if_Ok. split.
  - intros ([] & ? & _ & ? & _ & ? & Hh). bool_hyps.
    split_and!; try done. intros Ht%Z.ltb_lt. rewrite Ht in Hh. simpl in Hh. by bool_hyps.
  - intros ([? ?] & ? & Hh). exists tt. split; [done|].
    exists tt. split; [by apply Z.ltb_ge|]. exists tt.
    split; [by rewrite bool_decide_true|]. destruct (Z.ltb_spec 0 (res_total r)); [|done].
    simpl. apply bool_decide_eq_false. auto.
Qed.

Lemma validate_result_counts_Ok r et :
  0 <= res_success r -> 0 <= res_failure r -> res_success r + res_failure r = res_total r ->
  validate_result_counts r et = Ok tt
  <-> if 2 <=? res_schema_version r
      then et = res_failure r
           /\ res_total r <= MAX_CONTRACT_EXACT_INTEGER
           /\ Forall (fun b => bucket_count b <= MAX_CONTRACT_EXACT_INTEGER)
                (res_latency_histogram r)
      else et <= res_failure r.
Proof.
  intros. unfold validate_result_counts. case_match.
  - split.
    + intros H'. apply bind_Ok in H' as ([] & Hf & H'). apply bind_Ok in H' as ([] & Heq & Hex).
      apply try_for_Ok in Hf. apply reject_if_Ok in Heq, Hex. rewrite !Forall_cons in Hf.
      destruct Hf as (Ht%reject_if_Ok & _). bool_hyps. split; [done|]. split; [done|].
      apply Forall_forall. intros b Hb. apply Z.ltb_ge.
      destruct (_ <? bucket_count b) eqn:E; [|done].
      rewrite <- Hex. symmetry. apply existsb_exists. exists b. by rewrite <- list_elem_of_In.
    + intros (-> & ? & Hb). apply bind_Ok. exists tt. split.
      { apply try_for_Ok. rewrite !Forall_cons, !reject_if_Ok, !Z.ltb_ge, Forall_nil. lia. }
      apply bind_Ok. exists tt. split; [by rewrite Z.eqb_refl|].
      apply reject_if_Ok, not_true_iff_false. rewrite existsb_exists.
      intros (b & Hin & Hlt). rewrite <- list_elem_of_In in Hin.
      eapply Forall_forall in Hb; [|done]. mlia.
  - rewrite reject_if_Ok, Z.ltb_ge. done.
Qed.
End validator_lemmas.

Lemma result_contract_iff (r : ScenarioRunResult) :
  result_typed r -> (ScenarioRunResult_validate r = Ok tt <-> result_contract r).
Proof.
  intros (Hs & Hf & Ht & _ & _ & He & Hh).
  unfold ScenarioRunResult_validate. rewrite !then_Ok, bind_Ok.
  rewrite validate_contract_version_Ok, validate_identity_lengths_Ok, validate_slice_Ok,
    !require_non_empty_Ok, reject_if_Ok, !Forall_cons, Forall_nil. simpl.
  split.
  - intros (Hv & Hi1 & Hi2 & Hi3 & Hlen & Hsl & Hatt & Hid & ot & Hot & H).
    rewrite !then_Ok, !reject_if_Ok, bind_Ok in H.
    destruct H as (Heq & Hkinds & [ks et] & Herr & H). rewrite !then_Ok, reject_if_Ok in H.
    destruct H as (Hcounts & Htime & Hhist).
    apply ok_or_Ok, checked_add_Some in Hot as [-> Hmax].
    unfold MAX_CONTRACT_ATTEMPT, MAX_CONTRACT_ERROR_KINDS in *. bool_hyps.
    destruct (proj1 (errors_fold_Ok _ et He)) as [Heok ->]; [split; [by exists ks|lia]|].
    apply validate_result_counts_Ok in Hcounts; [|mlia..].
    constructor; try done; try lia; [unfold identity_ok; tauto| |by apply validate_latency_buckets_Ok].
    intros Hv2%Z.leb_le. rewrite Hv2 in Hid. by apply validate_result_v2_identity_Ok.
  - intros [Hv (Hi1 & Hi2 & Hi3) Hsl Hatt Hev Hout Herr Htot Htime Hhist].
    destruct (proj2 (errors_fold_Ok (res_error_breakdown r)
      (sumZ (map error_count (res_error_breakdown r))) He)) as [[ks Hfold] Hlen]; [done|].
    unfold identity_ok, MAX_CONTRACT_ATTEMPT in *.
    split_and!; try tauto; [by apply Z.ltb_ge| |].
    { destruct (Z.leb_spec 2 (res_schema_version r)); [|done]. by apply validate_result_v2_identity_Ok, Hev. }
    exists (res_total r). split; [apply ok_or_Ok, checked_add_Some; mlia|].
    rewrite !then_Ok, !reject_if_Ok, bind_Ok, Z.eqb_refl.
    split; [done|]. split; [by apply Z.ltb_ge|].
    eexists. split; [exact Hfold|]. rewrite !then_Ok, reject_if_Ok.
    split; [by apply validate_result_counts_Ok; [mlia..|]|].
    split; [by apply Z.ltb_ge|]. by apply validate_latency_buckets_Ok.
Qed.

(** A slice result is accepted exactly when it satisfies the contract: its
    versions, identities, slice and attempt are in bounds, its outcomes add up
    to the total, its error kinds are distinct and account for the failures,
    and its histogram is strictly increasing and counts every observation. *)
Theorem ScenarioRunResult_validate_correct (r : ScenarioRunResult) (Hr : result_typed r) :
  ScenarioRunResult_validate r = Ok tt <-> result_contract r.
Proof. by apply result_contract_iff. Qed.

(** A result that satisfies the contract, used to instantiate the theorems. *)
Definition sample_result : ScenarioRunResult := {|
  res_schema_version := 2; res_scenario_id := "checkout"; res_run_id := "run";
  res_execution_key := "key"; res_event_id := "key:attempt-1:result"; res_attempt := 1;
  res_slice := mkSlice 1 4; res_started_at_unix_ms := 10; res_finished_at_unix_ms := 20;
  res_status := RunFailed; res_total := 5; res_success := 3; res_failure := 2;
  res_latency_p50_ms := 1; res_latency_p95_ms := 2; res_latency_p99_ms := 2;
  res_latency_histogram := [mkBucket 1 2; mkBucket 2 3; mkBucket u64_max 0];
  res_error_breakdown := [mkErrorCount "target_timeout" 2] |}.

Lemma sample_result_typed : result_typed sample_result.
Proof. unfold result_typed. simpl. rewrite !Forall_cons, !Forall_nil. simpl. mlia. Qed.

Lemma ScenarioRunResult_validate_correct_witness : result_contract sample_result.
Proof.
  apply (ScenarioRunResult_validate_correct sample_result sample_result_typed).
  vm_compute. reflexivity.
Defined.

Definition rate_ok (x : f64) : Prop := f64_is_finite x = true /\ f64_leb x f64_zero = false.

(** The contract of a job, as a proposition. *)
Record job_contract (j : ScenarioJob) : Prop := {
  jc_version : version_ok (job_schema_version j);
  jc_ids : identity_ok (job_scenario_id j) /\ identity_ok (job_run_id j)
           /\ identity_ok (job_execution_key j);
  jc_fingerprint : str_len (job_plan_fingerprint j) <= 1024
           /\ (2 <= job_schema_version j -> blank (job_plan_fingerprint j) = false);
  jc_slice : slice_ok (job_slice j);
  jc_rate : rate_ok (scenarios_per_sec (job_load j));
  jc_duration : load_duration (job_load j) <> 0;
  jc_concurrency : max_concurrency (job_load j) <> 0
           /\ startup_burst (job_load j) <= max_concurrency (job_load j);
  jc_attempt : job_attempt j <= job_max_retries j <= 32;
  jc_deferred : 2 <= job_schema_version j -> 0 < job_attempt j -> job_not_before_unix_ms j <> 0;
}.

Lemma ScenarioJob_validate_Ok j : ScenarioJob_validate j = Ok tt <-> job_contract j.
Proof.
  unfold ScenarioJob_validate.
  rewrite !then_Ok, validate_contract_version_Ok, validate_identity_lengths_Ok, validate_slice_Ok,
    !require_non_empty_Ok, !reject_if_Ok, !Forall_cons, Forall_nil. simpl.
  unfold MAX_CONTRACT_ATTEMPT, duration_is_zero. split.
  - intros. destruct_and!. bool_hyps.
    constructor; try done; try lia; unfold identity_ok, rate_ok; try tauto.
    split; [done|]. intros Hv%Z.leb_le.
    match goal with H : (if _ then _ else _) = Ok _ |- _ => rewrite Hv in H end.
    by eapply require_non_empty_Ok.
  - intros [? (? & ? & ?) [? Hp] ? [? ?] ? ? ? Hd]. unfold identity_ok in *.
    split_and!; try tauto; try (apply Z.ltb_ge; lia); try (apply Z.eqb_neq; tauto).
    + destruct (Z.leb_spec 2 (job_schema_version j)); [|done]. by apply require_non_empty_Ok, Hp.
    + apply orb_false_iff. split; [by apply negb_false_iff|done].
    + destruct (Z.leb_spec 2 (job_schema_version j)); [|done].
      destruct (Z.ltb_spec 0 (job_attempt j)); [|done]. simpl. apply Z.eqb_neq. auto.
Qed.

(** A job passes the safety gate of a worker exactly when it satisfies the
    job contract and its load stays within the node's configured duration,
    rate and concurrency ceilings. *)
Theorem ScenarioJob_validate_limits_correct j max_duration max_rate max_conc :
  ScenarioJob_validate_limits j max_duration max_rate max_conc = Ok tt
  <-> job_contract j /\ load_duration (job_load j) <= max_duration
      /\ f64_ltb max_rate (scenarios_per_sec (job_load j)) = false
      /\ max_concurrency (job_load j) <= max_conc.
Proof.
  unfold ScenarioJob_validate_limits.
  rewrite !then_Ok, !reject_if_Ok, ScenarioJob_validate_Ok, !Z.ltb_ge. tauto.
Qed.

(** ** Identities derived from a job *)

Definition repeat_char (n : nat) (c : ascii) : string := Nat.iter n (String c) EmptyString.

(** A job whose execution key takes the whole identity budget. *)
Definition wide_key_job : ScenarioJob := {|
  job_schema_version := 2; job_scenario_id := "s"; job_run_id := "r";
  job_execution_key := repeat_char 1024 "k"; job_plan_fingerprint := "p";
  job_scheduled_at_unix_ms := 1; job_not_before_unix_ms := 0; job_slice := mkSlice 0 1;
  job_load := mkLoad f64_one (from_secs 1) 1 0; job_attempt := 0; job_max_retries := 0 |}.

Lemma terminal_event_id_len key attempt kind :
  0 <= attempt -> str_len key + 11 + str_len kind <= str_len (build_terminal_event_id key attempt kind).
Proof.
  intros. unfold build_terminal_event_id. rewrite !str_len_app.
  pose proof (show_len_pos attempt). change (str_len ":attempt-") with 9. change (str_len ":") with 1. lia.
Qed.

(** The job contract leaves no headroom for the identities derived from the
    execution key: a job with a 1024-byte key is accepted, yet no version 2
    result of that key, whatever it measured, can ever be accepted. *)
Theorem accepted_job_without_publishable_result :
  ScenarioJob_validate wide_key_job = Ok tt
  /\ forall r : ScenarioRunResult,
       res_execution_key r = job_execution_key wide_key_job ->
       0 <= res_attempt r -> res_schema_version r = 2 ->
       ScenarioRunResult_validate r <> Ok tt.
Proof.
  split; [by vm_compute|]. intros r Hk Ha Hv H.
  unfold ScenarioRunResult_validate in H. rewrite !then_Ok in H.
  destruct H as (_ & _ & _ & _ & _ & _ & _ & Hid & _). rewrite Hv in Hid. simpl in Hid.
  apply validate_result_v2_identity_Ok in Hid as ([_ Hlen] & Heq & _).
  rewrite Heq in Hlen. pose proof (terminal_event_id_len (res_execution_key r) _ "result" Ha) as Hl.
  rewrite Hk in Hl, Hlen. change (str_len (job_execution_key wide_key_job)) with 1024 in Hl.
  change (str_len "result") with 6 in Hl. lia.
Qed.
