(* ===== verification/Domain.v ===== *)
(** * Scenarios, steps and ports

    The domain types a scenario is made of: [src/src/domain/scenario.rs],
    [src/src/domain/context.rs] and [src/src/domain/ports.rs], with the JSON
    values templates and responses carry.  A trait object ([Arc<dyn Step>],
    [Arc<dyn DynamicGrpcGateway>]) is a record of its methods; the outside
    world an asynchronous method may read and change is a type [W]. *)

From S2P Require Import Prelude RustStr F64 Contracts.

(** ** JSON values *)

(** [serde_json::Number]: an unsigned or negative 64-bit integer or a float. *)
Inductive Number :=
| PosInt (n : Z)
| NegInt (n : Z)
| Float (x : f64).

(** [serde_json::Value]; an object lists its entries in key order, the order
    of the [BTreeMap] behind [serde_json::Map]. *)
Inductive Value :=
| JNull
| JBool (b : bool)
| JNumber (n : Number)
| JString (s : string)
| JArray (items : list Value)
| JObject (entries : list (string * Value)).

Definition str_ltb (a b : string) : bool :=
  match String.compare a b with Lt => true | _ => false end.

(** [Map::get]. *)
Fixpoint map_get {A} (key : string) (m : list (string * A)) : option A :=
  match m with
  | [] => None
  | (k, v) :: m' => if String.eqb k key then Some v else map_get key m'
  end.

(** [Map::insert]: replaces the value of a key or adds it in key order. *)
Fixpoint map_insert {A} (key : string) (value : A) (m : list (string * A)) : list (string * A) :=
  match m with
  | [] => [(key, value)]
  | (k, v) :: m' =>
      if String.eqb k key then (k, value) :: m'
      else if str_ltb key k then (key, value) :: m
      else (k, v) :: map_insert key value m'
  end.

Section map_lemmas.
Context {A : Type}.
Implicit Types (m : list (string * A)) (k : string) (v : A).

Lemma map_get_insert_eq k v m : map_get k (map_insert k v m) = Some v.
Proof.
  induction m as [|[k' v'] m IH]; simpl; [by rewrite String.eqb_refl|].
  destruct (String.eqb_spec k' k) as [->|]; simpl; [by rewrite String.eqb_refl|].
  destruct (str_ltb k k'); simpl; [by rewrite String.eqb_refl|].
  destruct (String.eqb_spec k' k); done.
Qed.

Lemma map_get_insert_ne k k' v m : k <> k' -> map_get k' (map_insert k v m) = map_get k' m.
Proof.
  intros Hne. induction m as [|[k0 v0] m IH]; simpl.
  - by destruct (String.eqb_spec k k').
  - destruct (String.eqb_spec k0 k) as [->|]; simpl.
    + by destruct (String.eqb_spec k k').
    + destruct (str_ltb k k0); simpl; [by destruct (String.eqb_spec k k')|].
      by rewrite IH.
Qed.
End map_lemmas.

(** ** Context *)

Record ScenarioContext := mkContext { variables : gmap string string }.

Definition context_default : ScenarioContext := mkContext ∅.

Definition context_set (key value : string) (self : ScenarioContext) : ScenarioContext :=
  mkContext (<[key := value]> (variables self)).

Definition context_get (key : string) (self : ScenarioContext) : option string :=
  variables self !! key.

(** ** Ports *)

Record DynamicGrpcRequest := mkGrpcRequest {
  req_service : string;
  req_method : string;
  req_payload : list Z;
}.

Record DynamicGrpcResponse := mkGrpcResponse { resp_payload : list Z }.

Record DynamicGrpcGateway (W : Type) := mkGateway {
  unary : DynamicGrpcRequest -> W -> result PulseError DynamicGrpcResponse * W;
  validate_unary_method : string -> string -> result PulseError unit;
  encode_request_fields : string -> string -> Value -> result PulseError (list Z);
  decode_response_fields : string -> string -> list Z -> result PulseError Value;
}.

Arguments unary {W}.
Arguments validate_unary_method {W}.
Arguments encode_request_fields {W}.
Arguments decode_response_fields {W}.

Record StepPorts (W : Type) := mkPorts {
  default_endpoint : string;
  dynamic_grpc_gateways : gmap string (DynamicGrpcGateway W);
}.

Arguments default_endpoint {W}.
Arguments dynamic_grpc_gateways {W}.
Arguments mkPorts {W}.

(** ** Steps and scenarios *)

Record Step (W : Type) := mkStep {
  step_name : string;
  fingerprint_material : string;
  step_validate : StepPorts W -> result PulseError unit;
  requires_dynamic_grpc : bool;
  dynamic_grpc_endpoint_override : option string;
  step_execute : ScenarioContext -> StepPorts W -> W -> result PulseError unit * ScenarioContext * W;
}.

Arguments step_name {W}.
Arguments fingerprint_material {W}.
Arguments step_validate {W}.
Arguments requires_dynamic_grpc {W}.
Arguments dynamic_grpc_endpoint_override {W}.
Arguments step_execute {W}.
Arguments mkStep {W}.

Inductive RepeatPolicy :=
| Once
| Every (interval : duration).

#[global] Instance RepeatPolicy_eq_dec : EqDecision RepeatPolicy.
Proof. solve_decision. Defined.

Record ScenarioConfig := mkScenarioConfig {
  cfg_endpoint : string;
  cfg_scenarios_per_sec : f64;
  cfg_max_concurrency : Z;
  cfg_duration : duration;
  cfg_repeat : RepeatPolicy;
  cfg_partition_key_strategy : PartitionKeyStrategy;
}.

Record Scenario (W : Type) := mkScenario {
  scenario_name : string;
  steps : list (Step W);
  config : ScenarioConfig;
}.

Arguments scenario_name {W}.
Arguments steps {W}.
Arguments config {W}.
Arguments mkScenario {W}.
