(* ===== verification/Planning.v ===== *)
(** * Load planning, fingerprints and retry delays

    The pure functions of [src/src/application/service.rs] that the scheduler
    and the workers share: how a scenario is cut into slices, how load and
    startup burst are divided, the plan fingerprints, the retry backoff, and
    the bounds on derived identities and failure reasons. *)

From S2P Require Import Prelude RustStr F64 F64Round Contracts Domain.

Definition TARGET_SPS_PER_SLICE : f64 := f64_of_Z 10.
Definition TARGET_CONCURRENCY_PER_SLICE : Z := 25.
Definition MAX_AUTO_SLICES : Z := 128.

Record ScenarioExecutionPlan (W : Type) := mkPlan {
  plan_scenario : Scenario W;
  plan_ports : StepPorts W;
  plan_semantics_fingerprint : string;
}.

Arguments plan_scenario {W}.
Arguments plan_ports {W}.
Arguments plan_semantics_fingerprint {W}.
Arguments mkPlan {W}.

Record NodeRuntimeConfig := mkNodeConfig {
  leader_renew_interval : duration;
  scheduler_tick_interval : duration;
  worker_max_retries : Z;
  worker_retry_base_delay : duration;
  worker_retry_max_delay : duration;
  worker_queue_capacity : Z;
  execution_renew_interval : duration;
  shutdown_drain_timeout : duration;
  max_processing_interval : duration;
  max_job_duration : duration;
  max_scenarios_per_sec : f64;
  node_max_concurrency : Z;
  scenario_timeout : option duration;
  node_startup_burst : Z;
}.

Definition NodeRuntimeConfig_default : NodeRuntimeConfig := {|
  leader_renew_interval := from_secs 3;
  scheduler_tick_interval := from_millis 500;
  worker_max_retries := 2;
  worker_retry_base_delay := from_millis 500;
  worker_retry_max_delay := from_secs 30;
  worker_queue_capacity := 64;
  execution_renew_interval := from_secs 10;
  shutdown_drain_timeout := from_secs 30;
  max_processing_interval := from_secs 299;
  max_job_duration := from_secs 60;
  max_scenarios_per_sec := f64_of_Z 1000;
  node_max_concurrency := 256;
  scenario_timeout := Some (from_secs 30);
  node_startup_burst := 0 |}.

(** ** Slices *)

Definition calculate_slices (rate : f64) (max_conc : Z) (d : duration) : Z :=
  if negb (f64_is_finite rate) || f64_leb rate f64_zero || (max_conc =? 0) then 1
  else
    let slices_by_rate :=
      f64_as_uint u32_max (f64_max (f64_ceil (f64_div rate TARGET_SPS_PER_SLICE)) f64_one) in
    let slices_by_concurrency :=
      f64_as_uint u32_max
        (f64_ceil (f64_div (f64_of_Z max_conc) (f64_of_Z TARGET_CONCURRENCY_PER_SLICE))) in
    let concurrency_cap := default u32_max (try_from u32_max max_conc) in
    let expected_start_cap :=
      f64_as_uint u32_max
        (f64_min (f64_max (f64_floor (f64_mul rate (as_secs_f64 d))) f64_one) (f64_of_Z u32_max)) in
    Z.min (Z.min (Z.min (Z.max (Z.max slices_by_rate slices_by_concurrency) 1) concurrency_cap)
             expected_start_cap) MAX_AUTO_SLICES.

Definition slice_startup_burst (global_burst total_slices slice_index : Z) : Z :=
  let total := Z.max total_slices 1 in
  let base := global_burst / total in
  let remainder := global_burst mod total in
  base + (if slice_index <? remainder then 1 else 0).

Definition slice_load {W} (scenario : Scenario W) (total_slices slice_index global_startup_burst : Z)
    : JobLoadConfig :=
  let total := Z.max total_slices 1 in
  let base := cfg_max_concurrency (config scenario) / total in
  let remainder := cfg_max_concurrency (config scenario) mod total in
  {| scenarios_per_sec := f64_div (cfg_scenarios_per_sec (config scenario)) (f64_of_Z total);
     load_duration := cfg_duration (config scenario);
     max_concurrency := base + (if slice_index <? remainder then 1 else 0);
     startup_burst := slice_startup_burst global_startup_burst total_slices slice_index |}.

Definition planned_slice_loads {W} (scenario : Scenario W) (global_startup_burst : Z)
    : list JobLoadConfig :=
  let total := calculate_slices (cfg_scenarios_per_sec (config scenario))
                 (cfg_max_concurrency (config scenario)) (cfg_duration (config scenario)) in
  map (fun index => slice_load scenario total index global_startup_burst) (rangeZ total).

(** ** Fingerprints *)

Definition FNV_OFFSET : Z := 0x6c62272e07bb014262b821756295c58d.
Definition FNV_PRIME : Z := 0x0000000001000000000000000000013b.

Definition fnv1a_128 (bytes : list Z) : Z :=
  foldl (fun hash byte => wrapping u128_max (Z.lxor hash byte * FNV_PRIME)) FNV_OFFSET bytes.

Definition fnv128_text (bytes : list Z) : string := "fnv128:" +:+ show_hex 32 (fnv1a_128 bytes).

Definition debug_partition (s : PartitionKeyStrategy) : string :=
  match s with ScenarioId => "ScenarioId" | ExecutionKey => "ExecutionKey" end.

Definition scenario_plan_fingerprint {W} (scenario : Scenario W)
    (slices global_startup_burst max_retries : Z) (semantics : string) : string :=
  let cfg := config scenario in
  let repeat := match cfg_repeat cfg with
                | Once => "once"
                | Every interval => "every:" +:+ show (as_millis interval)
                end in
  let material :=
    "v" +:+ show CURRENT_CONTRACT_VERSION +:+ "|endpoint=" +:+ cfg_endpoint cfg
    +:+ "|rate=" +:+ show_hex 16 (f64_to_bits (cfg_scenarios_per_sec cfg))
    +:+ "|duration_ms=" +:+ show (as_millis (cfg_duration cfg))
    +:+ "|concurrency=" +:+ show (cfg_max_concurrency cfg)
    +:+ "|slices=" +:+ show slices +:+ "|startup_burst=" +:+ show global_startup_burst
    +:+ "|max_retries=" +:+ show max_retries +:+ "|repeat=" +:+ repeat
    +:+ "|partition=" +:+ debug_partition (cfg_partition_key_strategy cfg)
    +:+ "|execution_semantics=" +:+ semantics in
  let material :=
    foldl (fun m step => m +:+ "|step=" +:+ fingerprint_material step) material (steps scenario) in
  fnv128_text (bytes_of material).

Definition execution_plan_fingerprint {W} (plan : ScenarioExecutionPlan W)
    (slices global_startup_burst max_retries : Z) : string :=
  scenario_plan_fingerprint (plan_scenario plan) slices global_startup_burst max_retries
    (plan_semantics_fingerprint plan).

Definition CARGO_PKG_VERSION : string := "0.2.0".

Definition execution_semantics_fingerprint (request_timeout : duration)
    (scenario_timeout : option duration) (descriptor_bytes : option (list Z)) : string :=
  let scenario_timeout := from_option (fun d => show (as_millis d)) "none" scenario_timeout in
  let descriptor := from_option fnv128_text "none" descriptor_bytes in
  fnv128_text (bytes_of
    ("engine=" +:+ CARGO_PKG_VERSION +:+ "|request_timeout_ms=" +:+ show (as_millis request_timeout)
     +:+ "|scenario_timeout_ms=" +:+ scenario_timeout +:+ "|descriptor=" +:+ descriptor)).

(** ** Identity budget *)

Definition identity_budget_fields (scenario_id : string) : list (string * string) :=
  let worst_window :=
    "v" +:+ show CURRENT_CONTRACT_VERSION +:+ ":s" +:+ show (str_len scenario_id) +:+ ":"
    +:+ scenario_id +:+ ":w" +:+ show u128_max +:+ ":n" +:+ show MAX_AUTO_SLICES in
  let worst_execution :=
    worst_window +:+ ":slice-" +:+ show (MAX_AUTO_SLICES - 1) +:+ "-of-" +:+ show MAX_AUTO_SLICES in
  [("scenario_id", scenario_id); ("run_id", worst_window); ("execution_key", worst_execution);
   ("result event_id", build_terminal_event_id worst_execution MAX_CONTRACT_ATTEMPT "result");
   ("summary event_id", worst_window +:+ ":summary:r" +:+ show u64_max +:+ ":timed-out")].

Definition validate_scenario_identity_budget (scenario_id : string) : result string unit :=
  try_for (fun '(field, value) =>
      reject_if (blank value || (MAX_CONTRACT_ID_BYTES <? str_len value))
        ("generated " +:+ field +:+ " would exceed the " +:+ show MAX_CONTRACT_ID_BYTES
         +:+ "-byte contract identity bound"))
    (identity_budget_fields scenario_id).

(** ** Retry delays *)

Definition retry_hash (attempt : Z) (entropy : string) : Z :=
  foldl (fun state byte => wrapping u64_max (wrapping u64_max (state * 1099511628211) + byte))
    (wrapping u64_max (attempt + 0x9e3779b9)) (bytes_of entropy).

Definition retry_delay (base maximum : duration) (attempt : Z) (entropy : string) : duration :=
  let multiplier := Z.shiftl 1 (Z.min attempt 16) in
  let exponential := Z.min (duration_saturating_mul base multiplier) maximum in
  let basis_points := 8000 + retry_hash attempt entropy mod 4001 in
  let jittered_nanos := saturating_mul u128_max exponential basis_points / 10000 in
  Z.min (default u64_max (try_from u64_max jittered_nanos)) maximum.

Definition deferred_job_delay (job : ScenarioJob) (now_unix_ms : Z) : duration :=
  let remaining_ms := saturating_sub (job_not_before_unix_ms job) now_unix_ms in
  from_millis (default u64_max (try_from u64_max remaining_ms)).

(** ** Failure reasons and dead letters *)

Definition TRUNCATION_MARKER : string := "...[truncated]".

(** [while boundary > 0 && !reason.is_char_boundary(boundary) { boundary -= 1 }];
    the loop runs at most [boundary] times. *)
Fixpoint char_boundary_at_most (fuel : nat) (s : string) (boundary : Z) : Z :=
  match fuel with
  | O => boundary
  | S f => if (0 <? boundary) && negb (is_char_boundary s boundary)
           then char_boundary_at_most f s (boundary - 1) else boundary
  end.

Definition bounded_failure_reason (reason : string) : string :=
  if str_len reason <=? MAX_CONTRACT_ID_BYTES then reason
  else
    let limit := saturating_sub MAX_CONTRACT_ID_BYTES (str_len TRUNCATION_MARKER) in
    let boundary := char_boundary_at_most (Z.to_nat limit) reason limit in
    str_truncate reason boundary +:+ TRUNCATION_MARKER.

Definition failed_job (job : ScenarioJob) (reason : string) (now_unix_ms : Z) : FailedScenarioJob := {|
  fail_schema_version := CURRENT_CONTRACT_VERSION;
  fail_event_id := build_terminal_event_id (job_execution_key job) (job_attempt job) "dlq";
  fail_scenario_id := job_scenario_id job;
  fail_run_id := job_run_id job;
  fail_execution_key := job_execution_key job;
  fail_slice := job_slice job;
  fail_failed_at_unix_ms := now_unix_ms;
  fail_attempt := job_attempt job;
  fail_max_retries := job_max_retries job;
  fail_reason := bounded_failure_reason reason |}.

Definition local_settlement_attempt_limit (config : NodeRuntimeConfig) : Z :=
  Z.max (saturating_add u32_max (worker_max_retries config) 1) 1.

(** ** What a worker expects of a job *)

Definition load_eqb (a b : JobLoadConfig) : bool :=
  (f64_to_bits (scenarios_per_sec a) =? f64_to_bits (scenarios_per_sec b))
  && (load_duration a =? load_duration b)
  && (max_concurrency a =? max_concurrency b)
  && (startup_burst a =? startup_burst b).

Definition deterministic_job_plan_error {W} (job : ScenarioJob)
    (plans : gmap string (ScenarioExecutionPlan W)) (cfg : NodeRuntimeConfig) : option string :=
  if worker_max_retries cfg <? job_max_retries job then
    Some ("job max_retries " +:+ show (job_max_retries job)
          +:+ " exceeds configured worker ceiling " +:+ show (worker_max_retries cfg))
  else if job_schema_version job <? 2 then None
  else
    plan ← plans !! job_scenario_id job;
    let expected := slice_load (plan_scenario plan) (total (job_slice job)) (index (job_slice job))
                      (node_startup_burst cfg) in
    let show_load (l : JobLoadConfig) :=
      "rate=" +:+ show_f64 (scenarios_per_sec l) +:+ " duration_ms=" +:+ show (as_millis (load_duration l))
      +:+ " concurrency=" +:+ show (max_concurrency l) +:+ " startup_burst=" +:+ show (startup_burst l) in
    if negb (load_eqb (job_load job) expected) then
      Some ("job load does not match deterministic local slice plan: expected "
            +:+ show_load expected +:+ ", found " +:+ show_load (job_load job))
    else
      let fingerprint := execution_plan_fingerprint plan (total (job_slice job))
                           (node_startup_burst cfg) (worker_max_retries cfg) in
      if String.eqb (job_plan_fingerprint job) fingerprint then None
      else Some ("job plan fingerprint '" +:+ job_plan_fingerprint job
                 +:+ "' does not match local plan '" +:+ fingerprint +:+ "'").

(** ** Metric labels *)

Definition status_label (status : ScenarioRunStatus) : string :=
  match status with RunSuccess => "success" | RunFailed => "failure" end.

Definition scenario_metric_label {W} (plans : gmap string (ScenarioExecutionPlan W))
    (scenario_id : string) : string :=
  match plans !! scenario_id with Some _ => scenario_id | None => "unknown" end.

(** ** Division of load among slices *)

Section shares.
Implicit Types n t i : Z.

Lemma sum_below_remainder r t :
  0 <= r -> 0 <= t -> sumZ (map (fun i => if i <? r then 1 else 0) (rangeZ t)) = Z.min r t.
Proof.
  intros Hr Ht. revert t Ht. apply natlike_ind; [simpl; lia|].
  intros t Ht IH. unfold Z.succ. rewrite rangeZ_succ, map_app, sumZ_app, IH by done.
  simpl. destruct (Z.ltb_spec t r); lia.
Qed.

Lemma slice_share_sum n t :
  0 <= n -> 1 <= t -> sumZ (map (slice_startup_burst n t) (rangeZ t)) = n.
Proof.
  intros Hn Ht. unfold slice_startup_burst. rewrite Z.max_l by lia.
  pose proof (Z.mod_pos_bound n t). pose proof (Z.div_mod n t).
  rewrite (sumZ_map_add (fun _ => n / t) (fun i => if i <? n mod t then 1 else 0)).
  rewrite sumZ_map_const, length_rangeZ, sum_below_remainder by lia. lia.
Qed.

Lemma slice_share_mono n1 n2 t i :
  1 <= t -> n1 <= n2 -> slice_startup_burst n1 t i <= slice_startup_burst n2 t i.
Proof.
  intros Ht Hn. unfold slice_startup_burst. rewrite Z.max_l by lia.
  pose proof (Z.div_le_mono n1 n2 t ltac:(lia) Hn).
  pose proof (Z.mod_pos_bound n1 t). pose proof (Z.mod_pos_bound n2 t).
  pose proof (Z.div_mod n1 t). pose proof (Z.div_mod n2 t).
  destruct (Z.ltb_spec i (n1 mod t)), (Z.ltb_spec i (n2 mod t)); try lia.
  assert (n1 / t <> n2 / t); [|lia]. intros Heq. rewrite Heq in *. lia.
Qed.

Lemma slice_share_pos n t i : 1 <= t <= n -> 1 <= slice_startup_burst n t i.
Proof.
  intros. unfold slice_startup_burst. rewrite Z.max_l by lia.
  assert (1 <= n / t) by (apply Z.div_le_lower_bound; lia). destruct (_ <? _); lia.
Qed.

Lemma slice_share_balanced n t i j :
  1 <= t -> slice_startup_burst n t i <= slice_startup_burst n t j + 1.
Proof. intros. unfold slice_startup_burst. do 2 destruct (_ <? _); lia. Qed.

Lemma slice_load_concurrency {W} (s : Scenario W) t i b :
  max_concurrency (slice_load s t i b) = slice_startup_burst (cfg_max_concurrency (config s)) t i.
Proof. done. Qed.
End shares.

Section slice_bounds.

Lemma f64_as_uint_nonneg max x : 0 <= max -> 0 <= f64_as_uint max x <= max.
Proof.
  intros. destruct x as [| [] | | [] m e]; simpl; try lia.
  unfold floor_finite. destruct (Z.leb_spec 0 e); simpl.
  - assert (0 < 2 ^ e) by (apply Z.pow_pos_nonneg; lia). nia.
  - assert (0 <= Zpos m / 2 ^ (- e)) by (apply Z.div_pos; [lia|apply Z.pow_pos_nonneg; lia]). lia.
Qed.

Lemma calculate_slices_max rate c d : 0 < c -> 1 <= Z.min c MAX_AUTO_SLICES ->
  calculate_slices rate c d <= Z.min c MAX_AUTO_SLICES.
Proof.
  intros Hc Hm. unfold calculate_slices. case_match; [lia|].
  set (cap := default u32_max (try_from u32_max c)).
  assert (cap <= c) by (unfold cap, try_from; case_match; simpl in *; bool_hyps; lia || (simpl; lia)).
  lia.
Qed.
(** The arrival cap is at least one: a floor is zero, an integer or not finite,
    and the maximum with one takes care of the first. *)
Lemma arrival_cap_pos x :
  1 <= f64_as_uint u32_max (f64_min (f64_max (f64_floor x) f64_one) (f64_of_Z u32_max)).
Proof.
  assert (forall y, 1 <= f64_as_uint u32_max y ->
            1 <= f64_as_uint u32_max (f64_min y (f64_of_Z u32_max))) as Hmin.
  { intros y Hy. unfold f64_min. destruct (f64_is_nan y); [by vm_compute|].
    destruct (f64_is_nan _); [done|]. destruct (f64_ltb _ _); [by vm_compute|done]. }
  apply Hmin. clear Hmin. unfold f64_max.
  destruct (f64_is_nan (f64_floor x)) eqn:Enan; [by vm_compute|]. change (f64_is_nan f64_one) with false.
  destruct (f64_ltb (f64_floor x) f64_one) eqn:Elt; [by vm_compute|].
  destruct x as [[]|[]| |s m e]; simpl in *; try done.
  unfold f64_of_int_signed in *. set (z := fst _) in *.
  destruct (Z.eqb_spec z 0) as [|Hz]; [by destruct s|].
  destruct (Z.lt_ge_cases z 0) as [Hneg|Hpos].
  - destruct (f64_of_Z_neg_ltb z (4503599627370496%positive, -52) Hneg) as [Hn|Hl]; [congruence|].
    change (f64_ltb (f64_of_Z z) f64_one = true) in Hl. congruence.
  - apply f64_as_uint_of_Z_pos; lia.
Qed.

Lemma calculate_slices_pos rate c d : 0 <= c -> 1 <= calculate_slices rate c d.
Proof.
  intros Hc. unfold calculate_slices. destruct (_ || _) eqn:E; [lia|]. bool_hyps.
  pose proof (arrival_cap_pos (f64_mul rate (as_secs_f64 d))).
  set (cap := default u32_max (try_from u32_max c)).
  assert (1 <= cap).
  { unfold cap, try_from. destruct (_ && _) eqn:E'; simpl; lia. }
  unfold MAX_AUTO_SLICES. lia.
Qed.
End slice_bounds.

(** A finite positive rate. *)
Lemma rate_ok_form rate :
  SpecFloat.valid_binary f64_prec f64_emax rate = true -> rate_ok rate ->
  exists m e, rate = S754_finite false m e /\ SpecFloat.bounded f64_prec f64_emax m e = true.
Proof. intros Hv [Hf Hp]. destruct rate as [|[]| |[] m e]; try done. by exists m, e. Qed.

(** The rates of equal slices add up to the rate, up to the rounding of the
    division. *)
Lemma slice_rates_sum (rate : f64) (slices : list Z) n :
  SpecFloat.valid_binary f64_prec f64_emax rate = true -> rate_ok rate -> 1 <= n < 2 ^ 53 -> Z.of_nat (length slices) = n ->
  let y := f64_div rate (f64_of_Z n) in
  f64_is_finite y = true
  /\ let sum := sumZ (map (fun _ => f64_units y) slices) in 2 ^ 53 * Z.abs (sum - f64_units rate) <= Z.max sum (n * 2 ^ 52).
Proof.
  intros Hv Hr Hn Hl. destruct (rate_ok_form rate Hv Hr) as (m & e & -> & Hb).
  destruct (f64_div_nearest m e n Hb Hn) as [Hf Hd]. cbv zeta. split; [done|].
  rewrite sumZ_map_const, Hl, (Z.mul_comm (f64_units _) n). etransitivity; [exact Hd|]. rewrite <- Z.mul_max_distr_nonneg_l by lia. lia.
Qed.

(** C40: the scheduler's load plan is a partition.  A scenario with positive
    concurrency is cut into at least one and at most 128 slices and never more
    than its concurrency; every slice gets at least one worker slot, no
    more startup burst than slots, and the slots and the burst of all slices
    add up to exactly the configured totals, within one of each other. The rates
    of all slices are finite and add up to the configured rate, but for the
    rounding of the division: by a part in [2 ^ 53] of their sum, or, for rates
    near zero, half the least binary64 per slice. *)
Theorem planned_slice_loads_partition {W} (s : Scenario W) (burst : Z)
    (Hc : 0 < cfg_max_concurrency (config s)) (Hb : 0 <= burst <= cfg_max_concurrency (config s))
    (Htyped : SpecFloat.valid_binary f64_prec f64_emax (cfg_scenarios_per_sec (config s)) = true)
    (Hrate : rate_ok (cfg_scenarios_per_sec (config s))) :
  let loads := planned_slice_loads s burst in
  1 <= Z.of_nat (length loads) <= Z.min 128 (cfg_max_concurrency (config s))
  /\ sumZ (map max_concurrency loads) = cfg_max_concurrency (config s)
  /\ sumZ (map startup_burst loads) = burst
  /\ (let sum := sumZ (map (fun l => f64_units (scenarios_per_sec l)) loads) in
      2 ^ 53 * Z.abs (sum - f64_units (cfg_scenarios_per_sec (config s))) <= Z.max sum (Z.of_nat (length loads) * 2 ^ 52))
  /\ (forall l, l ∈ loads ->
       1 <= max_concurrency l /\ startup_burst l <= max_concurrency l
       /\ load_duration l = cfg_duration (config s) /\ f64_is_finite (scenarios_per_sec l) = true
       /\ forall l', l' ∈ loads -> max_concurrency l <= max_concurrency l' + 1).
Proof.
  unfold planned_slice_loads. set (t := calculate_slices _ _ _).
  assert (1 <= t) as Ht by (apply calculate_slices_pos; lia).
  assert (t <= Z.min (cfg_max_concurrency (config s)) MAX_AUTO_SLICES) as Hmax
    by (apply calculate_slices_max; unfold MAX_AUTO_SLICES; lia).
  unfold MAX_AUTO_SLICES in Hmax. cbv zeta. rewrite length_map, length_rangeZ, !map_map by lia.
  destruct (slice_rates_sum (cfg_scenarios_per_sec (config s)) (rangeZ t) t Htyped Hrate ltac:(lia) (length_rangeZ t ltac:(lia)))
    as [Hfinite Hsum].
  assert (Z.max t 1 = t) as Hmt by lia.
  split; [lia|]. split; [by apply slice_share_sum; lia|]. split; [by apply slice_share_sum; lia|].
  split; [unfold slice_load; cbn [scenarios_per_sec]; by rewrite Hmt|].
  intros l (i & -> & Hi)%elem_of_map. rewrite slice_load_concurrency.
  split; [apply slice_share_pos; lia|]. split; [apply slice_share_mono; lia|]. split; [done|].
  split; [unfold slice_load; cbn [scenarios_per_sec]; by rewrite Hmt|].
  intros l' (j & -> & Hj)%elem_of_map. rewrite slice_load_concurrency.
  apply slice_share_balanced. lia.
Qed.

(** A scenario of 95 slots at 30.5 runs per second for a minute. *)
Definition sample_scenario : Scenario unit := {|
  scenario_name := "checkout"; steps := [];
  config := {| cfg_endpoint := "http://target:50051"; cfg_scenarios_per_sec := f64_of_ratio 61 2;
               cfg_max_concurrency := 95; cfg_duration := from_secs 60; cfg_repeat := Once;
               cfg_partition_key_strategy := ExecutionKey |} |}.

Lemma planned_slice_loads_partition_witness :
  length (planned_slice_loads sample_scenario 6) = 4%nat
  /\ sumZ (map max_concurrency (planned_slice_loads sample_scenario 6))
     = cfg_max_concurrency (config sample_scenario)
  /\ map startup_burst (planned_slice_loads sample_scenario 6) = [2; 2; 1; 1].
Proof.
  split; [by vm_compute|]. split; [|by vm_compute].
  destruct (planned_slice_loads_partition sample_scenario 6) as (_ & H & _);
    [simpl; lia|simpl; lia|by vm_compute|by vm_compute|exact H].
Defined.

(** ** Retry backoff *)

Section backoff.
Implicit Types base maximum : duration.

(** The backoff before jitter: doubling, capped. *)
Definition exponential_backoff base maximum (attempt : Z) : duration :=
  Z.min (base * 2 ^ Z.min attempt 16) maximum.

Lemma exponential_backoff_saturated base maximum attempt :
  0 <= attempt -> maximum <= duration_max ->
  Z.min (duration_saturating_mul base (Z.shiftl 1 (Z.min attempt 16))) maximum
  = exponential_backoff base maximum attempt.
Proof.
  intros. unfold exponential_backoff, duration_saturating_mul, saturating_mul.
  rewrite Z.shiftl_1_l. lia.
Qed.

Lemma retry_delay_unfold base maximum attempt entropy :
  0 <= base -> 0 <= attempt -> 0 <= maximum <= duration_max ->
  exists bp, 8000 <= bp <= 12000
  /\ let jittered := exponential_backoff base maximum attempt * bp / 10000 in
     retry_delay base maximum attempt entropy = Z.min (Z.min jittered u64_max) maximum.
Proof.
  intros Hb Ha Hm. exists (8000 + retry_hash attempt entropy mod 4001).
  pose proof (Z.mod_pos_bound (retry_hash attempt entropy) 4001 ltac:(lia)).
  split; [lia|]. unfold retry_delay. rewrite exponential_backoff_saturated by lia.
  set (e := exponential_backoff base maximum attempt). set (bp := 8000 + _).
  assert (0 <= e <= duration_max).
  { unfold e, exponential_backoff. assert (0 < 2 ^ Z.min attempt 16) by (apply Z.pow_pos_nonneg; lia). nia. }
  assert (saturating_mul u128_max e bp = e * bp) as ->.
  { unfold saturating_mul. apply Z.min_r.
    transitivity (duration_max * 12000); [unfold duration_max in *; nia|by vm_compute]. }
  unfold try_from. assert (0 <= e * bp / 10000) by (apply Z.div_pos; nia).
  cbv zeta. destruct (Z.leb_spec 0 (e * bp / 10000)), (Z.leb_spec (e * bp / 10000) u64_max);
    simpl; lia.
Qed.
End backoff.

(** A retry backs off exponentially with bounded jitter.  The delay never
    exceeds the configured maximum, and stays between 80% and 120% of the base
    delay doubled per attempt (at most 16 times) and capped at the maximum. *)
Theorem retry_delay_bounds (base maximum : duration) (attempt : Z) (entropy : string)
    (Hb : 0 <= base) (Ha : 0 <= attempt) (Hm : 0 <= maximum <= u64_max) :
  let e := exponential_backoff base maximum attempt in
  let d := retry_delay base maximum attempt entropy in
  0 <= d <= maximum /\ 8 * e / 10 <= d /\ 10 * d <= 12 * e.
Proof.
  intros e d. destruct (retry_delay_unfold base maximum attempt entropy Hb Ha) as (bp & Hbp & Hd);
    [unfold duration_max; lia|].
  fold d e in Hd. simpl in Hd.
  assert (0 <= e <= maximum).
  { unfold e, exponential_backoff. assert (0 < 2 ^ Z.min attempt 16) by (apply Z.pow_pos_nonneg; lia). nia. }
  assert (8 * e / 10 <= e * bp / 10000).
  { transitivity (e * 8000 / 10000); [|apply Z.div_le_mono; nia].
    replace (e * 8000) with (8 * e * 1000) by lia. change 10000 with (10 * 1000).
    rewrite (Z.div_mul_cancel_r (8 * e) 10 1000); lia. }
  assert (10000 * (e * bp / 10000) <= e * bp) by (apply Z.mul_div_le; lia).
  assert (0 <= e * bp / 10000) by (apply Z.div_pos; nia).
  assert (8 * e / 10 <= e) by (apply Z.div_le_upper_bound; lia).
  split; [lia|]. split; [lia|]. nia.
Qed.

Lemma retry_delay_bounds_witness :
  retry_delay (from_millis 500) (from_secs 30) 3 "run:0" <= from_secs 30.
Proof.
  destruct (retry_delay_bounds (from_millis 500) (from_secs 30) 3 "run:0") as [[_ H] _];
    [by vm_compute..|exact H].
Defined.

(** ** Truncation of failure reasons *)

Section truncation.

Lemma str_len_substring n s : 0 <= n <= str_len s -> str_len (str_truncate s n) = n.
Proof.
  unfold str_truncate, str_len. intros [H0 H].
  rewrite <- (Z2Nat.id n) at 2 by lia. f_equal.
  assert (Z.to_nat n <= String.length s)%nat as Hn by lia. clear H0 H. revert Hn.
  generalize (Z.to_nat n) as k. induction s as [|c s IH]; intros [|k]; simpl; try lia; [done..|].
  intros. f_equal. apply IH. lia.
Qed.

Lemma str_truncate_prefix s n : exists rest, s = str_truncate s n +:+ rest.
Proof.
  unfold str_truncate. generalize (Z.to_nat n) as k.
  induction s as [|c s IH]; intros [|k]; simpl.
  - by exists EmptyString.
  - by exists EmptyString.
  - by exists (String c s).
  - destruct (IH k) as [r Hr]. exists r. rewrite str_app_cons. by f_equal.
Qed.

Lemma char_boundary_at_most_spec fuel s b :
  0 <= b <= Z.of_nat fuel ->
  let r := char_boundary_at_most fuel s b in
  0 <= r <= b /\ is_char_boundary s r = true
  /\ forall k, r < k <= b -> is_char_boundary s k = false.
Proof.
  revert b. induction fuel as [|fuel IH]; intros b Hb; simpl.
  - assert (b = 0) as -> by lia. split; [lia|]. split; [done|]. intros; lia.
  - destruct ((0 <? b) && negb (is_char_boundary s b)) eqn:E.
    + bool_hyps. destruct (IH (b - 1) ltac:(lia)) as (? & ? & Hk). split; [lia|]. split; [done|].
      intros k ?. destruct (decide (k = b)) as [->|]; [done|]. apply Hk. lia.
    + split; [lia|]. split; [|intros; lia].
      apply andb_false_iff in E as [E|E]; bool_hyps; [|done]. assert (b = 0) as -> by lia. done.
Qed.
End truncation.

(** A failure reason always fits the contract bound.  A short reason is
    kept as it is; a longer one keeps the longest prefix that ends on a
    character boundary and leaves room for the truncation marker, so the cut
    never splits a character. *)
Theorem bounded_failure_reason_spec (reason : string) :
  str_len (bounded_failure_reason reason) <= MAX_CONTRACT_ID_BYTES
  /\ (str_len reason <= MAX_CONTRACT_ID_BYTES -> bounded_failure_reason reason = reason)
  /\ (MAX_CONTRACT_ID_BYTES < str_len reason ->
      exists b, is_char_boundary reason b = true
        /\ bounded_failure_reason reason = str_truncate reason b +:+ TRUNCATION_MARKER
        /\ str_len (str_truncate reason b) = b
        /\ forall k, b < k <= MAX_CONTRACT_ID_BYTES - str_len TRUNCATION_MARKER ->
             is_char_boundary reason k = false).
Proof.
  unfold bounded_failure_reason. destruct (Z.leb_spec (str_len reason) MAX_CONTRACT_ID_BYTES) as [H|H].
  - split; [done|]. split; [done|lia].
  - change (saturating_sub MAX_CONTRACT_ID_BYTES (str_len TRUNCATION_MARKER)) with 1010.
    destruct (char_boundary_at_most_spec (Z.to_nat 1010) reason 1010 ltac:(lia)) as (Hr & Hb & Hk).
    unfold MAX_CONTRACT_ID_BYTES in *. set (b := char_boundary_at_most _ _ _) in *.
    assert (str_len (str_truncate reason b) = b) as Hl by (apply str_len_substring; lia).
    split; [rewrite str_len_app, Hl; change (str_len TRUNCATION_MARKER) with 14; lia|].
    split; [lia|]. intros _. exists b. split_and!; try done.
Qed.

(** Every fingerprint is a short non-empty identity. *)
Lemma str_len_show_hex w z : str_len (show_hex w z) = Z.of_nat w.
Proof.
  revert z. induction w as [|w IH]; intros z; [done|]. simpl show_hex.
  rewrite str_len_app, IH. change (str_len (String _ EmptyString)) with 1. lia.
Qed.

Lemma fnv128_text_len bytes : str_len (fnv128_text bytes) = 39.
Proof. unfold fnv128_text. rewrite str_len_app, str_len_show_hex. done. Qed.
