(* ===== verification/Aggregation.v ===== *)
(** * Run aggregation

    [src/src/application/aggregation.rs]: the outcomes and errors of the durable
    aggregation store, the in-process aggregator, and the quantile of a merged
    histogram.  The theorems show that the in-process aggregator counts every
    slice at most once and completes a run exactly when every slice is in, and
    what a quantile of a histogram is. *)

From S2P Require Import Prelude RustStr F64 Contracts.

(** ** Outcomes of the durable store *)

Inductive RunAggregationUpdate :=
| UpdAccepted (received_slices expected_slices : Z)
| UpdLateAccepted (received_slices expected_slices : Z)
| UpdDuplicate (received_slices expected_slices : Z) (finalized : option ScenarioRunSummaryStatus)
| UpdCompleted (summary : ScenarioRunSummary)
| UpdLateCompleted (summary : ScenarioRunSummary).

Inductive RunExpiryOutcome :=
| ExpMissing
| ExpNotExpired (retry_after : duration)
| ExpMarkedTimedOut (summary : ScenarioRunSummary)
| ExpAlreadyFinalized (summary : ScenarioRunSummary).

Inductive RunFinalizationOutcome :=
| FinMissing
| FinFinalized (summary : ScenarioRunSummary)
| FinAlreadyFinalized (summary : ScenarioRunSummary).

Record DurableRunSummary := mkDurable {
  dur_revision : Z;
  dur_event_id : string;
  dur_pending_publication : bool;
  dur_summary : ScenarioRunSummary;
}.

Inductive SummaryAcknowledgement :=
| Acknowledged
| AlreadyAcknowledged
| StaleAcknowledgement (current_revision : Z)
| MissingSummary.

Inductive RunAggregationStoreError :=
| StoreContract (error : ContractError)
| StoreUnavailable (operation message : string)
| StoreTimeout (operation : string)
| StoreInvalidState (operation message : string)
| StoreInconsistentResult (message : string)
| StoreErrorKindCapacity (max_error_kinds : Z)
| StoreActiveRunCapacity (max_active_runs : Z).

#[global] Instance RunAggregationStoreError_eq_dec : EqDecision RunAggregationStoreError.
Proof. solve_decision. Defined.

Definition show_RunAggregationStoreError (e : RunAggregationStoreError) : string :=
  match e with
  | StoreContract error => "invalid result contract: " +:+ show_ContractError error
  | StoreUnavailable operation message =>
      "aggregation operation '" +:+ operation +:+ "' is unavailable: " +:+ message
  | StoreTimeout operation => "aggregation operation '" +:+ operation +:+ "' timed out"
  | StoreInvalidState operation message =>
      "aggregation operation '" +:+ operation +:+ "' found invalid state: " +:+ message
  | StoreInconsistentResult message => "inconsistent aggregate result: " +:+ message
  | StoreErrorKindCapacity max_error_kinds =>
      "aggregation error-kind capacity of " +:+ show max_error_kinds +:+ " was exceeded"
  | StoreActiveRunCapacity max_active_runs =>
      "aggregation active-run capacity of " +:+ show max_active_runs +:+ " was exhausted"
  end.

(** ** The in-process aggregator *)

Inductive AggregationUpdate :=
| AggAccepted
| AggDuplicate
| AggFinalized (summary : ScenarioRunSummary)
| AggLateUpdate (summary : ScenarioRunSummary).

Inductive AggregationError :=
| AggContract (error : ContractError)
| AggCapacity (max_runs : Z)
| AggInconsistentRun (message : string).

Record RunState := mkRunState {
  run_schema_version : Z;
  run_scenario_id : string;
  run_run_id : string;
  run_expected_slices : Z;
  run_execution_keys : gset string;
  run_slice_indexes : gset Z;
  run_total : Z;
  run_success : Z;
  run_failure : Z;
  run_histogram : gmap Z Z;
  run_errors : gmap string Z;
  run_first_result_at : Z;
  run_last_result_at : Z;
  run_finalized : option ScenarioRunSummaryStatus;
}.

Record RunAggregator := mkAggregator { agg_runs : gmap string RunState; agg_max_runs : Z }.

(** [RunAggregator::new]; [None] is the failed assertion. *)
Definition aggregator_new (max_runs : Z) : option RunAggregator :=
  if 0 <? max_runs then Some (mkAggregator ∅ max_runs) else None.

Definition active_runs (self : RunAggregator) : Z := Z.of_nat (size (agg_runs self)).

Definition from_first (r : ScenarioRunResult) (now : Z) : RunState :=
  mkRunState (res_schema_version r) (res_scenario_id r) (res_run_id r) (total (res_slice r))
    ∅ ∅ 0 0 0 ∅ ∅ now now None.

Definition validate_compatible (self : RunState) (r : ScenarioRunResult) : result AggregationError unit :=
  reject_if (negb (String.eqb (run_scenario_id self) (res_scenario_id r))
             || negb (run_expected_slices self =? total (res_slice r))
             || negb (run_schema_version self =? res_schema_version r))
    (AggInconsistentRun ("run '" +:+ res_run_id r
       +:+ "' changed scenario, slice total, or schema version")).

Definition on_key {A B} (f : A -> B) (le : B -> B -> Prop) (x y : A) : Prop := le (f x) (f y).

#[global] Instance on_key_dec {A B} (f : A -> B) (le : B -> B -> Prop) `{!RelDecision le} :
  RelDecision (on_key f le).
Proof. intros x y. unfold on_key. apply _. Defined.

(** The entries of a [BTreeMap] in key order. *)
Definition btree_entries {K A} `{Countable K} (le : K -> K -> Prop) `{!RelDecision le} (m : gmap K A)
    : list (K * A) :=
  merge_sort (on_key fst le) (map_to_list m).

Definition string_le (a b : string) : Prop := String.leb a b = true.

#[global] Instance string_le_dec : RelDecision string_le.
Proof. intros a b. unfold string_le. apply _. Defined.

Definition histogram_entries (h : gmap Z Z) : list LatencyBucket :=
  map (fun '(bound, count) => mkBucket bound count) (btree_entries Z.le h).

Definition error_entries (e : gmap string Z) : list ErrorCount :=
  map (fun '(kind, count) => mkErrorCount kind count) (btree_entries string_le e).

(** [*map.entry(key).or_insert(0) += n] on [u64] counters. *)
Definition bump {K} `{Countable K} (key : K) (n : Z) (m : gmap K Z) : gmap K Z :=
  <[key := wrapping u64_max (default 0 (m !! key) + n)]> m.

Definition merge_run (self : RunState) (r : ScenarioRunResult) (received_at : Z)
    : result AggregationError RunState :=
  reject_if (negb (bool_decide (run_histogram self = ∅))
             && negb (bool_decide (res_latency_histogram r = []))
             && negb (bool_decide (map fst (btree_entries Z.le (run_histogram self))
                                   = map upper_bound_ms (res_latency_histogram r))))
    (AggInconsistentRun "latency histogram bounds changed between slices");;
  Ok (mkRunState (run_schema_version self) (run_scenario_id self) (run_run_id self)
        (run_expected_slices self)
        ({[res_execution_key r]} ∪ run_execution_keys self)
        ({[index (res_slice r)]} ∪ run_slice_indexes self)
        (saturating_add u64_max (run_total self) (res_total r))
        (saturating_add u64_max (run_success self) (res_success r))
        (saturating_add u64_max (run_failure self) (res_failure r))
        (foldl (fun h b => bump (upper_bound_ms b) (bucket_count b) h) (run_histogram self)
           (res_latency_histogram r))
        (foldl (fun m e => bump (error_kind e) (error_count e) m) (run_errors self)
           (res_error_breakdown r))
        (run_first_result_at self) received_at (run_finalized self)).

(** ** Quantiles *)

Definition quantile_rank (n : Z) (quantile : f64) : Z :=
  f64_as_uint u64_max (f64_max (f64_ceil (f64_mul (f64_of_Z n) quantile)) f64_one).

Fixpoint quantile_scan (rank cumulative previous_bound : Z) (histogram : list LatencyBucket) : Z :=
  match histogram with
  | [] => previous_bound
  | b :: rest =>
      let cumulative' := saturating_add u64_max cumulative (bucket_count b) in
      if rank <=? cumulative'
      then if upper_bound_ms b =? u64_max then previous_bound else upper_bound_ms b
      else quantile_scan rank cumulative' (upper_bound_ms b) rest
  end.

Definition histogram_quantile (histogram : list LatencyBucket) (quantile : f64) : Z :=
  let n := wrapping u64_max (sumZ (map bucket_count histogram)) in
  if n =? 0 then 0 else quantile_scan (quantile_rank n quantile) 0 0 histogram.

Definition q50 : f64 := f64_of_ratio 1 2.
Definition q95 : f64 := f64_of_ratio 19 20.
Definition q99 : f64 := f64_of_ratio 99 100.

Definition run_summary (self : RunState) (status : ScenarioRunSummaryStatus) (finalized_at : Z)
    : ScenarioRunSummary :=
  let histogram := histogram_entries (run_histogram self) in
  mkSummary (run_schema_version self) (run_scenario_id self) (run_run_id self) status
    (run_expected_slices self)
    (wrapping u32_max (Z.of_nat (size (run_slice_indexes self))))
    (filter (fun i => i ∉ run_slice_indexes self) (rangeZ (run_expected_slices self)))
    (run_total self) (run_success self) (run_failure self)
    (histogram_quantile histogram q50) (histogram_quantile histogram q95)
    (histogram_quantile histogram q99)
    histogram (error_entries (run_errors self)) (run_first_result_at self) finalized_at.

Definition finalize_as (status : ScenarioRunSummaryStatus) (self : RunState) : RunState :=
  mkRunState (run_schema_version self) (run_scenario_id self) (run_run_id self)
    (run_expected_slices self) (run_execution_keys self) (run_slice_indexes self)
    (run_total self) (run_success self) (run_failure self) (run_histogram self) (run_errors self)
    (run_first_result_at self) (run_last_result_at self) (Some status).

(** [RunAggregator::ingest].  The entry of a new run is created before the
    compatibility and merge checks and stays when they fail. *)
Definition ingest_state (r : ScenarioRunResult) (received_at : Z) (state : RunState)
    : result AggregationError AggregationUpdate * RunState :=
  match validate_compatible state r with
  | Err e => (Err e, state)
  | Ok _ =>
      if bool_decide (res_execution_key r ∈ run_execution_keys state)
         || bool_decide (index (res_slice r) ∈ run_slice_indexes state)
      then (Ok AggDuplicate, state)
      else
        match merge_run state r received_at with
        | Err e => (Err e, state)
        | Ok merged =>
            if Z.of_nat (size (run_slice_indexes merged)) =? run_expected_slices merged then
              let done_ := finalize_as SummaryComplete merged in
              let summary := run_summary done_ SummaryComplete received_at in
              (Ok (if bool_decide (is_Some (run_finalized state)) then AggLateUpdate summary
                   else AggFinalized summary), done_)
            else (Ok AggAccepted, merged)
        end
  end.

Definition aggregator_ingest (self : RunAggregator) (r : ScenarioRunResult) (received_at : Z)
    : result AggregationError AggregationUpdate * RunAggregator :=
  match ScenarioRunResult_validate r with
  | Err e => (Err (AggContract e), self)
  | Ok _ =>
      if bool_decide (agg_runs self !! res_run_id r = None) && (agg_max_runs self <=? active_runs self)
      then (Err (AggCapacity (agg_max_runs self)), self)
      else
        let state := default (from_first r received_at) (agg_runs self !! res_run_id r) in
        let '(update, state') := ingest_state r received_at state in
        (update, mkAggregator (<[res_run_id r := state']> (agg_runs self)) (agg_max_runs self))
  end.

Definition is_expired (now timeout_ms : Z) (state : RunState) : bool :=
  bool_decide (run_finalized state = None)
  && negb (saturating_sub now (run_first_result_at state) <? timeout_ms).

(** The runs are visited in the unspecified order of the map; the summaries
    are then sorted by run. *)
Definition finalize_expired (self : RunAggregator) (now : Z) (timeout : duration)
    : list ScenarioRunSummary * RunAggregator :=
  let timeout_ms := as_millis timeout in
  let expired := filter (fun p => is_expired now timeout_ms p.2 = true) (map_to_list (agg_runs self)) in
  (merge_sort (on_key sum_run_id string_le)
     (map (fun p => run_summary (finalize_as SummaryTimedOut p.2) SummaryTimedOut now) expired),
   mkAggregator
     ((fun s => if is_expired now timeout_ms s then finalize_as SummaryTimedOut s else s) <$> agg_runs self)
     (agg_max_runs self)).

Definition cancel_run (self : RunAggregator) (run_id : string) (now : Z)
    : option ScenarioRunSummary * RunAggregator :=
  match agg_runs self !! run_id with
  | None => (None, self)
  | Some state =>
      let state' := finalize_as SummaryCancelled state in
      (Some (run_summary state' SummaryCancelled now),
       mkAggregator (<[run_id := state']> (agg_runs self)) (agg_max_runs self))
  end.

Definition remove_run (self : RunAggregator) (run_id : string) : option ScenarioRunSummary * RunAggregator :=
  match agg_runs self !! run_id with
  | None => (None, self)
  | Some state =>
      let status := default SummaryPartial (run_finalized state) in
      (Some (run_summary state status (run_last_result_at state)),
       mkAggregator (delete run_id (agg_runs self)) (agg_max_runs self))
  end.

(** ** What the aggregator accounts for *)

Section accounting.
Implicit Types (r : ScenarioRunResult) (acc : list ScenarioRunResult) (s : RunState).

Definition sum_of (f : ScenarioRunResult -> Z) acc : Z := sumZ (map f acc).

(** The count a list of entries gives to a key. *)
Definition count_at {K E} `{EqDecision K} (key : E -> K) (count : E -> Z) (k : K) (l : list E) : Z :=
  sumZ (map count (filter (fun e => key e = k) l)).

(** State [s] has merged exactly the results [acc], one per slice. *)
Record accounts s acc : Prop := {
  acc_slices : run_slice_indexes s = list_to_set (map (fun r => index (res_slice r)) acc);
  acc_keys : run_execution_keys s = list_to_set (map res_execution_key acc);
  acc_slices_once : NoDup (map (fun r => index (res_slice r)) acc);
  acc_keys_once : NoDup (map res_execution_key acc);
  acc_valid : Forall (fun r => ScenarioRunResult_validate r = Ok tt
                /\ res_scenario_id r = run_scenario_id s
                /\ total (res_slice r) = run_expected_slices s
                /\ res_schema_version r = run_schema_version s) acc;
  acc_total : run_total s = Z.min u64_max (sum_of res_total acc);
  acc_success : run_success s = Z.min u64_max (sum_of res_success acc);
  acc_failure : run_failure s = Z.min u64_max (sum_of res_failure acc);
  acc_histogram : forall b, default 0 (run_histogram s !! b)
    = wrapping u64_max (sumZ (map (fun r => count_at upper_bound_ms bucket_count b (res_latency_histogram r)) acc));
  acc_errors : forall k, default 0 (run_errors s !! k)
    = wrapping u64_max (sumZ (map (fun r => count_at error_kind error_count k (res_error_breakdown r)) acc));
}.

Lemma accounts_from_first r now : accounts (from_first r now) [].
Proof. split; try done; constructor. Qed.

Lemma wrapping_add max a b : 0 <= max -> wrapping max (wrapping max a + b) = wrapping max (a + b).
Proof. intros. unfold wrapping. by rewrite Z.add_mod_idemp_l by lia. Qed.

Lemma bump_fold {K E} `{Countable K} (key : E -> K) (count : E -> Z) (k : K) (l : list E) (m : gmap K Z) (n : Z) :
  default 0 (m !! k) = wrapping u64_max n ->
  default 0 (foldl (fun m e => bump (key e) (count e) m) m l !! k)
  = wrapping u64_max (n + count_at key count k l).
Proof.
  revert m n. induction l as [|e l IH]; intros m n Hm; unfold count_at; simpl.
  - by rewrite Z.add_0_r.
  - rewrite filter_cons. destruct (decide (key e = k)) as [<-|Hne]; simpl.
    + rewrite (IH _ (n + count e)); [unfold count_at; f_equal; lia|].
      unfold bump. rewrite lookup_insert_eq. simpl. by rewrite Hm, wrapping_add by lia.
    + apply IH. unfold bump. by rewrite lookup_insert_ne.
Qed.

Lemma saturating_sum a b : 0 <= b -> saturating_add u64_max (Z.min u64_max a) b = Z.min u64_max (b + a).
Proof. unfold saturating_add. lia. Qed.

(** Merging a result that no accepted result shares a slice or key with. *)
Lemma accounts_merge s acc r at_ms s' :
  accounts s acc -> ScenarioRunResult_validate r = Ok tt ->
  0 <= res_total r -> 0 <= res_success r -> 0 <= res_failure r ->
  validate_compatible s r = Ok tt -> merge_run s r at_ms = Ok s' ->
  res_execution_key r ∉ run_execution_keys s -> index (res_slice r) ∉ run_slice_indexes s ->
  accounts s' (r :: acc).
Proof.
  intros [Hs Hk Hns Hnk Hv Ht Hsu Hf Hh He] Hvalid Ht0 Hs0 Hf0 Hc Hm Hfk Hfs.
  unfold validate_compatible in Hc. unfold merge_run in Hm. inv_ok. subst s'. bool_hyps.
  assert (res_scenario_id r = run_scenario_id s) as Hsc
    by (symmetry; by apply String.eqb_eq).
  rewrite Hs in Hfs. rewrite Hk in Hfk. rewrite elem_of_list_to_set in Hfs. rewrite elem_of_list_to_set in Hfk.
  split; simpl; try (by rewrite ?Ht, ?Hsu, ?Hf, saturating_sum).
  - by rewrite Hs.
  - by rewrite Hk.
  - by constructor.
  - by constructor.
  - constructor; [done|]. exact Hv.
  - intros b. rewrite (bump_fold upper_bound_ms bucket_count b _ _ _ (Hh b)). f_equal. lia.
  - intros k. rewrite (bump_fold error_kind error_count k _ _ _ (He k)). f_equal. lia.
Qed.

Lemma accounts_finalize status s acc : accounts s acc -> accounts (finalize_as status s) acc.
Proof. by intros [? ? ? ? ? ? ? ? ? ?]. Qed.

Lemma accounts_size s acc : accounts s acc -> size (run_slice_indexes s) = length acc.
Proof.
  intros Ha. rewrite (acc_slices _ _ Ha), size_list_to_set by apply (acc_slices_once _ _ Ha).
  apply length_map.
Qed.

(** Distinct slices of a run are at most as many as the run expects. *)
Lemma accounts_length s acc :
  accounts s acc -> Forall result_typed acc -> 0 <= run_expected_slices s ->
  Z.of_nat (length acc) <= run_expected_slices s.
Proof.
  intros Ha Hty He.
  assert (map (fun r => index (res_slice r)) acc ⊆ rangeZ (run_expected_slices s)) as Hsub.
  { intros i (r & -> & Hr)%elem_of_map. pose proof (acc_valid _ _ Ha) as Hv.
    rewrite Forall_forall in Hv, Hty. destruct (Hv r Hr) as (Hok & _ & Htot & _). specialize (Hty r Hr).
    apply result_contract_iff in Hok; [|done]. destruct (rc_slice _ Hok) as [[Hlt _] _].
    apply elem_of_rangeZ. destruct Hty as (_ & _ & _ & Hi & _). mlia. }
  apply NoDup_submseteq, submseteq_length in Hsub; [|apply (acc_slices_once _ _ Ha)].
  rewrite length_map in Hsub. pose proof (length_rangeZ _ He). lia.
Qed.

(** A run of an aggregator that only ingests: its state accounts for distinct
    slices, and it is complete exactly when all of them are in. *)
Record run_ok (id : string) s acc : Prop := {
  ok_accounts : accounts s acc;
  ok_typed : Forall result_typed acc;
  ok_ids : Forall (fun r => res_run_id r = id) acc;
  ok_run : run_run_id s = id;
  ok_expected : 0 < run_expected_slices s;
  ok_final : run_finalized s
    = if Z.of_nat (length acc) =? run_expected_slices s then Some SummaryComplete else None;
}.

Lemma run_ok_first r now :
  result_typed r -> ScenarioRunResult_validate r = Ok tt ->
  run_ok (res_run_id r) (from_first r now) [].
Proof.
  intros Hty Hv. apply result_contract_iff in Hv; [|done]. destruct (rc_slice _ Hv) as [_ Hne].
  destruct Hty as (_ & _ & _ & _ & Ht & _). split; try done.
  - apply accounts_from_first.
  - simpl. mlia.
  - destruct (Z.eqb_spec (Z.of_nat (length (@nil ScenarioRunResult))) (run_expected_slices (from_first r now)));
      [simpl in *; lia|done].
Qed.

Lemma ingest_state_ok id s acc r at_ms :
  run_ok id s acc -> result_typed r -> ScenarioRunResult_validate r = Ok tt -> res_run_id r = id ->
  exists acc', run_ok id (ingest_state r at_ms s).2 acc' /\ (acc' = acc \/ acc' = r :: acc)
    /\ match (ingest_state r at_ms s).1 with
       | Ok AggDuplicate => acc' = acc
       | Ok AggAccepted => acc' = r :: acc /\ Z.of_nat (length acc') < run_expected_slices s
       | Ok (AggFinalized sum) | Ok (AggLateUpdate sum) =>
           acc' = r :: acc /\ Z.of_nat (length acc') = run_expected_slices s
           /\ sum = run_summary (ingest_state r at_ms s).2 SummaryComplete at_ms
       | Err _ => acc' = acc
       end.
Proof.
  intros Hok Hty Hv Hid. pose proof Hok as [Ha Htys Hids Hrun Hexp Hfin]. unfold ingest_state.
  destruct (validate_compatible s r) as [[]|e] eqn:Ec; [|exists acc; split; [exact Hok|split; [by left|done]]].
  case_bool_decide as Hk; simpl; [exists acc; split; [exact Hok|split; [by left|done]]|].
  case_bool_decide as Hi; simpl; [exists acc; split; [exact Hok|split; [by left|done]]|].
  destruct (merge_run s r at_ms) as [s'|e] eqn:Em; [|exists acc; split; [exact Hok|split; [by left|done]]].
  assert (accounts s' (r :: acc)) as Ha'
    by (destruct Hty as ([] & [] & [] & _); by eapply accounts_merge).
  assert (run_expected_slices s' = run_expected_slices s /\ run_run_id s' = run_run_id s
          /\ run_finalized s' = run_finalized s) as (He & Hr & Hf)
    by (unfold merge_run in Em; inv_ok; by subst s').
  assert (Forall result_typed (r :: acc)) as Htys' by (by constructor).
  pose proof (accounts_length _ _ Ha' Htys' ltac:(lia)) as Hlen.
  rewrite (accounts_size _ _ Ha'), He. rewrite He in Hlen. exists (r :: acc).
  destruct (Z.eqb_spec (Z.of_nat (length (r :: acc))) (run_expected_slices s)) as [Hdone|Hmore].
  - split; [|split; [by right|by case_bool_decide]].
    split; cbn [snd finalize_as run_run_id run_expected_slices run_finalized];
      [by apply accounts_finalize|exact Htys'|by constructor|congruence|lia|].
    rewrite He. by apply Z.eqb_eq in Hdone as ->.
  - split; [|split; [by right|split; [done|simpl in *; lia]]].
    split; cbn [snd]; [done|exact Htys'|by constructor|congruence|lia|]. rewrite He, Hf, Hfin.
    destruct (Z.eqb_spec (Z.of_nat (length acc)) (run_expected_slices s)); [simpl in *; lia|].
    by destruct (Z.eqb_spec (Z.of_nat (length (r :: acc))) (run_expected_slices s)).
Qed.

(** Ingesting a sequence of results. *)
Definition ingest_all (self : RunAggregator) (l : list (ScenarioRunResult * Z)) : RunAggregator :=
  foldl (fun a '(r, at_ms) => (aggregator_ingest a r at_ms).2) self l.

Definition aggregator_ok (max_runs : Z) (a : RunAggregator) (seen : list ScenarioRunResult) : Prop :=
  agg_max_runs a = max_runs /\ active_runs a <= max_runs
  /\ forall id s, agg_runs a !! id = Some s ->
       exists acc, run_ok id s acc /\ acc ⊆ seen.

Lemma aggregator_ingest_ok m a seen r at_ms :
  aggregator_ok m a seen -> result_typed r -> aggregator_ok m (aggregator_ingest a r at_ms).2 (r :: seen).
Proof.
  intros (Hmax & Hcap & Hruns) Hty.
  assert (aggregator_ok m a (r :: seen)) as Hkeep.
  { split; [done|]. split; [done|]. intros id s Hs. destruct (Hruns id s Hs) as (acc & ? & ?). exists acc. set_solver. }
  unfold aggregator_ingest. destruct (ScenarioRunResult_validate r) as [[]|e] eqn:Ev; [|done].
  destruct (bool_decide _ && _) eqn:Efull; [done|].
  assert (exists acc, run_ok (res_run_id r) (default (from_first r at_ms) (agg_runs a !! res_run_id r)) acc
    /\ acc ⊆ seen) as (acc & Hok & Hsub).
  { destruct (agg_runs a !! res_run_id r) as [s|] eqn:Es; simpl; [by apply Hruns|].
    exists []. split; [by apply run_ok_first|set_solver]. }
  destruct (ingest_state_ok _ _ _ r at_ms Hok Hty Ev eq_refl) as (acc' & Hok' & Hacc' & _).
  destruct (ingest_state r at_ms _) as [u s'] eqn:Ei. simpl in *. split; [done|]. split.
  - unfold active_runs in *. simpl. destruct (agg_runs a !! res_run_id r) as [s|] eqn:Es.
    + rewrite map_size_insert_Some by (by eexists). done.
    + rewrite map_size_insert_None by done. rewrite bool_decide_true in Efull by done. simpl in Efull.
      bool_hyps. unfold active_runs in *. lia.
  - intros id s. simpl. intros [[<- <-]|[Hne Hs]]%lookup_insert_Some.
    + exists acc'. split; [done|]. intros x Hx. destruct Hacc' as [->| ->]; [right; by apply Hsub|].
      apply elem_of_cons in Hx as [->|Hx]; [left|right; by apply Hsub].
    + destruct (Hruns id s Hs) as (acc0 & ? & ?). exists acc0. set_solver.
Qed.

Lemma ingest_all_ok m l a seen :
  aggregator_ok m a seen -> Forall (fun p => result_typed p.1) l ->
  aggregator_ok m (ingest_all a l) (rev (map fst l) ++ seen).
Proof.
  intros Ha Hl. revert a seen Ha. induction Hl as [|[r t] l Hr Hl IH]; intros a seen Ha; [done|].
  simpl. rewrite <- app_assoc. apply IH. by apply aggregator_ingest_ok.
Qed.
End accounting.

Section quantiles.
Implicit Types (h : list LatencyBucket) (rank cum prev : Z).

Definition counts h : Z := sumZ (map bucket_count h).

(** The bound reported for the first bucket [b] after [pre]: its own, or the
    one before it when [b] collects the observations beyond the last bound. *)
Definition reported_bound prev (pre : list LatencyBucket) (b : LatencyBucket) : Z :=
  if upper_bound_ms b =? u64_max then default prev (upper_bound_ms <$> last pre) else upper_bound_ms b.

Definition counts_ok h cum : Prop :=
  Forall (fun b => 0 <= bucket_count b) h /\ 0 <= cum /\ cum + counts h <= u64_max.

Lemma counts_ok_cons b h cum :
  counts_ok (b :: h) cum -> counts_ok h (cum + bucket_count b)
    /\ saturating_add u64_max cum (bucket_count b) = cum + bucket_count b.
Proof.
  unfold counts_ok, counts, saturating_add. simpl. intros (Hb & Hc & Hs). apply Forall_cons in Hb as [Hb Hh].
  assert (0 <= sumZ (map bucket_count h)) by (apply sumZ_nonneg, Forall_map; done).
  split; [split; [done|]|]; lia.
Qed.

Lemma last_bound_cons prev b (pre : list LatencyBucket) :
  default (upper_bound_ms b) (upper_bound_ms <$> last pre) = default prev (upper_bound_ms <$> last (b :: pre)).
Proof. rewrite last_cons. by destruct (last pre). Qed.

(** The scan stops at the first bucket whose cumulative count reaches the rank. *)
Lemma quantile_scan_spec rank cum prev h :
  counts_ok h cum ->
  (exists pre b post, h = pre ++ b :: post /\ (pre = [] \/ cum + counts pre < rank)
     /\ rank <= cum + counts (pre ++ [b]) /\ quantile_scan rank cum prev h = reported_bound prev pre b)
  \/ ((h = [] \/ cum + counts h < rank)
      /\ quantile_scan rank cum prev h = default prev (upper_bound_ms <$> last h)).
Proof.
  revert cum prev. induction h as [|b h IH]; intros cum prev Hok; [by right; split; [left|]|].
  destruct (counts_ok_cons _ _ _ Hok) as [Hok' Hsat]. simpl. rewrite Hsat.
  destruct (Z.leb_spec rank (cum + bucket_count b)) as [Hle|Hgt].
  - left. exists [], b, h. unfold counts, reported_bound. simpl. split_and!; try done; [by left|lia].
  - destruct (IH (cum + bucket_count b) (upper_bound_ms b) Hok')
      as [(pre & b' & post & -> & Hpre & Hr & E)|[Hlt E]].
    + left. exists (b :: pre), b', post. rewrite E. unfold counts, reported_bound in *. simpl.
      split_and!; [done| |lia|by rewrite (last_bound_cons prev)].
      right. destruct Hpre as [->|Hpre]; simpl; lia.
    + right. rewrite E, (last_bound_cons prev). split; [|done]. right. unfold counts in *. simpl.
      destruct Hlt as [->|Hlt]; simpl; lia.
Qed.

(** On increasing bounds the scan is at least the bound before it. *)
Lemma quantile_scan_ge rank cum prev h :
  StronglySorted Z.lt (prev :: map upper_bound_ms h) -> prev <= quantile_scan rank cum prev h.
Proof.
  revert cum prev. induction h as [|b h IH]; intros cum prev Hs; [done|]. simpl.
  apply StronglySorted_inv in Hs as [Hs Hp]. simpl in Hp. apply Forall_cons in Hp as [Hp _].
  specialize (IH (saturating_add u64_max cum (bucket_count b)) (upper_bound_ms b) Hs).
  destruct (_ <=? _); [destruct (_ =? _)|]; lia.
Qed.

Lemma quantile_scan_mono r1 r2 cum prev h :
  r1 <= r2 -> StronglySorted Z.lt (prev :: map upper_bound_ms h) ->
  quantile_scan r1 cum prev h <= quantile_scan r2 cum prev h.
Proof.
  intros Hr. revert cum prev. induction h as [|b h IH]; intros cum prev Hs; [done|]. simpl.
  pose proof Hs as Hs'. apply StronglySorted_inv in Hs' as [Hs' Hp]. simpl in Hp. apply Forall_cons in Hp as [Hp _].
  pose proof (quantile_scan_ge r2 (saturating_add u64_max cum (bucket_count b)) (upper_bound_ms b) h Hs').
  destruct (Z.leb_spec r1 (saturating_add u64_max cum (bucket_count b))),
    (Z.leb_spec r2 (saturating_add u64_max cum (bucket_count b))); [done| |lia|by apply IH].
  destruct (Z.eqb_spec (upper_bound_ms b) u64_max); lia.
Qed.
End quantiles.

(** C39: exactly-once accounting in process.  After ingesting any sequence of
    results, in any order and with any duplicates, every tracked run has merged
    a set of distinct slices under distinct execution keys, all compatible with
    the run; its counters, histogram and error counts are exactly the sums over
    those slices at their machine widths; it is complete exactly when every
    expected slice is in; and the number of tracked runs stays bounded. *)
Theorem aggregator_counts_each_slice_once max_runs a l
    (Hnew : aggregator_new max_runs = Some a) (Hl : Forall (fun p => result_typed p.1) l) :
  active_runs (ingest_all a l) <= max_runs
  /\ forall id s, agg_runs (ingest_all a l) !! id = Some s ->
       exists acc, accounts s acc /\ acc ⊆ map fst l /\ Forall (fun r => res_run_id r = id) acc
         /\ Z.of_nat (length acc) <= run_expected_slices s
         /\ (run_finalized s = Some SummaryComplete <-> Z.of_nat (length acc) = run_expected_slices s).
Proof.
  unfold aggregator_new in Hnew. destruct (Z.ltb_spec 0 max_runs); [|done]. injection Hnew as <-.
  assert (aggregator_ok max_runs (mkAggregator ∅ max_runs) []) as H0.
  { split; [done|]. split; [unfold active_runs; simpl; rewrite map_size_empty; lia|].
    intros id s. simpl. by rewrite lookup_empty. }
  pose proof (ingest_all_ok max_runs l _ [] H0 Hl) as (_ & Hcap & Hruns).
  split; [done|]. intros id s Hs. destruct (Hruns id s Hs) as (acc & [Ha Hty Hids _ He Hf] & Hsub).
  exists acc. split; [done|]. split; [|split; [done|]].
  - intros r Hr%Hsub. rewrite app_nil_r in Hr. rewrite list_elem_of_In, <- in_rev, <- list_elem_of_In in Hr. done.
  - split; [apply (accounts_length _ _ Ha Hty); lia|]. rewrite Hf.
    by destruct (Z.eqb_spec (Z.of_nat (length acc)) (run_expected_slices s)).
Qed.

(** Quantiles of a merged histogram.  The reported quantile is the upper
    bound of the first bucket at which the cumulative count reaches the rank
    (the last finite bound when that bucket is the overflow bucket), and a
    larger rank never gives a smaller latency. *)
Theorem histogram_quantile_spec h q1 q2
    (Hc : Forall (fun b => 0 <= bucket_count b) h) (Hpos : 0 < counts h <= u64_max)
    (Hs : StronglySorted Z.lt (0 :: map upper_bound_ms h))
    (Hrank : quantile_rank (counts h) q1 <= quantile_rank (counts h) q2) :
  ((exists pre b post, h = pre ++ b :: post
      /\ (pre = [] \/ counts pre < quantile_rank (counts h) q1)
      /\ quantile_rank (counts h) q1 <= counts (pre ++ [b])
      /\ histogram_quantile h q1 = reported_bound 0 pre b)
   \/ (counts h < quantile_rank (counts h) q1
       /\ histogram_quantile h q1 = default 0 (upper_bound_ms <$> last h)))
  /\ histogram_quantile h q1 <= histogram_quantile h q2.
Proof.
  unfold histogram_quantile. fold (counts h). rewrite wrapping_small by mlia.
  destruct (Z.eqb_spec (counts h) 0); [lia|]. split; [|by apply quantile_scan_mono].
  destruct (quantile_scan_spec (quantile_rank (counts h) q1) 0 0 h) as [(pre & b & post & E & H1 & H2 & H3)|[Hlt E]].
  - split; [done|lia].
  - left. exists pre, b, post. rewrite Z.add_0_l in *. done.
  - right. rewrite E. split; [|done]. destruct Hlt as [->|Hlt]; [done|lia].
Qed.

(** ** Witnesses *)

Definition sample_duplicate : list (ScenarioRunResult * Z) :=
  [(sample_result, 1000); (sample_result, 2000)].

Lemma aggregator_counts_each_slice_once_witness :
  active_runs (ingest_all (mkAggregator ∅ 2) sample_duplicate) <= 2
  /\ (run_total <$> agg_runs (ingest_all (mkAggregator ∅ 2) sample_duplicate) !! "run") = Some 5.
Proof.
  destruct (aggregator_counts_each_slice_once 2 (mkAggregator ∅ 2) sample_duplicate eq_refl
    ltac:(by apply Forall_cons; split; [apply sample_result_typed|apply Forall_singleton, sample_result_typed])) as [H _].
  split; [exact H|]. vm_compute. reflexivity.
Defined.

Definition sample_histogram : list LatencyBucket := [mkBucket 10 5; mkBucket 100 4; mkBucket u64_max 1].

Lemma histogram_quantile_spec_witness :
  histogram_quantile sample_histogram q50 = 10 /\ histogram_quantile sample_histogram q95 = 100
  /\ histogram_quantile sample_histogram q50 <= histogram_quantile sample_histogram q95.
Proof.
  split; [by vm_compute|]. split; [by vm_compute|].
  refine (proj2 (histogram_quantile_spec sample_histogram q50 q95 _ _ _ _)).
  - repeat (apply Forall_cons; split; [by vm_compute|]). constructor.
  - by vm_compute.
  - repeat constructor.
  - by vm_compute.
Defined.
