(* ===== verification/Lua.v ===== *)
(** * Lua numbers and scripts

    The Redis scripts of [src/src/infrastructure/redis] are Lua programs.
    This file models what they use of the language: numbers (doubles, of which
    the scripts only ever hold integers), their conversion to and from text,
    and a script as a computation that threads the database and may raise. *)

From S2P Require Import Prelude RustStr.

(** ** Numbers *)

(** The double nearest to an integer, ties to even: exact up to 2^53. *)
Definition lua_norm (z : Z) : Z :=
  let a := Z.abs z in
  if a <=? 2 ^ 53 then z
  else
    let unit := 2 ^ (Z.log2 a - 52) in
    let q := a / unit in
    let r := a mod unit in
    let q' := if (unit <? 2 * r) || ((2 * r =? unit) && Z.odd q) then q + 1 else q in
    Z.sgn z * (q' * unit).

Definition lua_add (a b : Z) : Z := lua_norm (a + b).
Definition lua_sub (a b : Z) : Z := lua_norm (a - b).
Definition lua_mul (a b : Z) : Z := lua_norm (a * b).

(** [math.floor(a / b)] on integers whose quotient is below 2^53. *)
Definition lua_floor_div (a b : Z) : Z := a / b.

(** [%.14g] on an integer of more than 14 digits: 14 significant digits,
    trailing zeros dropped, and an exponent. *)
Definition lua_exponent_form (a : Z) : string :=
  let k := str_len (show a) - 14 in
  let unit := 10 ^ k in
  let q := a / unit in
  let r := a mod unit in
  let q := if (unit <? 2 * r) || ((2 * r =? unit) && Z.odd q) then q + 1 else q in
  let digits := show q in
  let e := k + str_len digits - 1 in
  match digits with
  | String d rest =>
      let frac := strip_trailing_zeros rest in
      String d (if str_is_empty frac then EmptyString else "." +:+ frac)
      +:+ "e+" +:+ (if e <? 10 then "0" else EmptyString) +:+ show e
  | EmptyString => EmptyString
  end.

(** [tostring(n)]: the [%.14g] format of Lua 5.1, decimal below 10^14. *)
Definition tostring (z : Z) : string :=
  if Z.abs z <? 10 ^ 14 then show z
  else (if z <? 0 then "-" else EmptyString) +:+ lua_exponent_form (Z.abs z).

(** [tonumber(s)] on the numerals the code writes: an optional sign, digits,
    and the exponent form of [tostring]. *)
Definition tonumber_nat (s : string) : option Z :=
  match split_once "e+" s with
  | None => parse_nat s
  | Some (mantissa, exponent) =>
      e ← parse_nat exponent;
      match split_once "." mantissa with
      | None => m ← parse_nat mantissa; Some (m * 10 ^ e)
      | Some (i, f) =>
          m ← parse_nat (i +:+ f);
          if str_len f <=? e then Some (m * 10 ^ (e - str_len f)) else None
      end
  end.

Definition tonumber (s : string) : option Z :=
  match s with
  | String "-" r => z ← tonumber_nat r; Some (lua_norm (- z))
  | _ => z ← tonumber_nat s; Some (lua_norm z)
  end.

(** The integers [tostring] prints in full. *)
Definition lua_exact (z : Z) : Prop := Z.abs z < 10 ^ 14.

#[global] Instance lua_exact_dec z : Decision (lua_exact z).
Proof. unfold lua_exact. apply _. Defined.

Section number_lemmas.
Implicit Types (z a b : Z) (s : string).

Lemma lua_norm_exact z : Z.abs z <= 2 ^ 53 -> lua_norm z = z.
Proof. intros H. unfold lua_norm. by apply Z.leb_le in H as ->. Qed.

Lemma lua_add_exact a b : Z.abs (a + b) <= 2 ^ 53 -> lua_add a b = a + b.
Proof. apply lua_norm_exact. Qed.

Lemma lua_sub_exact a b : Z.abs (a - b) <= 2 ^ 53 -> lua_sub a b = a - b.
Proof. apply lua_norm_exact. Qed.

Lemma lua_mul_exact a b : Z.abs (a * b) <= 2 ^ 53 -> lua_mul a b = a * b.
Proof. apply lua_norm_exact. Qed.

Lemma digits_no_exponent s : all_chars is_digit s = true -> split_once "e+" s = None.
Proof.
  induction s as [|c s IH]; [done|]. intros [Hc Hs]%andb_true_iff.
  specialize (IH Hs). destruct c as [[] [] [] [] [] [] [] []]; try done; simpl; by rewrite IH.
Qed.

Lemma tonumber_show z : 0 <= z <= 2 ^ 53 -> tonumber (show z) = Some z.
Proof.
  intros Hz. unfold tonumber. pose proof (show_digits z ltac:(lia)) as Hd.
  pose proof (show_len_pos z ltac:(lia)) as Hl. pose proof (parse_digits_show z ltac:(lia)) as Hp.
  assert (tonumber_nat (show z) = Some z) as Hn.
  { unfold tonumber_nat. rewrite digits_no_exponent by done. unfold parse_nat.
    destruct (show z); [by vm_compute in Hl|done]. }
  destruct (show z) as [|c r]; [by vm_compute in Hl|].
  assert (c <> "-"%char) by (intros ->; by vm_compute in Hd).
  destruct c as [[] [] [] [] [] [] [] []]; try done; rewrite Hn; simpl; by rewrite lua_norm_exact by lia.
Qed.

Lemma tostring_exact z : lua_exact z -> tostring z = show z.
Proof. unfold lua_exact, tostring. intros H. by apply Z.ltb_lt in H as ->. Qed.

(** [tonumber] reads back what [tostring] wrote, within 14 digits. *)
Lemma tonumber_tostring z : 0 <= z -> lua_exact z -> tonumber (tostring z) = Some z.
Proof.
  intros Hz He. rewrite tostring_exact by done. apply tonumber_show.
  unfold lua_exact in He. lia.
Qed.
End number_lemmas.

(** Beyond 14 digits the text is rounded, so reading it back loses the units. *)
Example tonumber_tostring_rounds :
  tonumber (tostring 123456789012345678) = Some 123456789012350000.
Proof. vm_compute. reflexivity. Qed.
