(* ===== verification/Redis.v ===== *)
(** * The Redis server the code relies on

    Redis is not part of the sources: a database is a parameter of the model,
    with the commands the scripts of [src/src/infrastructure/redis] issue
    (class [Redis]), what can be observed of it ([RedisView]) and the documented
    effect of every command on those observations ([RedisLaws]).  A script runs
    atomically, as a state-passing computation that may raise.  [RedisMem] gives
    an in-memory instance that satisfies every law. *)

From S2P Require Import Prelude RustStr Lua.

(** ** Commands *)

Class Redis (db : Type) : Type := {
  TIME : db -> string * string;
  EXISTS : string -> db -> bool;
  PTTL : string -> db -> Z;
  HGET : string -> string -> db -> result string (option string);
  HEXISTS : string -> string -> db -> result string bool;
  HGETALL : string -> db -> result string (list string);
  ZCARD : string -> db -> result string Z;
  ZRANGEBYSCORE : string -> Z -> Z -> db -> result string (list string);
  ZRANGE : string -> Z -> db -> result string (list string);
  HSET : string -> list (string * string) -> db -> result string unit * db;
  HDEL : string -> list string -> db -> result string unit * db;
  HSETNX : string -> string -> string -> db -> result string Z * db;
  HINCRBY : string -> string -> Z -> db -> result string Z * db;
  INCR : string -> db -> result string Z * db;
  PEXPIRE : string -> Z -> db -> result string unit * db;
  PERSIST : string -> db -> result string unit * db;
  DEL : string -> db -> result string unit * db;
  ZADD : string -> Z -> string -> db -> result string unit * db;
  ZREM : string -> string -> db -> result string unit * db;
  ZREMRANGEBYSCORE : string -> Z -> db -> result string unit * db;
}.

(** ** Observations

    A hash, sorted-set or integer view of a key is [None] when the key holds a
    value of another type; an absent key is the empty hash, the empty set and
    the integer 0. *)
Class RedisView (db : Type) : Type := {
  clock : db -> Z;
  hash : db -> string -> option (gmap string string);
  zset : db -> string -> option (gmap string Z);
  int_at : db -> string -> option Z;
  expiry : db -> string -> option Z;
}.

Section view.
Context {db : Type} `{RedisView db}.
Implicit Types d : db.

(** The server clock in milliseconds. *)
Definition now_ms d : Z := clock d / 1000.

Definition same_key d d' k : Prop :=
  hash d' k = hash d k /\ zset d' k = zset d k /\ int_at d' k = int_at d k
  /\ expiry d' k = expiry d k.

(** A command that touches nothing but [k]. *)
Definition frame d d' k : Prop :=
  clock d' = clock d /\ forall k', k' <> k -> same_key d d' k'.

(** [HSET] of several fields, left to right. *)
Definition hset_fields (l : list (string * string)) (h : gmap string string) : gmap string string :=
  foldl (fun h p => <[p.1 := p.2]> h) h l.

Definition hdel_fields (l : list string) (h : gmap string string) : gmap string string :=
  foldl (fun h f => delete f h) h l.

Definition keep_expiry (h : gmap string string) (e : option Z) : option Z :=
  if decide (h = ∅) then None else e.

(** The members of a sorted set in the order Redis lists them. *)
Definition zmembers_sorted (z : gmap string Z) (l : list string) : Prop :=
  NoDup l /\ (forall m, m ∈ l <-> is_Some (z !! m))
  /\ Sorted (fun a b => default 0 (z !! a) <= default 0 (z !! b)) l.

(** The fields and values [HGETALL] replies with, flattened. *)
Definition flatten_pairs (l : list (string * string)) : list string :=
  concat (map (fun p => [p.1; p.2]) l).
End view.

(** ** Documented behaviour *)

Class RedisLaws (db : Type) `{Redis db, RedisView db} : Prop := {
  clock_nonneg (d : db) : 0 <= clock d;
  time_law (d : db) : TIME d = (show (clock d / 1000000), show (clock d mod 1000000));
  expiry_absent (d : db) k : hash d k = Some ∅ -> expiry d k = None;
  expiry_live (d : db) k h t :
    hash d k = Some h -> h <> ∅ -> expiry d k = Some t -> now_ms d <= t;
  exists_law (d : db) k h : hash d k = Some h -> EXISTS k d = bool_decide (h <> ∅);
  pttl_law (d : db) k h : hash d k = Some h ->
    PTTL k d = if decide (h = ∅) then -2
               else from_option (fun t => Z.max 0 (t - now_ms d)) (-1) (expiry d k);
  hget_law (d : db) k f h : hash d k = Some h -> HGET k f d = Ok (h !! f);
  hexists_law (d : db) k f h :
    hash d k = Some h -> HEXISTS k f d = Ok (bool_decide (is_Some (h !! f)));
  hgetall_law (d : db) k h : hash d k = Some h ->
    exists l, HGETALL k d = Ok (flatten_pairs l) /\ l ≡ₚ map_to_list h;
  zcard_law (d : db) k z : zset d k = Some z -> ZCARD k d = Ok (Z.of_nat (size z));
  zrangebyscore_law (d : db) k top limit z : zset d k = Some z -> 0 < limit ->
    exists l, zmembers_sorted (filter (fun p => p.2 <= top) z) l
              /\ ZRANGEBYSCORE k top limit d = Ok (take (Z.to_nat limit) l);
  zrange_law (d : db) k stop z : zset d k = Some z -> 0 <= stop ->
    exists l, zmembers_sorted z l /\ ZRANGE k stop d = Ok (take (Z.to_nat (stop + 1)) l);
  hset_law (d : db) k l h : hash d k = Some h -> l <> [] ->
    exists d', HSET k l d = (Ok tt, d') /\ hash d' k = Some (hset_fields l h)
               /\ expiry d' k = expiry d k /\ frame d d' k;
  hdel_law (d : db) k l h : hash d k = Some h ->
    exists d', HDEL k l d = (Ok tt, d') /\ hash d' k = Some (hdel_fields l h)
               /\ expiry d' k = keep_expiry (hdel_fields l h) (expiry d k) /\ frame d d' k;
  hsetnx_law (d : db) k f v h : hash d k = Some h ->
    exists d', HSETNX k f v d = (Ok (if decide (h !! f = None) then 1 else 0), d')
               /\ hash d' k = Some (if decide (h !! f = None) then <[f := v]> h else h)
               /\ expiry d' k = expiry d k /\ frame d d' k;
  hincrby_law (d : db) k f n c h :
    hash d k = Some h -> (h !! f = None /\ c = 0 \/ h !! f = Some (show c)) ->
    - i64_max <= c <= i64_max -> - i64_max <= c + n <= i64_max ->
    exists d', HINCRBY k f n d = (Ok (c + n), d') /\ hash d' k = Some (<[f := show (c + n)]> h)
               /\ expiry d' k = expiry d k /\ frame d d' k;
  incr_law (d : db) k c : int_at d k = Some c -> c < i64_max ->
    exists d', INCR k d = (Ok (c + 1), d') /\ int_at d' k = Some (c + 1) /\ frame d d' k;
  pexpire_law (d : db) k ms h : hash d k = Some h -> 0 < ms ->
    exists d', PEXPIRE k ms d = (Ok tt, d') /\ hash d' k = Some h
               /\ expiry d' k = keep_expiry h (Some (now_ms d + ms)) /\ frame d d' k;
  persist_law (d : db) k h : hash d k = Some h ->
    exists d', PERSIST k d = (Ok tt, d') /\ hash d' k = Some h
               /\ expiry d' k = None /\ frame d d' k;
  del_law (d : db) k h : hash d k = Some h ->
    exists d', DEL k d = (Ok tt, d') /\ hash d' k = Some ∅ /\ expiry d' k = None /\ frame d d' k;
  zadd_law (d : db) k score m z : zset d k = Some z ->
    exists d', ZADD k score m d = (Ok tt, d') /\ zset d' k = Some (<[m := score]> z) /\ frame d d' k;
  zrem_law (d : db) k m z : zset d k = Some z ->
    exists d', ZREM k m d = (Ok tt, d') /\ zset d' k = Some (delete m z) /\ frame d d' k;
  zremrangebyscore_law (d : db) k top z : zset d k = Some z ->
    exists d', ZREMRANGEBYSCORE k top d = (Ok tt, d')
               /\ zset d' k = Some (filter (fun p => top < p.2) z) /\ frame d d' k;
}.

(** ** Scripts *)

(** A script's writes stay when a later command or Lua operation raises. *)
Definition Script (db A : Type) : Type := db -> result string A * db.

#[global] Instance script_ret {db} : MRet (Script db) := fun A a d => (Ok a, d).

#[global] Instance script_bind {db} : MBind (Script db) := fun A B f m d =>
  match m d with
  | (Ok a, d') => f a d'
  | (Err e, d') => (Err e, d')
  end.

#[global] Arguments script_ret : simpl never.
#[global] Arguments script_bind : simpl never.

Definition query {db A} (f : db -> A) : Script db A := fun d => (Ok (f d), d).

Definition query_res {db A} (f : db -> result string A) : Script db A := fun d => (f d, d).

Definition raise {db A} (msg : string) : Script db A := fun d => (Err msg, d).

(** Arithmetic and comparison on a value that is not a number raise. *)
Definition number {db} (o : option Z) : Script db Z :=
  match o with Some z => mret z | None => raise "attempt to use a nil value as a number" end.

(** An integer argument of a command given as text. *)
Definition int_arg {db} (s : string) : Script db Z :=
  match parse_int i64_max s with
  | Some z => mret z
  | None => raise "ERR value is not an integer or out of range"
  end.

(** [tonumber(x)] on a reply that may be [false]. *)
Definition tonumber_reply (o : option string) : option Z := o ≫= tonumber.

Section scripts.
Context {db : Type} `{Redis db}.

Definition hget (k f : string) : Script db (option string) := query_res (HGET k f).

(** [tonumber(redis.call('HGET', ...) or default)]. *)
Definition hget_number_or (key field default_text : string) : Script db (option Z) :=
  value ← hget key field;
  mret (tonumber (default default_text value)).

(** The script prologue
    [tonumber(now_parts[1]) * 1000 + math.floor(tonumber(now_parts[2]) / 1000)]. *)
Definition time_ms : Script db Z :=
  parts ← query TIME;
  s ← number (tonumber parts.1);
  us ← number (tonumber parts.2);
  mret (lua_add (lua_mul s 1000) (lua_floor_div us 1000)).

(** A [for] loop over a list in a script. *)
Fixpoint script_fold {S A} (f : S -> A -> Script db S) (s : S) (l : list A) : Script db S :=
  match l with
  | [] => mret s
  | a :: l' => s' ← f s a; script_fold f s' l'
  end.

Definition script_for {A} (f : A -> Script db unit) (l : list A) : Script db unit :=
  script_fold (fun _ a => f a) tt l.
End scripts.

(** ** Running scripts *)

Section running.
Context {db : Type} `{RedisLaws db}.
Implicit Types (d : db) (k f : string) (h : gmap string string).

Lemma frame_refl d k : frame d d k.
Proof. split; [done|]. intros. by repeat split. Qed.

Lemma frame_trans d1 d2 d3 k : frame d1 d2 k -> frame d2 d3 k -> frame d1 d3 k.
Proof.
  intros [Hc1 Hk1] [Hc2 Hk2]. split; [congruence|]. intros k' Hne.
  destruct (Hk1 k' Hne) as (? & ? & ? & ?), (Hk2 k' Hne) as (? & ? & ? & ?).
  repeat split; congruence.
Qed.

Lemma frame_now d d' k : frame d d' k -> now_ms d' = now_ms d.
Proof. intros [Hc _]. unfold now_ms. by rewrite Hc. Qed.

Lemma frame_hash d d' k k' : frame d d' k -> k' <> k -> hash d' k' = hash d k'.
Proof. intros [_ Hk] Hne. by destruct (Hk k' Hne). Qed.

Lemma frame_expiry d d' k k' : frame d d' k -> k' <> k -> expiry d' k' = expiry d k'.
Proof. intros [_ Hk] Hne. by destruct (Hk k' Hne) as (_ & _ & _ & ?). Qed.

Lemma frame_int d d' k k' : frame d d' k -> k' <> k -> int_at d' k' = int_at d k'.
Proof. intros [_ Hk] Hne. by destruct (Hk k' Hne) as (_ & _ & ? & _). Qed.

Lemma frame_zset d d' k k' : frame d d' k -> k' <> k -> zset d' k' = zset d k'.
Proof. intros [_ Hk] Hne. by destruct (Hk k' Hne) as (_ & ? & _). Qed.

Lemma frame_clock d d' k : frame d d' k -> clock d' = clock d.
Proof. by intros [? _]. Qed.

Lemma bind_run {A B} (m : Script db A) (f : A -> Script db B) d a d' :
  m d = (Ok a, d') -> (m ≫= f) d = f a d'.
Proof. intros Hm. unfold mbind, script_bind. by rewrite Hm. Qed.

Lemma hget_run d k f h : hash d k = Some h -> hget k f d = (Ok (h !! f), d).
Proof. intros Hh. unfold hget, query_res. by rewrite (hget_law _ _ _ _ Hh). Qed.

Lemma hget_number_or_run d k f dflt h :
  hash d k = Some h -> hget_number_or k f dflt d = (Ok (tonumber (default dflt (h !! f))), d).
Proof. intros Hh. unfold hget_number_or. by erewrite bind_run by (by apply hget_run). Qed.

Lemma exists_absent_run d k : hash d k = Some ∅ -> query (EXISTS k) d = (Ok false, d).
Proof. intros Hh. unfold query. rewrite (exists_law _ _ _ Hh). by rewrite bool_decide_false by tauto. Qed.

Lemma exists_present_run d k h f v :
  hash d k = Some h -> h !! f = Some v -> query (EXISTS k) d = (Ok true, d).
Proof.
  intros Hh Hf. unfold query. rewrite (exists_law _ _ _ Hh), bool_decide_true; [done|].
  intros ->. by rewrite lookup_empty in Hf.
Qed.

Lemma number_run d z : number (Some z) d = (Ok z, d).
Proof. done. Qed.

Lemma int_arg_show d ms : 0 <= ms <= i64_max -> int_arg (show ms) d = (Ok ms, d).
Proof.
  intros Hms. unfold int_arg, parse_int.
  pose proof (parse_uint_show i64_max ms ltac:(mlia)) as Hp.
  pose proof (show_digits ms ltac:(lia)) as Hd.
  destruct (show ms) as [|c r]; [by rewrite Hp|].
  assert (c <> "-"%char) by (intros ->; by vm_compute in Hd).
  destruct c as [[] [] [] [] [] [] [] []]; try done; by rewrite Hp.
Qed.

(** Timestamps the scripts can print and read back without rounding. *)
Definition clock_exact d : Prop := lua_exact (now_ms d).

Lemma now_ms_nonneg d : 0 <= now_ms d.
Proof. unfold now_ms. apply Z.div_pos; [apply clock_nonneg|lia]. Qed.

Lemma time_ms_run d : clock_exact d -> time_ms d = (Ok (now_ms d), d).
Proof.
  intros Hx. unfold clock_exact, lua_exact in Hx. pose proof (now_ms_nonneg d) as Hn.
  pose proof (clock_nonneg d) as Hc. unfold now_ms in *.
  pose proof (Z.mod_pos_bound (clock d) 1000000 ltac:(lia)) as Hm.
  assert (clock d / 1000 = clock d / 1000000 * 1000 + clock d mod 1000000 / 1000) as Hsplit.
  { rewrite (Z.div_mod (clock d) 1000000) at 1 by lia.
    replace (1000000 * (clock d / 1000000)) with (clock d / 1000000 * 1000 * 1000) by lia.
    rewrite Z.div_add_l by lia. done. }
  assert (0 <= clock d / 1000000) by (apply Z.div_pos; lia).
  assert (0 <= clock d mod 1000000 / 1000) by (apply Z.div_pos; lia).
  unfold time_ms. erewrite bind_run by done. rewrite time_law. simpl.
  erewrite bind_run by (rewrite tonumber_show by lia; done).
  erewrite bind_run by (rewrite tonumber_show by lia; done).
  unfold mret, script_ret, lua_floor_div. rewrite lua_mul_exact by lia.
  rewrite lua_add_exact by lia. by rewrite Hsplit.
Qed.

Lemma lookup_nonempty h (f v : string) : h !! f = Some v -> h <> ∅.
Proof. intros Hl ->. by rewrite lookup_empty in Hl. Qed.

Lemma lookup_hdel_fields l h f : hdel_fields l h !! f = if decide (f ∈ l) then None else h !! f.
Proof.
  unfold hdel_fields. revert h. induction l as [|g l IH]; intros h; [done|]. simpl. rewrite IH.
  destruct (decide (f ∈ l)) as [Hf|Hf]; [by rewrite decide_True by (by constructor)|].
  destruct (decide (f = g)) as [->|Hne].
  - rewrite decide_True by constructor. apply lookup_delete_eq.
  - rewrite decide_False by (by intros [?|?]%elem_of_cons). by apply lookup_delete_ne.
Qed.

(** Writing fields and then setting the retention of the record. *)
Lemma hset_pexpire_run {A} d (key : string) l h (ret : Z) (k : Script db A) :
  hash d key = Some h -> l <> [] -> 1 <= ret <= i64_max ->
  exists d', (HSET key l;; r ← int_arg (show ret); PEXPIRE key r;; k) d = k d'
    /\ hash d' key = Some (hset_fields l h) /\ expiry d' key = Some (now_ms d + ret)
    /\ frame d d' key.
Proof.
  intros Hh Hl Hr.
  destruct (hset_law d key l h Hh Hl) as (d1 & E1 & Hh1 & _ & Hf1).
  destruct (pexpire_law d1 key ret (hset_fields l h) Hh1) as (d2 & E2 & Hh2 & He2 & Hf2); [lia|].
  exists d2. erewrite bind_run by exact E1. erewrite bind_run by (apply int_arg_show; lia).
  erewrite bind_run by exact E2. split; [done|]. split; [done|].
  split; [|by eapply frame_trans]. rewrite He2, (frame_now _ _ _ Hf1).
  unfold keep_expiry. rewrite decide_False; [done|].
  destruct l as [|p l] using rev_ind; [done|]. unfold hset_fields. rewrite foldl_app.
  apply insert_non_empty.
Qed.

End running.

#[export] Hint Resolve frame_refl frame_trans : pulse.
