(* ===== verification/RedisMem.v ===== *)
(** * An in-memory Redis

    A database as a clock and a finite map of typed values with expiry times,
    the commands on it, and the proof that it satisfies the documented laws:
    the instance the witnesses of the Redis-backed components are evaluated on. *)

From S2P Require Import Prelude RustStr Lua Redis.

Inductive rvalue :=
| RHash (h : gmap string string)
| RZset (z : gmap string Z)
| RInt (n : Z).

Record mem := mkMem {
  m_clock : N;
  m_keys : gmap string (rvalue * option Z);
}.

Definition mem_now (d : mem) : Z := Z.of_N (m_clock d) / 1000.

(** An empty aggregate and an integer that was never incremented are absent. *)
Definition rvalue_absent (v : rvalue) : bool :=
  match v with
  | RHash h => bool_decide (h = ∅)
  | RZset z => bool_decide (z = ∅)
  | RInt n => bool_decide (n = 0)
  end.

(** The value of a key that is present and not past its expiry. *)
Definition live (d : mem) (k : string) : option (rvalue * option Z) :=
  p ← m_keys d !! k;
  if rvalue_absent p.1 then None
  else match p.2 with
       | Some t => if mem_now d <=? t then Some p else None
       | None => Some p
       end.

#[global] Instance mem_view : RedisView mem := {
  clock d := Z.of_N (m_clock d);
  hash d k := match live d k with
              | None => Some ∅ | Some (RHash h, _) => Some h | _ => None end;
  zset d k := match live d k with
              | None => Some ∅ | Some (RZset z, _) => Some z | _ => None end;
  int_at d k := match live d k with
                | None => Some 0 | Some (RInt n, _) => Some n | _ => None end;
  expiry d k := live d k ≫= snd;
}.

Definition put (k : string) (v : rvalue) (e : option Z) (d : mem) : mem :=
  mkMem (m_clock d) (<[k := (v, e)]> (m_keys d)).

Definition wrongtype {A} : result string A :=
  Err "WRONGTYPE Operation against a key holding the wrong kind of value".

Definition on_hash {A} (k : string) (d : mem)
    (f : gmap string string -> result string A * mem) : result string A * mem :=
  match hash d k with Some h => f h | None => (wrongtype, d) end.

Definition on_zset {A} (k : string) (d : mem)
    (f : gmap string Z -> result string A * mem) : result string A * mem :=
  match zset d k with Some z => f z | None => (wrongtype, d) end.

Definition read_hash {A} (k : string) (d : mem) (f : gmap string string -> A) : result string A :=
  match hash d k with Some h => Ok (f h) | None => wrongtype end.

Definition read_zset {A} (k : string) (d : mem) (f : gmap string Z -> A) : result string A :=
  match zset d k with Some z => Ok (f z) | None => wrongtype end.

(** Members by score, an insertion sort. *)
Fixpoint zinsert (z : gmap string Z) (m : string) (l : list string) : list string :=
  match l with
  | [] => [m]
  | x :: l' => if default 0 (z !! m) <=? default 0 (z !! x) then m :: l else x :: zinsert z m l'
  end.

Definition zsorted (z : gmap string Z) : list string :=
  foldr (zinsert z) [] (map fst (map_to_list z)).

Definition hash_int (h : gmap string string) (f : string) : option Z :=
  match h !! f with None => Some 0 | Some s => parse_int i64_max s end.

#[global] Instance mem_redis : Redis mem := {
  TIME d := (show (clock d / 1000000), show (clock d mod 1000000));
  EXISTS k d := match live d k with Some _ => true | None => false end;
  PTTL k d := match live d k with
              | None => -2
              | Some (_, e) => from_option (fun t => Z.max 0 (t - mem_now d)) (-1) e
              end;
  HGET k f d := read_hash k d (fun h => h !! f);
  HEXISTS k f d := read_hash k d (fun h => bool_decide (is_Some (h !! f)));
  HGETALL k d := read_hash k d (fun h => flatten_pairs (map_to_list h));
  ZCARD k d := read_zset k d (fun z => Z.of_nat (size z));
  ZRANGEBYSCORE k top limit d :=
    read_zset k d (fun z => take (Z.to_nat limit) (zsorted (filter (fun p => p.2 <= top) z)));
  ZRANGE k stop d := read_zset k d (fun z => take (Z.to_nat (stop + 1)) (zsorted z));
  HSET k l d := on_hash k d (fun h => (Ok tt, put k (RHash (hset_fields l h)) (expiry d k) d));
  HDEL k l d := on_hash k d (fun h => (Ok tt, put k (RHash (hdel_fields l h)) (expiry d k) d));
  HSETNX k f v d := on_hash k d (fun h =>
    match h !! f with
    | None => (Ok 1, put k (RHash (<[f := v]> h)) (expiry d k) d)
    | Some _ => (Ok 0, d)
    end);
  HINCRBY k f n d := on_hash k d (fun h =>
    match hash_int h f with
    | Some c =>
        if (- i64_max <=? c + n) && (c + n <=? i64_max)
        then (Ok (c + n), put k (RHash (<[f := show (c + n)]> h)) (expiry d k) d)
        else (Err "ERR increment or decrement would overflow", d)
    | None => (Err "ERR hash value is not an integer", d)
    end);
  INCR k d := match int_at d k with
    | Some c => if c <? i64_max then (Ok (c + 1), put k (RInt (c + 1)) (expiry d k) d)
                else (Err "ERR increment or decrement would overflow", d)
    | None => (wrongtype, d)
    end;
  PEXPIRE k ms d := match live d k with
    | Some (v, _) => (Ok tt, put k v (Some (mem_now d + ms)) d)
    | None => (Ok tt, d)
    end;
  PERSIST k d := match live d k with
    | Some (v, _) => (Ok tt, put k v None d)
    | None => (Ok tt, d)
    end;
  DEL k d := (Ok tt, put k (RHash ∅) None d);
  ZADD k score m d := on_zset k d (fun z => (Ok tt, put k (RZset (<[m := score]> z)) (expiry d k) d));
  ZREM k m d := on_zset k d (fun z => (Ok tt, put k (RZset (delete m z)) (expiry d k) d));
  ZREMRANGEBYSCORE k top d :=
    on_zset k d (fun z => (Ok tt, put k (RZset (filter (fun p => top < p.2) z)) (expiry d k) d));
}.

Definition mem_empty (us : N) : mem := mkMem us ∅.

(** The clock moves on; keys past their expiry stop being visible. *)
Definition mem_tick (us : N) (d : mem) : mem := mkMem (m_clock d + us) (m_keys d).

(** ** The laws hold *)

Section laws.
Implicit Types (d : mem) (k : string) (v : rvalue).

Lemma live_put_ne d k k' v e : k' <> k -> live (put k v e d) k' = live d k'.
Proof. intros. unfold live, put. simpl. by rewrite lookup_insert_ne. Qed.

Lemma live_put_eq d k v e :
  live (put k v e d) k =
  if rvalue_absent v then None
  else match e with
       | Some t => if mem_now d <=? t then Some (v, e) else None
       | None => Some (v, e)
       end.
Proof. unfold live, put. simpl. rewrite lookup_insert_eq. simpl. done. Qed.

Lemma live_expiry d k v t : live d k = Some (v, Some t) -> mem_now d <= t.
Proof.
  unfold live. destruct (m_keys d !! k) as [[v' [t'|]]|]; simpl; [|by case_match|done].
  case_match; [done|]. destruct (Z.leb_spec (mem_now d) t'); [|done]. by intros [= -> ->].
Qed.

Lemma live_present d k v e : live d k = Some (v, e) -> rvalue_absent v = false.
Proof.
  unfold live. destruct (m_keys d !! k) as [[v' e']|]; simpl; [|done].
  destruct (rvalue_absent v') eqn:E; [done|].
  intros. by repeat case_match; simplify_eq.
Qed.

Lemma live_put_keep d k v :
  live (put k v (expiry d k) d) k = if rvalue_absent v then None else Some (v, expiry d k).
Proof.
  rewrite live_put_eq. case_match; [done|]. simpl.
  destruct (live d k) as [[v' [t|]]|] eqn:E; simpl; [|done..].
  apply live_expiry in E. by apply Z.leb_le in E as ->.
Qed.

Lemma put_frame d k v e : frame d (put k v e d) k.
Proof.
  split; [done|]. intros k' Hne. unfold same_key. simpl. by rewrite !live_put_ne.
Qed.

Lemma hash_put d k h e :
  (forall t, e = Some t -> mem_now d <= t) ->
  hash (put k (RHash h) e d) k = Some h /\ expiry (put k (RHash h) e d) k = keep_expiry h e.
Proof.
  intros He. simpl. rewrite live_put_eq. simpl. unfold keep_expiry.
  destruct (decide (h = ∅)) as [->|Hne]; [by rewrite bool_decide_true|].
  rewrite bool_decide_false by done. destruct e as [t|]; [|done].
  specialize (He t eq_refl). by apply Z.leb_le in He as ->.
Qed.

Lemma expiry_bound d k t : expiry d k = Some t -> mem_now d <= t.
Proof.
  simpl. destruct (live d k) as [[v e]|] eqn:E; simpl; [|done]. intros ->. by eapply live_expiry.
Qed.

Lemma hash_put_keep d k h :
  hash (put k (RHash h) (expiry d k) d) k = Some h
  /\ expiry (put k (RHash h) (expiry d k) d) k = keep_expiry h (expiry d k).
Proof. apply hash_put. intros t. apply expiry_bound. Qed.

Lemma zset_put_keep d k z : zset (put k (RZset z) (expiry d k) d) k = Some z.
Proof.
  change (match live (put k (RZset z) (expiry d k) d) k with
          | None => Some ∅ | Some (RZset z', _) => Some z' | _ => None end = Some z).
  rewrite live_put_keep. simpl. destruct (decide (z = ∅)) as [->|]; [by rewrite bool_decide_true|].
  by rewrite bool_decide_false.
Qed.

(** A present key seen as a hash is not empty. *)
Lemma hash_live d k h :
  hash d k = Some h -> (h = ∅ /\ live d k = None) \/ (h <> ∅ /\ live d k = Some (RHash h, expiry d k)).
Proof.
  simpl. destruct (live d k) as [[[h'| |] e]|] eqn:E; simpl; try done; intros [= <-].
  - right. apply live_present in E as Hp. simpl in Hp. bool_hyps. done.
  - by left.
Qed.

Lemma hset_fields_nonempty l h : l <> [] -> hset_fields l h <> ∅.
Proof.
  intros Hl. destruct l as [|x l] using rev_ind; [done|]. unfold hset_fields.
  rewrite foldl_app. simpl. apply insert_non_empty.
Qed.

Lemma zinsert_perm z m l : zinsert z m l ≡ₚ m :: l.
Proof.
  induction l as [|x l IH]; simpl; [done|]. case_match; [done|].
  rewrite IH. constructor.
Qed.

Lemma zsorted_perm z : zsorted z ≡ₚ map fst (map_to_list z).
Proof.
  unfold zsorted. induction (map fst (map_to_list z)) as [|m l IH]; simpl; [done|].
  by rewrite zinsert_perm, IH.
Qed.

Definition score_le (z : gmap string Z) (a b : string) : Prop :=
  default 0 (z !! a) <= default 0 (z !! b).

Lemma zinsert_sorted z m l : Sorted (score_le z) l -> Sorted (score_le z) (zinsert z m l).
Proof.
  induction 1 as [|x l Hl IH Hx]; simpl; [repeat constructor|].
  destruct (Z.leb_spec (default 0 (z !! m)) (default 0 (z !! x))) as [Hle|Hgt].
  - constructor; [by constructor|]. by constructor.
  - constructor; [done|]. destruct l as [|y l]; simpl.
    + constructor. unfold score_le. lia.
    + case_match; constructor; unfold score_le in *; [lia|]. by inversion Hx.
Qed.

Lemma zsorted_spec z : zmembers_sorted z (zsorted z).
Proof.
  split_and!.
  - rewrite zsorted_perm. apply (NoDup_fst_map_to_list z).
  - intros m. rewrite zsorted_perm, elem_of_map. split.
    + intros ([m' s] & -> & Hin). exists s. by apply elem_of_map_to_list.
    + intros [s Hs]. exists (m, s). split; [done|]. by apply elem_of_map_to_list.
  - unfold zsorted. induction (map fst (map_to_list z)); simpl; [constructor|].
    by apply zinsert_sorted.
Qed.

Lemma parse_int_show c : - i64_max <= c <= i64_max -> parse_int i64_max (show c) = Some c.
Proof.
  intros Hc. destruct (Z.lt_ge_cases c 0) as [Hneg|Hpos].
  - destruct c as [|p|p]; [lia..|].
    change (show (Zneg p)) with (String "-" (show (Zpos p))).
    assert (parse_nat (show (Zpos p)) = Some (Zpos p)) as Hp.
    { pose proof (show_len_pos (Zpos p) ltac:(lia)) as Hl.
      pose proof (parse_digits_show (Zpos p) ltac:(lia)) as Hd. unfold parse_nat.
      destruct (show (Zpos p)); [by vm_compute in Hl|done]. }
    cbn [parse_int]. rewrite Hp. cbn [mbind option_bind].
    destruct (Z.leb_spec (Zpos p) (i64_max + 1)); [done|lia].
  - unfold parse_int. pose proof (parse_uint_show i64_max c ltac:(mlia)) as Hp.
    pose proof (show_digits c ltac:(lia)) as Hd.
    destruct (show c) as [|a r]; [done|].
    assert (a <> "-"%char) by (intros ->; by vm_compute in Hd).
    by destruct a as [[] [] [] [] [] [] [] []].
Qed.

Lemma on_hash_run {A} k d h (f : gmap string string -> result string A * mem) :
  hash d k = Some h -> on_hash k d f = f h.
Proof. intros Hh. unfold on_hash. by rewrite Hh. Qed.

Lemma on_zset_run {A} k d z (f : gmap string Z -> result string A * mem) :
  zset d k = Some z -> on_zset k d f = f z.
Proof. intros Hz. unfold on_zset. by rewrite Hz. Qed.

Lemma keep_expiry_nonempty h e : h <> ∅ -> keep_expiry h e = e.
Proof. intros. unfold keep_expiry. by rewrite decide_False. Qed.

Lemma mem_hset d k l h : hash d k = Some h -> l <> [] ->
  exists d', HSET k l d = (Ok tt, d') /\ hash d' k = Some (hset_fields l h)
             /\ expiry d' k = expiry d k /\ frame d d' k.
Proof.
  intros Hh Hl. cbn [HSET mem_redis]. rewrite (on_hash_run k d h _ Hh). eexists. split; [done|].
  destruct (hash_put_keep d k (hset_fields l h)) as [H1 H2]. split; [exact H1|].
  rewrite H2, keep_expiry_nonempty by by apply hset_fields_nonempty. split; [done|apply put_frame].
Qed.

Lemma mem_hsetnx d k f (v : string) h : hash d k = Some h ->
  exists d', HSETNX k f v d = (Ok (if decide (h !! f = None) then 1 else 0), d')
             /\ hash d' k = Some (if decide (h !! f = None) then <[f := v]> h else h)
             /\ expiry d' k = expiry d k /\ frame d d' k.
Proof.
  intros Hh. cbn [HSETNX mem_redis]. rewrite (on_hash_run k d h _ Hh).
  destruct (h !! f) eqn:E.
  - rewrite !decide_False by done. exists d. split; [done|]. split; [done|].
    split; [done|apply frame_refl].
  - rewrite !decide_True by done. eexists. split; [done|].
    destruct (hash_put_keep d k (<[f := v]> h)) as [H1 H2]. split; [exact H1|].
    rewrite H2, keep_expiry_nonempty by apply insert_non_empty. split; [done|apply put_frame].
Qed.

Lemma mem_hincrby d k f n c h :
  hash d k = Some h -> (h !! f = None /\ c = 0 \/ h !! f = Some (show c)) ->
  - i64_max <= c <= i64_max -> - i64_max <= c + n <= i64_max ->
  exists d', HINCRBY k f n d = (Ok (c + n), d') /\ hash d' k = Some (<[f := show (c + n)]> h)
             /\ expiry d' k = expiry d k /\ frame d d' k.
Proof.
  intros Hh Hc Hr Hn. cbn [HINCRBY mem_redis]. rewrite (on_hash_run k d h _ Hh).
  assert (hash_int h f = Some c) as ->.
  { unfold hash_int. destruct Hc as [[-> ->] | ->]; [done|]. by apply parse_int_show. }
  assert ((- i64_max <=? c + n) && (c + n <=? i64_max) = true) as -> by lia.
  eexists. split; [done|].
  destruct (hash_put_keep d k (<[f := show (c + n)]> h)) as [H1 H2]. split; [exact H1|].
  rewrite H2, keep_expiry_nonempty by apply insert_non_empty. split; [done|apply put_frame].
Qed.

Lemma mem_pexpire d k ms h : hash d k = Some h -> 0 < ms ->
  exists d', PEXPIRE k ms d = (Ok tt, d') /\ hash d' k = Some h
             /\ expiry d' k = keep_expiry h (Some (now_ms d + ms)) /\ frame d d' k.
Proof.
  intros Hh Hms. cbn [PEXPIRE mem_redis].
  destruct (hash_live d k h Hh) as [[-> Hl]|[Hne Hl]]; rewrite Hl.
  - exists d. split; [done|]. split; [done|]. split; [|apply frame_refl].
    simpl. by rewrite Hl.
  - eexists. split; [done|].
    destruct (hash_put d k h (Some (mem_now d + ms))) as [H1 H2]; [intros t [= <-]; lia|].
    split; [exact H1|]. split; [exact H2|apply put_frame].
Qed.

Lemma mem_persist d k h : hash d k = Some h ->
  exists d', PERSIST k d = (Ok tt, d') /\ hash d' k = Some h /\ expiry d' k = None /\ frame d d' k.
Proof.
  intros Hh. cbn [PERSIST mem_redis].
  destruct (hash_live d k h Hh) as [[-> Hl]|[Hne Hl]]; rewrite Hl.
  - exists d. split; [done|]. split; [done|]. split; [simpl; by rewrite Hl|apply frame_refl].
  - eexists. split; [done|]. destruct (hash_put d k h None) as [H1 H2]; [done|].
    split; [exact H1|]. rewrite H2. split; [by rewrite keep_expiry_nonempty|apply put_frame].
Qed.

Lemma mem_incr d k c : int_at d k = Some c -> c < i64_max ->
  exists d', INCR k d = (Ok (c + 1), d') /\ int_at d' k = Some (c + 1) /\ frame d d' k.
Proof.
  intros Hi Hc. cbn [INCR mem_redis]. rewrite Hi. apply Z.ltb_lt in Hc as ->.
  eexists. split; [done|]. split; [|apply put_frame].
  change (match live (put k (RInt (c + 1)) (expiry d k) d) k with
          | None => Some 0 | Some (RInt n, _) => Some n | _ => None end = Some (c + 1)).
  rewrite live_put_keep. simpl. destruct (decide (c + 1 = 0)) as [->|]; [done|].
  by rewrite bool_decide_false.
Qed.

Lemma mem_zput d k z : zset d k = Some z -> forall z', exists d',
  (Ok tt, put k (RZset z') (expiry d k) d) = (Ok tt : result string unit, d')
  /\ zset d' k = Some z' /\ frame d d' k.
Proof. intros _ z'. eexists. split; [done|]. split; [apply zset_put_keep|apply put_frame]. Qed.
End laws.

#[global] Instance mem_laws : RedisLaws mem.
Proof.
  split.
  - intros d. simpl. lia.
  - done.
  - intros d k Hh. destruct (hash_live d k ∅ Hh) as [[_ Hl]|[? _]]; [|done]. simpl. by rewrite Hl.
  - intros d k h t Hh Hne He. by apply expiry_bound in He.
  - intros d k h Hh. cbn [EXISTS mem_redis].
    destruct (hash_live d k h Hh) as [[-> ->]|[Hne ->]]; [done|by rewrite bool_decide_true].
  - intros d k h Hh. cbn [PTTL mem_redis].
    destruct (hash_live d k h Hh) as [[-> ->]|[Hne ->]]; [done|by rewrite decide_False].
  - intros d k f h Hh. cbn [HGET mem_redis]. unfold read_hash. by rewrite Hh.
  - intros d k f h Hh. cbn [HEXISTS mem_redis]. unfold read_hash. by rewrite Hh.
  - intros d k h Hh. exists (map_to_list h). cbn [HGETALL mem_redis]. unfold read_hash. by rewrite Hh.
  - intros d k z Hz. cbn [ZCARD mem_redis]. unfold read_zset. by rewrite Hz.
  - intros d k top limit z Hz Hl. eexists. split; [apply zsorted_spec|].
    cbn [ZRANGEBYSCORE mem_redis]. unfold read_zset. by rewrite Hz.
  - intros d k stop z Hz Hl. eexists. split; [apply zsorted_spec|].
    cbn [ZRANGE mem_redis]. unfold read_zset. by rewrite Hz.
  - apply mem_hset.
  - intros d k l h Hh. cbn [HDEL mem_redis]. rewrite (on_hash_run k d h _ Hh).
    eexists. split; [done|].
    destruct (hash_put_keep d k (hdel_fields l h)) as [H1 H2].
    split; [exact H1|]. split; [exact H2|apply put_frame].
  - apply mem_hsetnx.
  - apply mem_hincrby.
  - apply mem_incr.
  - apply mem_pexpire.
  - apply mem_persist.
  - intros d k h Hh. eexists. split; [done|].
    destruct (hash_put d k ∅ None) as [H1 H2]; [done|]. split; [exact H1|].
    split; [exact H2|apply put_frame].
  - intros d k score m z Hz. cbn [ZADD mem_redis]. rewrite (on_zset_run k d z _ Hz). by apply mem_zput with z.
  - intros d k m z Hz. cbn [ZREM mem_redis]. rewrite (on_zset_run k d z _ Hz). by apply mem_zput with z.
  - intros d k top z Hz. cbn [ZREMRANGEBYSCORE mem_redis].
    rewrite (on_zset_run k d z _ Hz). by apply mem_zput with z.
Qed.
