(* ===== verification/Coordination.v ===== *)
(** * Coordination: leases, dispatch windows and their errors

    The types of [src/src/domain/coordination.rs], and how a Redis script is
    invoked by [src/src/infrastructure/redis/mod.rs]: the connection and the
    invocation can each fail or time out, and an invocation whose reply is lost
    may or may not have run. *)

From S2P Require Import Prelude RustStr Contracts Domain Lua Redis.

(** ** Errors *)

Inductive CoordinationError :=
| Unavailable (operation message : string)
| Timeout (operation : string)
| InvalidState (operation message : string)
| StaleOwner (operation : string).

#[global] Instance CoordinationError_eq_dec : EqDecision CoordinationError.
Proof. solve_decision. Defined.

Definition show_CoordinationError (e : CoordinationError) : string :=
  match e with
  | Unavailable operation message =>
      "coordination operation '" +:+ operation +:+ "' is unavailable: " +:+ message
  | Timeout operation => "coordination operation '" +:+ operation +:+ "' timed out"
  | InvalidState operation message =>
      "coordination operation '" +:+ operation +:+ "' found invalid state: " +:+ message
  | StaleOwner operation => "coordination operation '" +:+ operation +:+ "' rejected a stale owner"
  end.

Definition coordination_error_class (e : CoordinationError) : string :=
  match e with
  | Unavailable _ _ => "unavailable"
  | Timeout _ => "timeout"
  | InvalidState _ _ => "invalid_state"
  | StaleOwner _ => "stale_owner"
  end.

(** ** Leadership *)

Record LeaderLease := mkLeader {
  lead_lock_key : string;
  lead_node_id : string;
  lead_owner_token : string;
  lead_fencing_token : Z;
  lead_expires_at_unix_ms : Z;
  lead_ttl : duration;
}.

#[global] Instance LeaderLease_eq_dec : EqDecision LeaderLease.
Proof. solve_decision. Defined.

Inductive LeadershipOutcome :=
| LeaderAcquired (lease : LeaderLease)
| LeaderRenewed (lease : LeaderLease)
| Follower (retry_after : duration).

(** ** Dispatch *)

Record DispatchSpec := mkSpec {
  spec_scenario_id : string;
  spec_contract_version : Z;
  spec_total_slices : Z;
  spec_repeat : RepeatPolicy;
  spec_plan_fingerprint : string;
}.

Record DispatchWindow := mkWindow {
  win_scenario_id : string;
  win_window_id : string;
  win_run_id : string;
  win_scheduled_at_unix_ms : Z;
  win_contract_version : Z;
  win_total_slices : Z;
  win_plan_fingerprint : string;
  win_missing_slices : list Z;
}.

Definition window_execution_key (self : DispatchWindow) (slice_index : Z) : option string :=
  if slice_index <? win_total_slices self
  then Some (win_window_id self +:+ ":slice-" +:+ show slice_index +:+ "-of-"
             +:+ show (win_total_slices self))
  else None.

Inductive DispatchOutcome :=
| DispatchReady (window : DispatchWindow)
| DispatchNotDue (retry_after : duration)
| DispatchFinished.

Inductive DispatchProgress :=
| DispatchPending (remaining_slices : Z)
| DispatchComplete.

(** ** Execution leases *)

Inductive TerminalOutcome := ResultPublished | RetryPublished | DeadLetterPublished.

#[global] Instance TerminalOutcome_eq_dec : EqDecision TerminalOutcome.
Proof. solve_decision. Defined.

Definition outcome_as_str (o : TerminalOutcome) : string :=
  match o with
  | ResultPublished => "completed"
  | RetryPublished => "retry_published"
  | DeadLetterPublished => "dlq_published"
  end.

Definition outcome_from_str (value : string) : result string TerminalOutcome :=
  if String.eqb value "completed" then Ok ResultPublished
  else if String.eqb value "retry_published" then Ok RetryPublished
  else if String.eqb value "dlq_published" then Ok DeadLetterPublished
  else Err ("unknown terminal outcome '" +:+ value +:+ "'").

Record CompletedOutcome := mkCompleted {
  comp_outcome : TerminalOutcome;
  comp_completed_at_unix_ms : Z;
}.

Record ExecutionClaim := mkClaim { claim_execution_key : string; claim_attempt : Z }.

Record ExecutionLease := mkLease {
  lease_execution_key : string;
  lease_attempt : Z;
  lease_owner_token : string;
  lease_expires_at_unix_ms : Z;
  lease_ttl : duration;
  lease_recovered : bool;
}.

#[global] Instance ExecutionLease_eq_dec : EqDecision ExecutionLease.
Proof. solve_decision. Defined.

Inductive ClaimOutcome :=
| ClaimAcquired (lease : ExecutionLease)
| ClaimAlreadyCompleted (outcome : CompletedOutcome)
| ClaimBusy (retry_after : duration).

Inductive ReleaseOutcome := Released | AlreadyAbsent.

Lemma outcome_from_as_str o : outcome_from_str (outcome_as_str o) = Ok o.
Proof. by destruct o. Qed.

Lemma outcome_from_str_Ok s o : outcome_from_str s = Ok o <-> s = outcome_as_str o.
Proof.
  split; [|intros ->; apply outcome_from_as_str]. unfold outcome_from_str.
  destruct (String.eqb_spec s "completed") as [->|]; [by intros [= <-]|].
  destruct (String.eqb_spec s "retry_published") as [->|]; [by intros [= <-]|].
  destruct (String.eqb_spec s "dlq_published") as [->|]; [by intros [= <-]|]. done.
Qed.

(** ** Invoking Redis *)

(** What happens to the two network steps of an operation: obtaining a
    connection and invoking a script.  When the reply of an invocation is lost,
    [executed] tells whether the script ran. *)
Inductive Link :=
| LinkUp
| ConnectFailed (message : string)
| ConnectTimedOut
| InvokeFailed (executed : bool) (message : string)
| InvokeTimedOut (executed : bool).

#[global] Instance Link_eq_dec : EqDecision Link.
Proof. solve_decision. Defined.

(** [redis_operation] around the connection and around the invocation. *)
Definition redis_operation {db A} (operation : string) (link : Link) (script : Script db A)
    (d : db) : result CoordinationError A * db :=
  match link with
  | ConnectFailed m => (Err (Unavailable operation m), d)
  | ConnectTimedOut => (Err (Timeout operation), d)
  | InvokeFailed ran m => (Err (Unavailable operation m), if ran then snd (script d) else d)
  | InvokeTimedOut ran => (Err (Timeout operation), if ran then snd (script d) else d)
  | LinkUp => match script d with
              | (Ok a, d') => (Ok a, d')
              | (Err m, d') => (Err (Unavailable operation m), d')
              end
  end.

Definition duration_ms (operation : string) (d : duration) : result CoordinationError Z :=
  let millis := as_millis d in
  reject_if (millis =? 0) (InvalidState operation "duration must be at least one millisecond");;
  ok_or (try_from i64_max millis) (InvalidState operation "duration exceeds Redis integer range").

Definition duration_from_nonnegative_ms (value : Z) : duration :=
  from_millis (default u64_max (try_from u64_max (Z.max value 0))).

Definition as_u64 (operation field : string) (value : Z) : result CoordinationError Z :=
  ok_or (try_from u64_max value) (InvalidState operation (field +:+ " must not be negative")).

Lemma duration_ms_Ok op d ms :
  duration_ms op d = Ok ms <-> ms = as_millis d /\ ms <> 0 /\ in_range i64_max ms.
Proof.
  unfold duration_ms. rewrite then_Ok, reject_if_Ok, ok_or_Ok, try_from_Some, Z.eqb_neq.
  naive_solver.
Qed.

Lemma as_u64_Ok op f v w : as_u64 op f v = Ok w <-> w = v /\ in_range u64_max v.
Proof. unfold as_u64. by rewrite ok_or_Ok, try_from_Some. Qed.

Lemma as_u64_in op f v : in_range u64_max v -> as_u64 op f v = Ok v.
Proof. intros. by apply as_u64_Ok. Qed.

Lemma duration_from_ms_in v : in_range u64_max v -> duration_from_nonnegative_ms v = from_millis v.
Proof.
  intros Hv. unfold duration_from_nonnegative_ms. rewrite Z.max_l by mlia.
  assert (try_from u64_max v = Some v) as -> by by apply try_from_Some. done.
Qed.

(** An operation on the database that may fail. *)
Definition RedisOp (db A : Type) : Type := db -> result CoordinationError A * db.

(** [?] after a pure step: the error is returned and the database untouched. *)
Definition op_lift {db A} (r : result CoordinationError A) : RedisOp db A := fun d => (r, d).

#[global] Instance op_ret {db} : MRet (RedisOp db) := fun A a d => (Ok a, d).

#[global] Instance op_bind {db} : MBind (RedisOp db) := fun A B f m d =>
  match m d with
  | (Ok a, d') => f a d'
  | (Err e, d') => (Err e, d')
  end.

#[global] Arguments op_ret : simpl never.
#[global] Arguments op_bind : simpl never.

Definition invoke {db A} (operation : string) (link : Link) (script : Script db A) : RedisOp db A :=
  redis_operation operation link script.

Lemma op_lift_run {db A B} (r : result CoordinationError A) (f : A -> RedisOp db B) d a :
  r = Ok a -> (op_lift r ≫= f) d = f a d.
Proof. by intros ->. Qed.

Lemma invoke_up_run {db A B} op (s : Script db A) (f : A -> RedisOp db B) d a d' :
  s d = (Ok a, d') -> (invoke op LinkUp s ≫= f) d = f a d'.
Proof. unfold mbind, op_bind, invoke, redis_operation. by intros ->. Qed.

(** Either the reply of the script reaches the caller, or the caller gets an
    error and the script ran or did not. *)
Lemma invoke_cases {db A B} op link (s : Script db A) (k : A -> RedisOp db B) d a d' :
  s d = (Ok a, d') -> (forall x y, (k x y).2 = y) ->
  (link = LinkUp /\ (invoke op link s ≫= k) d = k a d')
  \/ (link <> LinkUp /\ (exists e, ((invoke op link s ≫= k) d).1 = Err e)
      /\ (((invoke op link s ≫= k) d).2 = d \/ ((invoke op link s ≫= k) d).2 = d')).
Proof.
  intros Hs Hk. unfold mbind, op_bind, invoke, redis_operation. rewrite Hs.
  destruct link as [|m| |[] m|[]]; [by left|right..]; split_and!; simpl; eauto.
Qed.

(** Case analysis on the link of the invocation in the goal, given the run [E]
    of its script. *)
Tactic Notation "by_link" constr(E) "as" simple_intropattern(pat) :=
  match goal with
  | |- context [(invoke ?op ?link ?s ≫= ?k) ?d] =>
      destruct (invoke_cases op link s k d _ _ E ltac:(by intros; cbv beta; repeat case_match)) as pat
  end.
