(* ===== verification/ExecutionLease.v ===== *)
(** * Execution leases

    [RedisIdempotencyStore] of [src/src/infrastructure/redis/mod.rs]: at most
    one worker holds the lease of an execution attempt, and an attempt reaches
    one terminal outcome.  The four Lua scripts are translated command by
    command; an abstract record of the attempt (absent, running under an owner
    until a time, or terminal) specifies them, and each script is proved to
    implement the abstract operation on every branch. *)

From S2P Require Import Prelude RustStr Contracts Lua Redis RedisMem Coordination.

(** ** The store *)

Record RedisIdempotencyStore := mkIdemStore {
  idem_key_prefix : string;
  idem_lease_ttl : duration;
  idem_terminal_ttl : duration;
}.

Definition DEFAULT_EXECUTION_LEASE_TTL : duration := from_secs 30.

Definition idempotency_store_new (key_prefix : string) (ttl : duration) : RedisIdempotencyStore :=
  mkIdemStore key_prefix (Z.min ttl DEFAULT_EXECUTION_LEASE_TTL) ttl.

Definition idem_key_for (self : RedisIdempotencyStore) (claim : ExecutionClaim) : string :=
  idem_key_prefix self +:+ ":" +:+ claim_execution_key claim +:+ ":attempt-"
  +:+ show (claim_attempt claim).

Definition idem_key_for_lease (self : RedisIdempotencyStore) (lease : ExecutionLease) : string :=
  idem_key_prefix self +:+ ":" +:+ lease_execution_key lease +:+ ":attempt-"
  +:+ show (lease_attempt lease).

Definition running_retention (self : RedisIdempotencyStore) : duration :=
  Z.max (idem_terminal_ttl self) (duration_saturating_mul (idem_lease_ttl self) 4).

(** ** Scripts *)

Section scripts.
Context {db : Type} `{Redis db}.
Implicit Types (key owner execution_key attempt : string).

Definition is_terminal_state (state : option string) : bool :=
  bool_decide (state = Some "completed") || bool_decide (state = Some "retry_published")
  || bool_decide (state = Some "dlq_published").

(** The identity guard every script applies to an existing record. *)
Definition identity_matches key execution_key attempt : Script db bool :=
  k ← hget key "execution_key";
  if negb (bool_decide (k = Some execution_key)) then mret false
  else a ← hget key "attempt"; mret (bool_decide (a = Some attempt)).

(** [tonumber(redis.call('HGET', key, field) or '0')]. *)
Definition number_field key (field : string) : Script db Z :=
  v ← hget key field; number (tonumber (default "0" v)).

Definition claim_script key owner execution_key attempt (lease_ttl_ms retention_ms : string)
    : Script db (Z * Z * Z * string * Z * string) :=
  now ← time_ms;
  ttl ← number (tonumber lease_ttl_ms);
  let lease_until := lua_add now ttl in
  present ← query (EXISTS key);
  if negb present then
    HSET key [("state", "running"); ("owner", owner); ("execution_key", execution_key);
              ("attempt", attempt); ("lease_until", tostring lease_until);
              ("recovery_count", "0")];;
    retention ← int_arg retention_ms;
    PEXPIRE key retention;;
    mret (1, lease_until, 0, EmptyString, 0, EmptyString)
  else
    same ← identity_matches key execution_key attempt;
    if negb same then
      mret (4, 0, 0, EmptyString, 0, "execution identity does not match record")
    else
      state ← hget key "state";
      if is_terminal_state state then
        completed_at ← number_field key "completed_at";
        mret (2, 0, 0, default EmptyString state, completed_at, EmptyString)
      else if negb (bool_decide (state = Some "running")) then
        mret (4, 0, 0, EmptyString, 0, "execution state is unknown")
      else
        current_until ← number_field key "lease_until";
        if current_until <=? now then
          HSET key [("owner", owner); ("lease_until", tostring lease_until);
                    ("recovered_at", tostring now)];;
          HINCRBY key "recovery_count" 1;;
          retention ← int_arg retention_ms;
          PEXPIRE key retention;;
          mret (1, lease_until, 1, EmptyString, 0, EmptyString)
        else mret (3, lua_sub current_until now, 0, EmptyString, 0, EmptyString).

Definition renew_script key owner execution_key attempt (lease_ttl_ms retention_ms : string)
    : Script db (Z * Z * string) :=
  present ← query (EXISTS key);
  if negb present then mret (2, 0, "execution record is absent") else
  same ← identity_matches key execution_key attempt;
  if negb same then mret (3, 0, "execution identity does not match record") else
  state ← hget key "state";
  if negb (bool_decide (state = Some "running")) then mret (3, 0, "execution is no longer running") else
  current_owner ← hget key "owner";
  if negb (bool_decide (current_owner = Some owner)) then mret (2, 0, "execution owner changed") else
  now ← time_ms;
  current_until ← number_field key "lease_until";
  if current_until <=? now then mret (2, 0, "execution lease expired") else
  ttl ← number (tonumber lease_ttl_ms);
  let lease_until := lua_add now ttl in
  HSET key [("lease_until", tostring lease_until)];;
  retention ← int_arg retention_ms;
  PEXPIRE key retention;;
  mret (1, lease_until, EmptyString).

Definition complete_script key owner execution_key attempt (outcome terminal_ttl_ms : string)
    : Script db (Z * Z * string) :=
  present ← query (EXISTS key);
  if negb present then mret (2, 0, "execution record is absent") else
  same ← identity_matches key execution_key attempt;
  if negb same then mret (3, 0, "execution identity does not match record") else
  current_owner ← hget key "owner";
  if negb (bool_decide (current_owner = Some owner)) then mret (2, 0, "execution owner changed") else
  state ← hget key "state";
  if is_terminal_state state then
    if negb (bool_decide (state = Some outcome)) then
      mret (3, 0, "execution already has a different terminal outcome")
    else completed_at ← number_field key "completed_at"; mret (1, completed_at, EmptyString)
  else if negb (bool_decide (state = Some "running")) then mret (3, 0, "execution state is unknown") else
  now ← time_ms;
  lease_until ← number_field key "lease_until";
  if lease_until <=? now then mret (2, 0, "execution lease expired") else
  HSET key [("state", outcome); ("completed_at", tostring now)];;
  HDEL key ["lease_until"];;
  retention ← int_arg terminal_ttl_ms;
  PEXPIRE key retention;;
  mret (1, now, EmptyString).

Definition release_script key owner execution_key attempt : Script db (Z * string) :=
  present ← query (EXISTS key);
  if negb present then mret (0, EmptyString) else
  same ← identity_matches key execution_key attempt;
  if negb same then mret (3, "execution identity does not match record") else
  state ← hget key "state";
  if negb (bool_decide (state = Some "running")) then mret (3, "execution is no longer running") else
  current_owner ← hget key "owner";
  if negb (bool_decide (current_owner = Some owner)) then mret (2, "execution owner changed") else
  now ← time_ms;
  lease_until ← number_field key "lease_until";
  if lease_until <=? now then mret (2, "execution lease expired") else
  DEL key;;
  mret (1, EmptyString).

(** ** Operations

    [owner_token] is the [Uuid::new_v4()] of the call. *)

Implicit Types (self : RedisIdempotencyStore) (link : Link).

Definition unknown_code (operation : string) (code : Z) : CoordinationError :=
  InvalidState operation ("unknown Redis response code " +:+ show code).

Definition claim self link (owner_token : string) (claim : ExecutionClaim) : RedisOp db ClaimOutcome :=
  let OPERATION := "execution_claim" in
  op_lift (reject_if (blank (claim_execution_key claim))
             (InvalidState OPERATION "execution key must not be empty"));;
  lease_ttl_ms ← op_lift (duration_ms OPERATION (idem_lease_ttl self));
  running_retention_ms ← op_lift (duration_ms OPERATION (running_retention self));
  reply ← invoke OPERATION link
    (claim_script (idem_key_for self claim) owner_token (claim_execution_key claim)
       (show (claim_attempt claim)) (show lease_ttl_ms) (show running_retention_ms));
  let '(code, lease_or_retry, recovered, terminal_state, completed_at, message) := reply in
  op_lift
    (if code =? 1 then
       expires ← as_u64 OPERATION "execution lease expiry" lease_or_retry;
       Ok (ClaimAcquired (mkLease (claim_execution_key claim) (claim_attempt claim) owner_token
             expires (idem_lease_ttl self) (recovered =? 1)))
     else if code =? 2 then
       outcome ← map_err (InvalidState OPERATION) (outcome_from_str terminal_state);
       at_ms ← as_u64 OPERATION "completion timestamp" completed_at;
       Ok (ClaimAlreadyCompleted (mkCompleted outcome at_ms))
     else if code =? 3 then Ok (ClaimBusy (duration_from_nonnegative_ms lease_or_retry))
     else if code =? 4 then Err (InvalidState OPERATION message)
     else Err (unknown_code OPERATION code)).

Definition renew self link (lease : ExecutionLease) : RedisOp db ExecutionLease :=
  let OPERATION := "execution_renew" in
  lease_ttl_ms ← op_lift (duration_ms OPERATION (idem_lease_ttl self));
  running_retention_ms ← op_lift (duration_ms OPERATION (running_retention self));
  reply ← invoke OPERATION link
    (renew_script (idem_key_for_lease self lease) (lease_owner_token lease)
       (lease_execution_key lease) (show (lease_attempt lease)) (show lease_ttl_ms)
       (show running_retention_ms));
  let '(code, expires_at, message) := reply in
  op_lift
    (if code =? 1 then
       expires ← as_u64 OPERATION "execution lease expiry" expires_at;
       Ok (mkLease (lease_execution_key lease) (lease_attempt lease) (lease_owner_token lease)
             expires (idem_lease_ttl self) (lease_recovered lease))
     else if code =? 2 then Err (StaleOwner OPERATION)
     else if code =? 3 then Err (InvalidState OPERATION message)
     else Err (unknown_code OPERATION code)).

Definition complete self link (lease : ExecutionLease) (outcome : TerminalOutcome)
    : RedisOp db CompletedOutcome :=
  let OPERATION := "execution_complete" in
  terminal_ttl_ms ← op_lift (duration_ms OPERATION (idem_terminal_ttl self));
  reply ← invoke OPERATION link
    (complete_script (idem_key_for_lease self lease) (lease_owner_token lease)
       (lease_execution_key lease) (show (lease_attempt lease)) (outcome_as_str outcome)
       (show terminal_ttl_ms));
  let '(code, completed_at, message) := reply in
  op_lift
    (if code =? 1 then
       at_ms ← as_u64 OPERATION "completion timestamp" completed_at;
       Ok (mkCompleted outcome at_ms)
     else if code =? 2 then Err (StaleOwner OPERATION)
     else if code =? 3 then Err (InvalidState OPERATION message)
     else Err (unknown_code OPERATION code)).

Definition release self link (lease : ExecutionLease) : RedisOp db ReleaseOutcome :=
  let OPERATION := "execution_release" in
  reply ← invoke OPERATION link
    (release_script (idem_key_for_lease self lease) (lease_owner_token lease)
       (lease_execution_key lease) (show (lease_attempt lease)));
  let '(code, message) := reply in
  op_lift
    (if code =? 0 then Ok AlreadyAbsent
     else if code =? 1 then Ok Released
     else if code =? 2 then Err (StaleOwner OPERATION)
     else if code =? 3 then Err (InvalidState OPERATION message)
     else Err (unknown_code OPERATION code)).
End scripts.

(** ** Abstract specification *)

Module Spec.
Inductive record :=
| Absent
| Running (owner : string) (until recoveries : Z)
| Terminal (owner : string) (outcome : TerminalOutcome) (completed_at : Z).

(** The lease is held by [owner] at time [now]. *)
Definition held_by (owner : string) (now : Z) (st : record) : Prop :=
  match st with Running o until _ => o = owner /\ now < until | _ => False end.

Inductive claim_reply :=
| Acquired (until : Z) (recovered : bool)
| Completed (outcome : TerminalOutcome) (completed_at : Z)
| Busy (remaining : Z).

Inductive refusal := Stale | Invalid (message : string).

Definition claim_step (me : string) (now ttl : Z) (st : record) : claim_reply * record :=
  match st with
  | Absent => (Acquired (now + ttl) false, Running me (now + ttl) 0)
  | Running o until r =>
      if until <=? now then (Acquired (now + ttl) true, Running me (now + ttl) (r + 1))
      else (Busy (until - now), st)
  | Terminal _ outcome at_ms => (Completed outcome at_ms, st)
  end.

Definition renew_step (me : string) (now ttl : Z) (st : record) : result refusal Z * record :=
  match st with
  | Absent => (Err Stale, st)
  | Running o until r =>
      if negb (String.eqb o me) || (until <=? now) then (Err Stale, st)
      else (Ok (now + ttl), Running o (now + ttl) r)
  | Terminal _ _ _ => (Err (Invalid "execution is no longer running"), st)
  end.

Definition complete_step (me : string) (now : Z) (outcome : TerminalOutcome) (st : record)
    : result refusal Z * record :=
  match st with
  | Absent => (Err Stale, st)
  | Running o until r =>
      if negb (String.eqb o me) || (until <=? now) then (Err Stale, st)
      else (Ok now, Terminal o outcome now)
  | Terminal o outcome' at_ms =>
      if negb (String.eqb o me) then (Err Stale, st)
      else if bool_decide (outcome = outcome') then (Ok at_ms, st)
      else (Err (Invalid "execution already has a different terminal outcome"), st)
  end.

Definition release_step (me : string) (now : Z) (st : record) : result refusal ReleaseOutcome * record :=
  match st with
  | Absent => (Ok AlreadyAbsent, st)
  | Running o until r =>
      if negb (String.eqb o me) || (until <=? now) then (Err Stale, st) else (Ok Released, Absent)
  | Terminal _ _ _ => (Err (Invalid "execution is no longer running"), st)
  end.
End Spec.

(** The hash of a record of attempt [attempt] of [execution_key] at time [now]. *)
Definition represents (execution_key attempt : string) (now : Z) (h : gmap string string)
    (st : Spec.record) : Prop :=
  match st with
  | Spec.Absent => h = ∅
  | Spec.Running owner until recoveries =>
      h !! "state" = Some "running" /\ h !! "owner" = Some owner
      /\ h !! "execution_key" = Some execution_key /\ h !! "attempt" = Some attempt
      /\ h !! "lease_until" = Some (show until) /\ h !! "recovery_count" = Some (show recoveries)
      /\ 0 <= recoveries <= now /\ recoveries < until < 10 ^ 14
  | Spec.Terminal owner outcome completed_at =>
      h !! "state" = Some (outcome_as_str outcome) /\ h !! "owner" = Some owner
      /\ h !! "execution_key" = Some execution_key /\ h !! "attempt" = Some attempt
      /\ h !! "completed_at" = Some (show completed_at) /\ 0 <= completed_at <= now
      /\ completed_at < 10 ^ 14
  end.

Section refinement.
Context {db : Type} `{RedisLaws db}.
Implicit Types (d : db) (key owner ek att : string) (h : gmap string string).

Lemma identity_matches_run d key ek att h st :
  hash d key = Some h -> represents ek att (now_ms d) h st -> h <> ∅ ->
  identity_matches key ek att d = (Ok true, d).
Proof.
  intros Hh Hr Hne. assert (h !! "execution_key" = Some ek /\ h !! "attempt" = Some att) as [He Ha].
  { destruct st; simpl in Hr; naive_solver. }
  unfold identity_matches. erewrite bind_run by by apply hget_run.
  rewrite He, bool_decide_true by done. simpl.
  erewrite bind_run by by apply hget_run. rewrite Ha. by rewrite bool_decide_true.
Qed.

Lemma number_field_run d key h f z :
  hash d key = Some h -> h !! f = Some (show z) -> 0 <= z < 10 ^ 14 ->
  number_field key f d = (Ok z, d).
Proof.
  intros Hh Hf Hz. unfold number_field. erewrite bind_run by by apply hget_run.
  rewrite Hf. simpl. by rewrite tonumber_show by lia.
Qed.

Lemma terminal_not_running o : outcome_as_str o <> "running".
Proof. by destruct o. Qed.

Lemma is_terminal_outcome o : is_terminal_state (Some (outcome_as_str o)) = true.
Proof. by destruct o. Qed.

(** The reply of [claim_script] for an abstract reply. *)
Definition claim_wire (r : Spec.claim_reply) : Z * Z * Z * string * Z * string :=
  match r with
  | Spec.Acquired until recovered => (1, until, if recovered then 1 else 0, EmptyString, 0, EmptyString)
  | Spec.Completed outcome at_ms => (2, 0, 0, outcome_as_str outcome, at_ms, EmptyString)
  | Spec.Busy remaining => (3, remaining, 0, EmptyString, 0, EmptyString)
  end.

Lemma claim_script_refines d key me ek att ttl ret h st :
  hash d key = Some h -> represents ek att (now_ms d) h st -> clock_exact d ->
  1 <= ttl -> now_ms d + ttl < 10 ^ 14 -> 1 <= ret <= i64_max ->
  let '(reply, st') := Spec.claim_step me (now_ms d) ttl st in
  exists d' h', claim_script key me ek att (show ttl) (show ret) d = (Ok (claim_wire reply), d')
    /\ hash d' key = Some h' /\ represents ek att (now_ms d) h' st' /\ frame d d' key
    /\ match reply with
       | Spec.Acquired _ _ => expiry d' key = Some (now_ms d + ret)
       | _ => d' = d
       end.
Proof.
  intros Hh Hr Hc Ht Hn Hret. pose proof (now_ms_nonneg d) as Hn0.
  unfold claim_script. erewrite bind_run by by apply time_ms_run.
  erewrite bind_run by (rewrite tonumber_show by lia; done). cbv zeta.
  rewrite lua_add_exact by lia.
  rewrite (tostring_exact (now_ms d + ttl)) by (unfold lua_exact; lia).
  destruct st as [|o until r|o out at_ms]; simpl in Hr |- *.
  - subst h. erewrite bind_run by by apply exists_absent_run. cbn [negb].
    destruct (hset_pexpire_run d key [("state", "running"); ("owner", me); ("execution_key", ek);
      ("attempt", att); ("lease_until", show (now_ms d + ttl)); ("recovery_count", "0")] ∅ ret
      (mret (1, now_ms d + ttl, 0, EmptyString, 0, EmptyString)) Hh)
      as (d' & -> & Hh' & He & Hf); [done..|].
    eexists d', _. split; [done|]. split; [exact Hh'|]. split; [|done]. simpl. split_and!; try lia; by simplify_map_eq.
  - pose proof Hr as Hrep. destruct Hr as (Hs & Ho & Hk & Ha & Hu & Hrc & Hrr & Hub).
    erewrite bind_run by by eapply exists_present_run. cbn [negb].
    erewrite bind_run by (apply (identity_matches_run d key ek att h (Spec.Running o until r));
      [done|exact Hrep|by eapply lookup_nonempty]).
    simpl. erewrite bind_run by by apply hget_run. rewrite Hs. simpl.
    erewrite bind_run by (apply (number_field_run d key h _ until Hh Hu); lia).
    destruct (Z.leb_spec until (now_ms d)) as [Hexp|Hlive].
    + rewrite (tostring_exact (now_ms d)) by exact Hc.
      destruct (hset_law d key [("owner", me); ("lease_until", show (now_ms d + ttl));
        ("recovered_at", show (now_ms d))] h Hh) as (d1 & E1 & Hh1 & He1 & Hf1); [done|].
      erewrite bind_run by exact E1.
      destruct (hincrby_law d1 key "recovery_count" 1 r _ Hh1) as (d2 & E2 & Hh2 & He2 & Hf2);
        [right; simpl; by simplify_map_eq|lia..|].
      erewrite bind_run by exact E2. erewrite bind_run by (apply int_arg_show; lia).
      destruct (pexpire_law d2 key ret _ Hh2) as (d3 & E3 & Hh3 & He3 & Hf3); [lia|].
      erewrite bind_run by exact E3.
      eexists d3, _. split; [done|]. split; [exact Hh3|].
      split; [simpl; split_and!; try lia; by simplify_map_eq|].
      split; [by eapply frame_trans; [|eapply frame_trans]|].
      rewrite He3, (frame_now _ _ _ Hf2), (frame_now _ _ _ Hf1). unfold keep_expiry.
      rewrite decide_False; [done|apply insert_non_empty].
    + exists d, h. rewrite lua_sub_exact by lia. split; [done|]. split; [done|].
      split; [exact Hrep|]. split; [apply frame_refl|done].
  - pose proof Hr as Hrep. destruct Hr as (Hs & Ho & Hk & Ha & Hat & Hb).
    erewrite bind_run by by eapply exists_present_run. cbn [negb].
    erewrite bind_run by (apply (identity_matches_run d key ek att h (Spec.Terminal o out at_ms));
      [done|exact Hrep|by eapply lookup_nonempty]).
    simpl. erewrite bind_run by by apply hget_run. rewrite Hs, is_terminal_outcome.
    erewrite bind_run by (apply (number_field_run d key h _ at_ms Hh Hat); lia).
    exists d, h. split; [done|]. split; [done|]. split; [exact Hrep|].
    split; [apply frame_refl|done].
Qed.

(** The reply of the other scripts for an abstract one; the text that comes
    with a stale owner is not used by the code. *)
Definition wire_matches {A} (wire : A -> Z * Z) (r : result Spec.refusal A)
    (reply : Z * Z * string) : Prop :=
  match r with
  | Ok a => reply = (wire a, EmptyString)
  | Err Spec.Stale => exists m, reply = (2, 0, m)
  | Err (Spec.Invalid m) => reply = (3, 0, m)
  end.

(** What a script leaves behind: the reply of the specification, the record of
    the specification with its retention renewed, and an untouched database
    when it refuses. *)
Definition script_post {A} (wire : A -> Z * Z) d key ek att (ret : Z) (r : result Spec.refusal A)
    (st' : Spec.record) (out : result string (Z * Z * string) * db) : Prop :=
  exists d' h' reply, out = (Ok reply, d') /\ wire_matches wire r reply
    /\ hash d' key = Some h' /\ represents ek att (now_ms d) h' st' /\ frame d d' key
    /\ (d' = d \/ is_ok r = true /\ expiry d' key = Some (now_ms d + ret)).

Lemma script_post_unchanged {A} (wire : A -> Z * Z) d key ek att ret h st r reply :
  hash d key = Some h -> represents ek att (now_ms d) h st -> wire_matches wire r reply ->
  script_post wire d key ek att ret r st (Ok reply, d).
Proof. intros. exists d, h, reply. split_and!; try done; [by left]. Qed.

Lemma present_prefix {A} d key ek att h st (no yes other : Script db A) :
  hash d key = Some h -> represents ek att (now_ms d) h st -> st <> Spec.Absent ->
  (present ← query (EXISTS key); if negb present then no else
   same ← identity_matches key ek att; if negb same then other else yes) d = yes d.
Proof.
  intros Hh Hr Hst.
  assert (h !! "execution_key" = Some ek) as Hk by (destruct st; simpl in Hr; naive_solver).
  erewrite bind_run by by eapply exists_present_run. cbn [negb].
  erewrite bind_run by (eapply identity_matches_run; [done|done|by eapply lookup_nonempty]). done.
Qed.

Lemma renew_script_refines d key me ek att ttl ret h st :
  hash d key = Some h -> represents ek att (now_ms d) h st -> clock_exact d ->
  1 <= ttl -> now_ms d + ttl < 10 ^ 14 -> 1 <= ret <= i64_max ->
  script_post (fun until => (1, until)) d key ek att ret (Spec.renew_step me (now_ms d) ttl st).1
    (Spec.renew_step me (now_ms d) ttl st).2 (renew_script key me ek att (show ttl) (show ret) d).
Proof.
  intros Hh Hr Hc Ht Hn Hret. pose proof (now_ms_nonneg d) as Hn0. unfold renew_script.
  destruct st as [|o until r|o out at_ms]; simpl Spec.renew_step.
  - simpl in Hr. subst h. erewrite bind_run by by apply exists_absent_run. cbn [negb].
    apply (script_post_unchanged _ d key ek att _ ∅); [done|done|by eexists].
  - pose proof Hr as (Hs & Ho & Hk & Ha & Hu & Hrc & Hrr & Hub).
    rewrite (present_prefix d key ek att h _ _ _ _ Hh Hr) by done.
    erewrite bind_run by by apply hget_run. rewrite Hs, bool_decide_true by done. cbn [negb].
    erewrite bind_run by by apply hget_run. rewrite Ho.
    destruct (String.eqb_spec o me) as [->|Hne]; cycle 1.
    { rewrite bool_decide_false by congruence. cbn [negb orb fst snd].
      apply (script_post_unchanged _ d key ek att _ h); [done|done|by eexists]. }
    rewrite bool_decide_true by done. cbn [negb orb].
    erewrite bind_run by by apply time_ms_run.
    erewrite bind_run by (apply (number_field_run d key h _ until Hh Hu); lia).
    destruct (Z.leb_spec until (now_ms d)) as [Hexp|Hlive];
      [apply (script_post_unchanged _ d key ek att _ h); [done|done|by eexists]|].
    erewrite bind_run by (rewrite tonumber_show by lia; done). cbv zeta.
    rewrite lua_add_exact, tostring_exact by (try unfold lua_exact; lia).
    destruct (hset_pexpire_run d key [("lease_until", show (now_ms d + ttl))] h ret
      (mret (1, now_ms d + ttl, EmptyString)) Hh) as (d' & -> & Hh' & He & Hf); [done..|].
    eexists d', _, _. split; [done|]. split; [done|]. split; [exact Hh'|].
    split; [|split; [done|by right]]. simpl. split_and!; try lia; by simplify_map_eq.
  - pose proof Hr as (Hs & Ho & Hk & Ha & Hat & Hb).
    rewrite (present_prefix d key ek att h _ _ _ _ Hh Hr) by done.
    erewrite bind_run by by apply hget_run. rewrite Hs.
    rewrite bool_decide_false by (pose proof (terminal_not_running out); congruence). cbn [negb].
    by apply (script_post_unchanged _ d key ek att _ h).
Qed.

Lemma complete_script_refines d key me ek att o ret h st :
  hash d key = Some h -> represents ek att (now_ms d) h st -> clock_exact d -> 1 <= ret <= i64_max ->
  script_post (fun at_ms => (1, at_ms)) d key ek att ret (Spec.complete_step me (now_ms d) o st).1
    (Spec.complete_step me (now_ms d) o st).2
    (complete_script key me ek att (outcome_as_str o) (show ret) d).
Proof.
  intros Hh Hr Hc Hret. pose proof (now_ms_nonneg d) as Hn0. unfold complete_script.
  destruct st as [|w until r|w out at_ms]; simpl Spec.complete_step.
  - simpl in Hr. subst h. erewrite bind_run by by apply exists_absent_run. cbn [negb].
    apply (script_post_unchanged _ d key ek att _ ∅); [done|done|by eexists].
  - pose proof Hr as (Hs & Ho & Hk & Ha & Hu & Hrc & Hrr & Hub).
    rewrite (present_prefix d key ek att h _ _ _ _ Hh Hr) by done.
    erewrite bind_run by by apply hget_run. rewrite Ho.
    destruct (String.eqb_spec w me) as [->|Hne]; cycle 1.
    { rewrite bool_decide_false by congruence. cbn [negb orb fst snd].
      apply (script_post_unchanged _ d key ek att _ h); [done|done|by eexists]. }
    rewrite bool_decide_true by done. cbn [negb orb].
    erewrite bind_run by by apply hget_run. rewrite Hs.
    change (is_terminal_state (Some "running")) with false. cbv iota.
    rewrite bool_decide_true by done. cbn [negb].
    erewrite bind_run by by apply time_ms_run.
    erewrite bind_run by (apply (number_field_run d key h _ until Hh Hu); lia).
    destruct (Z.leb_spec until (now_ms d)) as [Hexp|Hlive];
      [apply (script_post_unchanged _ d key ek att _ h); [done|done|by eexists]|].
    rewrite (tostring_exact (now_ms d)) by exact Hc.
    destruct (hset_law d key [("state", outcome_as_str o); ("completed_at", show (now_ms d))] h Hh)
      as (d1 & E1 & Hh1 & _ & Hf1); [done|].
    destruct (hdel_law d1 key ["lease_until"] _ Hh1) as (d2 & E2 & Hh2 & _ & Hf2).
    destruct (pexpire_law d2 key ret _ Hh2) as (d3 & E3 & Hh3 & He3 & Hf3); [lia|].
    erewrite bind_run by exact E1. erewrite bind_run by exact E2.
    erewrite bind_run by (apply int_arg_show; lia). erewrite bind_run by exact E3.
    eexists d3, _, _. split; [done|]. split; [done|]. split; [exact Hh3|].
    assert (hdel_fields ["lease_until"] (hset_fields [("state", outcome_as_str o);
      ("completed_at", show (now_ms d))] h) !! "owner" = Some me) as Hown by (simpl; by simplify_map_eq).
    split; [|split; [by eapply frame_trans; [|eapply frame_trans]|right; split; [done|]]].
    2:{ rewrite He3, (frame_now _ _ _ Hf2), (frame_now _ _ _ Hf1). unfold keep_expiry.
        rewrite decide_False; [done|by eapply lookup_nonempty]. }
    unfold clock_exact, lua_exact in Hc. simpl. split_and!; try lia; by simplify_map_eq.
  - pose proof Hr as (Hs & Ho & Hk & Ha & Hat & Hb).
    rewrite (present_prefix d key ek att h _ _ _ _ Hh Hr) by done.
    erewrite bind_run by by apply hget_run. rewrite Ho.
    destruct (String.eqb_spec w me) as [->|Hne]; cycle 1.
    { rewrite (bool_decide_false (Some w = Some me)) by congruence. cbn [negb fst snd].
      apply (script_post_unchanged _ d key ek att _ h); [done|done|by eexists]. }
    rewrite (bool_decide_true (Some me = Some me)) by done. cbn [negb].
    erewrite bind_run by by apply hget_run. rewrite Hs, is_terminal_outcome.
    destruct (decide (o = out)) as [->|Hne].
    + rewrite !bool_decide_true by done. cbn [negb fst snd].
      erewrite bind_run by (apply (number_field_run d key h _ at_ms Hh Hat); lia).
      by apply (script_post_unchanged _ d key ek att _ h).
    + rewrite (bool_decide_false (o = out)) by done.
      rewrite bool_decide_false by (intros [= Heq]; apply Hne; by destruct o, out).
      cbn [negb fst snd]. by apply (script_post_unchanged _ d key ek att _ h).
Qed.

Lemma release_script_refines d key me ek att h st :
  hash d key = Some h -> represents ek att (now_ms d) h st -> clock_exact d ->
  exists d' h' code m, release_script key me ek att d = (Ok (code, m), d')
    /\ match (Spec.release_step me (now_ms d) st).1 with
       | Ok AlreadyAbsent => code = 0
       | Ok Released => code = 1
       | Err Spec.Stale => code = 2
       | Err (Spec.Invalid m') => code = 3 /\ m = m'
       end
    /\ hash d' key = Some h' /\ represents ek att (now_ms d) h' (Spec.release_step me (now_ms d) st).2
    /\ frame d d' key /\ (is_ok (Spec.release_step me (now_ms d) st).1 = false -> d' = d).
Proof.
  intros Hh Hr Hc. unfold release_script.
  destruct st as [|o until r|o out at_ms]; simpl Spec.release_step.
  - simpl in Hr. subst h. erewrite bind_run by by apply exists_absent_run. cbn [negb].
    exists d, ∅, 0, EmptyString. split_and!; try done; apply frame_refl.
  - pose proof Hr as (Hs & Ho & Hk & Ha & Hu & Hrc & Hrr & Hub).
    rewrite (present_prefix d key ek att h _ _ _ _ Hh Hr) by done.
    erewrite bind_run by by apply hget_run. rewrite Hs, bool_decide_true by done. cbn [negb].
    erewrite bind_run by by apply hget_run. rewrite Ho.
    destruct (String.eqb_spec o me) as [->|Hne]; cycle 1.
    { rewrite bool_decide_false by congruence. cbn [negb orb fst snd].
      eexists d, h, _, _. split_and!; try done; apply frame_refl. }
    rewrite bool_decide_true by done. cbn [negb orb].
    erewrite bind_run by by apply time_ms_run.
    erewrite bind_run by (apply (number_field_run d key h _ until Hh Hu); lia).
    destruct (Z.leb_spec until (now_ms d)) as [Hexp|Hlive];
      [eexists d, h, _, _; split_and!; try done; apply frame_refl|].
    destruct (del_law d key h Hh) as (d1 & E1 & Hh1 & _ & Hf1).
    erewrite bind_run by exact E1. eexists d1, ∅, _, _. by split_and!.
  - pose proof Hr as (Hs & Ho & Hk & Ha & Hat & Hb).
    rewrite (present_prefix d key ek att h _ _ _ _ Hh Hr) by done.
    erewrite bind_run by by apply hget_run. rewrite Hs.
    rewrite bool_decide_false by (pose proof (terminal_not_running out); congruence). cbn [negb].
    eexists d, h, _, _. split_and!; try done; apply frame_refl.
Qed.
End refinement.

(** ** The operations implement the specification *)

Section operations.
Context {db : Type} `{RedisLaws db}.
Variable self : RedisIdempotencyStore.
Variable c : ExecutionClaim.
Implicit Types (d : db) (me : string) (link : Link) (st : Spec.record) (l : ExecutionLease).

(** The configured durations are whole milliseconds Redis can hold, and
    terminal records are kept at least as long as a lease lasts. *)
Definition store_config_ok : Prop :=
  1 <= as_millis (idem_lease_ttl self) < 10 ^ 14
  /\ as_millis (idem_lease_ttl self) <= as_millis (idem_terminal_ttl self) <= i64_max
  /\ as_millis (idem_lease_ttl self) <= as_millis (running_retention self) <= i64_max.

Definition ttl_ms : Z := as_millis (idem_lease_ttl self).
Definition record_key : string := idem_key_for self c.

(** A lease of this execution attempt. *)
Definition lease_of_claim l : Prop :=
  lease_execution_key l = claim_execution_key c /\ lease_attempt l = claim_attempt c.

(** Before the year 5138 every timestamp prints in full. *)
Definition era d : Prop := clock_exact d /\ now_ms d + ttl_ms < 10 ^ 14.

(** The database holds record [st], which outlives its lease. *)
Definition tracks d st : Prop :=
  exists h, hash d record_key = Some h
    /\ represents (claim_execution_key c) (show (claim_attempt c)) (now_ms d) h st
    /\ match st with
       | Spec.Running _ until _ => exists t, expiry d record_key = Some t /\ until <= t
       | Spec.Terminal _ _ at_ms =>
           exists t, expiry d record_key = Some t /\ at_ms + as_millis (idem_terminal_ttl self) <= t
       | Spec.Absent => True
       end.

Hypothesis Hconfig : store_config_ok.
Hypothesis Hkey : blank (claim_execution_key c) = false.

Definition claim_result me (r : Spec.claim_reply) : ClaimOutcome :=
  match r with
  | Spec.Acquired until recovered =>
      ClaimAcquired (mkLease (claim_execution_key c) (claim_attempt c) me until
                       (idem_lease_ttl self) recovered)
  | Spec.Completed outcome at_ms => ClaimAlreadyCompleted (mkCompleted outcome at_ms)
  | Spec.Busy remaining => ClaimBusy (from_millis remaining)
  end.

(** How an operation may end: with the reply and the record of the
    specification, or, when the network failed, with an error and either the
    old record or the new one. *)
Definition refines {A} link d (good : result CoordinationError A) st st'
    (out : result CoordinationError A * db) : Prop :=
  clock out.2 = clock d
  /\ ((link = LinkUp /\ out.1 = good /\ tracks out.2 st')
      \/ (link <> LinkUp /\ (exists e, out.1 = Err e) /\ (tracks out.2 st \/ tracks out.2 st'))).

Lemma invoke_lost {A} op link (s : Script db A) d :
  link <> LinkUp ->
  exists e, fst (invoke op link s d) = Err e
    /\ (snd (invoke op link s d) = d \/ snd (invoke op link s d) = snd (s d)).
Proof. destruct link as [| | |[] |[]]; simpl; naive_solver. Qed.

Lemma refines_invoke {A B} op link (s : Script db A) (k : A -> RedisOp db B) good d st st' a d' :
  s d = (Ok a, d') -> tracks d st -> frame d d' record_key -> tracks d' st' ->
  k a d' = (good, d') ->
  refines link d good st st' ((invoke op link s ≫= k) d).
Proof.
  intros Hs Ht [Hc _] Ht' Hk. destruct (decide (link = LinkUp)) as [->|Hne].
  - rewrite (invoke_up_run op s k d a d' Hs), Hk. split; [done|by left].
  - destruct (invoke_lost op link s d Hne) as (e & He & Hd).
    unfold mbind, op_bind. destruct (invoke op link s d) as [r d1]. simpl in *. subst r.
    rewrite Hs in Hd. simpl in Hd. split; [by destruct Hd as [-> | ->]|]. right. split; [done|].
    split; [by exists e|]. simpl. destruct Hd as [-> | ->]; [by left|by right].
Qed.

Lemma claim_implements link me d st :
  tracks d st -> era d ->
  let '(reply, st') := Spec.claim_step me (now_ms d) ttl_ms st in
  refines link d (Ok (claim_result me reply)) st st' (claim self link me c d).
Proof.
  intros Ht [Hc Hn]. pose proof Ht as (h & Hh & Hr & He).
  destruct Hconfig as (Hl & Htt & Hret). unfold ttl_ms in *.
  pose proof (claim_script_refines d record_key me _ _ (as_millis (idem_lease_ttl self))
    (as_millis (running_retention self)) h st Hh Hr Hc ltac:(lia) Hn ltac:(lia)) as Hs.
  destruct (Spec.claim_step me (now_ms d) _ st) as [reply st'] eqn:Espec.
  destruct Hs as (d' & h' & Hs & Hh' & Hr' & Hf & Hexp). unfold claim.
  rewrite (op_lift_run _ _ _ tt) by by rewrite Hkey.
  rewrite (op_lift_run _ _ _ (as_millis (idem_lease_ttl self))) by (apply duration_ms_Ok; mlia).
  rewrite (op_lift_run _ _ _ (as_millis (running_retention self))) by (apply duration_ms_Ok; mlia).
  eapply refines_invoke; [exact Hs|done|done| |].
  - exists h'. rewrite (frame_now _ _ _ Hf). split; [done|]. split; [done|].
    destruct st as [|o u r|o out at_ms]; simpl in Espec; try destruct (_ <=? _) eqn:Ele;
      injection Espec as <- <-; try done; try (exists (now_ms d + as_millis (running_retention self)); split; [done|lia]).
    all: by subst d'.
  - pose proof (now_ms_nonneg d). unfold claim_wire, op_lift.
    destruct st as [|o u r|o out at_ms]; simpl in Espec; try destruct (Z.leb_spec u (now_ms d));
      injection Espec as <- <-; simpl in Hr; simpl.
    + by rewrite as_u64_in by mlia.
    + by rewrite as_u64_in by mlia.
    + by rewrite duration_from_ms_in by mlia.
    + rewrite outcome_from_as_str. simpl. by rewrite as_u64_in by mlia.
Qed.

Definition refusal_error (op : string) (r : Spec.refusal) : CoordinationError :=
  match r with Spec.Stale => StaleOwner op | Spec.Invalid m => InvalidState op m end.

Definition reply_result {A B} (op : string) (f : A -> B) (r : result Spec.refusal A)
    : result CoordinationError B :=
  match r with Ok a => Ok (f a) | Err e => Err (refusal_error op e) end.

Lemma lease_key l : lease_of_claim l -> idem_key_for_lease self l = record_key.
Proof. intros [Hk Ha]. unfold idem_key_for_lease, record_key, idem_key_for. by rewrite Hk, Ha. Qed.

Definition renewed_lease l (until : Z) : ExecutionLease :=
  mkLease (lease_execution_key l) (lease_attempt l) (lease_owner_token l) until
    (idem_lease_ttl self) (lease_recovered l).

Lemma renew_implements link l d st :
  lease_of_claim l -> tracks d st -> era d ->
  let '(r, st') := Spec.renew_step (lease_owner_token l) (now_ms d) ttl_ms st in
  refines link d (reply_result "execution_renew" (renewed_lease l) r) st st' (renew self link l d).
Proof.
  intros Hl Ht [Hc Hn]. pose proof Ht as (h & Hh & Hr & He).
  destruct Hconfig as (Hlt & Htt & Hret). unfold ttl_ms in *. pose proof (now_ms_nonneg d).
  pose proof (renew_script_refines d record_key (lease_owner_token l) _ _
    (as_millis (idem_lease_ttl self)) (as_millis (running_retention self)) h st Hh Hr Hc
    ltac:(lia) Hn ltac:(lia)) as (d' & h' & reply & Hs & Hw & Hh' & Hr' & Hf & Hexp).
  destruct (Spec.renew_step _ _ _ st) as [r st'] eqn:Espec. simpl in Hw, Hr', Hexp. unfold renew.
  rewrite (op_lift_run _ _ _ (as_millis (idem_lease_ttl self))) by (apply duration_ms_Ok; mlia).
  rewrite (op_lift_run _ _ _ (as_millis (running_retention self))) by (apply duration_ms_Ok; mlia).
  rewrite (lease_key l Hl). unfold renewed_lease. destruct Hl as [-> ->].
  eapply refines_invoke; [exact Hs|done|done| |].
  - exists h'. rewrite (frame_now _ _ _ Hf). split; [done|]. split; [done|].
    destruct st as [|o u rc|o out at_ms]; simpl in Espec; try destruct (_ || _) eqn:Ele;
      injection Espec as <- <-; try done; destruct Hexp as [-> | [? Hexp]]; try done.
    + destruct He as (t & Ht1 & Ht2). exists t. split; [done|].
      destruct Hr as (_ & _ & _ & _ & Hu & _), Hr' as (_ & _ & _ & _ & Hu' & _).
      rewrite Hh in Hh'. injection Hh' as <-. rewrite Hu in Hu'. injection Hu' as Hu'%show_inj. lia.
    + eexists. split; [done|lia].
  - unfold op_lift. destruct r as [until|[|m]]; simpl in Hw.
    + subst reply. simpl.
      assert (in_range u64_max until) as Hu.
      { destruct st; simpl in Espec; try destruct (_ || _); simplify_eq. mlia. }
      by rewrite as_u64_in.
    + by destruct Hw as (m & ->).
    + by subst reply.
Qed.

Lemma complete_implements link l o d st :
  lease_of_claim l -> tracks d st -> era d ->
  let '(r, st') := Spec.complete_step (lease_owner_token l) (now_ms d) o st in
  refines link d (reply_result "execution_complete" (mkCompleted o) r) st st' (complete self link l o d).
Proof.
  intros Hl Ht [Hc Hn]. pose proof Ht as (h & Hh & Hr & He).
  destruct Hconfig as (Hlt & Htt & Hret). pose proof (now_ms_nonneg d).
  pose proof (complete_script_refines d record_key (lease_owner_token l) _ _ o
    (as_millis (idem_terminal_ttl self)) h st Hh Hr Hc ltac:(lia))
    as (d' & h' & reply & Hs & Hw & Hh' & Hr' & Hf & Hexp).
  destruct (Spec.complete_step _ _ _ st) as [r st'] eqn:Espec. simpl in Hw, Hr', Hexp. unfold complete.
  rewrite (op_lift_run _ _ _ (as_millis (idem_terminal_ttl self))) by (apply duration_ms_Ok; mlia).
  rewrite (lease_key l Hl). destruct Hl as [-> ->].
  eapply refines_invoke; [exact Hs|done|done| |].
  - exists h'. rewrite (frame_now _ _ _ Hf). split; [done|]. split; [done|].
    destruct st as [|w u rc|w out at_ms]; simpl in Espec.
    + by injection Espec as <- <-.
    + destruct (_ || _); injection Espec as <- <-; destruct Hexp as [-> | [? Hexp]]; try done.
      * destruct Hr as (Hrun & _), Hr' as (Hterm & _). rewrite Hh in Hh'. injection Hh' as <-.
        pose proof (terminal_not_running o). congruence.
      * eexists. split; [exact Hexp|lia].
    + assert (st' = Spec.Terminal w out at_ms) as -> by (repeat case_match; by simplify_eq).
      destruct Hexp as [-> | [_ Hexp]]; [done|]. eexists. split; [exact Hexp|].
      simpl in Hr. lia.
  - unfold op_lift. destruct r as [at_ms|[|m]]; simpl in Hw.
    + subst reply. simpl. assert (in_range u64_max at_ms) as Hu.
      { unfold clock_exact, lua_exact in Hc.
        destruct st as [|w u rc|w out t]; simpl in Espec, Hr; [done| |].
        - destruct (_ || _); simplify_eq. mlia.
        - destruct Hr as (_ & _ & _ & _ & _ & Hb).
          destruct (negb _); [done|]. case_bool_decide; simplify_eq. mlia. }
      by rewrite as_u64_in.
    + by destruct Hw as (m & ->).
    + by subst reply.
Qed.

Lemma release_implements link l d st :
  lease_of_claim l -> tracks d st -> era d ->
  let '(r, st') := Spec.release_step (lease_owner_token l) (now_ms d) st in
  refines link d (reply_result "execution_release" id r) st st' (release self link l d).
Proof.
  intros Hl Ht [Hc Hn]. pose proof Ht as (h & Hh & Hr & He).
  pose proof (release_script_refines d record_key (lease_owner_token l) _ _ h st Hh Hr Hc)
    as (d' & h' & code & m & Hs & Hw & Hh' & Hr' & Hf & Hsame).
  destruct (Spec.release_step _ _ st) as [r st'] eqn:Espec. simpl in Hw, Hr'. unfold release.
  rewrite (lease_key l Hl). destruct Hl as [-> ->].
  eapply refines_invoke; [exact Hs|done|done| |].
  - exists h'. rewrite (frame_now _ _ _ Hf). split; [done|]. split; [done|].
    destruct st as [|o u rc|o out at_ms]; simpl in Espec; repeat (case_match; simplify_eq/=); try done.
    all: by rewrite (Hsame eq_refl).
  - unfold op_lift. destruct r as [[]|[|m']]; simpl in Hw; destruct_and?; by subst.
Qed.
End operations.

(** C2: the Redis lease store implements the abstract lease record.  On a
    database that holds the record, each of claim, renew, complete and release
    replies as the specification does and leaves the specification's record;
    when the network fails, the caller gets an error and the record is either
    untouched or the one the operation would have left. *)
Theorem execution_store_refines {db} `{RedisLaws db} self c link me l o (d : db) st
    (Hconfig : store_config_ok self) (Hkey : blank (claim_execution_key c) = false)
    (Hl : lease_of_claim c l) (Ht : tracks self c d st) (He : era self d) :
  (let '(reply, st') := Spec.claim_step me (now_ms d) (ttl_ms self) st in
   refines self c link d (Ok (claim_result self c me reply)) st st' (claim self link me c d))
  /\ (let '(r, st') := Spec.renew_step (lease_owner_token l) (now_ms d) (ttl_ms self) st in
      refines self c link d (reply_result "execution_renew" (renewed_lease self l) r) st st'
        (renew self link l d))
  /\ (let '(r, st') := Spec.complete_step (lease_owner_token l) (now_ms d) o st in
      refines self c link d (reply_result "execution_complete" (mkCompleted o) r) st st'
        (complete self link l o d))
  /\ (let '(r, st') := Spec.release_step (lease_owner_token l) (now_ms d) st in
      refines self c link d (reply_result "execution_release" id r) st st' (release self link l d)).
Proof.
  split; [by apply claim_implements|]. split; [by apply renew_implements|].
  split; [by apply complete_implements|]. by apply release_implements.
Qed.

(** ** Workers sharing one execution attempt *)

Section system.
Context {db : Type} `{RedisLaws db}.
Variable self : RedisIdempotencyStore.
Variable c : ExecutionClaim.
Hypothesis Hconfig : store_config_ok self.
Hypothesis Hkey : blank (claim_execution_key c) = false.

(** The database, the leases workers believe they hold (owner token and
    expiry), and the terminal outcome any worker has been told. *)
Record world := mkWorld {
  w_db : db;
  w_grants : gmap string Z;
  w_settled : option TerminalOutcome;
}.

(** The clock moves on, and other clients use other keys; the record stays as
    it is unless its retention ran out. *)
Inductive elapses (d d' : db) : bool -> Prop :=
| elapses_kept :
    now_ms d <= now_ms d' -> hash d' (record_key self c) = hash d (record_key self c) ->
    expiry d' (record_key self c) = expiry d (record_key self c) -> elapses d d' false
| elapses_expired t :
    expiry d (record_key self c) = Some t -> t < now_ms d' ->
    hash d' (record_key self c) = Some ∅ -> elapses d d' true.

Definition note_claim (me : string) (r : result CoordinationError ClaimOutcome) (w : world) (d' : db) : world :=
  match r with
  | Ok (ClaimAcquired l) => mkWorld d' (<[me := lease_expires_at_unix_ms l]> (w_grants w)) (w_settled w)
  | Ok (ClaimAlreadyCompleted o) => mkWorld d' (w_grants w) (Some (comp_outcome o))
  | _ => mkWorld d' (w_grants w) (w_settled w)
  end.

Definition note_renew (l : ExecutionLease) (r : result CoordinationError ExecutionLease) (w : world) (d' : db) : world :=
  match r with
  | Ok l' => mkWorld d' (<[lease_owner_token l := lease_expires_at_unix_ms l']> (w_grants w)) (w_settled w)
  | Err _ => mkWorld d' (w_grants w) (w_settled w)
  end.

Definition note_complete (r : result CoordinationError CompletedOutcome) (w : world) (d' : db) : world :=
  match r with
  | Ok o => mkWorld d' (w_grants w) (Some (comp_outcome o))
  | Err _ => mkWorld d' (w_grants w) (w_settled w)
  end.

(** Any worker may call any operation at any time over any link; a worker that
    calls [release] gives its lease up whatever the reply. *)
Inductive step (w : world) : world -> Prop :=
| step_claim link me :
    step w (note_claim me (claim self link me c (w_db w)).1 w (claim self link me c (w_db w)).2)
| step_renew link l : lease_of_claim c l ->
    step w (note_renew l (renew self link l (w_db w)).1 w (renew self link l (w_db w)).2)
| step_complete link l o : lease_of_claim c l ->
    step w (note_complete (complete self link l o (w_db w)).1 w (complete self link l o (w_db w)).2)
| step_release link l : lease_of_claim c l ->
    step w (mkWorld (release self link l (w_db w)).2 (delete (lease_owner_token l) (w_grants w)) (w_settled w))
| step_time d' gone : elapses (w_db w) d' gone -> era self d' ->
    step w (mkWorld d' (w_grants w) (if gone then None else w_settled w)).

Inductive reachable : world -> Prop :=
| reach_init d : hash d (record_key self c) = Some ∅ -> era self d -> reachable (mkWorld d ∅ None)
| reach_step w w' : reachable w -> step w w' -> reachable w'.

(** A live grant is backed by the record of that owner. *)
Definition backs (st : Spec.record) (me : string) (until : Z) : Prop :=
  match st with
  | Spec.Running o u _ => o = me /\ until <= u
  | Spec.Terminal o _ at_ms => o = me /\ until <= at_ms + ttl_ms self
  | Spec.Absent => False
  end.

Record consistent (w : world) (st : Spec.record) : Prop := {
  con_tracks : tracks self c (w_db w) st;
  con_era : era self (w_db w);
  con_grants : forall me until, w_grants w !! me = Some until ->
                 until <= now_ms (w_db w) + ttl_ms self
                 /\ (now_ms (w_db w) < until -> backs st me until);
  con_settled : forall o, w_settled w = Some o -> exists owner at_ms, st = Spec.Terminal owner o at_ms;
}.

(** A change of the record that keeps live grants backed and outcomes final. *)
Definition safe_move (now : Z) (st st' : Spec.record) : Prop :=
  (forall o until, until <= now + ttl_ms self -> now < until -> backs st o until -> backs st' o until)
  /\ (forall w o t, st = Spec.Terminal w o t -> st' = st).

Lemma safe_move_refl now st : safe_move now st st.
Proof. by split. Qed.

Lemma claim_safe me now st :
  safe_move now st (Spec.claim_step me now (ttl_ms self) st).2
  /\ match (Spec.claim_step me now (ttl_ms self) st).1 with
     | Spec.Acquired until _ =>
         until = now + ttl_ms self /\ backs (Spec.claim_step me now (ttl_ms self) st).2 me until
     | Spec.Completed o _ => exists w t, (Spec.claim_step me now (ttl_ms self) st).2 = Spec.Terminal w o t
     | Spec.Busy _ => True
     end.
Proof.
  destruct st as [|o u r|o out t]; simpl; [split; [split; naive_solver|naive_solver lia]| |].
  - destruct (Z.leb_spec u now); simpl; (split; [split; [|naive_solver]|naive_solver lia]).
    + intros w until _ ? [_ ?]. lia.
    + done.
  - split; [apply safe_move_refl|by eexists _, _].
Qed.

Lemma renew_safe me now st :
  safe_move now st (Spec.renew_step me now (ttl_ms self) st).2
  /\ (forall until, (Spec.renew_step me now (ttl_ms self) st).1 = Ok until ->
        until = now + ttl_ms self /\ backs (Spec.renew_step me now (ttl_ms self) st).2 me until).
Proof.
  destruct st as [|o u r|o out t]; simpl; [split; [apply safe_move_refl|done]| |split; [apply safe_move_refl|done]].
  destruct (negb (String.eqb o me) || (u <=? now)) eqn:E; simpl; [split; [apply safe_move_refl|done]|].
  apply orb_false_iff in E as [E _]. apply negb_false_iff, String.eqb_eq in E as ->.
  split; [split; [simpl; naive_solver lia|done]|]. intros u' [= <-]. naive_solver lia.
Qed.

Lemma complete_safe me now o st :
  safe_move now st (Spec.complete_step me now o st).2
  /\ (forall t, (Spec.complete_step me now o st).1 = Ok t ->
        exists w, (Spec.complete_step me now o st).2 = Spec.Terminal w o t).
Proof.
  destruct st as [|w u r|w out t]; simpl; [split; [apply safe_move_refl|done]| |].
  - destruct (negb (String.eqb w me) || (u <=? now)); simpl; [split; [apply safe_move_refl|done]|].
    split; [split; [simpl; naive_solver|done]|]. intros t [= <-]. by eexists.
  - destruct (negb _); simpl; [split; [apply safe_move_refl|done]|].
    case_bool_decide; simpl; (split; [apply safe_move_refl|]); [|done].
    intros t' [= <-]. subst out. by eexists.
Qed.

(** A consistent world stays consistent under a safe change of its record. *)
Lemma consistent_move w st st' d' :
  consistent w st -> safe_move (now_ms (w_db w)) st st' -> tracks self c d' st' ->
  clock d' = clock (w_db w) -> consistent (mkWorld d' (w_grants w) (w_settled w)) st'.
Proof.
  intros [Ht He Hg Hs] [Hm1 Hm2] Ht' Hc.
  assert (now_ms d' = now_ms (w_db w)) as Hn by (unfold now_ms; by rewrite Hc).
  split; simpl; [done| | |].
  - unfold era, clock_exact. by rewrite Hn.
  - intros me until Hl. destruct (Hg me until Hl) as [Hb Hbk]. rewrite Hn.
    split; [done|]. intros. by apply Hm1; [|auto..].
  - intros o Ho. destruct (Hs o Ho) as (ow & t & Hst). exists ow, t. rewrite <- Hst. by eapply Hm2.
Qed.

Lemma consistent_grant w st me until :
  consistent w st -> until <= now_ms (w_db w) + ttl_ms self -> backs st me until ->
  consistent (mkWorld (w_db w) (<[me := until]> (w_grants w)) (w_settled w)) st.
Proof.
  intros [Ht He Hg Hs] Hu Hb. split; simpl; [done..| |done].
  intros me' until' [[-> ->]|[? ?]]%lookup_insert_Some; [done|by apply Hg].
Qed.

Lemma consistent_settle w st o ow t :
  consistent w st -> st = Spec.Terminal ow o t ->
  consistent (mkWorld (w_db w) (w_grants w) (Some o)) st.
Proof. intros [Ht He Hg Hs] ->. split; simpl; [done..|]. intros o' [= <-]. by eexists _, _. Qed.

(** An operation whose outcome refines a safe move preserves consistency, and
    its reply is the specification's whenever the caller gets one. *)
Lemma refines_consistent {A} link w st st' (good : result CoordinationError A) out :
  consistent w st -> safe_move (now_ms (w_db w)) st st' ->
  refines self c link (w_db w) good st st' out ->
  (out.1 = good /\ consistent (mkWorld out.2 (w_grants w) (w_settled w)) st')
  \/ (exists e st1, out.1 = Err e /\ (st1 = st \/ st1 = st')
      /\ consistent (mkWorld out.2 (w_grants w) (w_settled w)) st1).
Proof.
  intros Hw Hm [Hc [(-> & Hg & Ht)|(_ & [e He] & [Ht|Ht])]].
  - left. split; [done|]. by eapply consistent_move.
  - right. exists e, st. split; [done|]. split; [by left|].
    eapply consistent_move; eauto using safe_move_refl.
  - right. exists e, st'. split; [done|]. split; [by right|]. by eapply consistent_move.
Qed.

Lemma step_claim_consistent w st link me :
  consistent w st ->
  exists st', consistent (note_claim me (claim self link me c (w_db w)).1 w
                            (claim self link me c (w_db w)).2) st'.
Proof.
  intros Hw. pose proof (claim_implements self c Hconfig Hkey link me (w_db w) st) as Hr.
  destruct (claim_safe me (now_ms (w_db w)) st) as [Hm Hreply].
  destruct (Spec.claim_step me (now_ms (w_db w)) (ttl_ms self) st) as [reply st2]. simpl in *.
  specialize (Hr (con_tracks _ _ Hw) (con_era _ _ Hw)).
  destruct (claim self link me c (w_db w)) as [r d']. pose proof (proj1 Hr) as Hc. simpl in Hc.
  assert (now_ms d' = now_ms (w_db w)) as Hn by (unfold now_ms; by rewrite Hc).
  destruct (refines_consistent _ _ _ _ _ _ Hw Hm Hr) as [[Hgood Hcon]|(e & st1 & He & _ & Hcon)];
    simpl in *; subst r; [|by exists st1].
  exists st2. destruct reply as [u rec|o t|rem]; simpl; [| |done].
  - destruct Hreply as [-> Hb]. apply (consistent_grant _ _ me _ Hcon); [simpl; lia|done].
  - destruct Hreply as (ow & t' & ->). by apply (consistent_settle _ _ o ow t' Hcon).
Qed.

Lemma step_renew_consistent w st link l :
  lease_of_claim c l -> consistent w st ->
  exists st', consistent (note_renew l (renew self link l (w_db w)).1 w
                            (renew self link l (w_db w)).2) st'.
Proof.
  intros Hl Hw. pose proof (renew_implements self c Hconfig link l (w_db w) st Hl) as Hr.
  destruct (renew_safe (lease_owner_token l) (now_ms (w_db w)) st) as [Hm Hreply].
  destruct (Spec.renew_step _ (now_ms (w_db w)) (ttl_ms self) st) as [reply st2]. simpl in *.
  specialize (Hr (con_tracks _ _ Hw) (con_era _ _ Hw)).
  destruct (renew self link l (w_db w)) as [r d']. pose proof (proj1 Hr) as Hc. simpl in Hc.
  assert (now_ms d' = now_ms (w_db w)) as Hn by (unfold now_ms; by rewrite Hc).
  destruct (refines_consistent _ _ _ _ _ _ Hw Hm Hr) as [[Hgood Hcon]|(e & st1 & He & _ & Hcon)];
    simpl in *; subst r; [|by exists st1].
  exists st2. destruct reply as [u|e]; simpl; [|done].
  destruct (Hreply u eq_refl) as [-> Hb]. apply (consistent_grant _ _ _ _ Hcon); [simpl; lia|done].
Qed.

Lemma step_complete_consistent w st link l o :
  lease_of_claim c l -> consistent w st ->
  exists st', consistent (note_complete (complete self link l o (w_db w)).1 w
                            (complete self link l o (w_db w)).2) st'.
Proof.
  intros Hl Hw. pose proof (complete_implements self c Hconfig link l o (w_db w) st Hl) as Hr.
  destruct (complete_safe (lease_owner_token l) (now_ms (w_db w)) o st) as [Hm Hreply].
  destruct (Spec.complete_step _ (now_ms (w_db w)) o st) as [reply st2]. simpl in *.
  specialize (Hr (con_tracks _ _ Hw) (con_era _ _ Hw)).
  destruct (complete self link l o (w_db w)) as [r d'].
  destruct (refines_consistent _ _ _ _ _ _ Hw Hm Hr) as [[Hgood Hcon]|(e & st1 & He & _ & Hcon)];
    simpl in *; subst r; [|by exists st1].
  exists st2. destruct reply as [u|e]; simpl; [|done].
  destruct (Hreply u eq_refl) as [ow ->]. by apply (consistent_settle _ _ o ow u Hcon).
Qed.

Lemma step_release_consistent w st link l :
  lease_of_claim c l -> consistent w st ->
  exists st', consistent (mkWorld (release self link l (w_db w)).2
                            (delete (lease_owner_token l) (w_grants w)) (w_settled w)) st'.
Proof.
  intros Hl Hw. set (w0 := mkWorld (w_db w) (delete (lease_owner_token l) (w_grants w)) (w_settled w)).
  assert (consistent w0 st) as Hw0.
  { destruct Hw as [Ht He Hg Hs]. split; simpl; [done..| |done].
    intros me u [_ Hl']%lookup_delete_Some. by apply Hg. }
  pose proof (release_implements self c link l (w_db w) st Hl) as Hr.
  destruct (Spec.release_step _ _ st) as [reply st2] eqn:E.
  specialize (Hr (con_tracks _ _ Hw) (con_era _ _ Hw)).
  destruct Hr as [Hc Hr]. set (out := release self link l (w_db w)) in *.
  assert (forall st', st' = st \/ st' = st2 -> tracks self c out.2 st' ->
    consistent (mkWorld out.2 (delete (lease_owner_token l) (w_grants w)) (w_settled w)) st') as Hfin.
  { intros st' Hst' Ht'. assert (now_ms out.2 = now_ms (w_db w)) as Hn by (unfold now_ms; by rewrite Hc).
    destruct Hw0 as [_ He Hg Hs]. split; simpl; [done| | |].
    - unfold era, clock_exact. by rewrite Hn.
    - intros me u Hlk. rewrite Hn. destruct (Hg me u Hlk) as [Hb Hbk]. split; [done|].
      intros Hlive. specialize (Hbk Hlive). destruct Hst' as [->| ->]; [done|].
      apply lookup_delete_Some in Hlk as [Hne _]. destruct st as [|o v r|o out' t]; simpl in E, Hbk;
        [done| |by simplify_eq].
      destruct (negb (String.eqb o _) || _) eqn:Eb; simplify_eq; [done|].
      apply orb_false_iff in Eb as [Eo _]. apply negb_false_iff, String.eqb_eq in Eo. naive_solver.
    - intros o Ho. destruct (Hs o Ho) as (ow & t & ->). destruct Hst' as [->| ->]; [by eexists _, _|].
      simpl in E. simplify_eq. by eexists _, _. }
  destruct Hr as [(_ & _ & Ht)|(_ & _ & [Ht|Ht])]; eauto.
Qed.

Lemma represents_later ek att now now' h st :
  represents ek att now h st -> now <= now' -> represents ek att now' h st.
Proof. destruct st; simpl; [done| |]; intros; destruct_and!; split_and!; try done; lia. Qed.

Lemma step_time_consistent w st d' gone :
  elapses (w_db w) d' gone -> era self d' -> consistent w st ->
  exists st', consistent (mkWorld d' (w_grants w) (if gone then None else w_settled w)) st'.
Proof.
  intros Hel He' [(h & Hh & Hr & Hx) He Hg Hs]. destruct Hel as [Hn Hhash Hexp|t Hexp Hlt Hhash].
  - exists st. split; simpl; [|done| |done].
    + exists h. rewrite Hhash, Hexp. split; [done|]. split; [|done]. by eapply represents_later.
    + intros me u Hl. destruct (Hg me u Hl) as [Hb Hbk]. split; [lia|]. intros. apply Hbk. lia.
  - exists Spec.Absent. split; simpl; [by exists ∅|done| |done].
    assert (h <> ∅) as Hne by (intros ->; by rewrite (expiry_absent _ _ Hh) in Hexp).
    pose proof (expiry_live _ _ _ _ Hh Hne Hexp) as Hn.
    intros me u Hl. destruct (Hg me u Hl) as [Hb Hbk]. split; [lia|]. intros Hlive.
    specialize (Hbk ltac:(lia)). exfalso. destruct Hconfig as (_ & Ht & _).
    destruct st as [|o v r|o out at_ms]; simpl in Hbk, Hx; [done| |];
      destruct Hx as (t' & Ht' & Hle); rewrite Hexp in Ht'; injection Ht' as <-; unfold ttl_ms in *; lia.
Qed.

Lemma reachable_consistent w : reachable w -> exists st, consistent w st.
Proof.
  induction 1 as [d Hh He|w w' _ [st IH] Hstep].
  - exists Spec.Absent. split; simpl; [by exists ∅|done|set_solver|done].
  - destruct Hstep; eauto using step_claim_consistent, step_renew_consistent,
      step_complete_consistent, step_release_consistent, step_time_consistent.
Qed.

Lemma consistent_exclusive w st a b ua ub :
  consistent w st -> w_grants w !! a = Some ua -> w_grants w !! b = Some ub ->
  now_ms (w_db w) < ua -> now_ms (w_db w) < ub -> a = b.
Proof.
  intros [_ _ Hg _] Ha Hb Hla Hlb. destruct (Hg a ua Ha) as [_ Hba], (Hg b ub Hb) as [_ Hbb].
  specialize (Hba Hla). specialize (Hbb Hlb). destruct st; simpl in *; [done|..]; destruct_and?; congruence.
Qed.
End system.

(** C1: mutual exclusion of execution leases.  However workers interleave claims,
    renewals, completions and releases of one execution attempt, whatever
    replies the network loses and whenever the clock and the retention of the
    record advance, two different owners never hold unexpired leases together. *)
Theorem execution_lease_exclusive {db} `{RedisLaws db} self c (w : world (db := db)) a b ua ub
    (Hconfig : store_config_ok self) (Hkey : blank (claim_execution_key c) = false)
    (Hw : reachable self c w) (Ha : w_grants w !! a = Some ua) (Hb : w_grants w !! b = Some ub)
    (Hla : now_ms (w_db w) < ua) (Hlb : now_ms (w_db w) < ub) :
  a = b.
Proof.
  destruct (reachable_consistent self c Hconfig Hkey w Hw) as [st Hst].
  by eapply consistent_exclusive.
Qed.

(** What each operation answers about a settled attempt. *)
Lemma settled_replies {db} `{RedisLaws db} self c (w : world (db := db)) o :
  store_config_ok self -> blank (claim_execution_key c) = false -> reachable self c w -> w_settled w = Some o ->
  (forall link me, match (claim self link me c (w_db w)).1 with
   | Ok (ClaimAlreadyCompleted done_) => comp_outcome done_ = o
   | Ok _ => False
   | Err _ => link <> LinkUp
   end)
  /\ (forall link l o' done_, lease_of_claim c l -> (complete self link l o' (w_db w)).1 = Ok done_ -> comp_outcome done_ = o /\ o' = o)
  /\ (forall link l, lease_of_claim c l ->
      is_ok (renew self link l (w_db w)).1 = false /\ is_ok (release self link l (w_db w)).1 = false).
Proof.
  intros Hconfig Hkey Hw Ho. destruct (reachable_consistent self c Hconfig Hkey w Hw) as [st [Ht He _ Hs]].
  destruct (Hs o Ho) as (ow & t & ->). split_and!.
  - intros link me. pose proof (claim_implements self c Hconfig Hkey link me (w_db w) _ Ht He) as [_ Hr].
    simpl in Hr. by destruct Hr as [(_ & -> & _)|(? & [e ->] & _)].
  - intros link l o' done_ Hl Hd. pose proof (complete_implements self c Hconfig link l o' (w_db w) _ Hl Ht He) as Hr.
    simpl in Hr. destruct (negb _); [|case_bool_decide as Hoo]; destruct Hr as [_ [(_ & Hr & _)|(_ & [e Hr] & _)]];
      rewrite Hr in Hd; simplify_eq/=. done.
  - intros link l Hl. split.
    + by destruct (renew_implements self c Hconfig link l (w_db w) _ Hl Ht He) as [_ [(_ & -> & _)|(_ & [e ->] & _)]].
    + by destruct (release_implements self c link l (w_db w) _ Hl Ht He) as [_ [(_ & -> & _)|(_ & [e ->] & _)]].
Qed.

(** C11: a settled attempt stays settled while its record is retained. Once a
    worker has been told the terminal outcome of an attempt, no claim of it is
    granted, a claim that is answered reports that outcome, a completion succeeds
    only with that outcome, and no renewal and no release succeeds; and whatever
    any worker does next, the attempt stays settled with that outcome, unless the
    expiry that Redis keeps for the record has passed. *)
Theorem settled_outcome_final {db} `{RedisLaws db} self c (w : world (db := db)) o link me l o'
    (Hconfig : store_config_ok self) (Hkey : blank (claim_execution_key c) = false)
    (Hw : reachable self c w) (Ho : w_settled w = Some o) (Hl : lease_of_claim c l) :
  match (claim self link me c (w_db w)).1 with
  | Ok (ClaimAlreadyCompleted done_) => comp_outcome done_ = o
  | Ok _ => False
  | Err _ => link <> LinkUp
  end
  /\ (forall done_, (complete self link l o' (w_db w)).1 = Ok done_ -> comp_outcome done_ = o /\ o' = o)
  /\ is_ok (renew self link l (w_db w)).1 = false /\ is_ok (release self link l (w_db w)).1 = false
  /\ (forall w', step self c w w' ->
      w_settled w' = Some o \/ exists t, expiry (w_db w) (record_key self c) = Some t /\ t < now_ms (w_db w')).
Proof.
  destruct (settled_replies self c w o Hconfig Hkey Hw Ho) as (Hc & Hd & Hr).
  split; [apply Hc|]. split; [intros done_; by apply Hd|]. split; [by apply Hr|]. split; [by apply Hr|].
  intros w' [link' me'|link' l' Hl'|link' l' o1 Hl'|link' l' Hl'|d' gone Hel _].
  - left. specialize (Hc link' me'). unfold note_claim. destruct (claim self link' me' c (w_db w)) as [[[]|] ?]; simpl in *; by subst.
  - left. destruct (Hr link' l' Hl') as [Hn _]. unfold note_renew. by destruct (renew self link' l' (w_db w)) as [[]].
  - left. specialize (Hd link' l' o1). unfold note_complete. destruct (complete self link' l' o1 (w_db w)) as [[done_|] ?]; [|done].
    destruct (Hd done_ Hl' eq_refl) as [E _]. simpl. by rewrite E.
  - by left.
  - destruct Hel as [|t Hexp Hlt]; [by left|]. right. by exists t.
Qed.

(** ** A store on the in-memory database *)

Definition sample_store : RedisIdempotencyStore := mkIdemStore "pulse:exec" (from_secs 30) (from_secs 300).
Definition sample_claim : ExecutionClaim := mkClaim "run:slice-0-of-1" 0.
Definition sample_lease : ExecutionLease :=
  mkLease "run:slice-0-of-1" 0 "w1" 1700000030000 (from_secs 30) false.

(** Two workers: the first acquires the lease, then completes the attempt. *)
Definition world_0 : world := mkWorld (mem_empty 1700000000000000) ∅ None.
Definition world_1 : world :=
  let out := claim sample_store LinkUp "w1" sample_claim (w_db world_0) in
  note_claim "w1" out.1 world_0 out.2.
Definition world_2 : world :=
  let out := complete sample_store LinkUp sample_lease ResultPublished (w_db world_1) in
  note_complete out.1 world_1 out.2.

Lemma sample_config_ok : store_config_ok sample_store.
Proof. repeat split; vm_compute; congruence. Qed.

Lemma world_0_era : era sample_store (w_db world_0).
Proof. split; vm_compute; congruence. Qed.

Lemma world_0_tracks : tracks sample_store sample_claim (w_db world_0) Spec.Absent.
Proof. by exists ∅. Qed.

Lemma world_1_reachable : reachable sample_store sample_claim world_1.
Proof.
  eapply (reach_step _ _ world_0);
    [apply (reach_init sample_store sample_claim (w_db world_0)); [done|apply world_0_era]|].
  apply (step_claim sample_store sample_claim world_0 LinkUp "w1").
Qed.

Lemma world_2_reachable : reachable sample_store sample_claim world_2.
Proof.
  eapply reach_step; [apply world_1_reachable|].
  apply (step_complete sample_store sample_claim world_1 LinkUp sample_lease ResultPublished). done.
Qed.

Lemma execution_store_refines_witness :
  (claim sample_store LinkUp "w1" sample_claim (w_db world_0)).1 = Ok (ClaimAcquired sample_lease).
Proof.
  destruct (proj1 (execution_store_refines sample_store sample_claim LinkUp "w1" sample_lease
    ResultPublished (w_db world_0) Spec.Absent sample_config_ok eq_refl (conj eq_refl eq_refl)
    world_0_tracks world_0_era)) as [_ [(_ & H & _)|(H & _)]].
  - exact H.
  - congruence.
Defined.

Lemma execution_lease_exclusive_witness : "w1" = "w1" /\ now_ms (w_db world_1) < 1700000030000.
Proof.
  split; [|by vm_compute].
  apply (execution_lease_exclusive sample_store sample_claim world_1 "w1" "w1" 1700000030000 1700000030000
    sample_config_ok eq_refl world_1_reachable); by vm_compute.
Defined.

Lemma settled_outcome_final_witness :
  w_settled world_2 = Some ResultPublished
  /\ match (claim sample_store LinkUp "w2" sample_claim (w_db world_2)).1 with
     | Ok (ClaimAlreadyCompleted done_) => comp_outcome done_ = ResultPublished
     | Ok _ => False
     | Err _ => LinkUp <> LinkUp
     end.
Proof.
  assert (w_settled world_2 = Some ResultPublished) as Hs by (vm_compute; reflexivity).
  split; [exact Hs|].
  pose proof (settled_outcome_final sample_store sample_claim world_2 ResultPublished LinkUp "w2"
    sample_lease RetryPublished sample_config_ok eq_refl world_2_reachable Hs
    (conj eq_refl eq_refl)) as [H _].
  exact H.
Defined.
