(* ===== verification/Leader.v ===== *)
(** * Leader election

    [RedisLeaderElector] of [src/src/infrastructure/redis/mod.rs]: the leader
    record lives under a key that expires, and every acquisition draws a new
    fencing token from a counter that does not.  The scripts are translated
    command by command; the theorems show that fencing tokens only grow and
    that two nodes never hold unexpired leadership together. *)

From S2P Require Import Prelude RustStr Contracts Lua Redis RedisMem Coordination.

Record RedisLeaderElector := mkElector {
  el_lock_key : string;
  el_fence_key : string;
  el_node_id : string;
  el_lock_ttl : duration;
}.

Definition leader_elector_new (lock_key node_id : string) (lock_ttl_ms : Z) : RedisLeaderElector :=
  mkElector lock_key (lock_key +:+ ":fence") node_id (from_millis lock_ttl_ms).

Section scripts.
Context {db : Type} `{Redis db}.

Definition leader_acquire_script (lock_key fence_key owner node_id ttl_ms : string)
    : Script db (Z * Z * Z * Z * string) :=
  now ← time_ms;
  present ← query (EXISTS lock_key);
  if negb present then
    reply ← INCR fence_key;
    let fence := lua_norm reply in
    HSET lock_key [("owner", owner); ("node_id", node_id); ("fence", tostring fence)];;
    ttl_arg ← int_arg ttl_ms;
    PEXPIRE lock_key ttl_arg;;
    ttl ← number (tonumber ttl_ms);
    mret (1, fence, lua_add now ttl, 0, EmptyString)
  else
    remaining ← query (PTTL lock_key);
    if remaining <? 0 then mret (3, 0, 0, 0, "leader record has no expiry")
    else mret (2, 0, 0, remaining, EmptyString).

(** The owner and fence comparison of the renew and relinquish scripts. *)
Definition leader_matches (lock_key owner fence : string) : Script db bool :=
  o ← hget lock_key "owner";
  if negb (bool_decide (o = Some owner)) then mret false
  else f ← hget lock_key "fence"; mret (bool_decide (f = Some fence)).

Definition leader_renew_script (lock_key owner fence ttl_ms : string) : Script db (Z * Z * string) :=
  present ← query (EXISTS lock_key);
  if negb present then mret (2, 0, "leader record is absent") else
  same ← leader_matches lock_key owner fence;
  if negb same then mret (2, 0, "leader owner or fence changed") else
  now ← time_ms;
  ttl_arg ← int_arg ttl_ms;
  PEXPIRE lock_key ttl_arg;;
  ttl ← number (tonumber ttl_ms);
  mret (1, lua_add now ttl, EmptyString).

Definition leader_relinquish_script (lock_key owner fence : string) : Script db Z :=
  present ← query (EXISTS lock_key);
  if negb present then mret 0 else
  same ← leader_matches lock_key owner fence;
  if negb same then mret 2 else
  DEL lock_key;;
  mret 1.

Implicit Types (self : RedisLeaderElector) (link : Link) (lease : LeaderLease).

Definition leader_unknown_code (operation : string) (code : Z) : CoordinationError :=
  InvalidState operation ("unknown Redis response code " +:+ show code).

(** [uuid] is the [Uuid::new_v4()] of the call. *)
Definition leader_acquire self link (uuid : string) : RedisOp db LeadershipOutcome :=
  let OPERATION := "leader_acquire" in
  ttl_ms ← op_lift (duration_ms OPERATION (el_lock_ttl self));
  let owner_token := el_node_id self +:+ ":" +:+ uuid in
  reply ← invoke OPERATION link
    (leader_acquire_script (el_lock_key self) (el_fence_key self) owner_token (el_node_id self)
       (show ttl_ms));
  let '(code, fence, expires_at, retry_after, message) := reply in
  op_lift
    (if code =? 1 then
       fencing ← as_u64 OPERATION "fencing token" fence;
       expires ← as_u64 OPERATION "lease expiry" expires_at;
       Ok (LeaderAcquired (mkLeader (el_lock_key self) (el_node_id self) owner_token fencing
             expires (el_lock_ttl self)))
     else if code =? 2 then Ok (Follower (duration_from_nonnegative_ms retry_after))
     else if code =? 3 then Err (InvalidState OPERATION message)
     else Err (leader_unknown_code OPERATION code)).

Definition foreign_lease self lease : bool :=
  negb (String.eqb (lead_lock_key lease) (el_lock_key self))
  || negb (String.eqb (lead_node_id lease) (el_node_id self)).

Definition fence_arg (operation : string) lease : result CoordinationError Z :=
  ok_or (try_from i64_max (lead_fencing_token lease))
    (InvalidState operation "fencing token exceeds Redis integer range").

Definition leader_renew self link (current : LeaderLease) : RedisOp db LeadershipOutcome :=
  let OPERATION := "leader_renew" in
  op_lift (reject_if (foreign_lease self current)
             (InvalidState OPERATION "lease belongs to a different elector"));;
  ttl_ms ← op_lift (duration_ms OPERATION (el_lock_ttl self));
  fence ← op_lift (fence_arg OPERATION current);
  reply ← invoke OPERATION link
    (leader_renew_script (el_lock_key self) (lead_owner_token current) (show fence) (show ttl_ms));
  let '(code, expires_at, message) := reply in
  op_lift
    (if code =? 1 then
       expires ← as_u64 OPERATION "lease expiry" expires_at;
       Ok (LeaderRenewed (mkLeader (lead_lock_key current) (lead_node_id current)
             (lead_owner_token current) (lead_fencing_token current) expires (el_lock_ttl self)))
     else if code =? 2 then Err (StaleOwner OPERATION)
     else Err (InvalidState OPERATION
                 ("unknown Redis response code " +:+ show code +:+ ": " +:+ message))).

Definition acquire_or_renew self link (uuid : string) (current : option LeaderLease)
    : RedisOp db LeadershipOutcome :=
  match current with
  | Some lease => leader_renew self link lease
  | None => leader_acquire self link uuid
  end.

Definition relinquish self link lease : RedisOp db unit :=
  let OPERATION := "leader_relinquish" in
  op_lift (reject_if (foreign_lease self lease)
             (InvalidState OPERATION "lease belongs to a different elector"));;
  fence ← op_lift (fence_arg OPERATION lease);
  code ← invoke OPERATION link
    (leader_relinquish_script (el_lock_key self) (lead_owner_token lease) (show fence));
  op_lift
    (if (code =? 0) || (code =? 1) then Ok tt
     else if code =? 2 then Err (StaleOwner OPERATION)
     else Err (leader_unknown_code OPERATION code)).
End scripts.

(** ** The record and what the scripts do to it *)

Section election.
Context {db : Type} `{RedisLaws db}.
Variables (lock_key : string) (ttl_ms : Z).
Implicit Types (d : db) (l : LeaderLease) (r : option (string * Z)).

Definition fence_key : string := lock_key +:+ ":fence".
Definition elector (node_id : string) : RedisLeaderElector :=
  leader_elector_new lock_key node_id ttl_ms.

(** The leader record is absent, or names an owner and its fencing token. *)
Definition leads d r : Prop :=
  exists h, hash d lock_key = Some h
    /\ match r with
       | None => h = ∅
       | Some (owner, fence) => h !! "owner" = Some owner /\ h !! "fence" = Some (show fence)
       end.

Definition ttl_ok : Prop := 1 <= ttl_ms <= i64_max.
Definition in_era d : Prop := clock_exact d /\ now_ms d + ttl_ms < 10 ^ 14.

Hypothesis Httl : ttl_ok.

Lemma lock_not_fence : lock_key <> fence_key.
Proof.
  intros E. assert (str_len lock_key = str_len fence_key) as Hl by (by rewrite <- E).
  unfold fence_key in Hl. rewrite str_len_app in Hl. change (str_len ":fence") with 6 in Hl. lia.
Qed.

Lemma ttl_number : in_range (2 ^ 53) ttl_ms -> tonumber (show ttl_ms) = Some ttl_ms.
Proof. intros [? ?]. by apply tonumber_show. Qed.

Lemma acquire_script_free d n owner node :
  leads d None -> int_at d fence_key = Some n -> 0 <= n -> n + 1 < 10 ^ 14 -> in_era d ->
  exists d', leader_acquire_script lock_key fence_key owner node (show ttl_ms) d
             = (Ok (1, n + 1, now_ms d + ttl_ms, 0, EmptyString), d')
    /\ leads d' (Some (owner, n + 1)) /\ expiry d' lock_key = Some (now_ms d + ttl_ms)
    /\ int_at d' fence_key = Some (n + 1) /\ clock d' = clock d.
Proof.
  intros (h & Hh & ->) Hn Hn0 Hn1 [Hx He]. unfold ttl_ok in Httl. pose proof (now_ms_nonneg d) as Hnow.
  destruct (incr_law d fence_key n Hn ltac:(lia)) as (d1 & E1 & Hn' & Hf1).
  assert (hash d1 lock_key = Some ∅) as Hh1
    by (by rewrite (frame_hash _ _ _ _ Hf1 lock_not_fence)).
  assert (lua_norm (n + 1) = n + 1) as Hnorm by (apply lua_norm_exact; lia).
  destruct (hset_pexpire_run d1 lock_key
    [("owner", owner); ("node_id", node); ("fence", tostring (lua_norm (n + 1)))] ∅ ttl_ms
    (ttl ← number (tonumber (show ttl_ms));
     mret (1, lua_norm (n + 1), lua_add (now_ms d) ttl, 0, EmptyString)) Hh1)
    as (d2 & E2 & Hh2 & He2 & Hf2); [done|lia|].
  exists d2. unfold leader_acquire_script. erewrite bind_run by (by apply time_ms_run).
  erewrite bind_run by (by apply exists_absent_run). cbn [negb].
  erewrite bind_run by exact E1. cbv zeta. rewrite E2, ttl_number by mlia.
  erewrite bind_run by apply number_run. unfold mret, script_ret.
  rewrite lua_add_exact, Hnorm by lia. split; [done|]. split.
  - exists (hset_fields [("owner", owner); ("node_id", node); ("fence", tostring (n + 1))] ∅).
    rewrite Hnorm in Hh2. split; [done|]. rewrite tostring_exact by (unfold lua_exact; lia).
    split; simpl; by simplify_map_eq.
  - split; [by rewrite He2, (frame_now _ _ _ Hf1)|].
    split; [|by rewrite (frame_clock _ _ _ Hf2), (frame_clock _ _ _ Hf1)].
    rewrite (frame_int _ _ _ _ Hf2); [done|]. by apply not_eq_sym, lock_not_fence.
Qed.

Lemma acquire_script_held d owner' fence t owner node :
  leads d (Some (owner', fence)) -> expiry d lock_key = Some t -> clock_exact d ->
  leader_acquire_script lock_key fence_key owner node (show ttl_ms) d
  = (Ok (2, 0, 0, Z.max 0 (t - now_ms d), EmptyString), d).
Proof.
  intros (h & Hh & Ho & _) Ht Hx. unfold leader_acquire_script.
  erewrite bind_run by (by apply time_ms_run).
  erewrite bind_run by (by eapply exists_present_run). cbn [negb].
  erewrite bind_run by done. rewrite (pttl_law _ _ _ Hh), decide_False by (by eapply lookup_nonempty).
  rewrite Ht. cbn [from_option]. destruct (Z.ltb_spec (Z.max 0 (t - now_ms d)) 0); [lia|done].
Qed.

Lemma leader_matches_hash d h owner (fence : string) :
  hash d lock_key = Some h ->
  leader_matches lock_key owner fence d
  = (Ok (bool_decide (h !! "owner" = Some owner /\ h !! "fence" = Some fence)), d).
Proof.
  intros Hh. unfold leader_matches. erewrite bind_run by (by apply hget_run).
  destruct (decide (h !! "owner" = Some owner)) as [Ho|Hne].
  - rewrite bool_decide_true by done. cbn [negb]. erewrite bind_run by (by apply hget_run).
    unfold mret, script_ret. repeat f_equal. apply bool_decide_ext. tauto.
  - rewrite bool_decide_false by done. cbn [negb]. unfold mret, script_ret.
    by rewrite bool_decide_false by tauto.
Qed.

Lemma leader_matches_run d owner' fence' owner fence :
  leads d (Some (owner', fence')) ->
  leader_matches lock_key owner (show fence) d
  = (Ok (bool_decide (owner' = owner /\ fence' = fence)), d).
Proof.
  intros (h & Hh & Ho & Hf). erewrite leader_matches_hash by done. repeat f_equal.
  apply bool_decide_ext. rewrite Ho, Hf. split; [|by intros [-> ->]].
  intros [[= ->] [= E]]. split; [done|]. by apply show_inj.
Qed.

Lemma renew_script_current d owner fence :
  leads d (Some (owner, fence)) -> in_era d ->
  exists d', leader_renew_script lock_key owner (show fence) (show ttl_ms) d
             = (Ok (1, now_ms d + ttl_ms, EmptyString), d')
    /\ leads d' (Some (owner, fence)) /\ expiry d' lock_key = Some (now_ms d + ttl_ms)
    /\ int_at d' fence_key = int_at d fence_key /\ clock d' = clock d.
Proof.
  intros Hl [Hx He]. pose proof Hl as (h & Hh & Ho & Hf). unfold ttl_ok in Httl.
  pose proof (now_ms_nonneg d) as Hnow.
  destruct (pexpire_law d lock_key ttl_ms h Hh ltac:(lia)) as (d' & E & Hh' & He' & Hfr).
  exists d'. unfold leader_renew_script.
  erewrite bind_run by (by eapply exists_present_run). cbn [negb].
  erewrite bind_run by (by apply leader_matches_run). rewrite bool_decide_true by done. cbn [negb].
  erewrite bind_run by (by apply time_ms_run). erewrite bind_run by (apply int_arg_show; lia).
  erewrite bind_run by exact E. rewrite ttl_number by mlia.
  erewrite bind_run by apply number_run. unfold mret, script_ret. rewrite lua_add_exact by lia.
  split; [done|]. split; [by exists h|]. split.
  - rewrite He'. unfold keep_expiry. by rewrite decide_False by (by eapply lookup_nonempty).
  - split; [|by eapply frame_clock]. apply (frame_int _ _ _ _ Hfr). apply not_eq_sym, lock_not_fence.
Qed.

Lemma renew_script_stale d r owner fence :
  leads d r -> r <> Some (owner, fence) ->
  exists msg, leader_renew_script lock_key owner (show fence) (show ttl_ms) d = (Ok (2, 0, msg), d).
Proof.
  intros Hl Hne. unfold leader_renew_script. destruct r as [[o f]|].
  - pose proof Hl as (h & Hh & Ho & _). erewrite bind_run by (by eapply exists_present_run).
    cbn [negb]. erewrite bind_run by (by apply leader_matches_run).
    rewrite bool_decide_false by naive_solver. by eexists.
  - destruct Hl as (h & Hh & ->). erewrite bind_run by (by apply exists_absent_run). by eexists.
Qed.

Lemma relinquish_script_current d owner fence :
  leads d (Some (owner, fence)) ->
  exists d', leader_relinquish_script lock_key owner (show fence) d = (Ok 1, d')
    /\ leads d' None /\ int_at d' fence_key = int_at d fence_key /\ clock d' = clock d.
Proof.
  intros Hl. pose proof Hl as (h & Hh & Ho & _).
  destruct (del_law d lock_key h Hh) as (d' & E & Hh' & _ & Hfr). exists d'.
  unfold leader_relinquish_script. erewrite bind_run by (by eapply exists_present_run). cbn [negb].
  erewrite bind_run by (by apply leader_matches_run). rewrite bool_decide_true by done. cbn [negb].
  erewrite bind_run by exact E. split; [done|]. split; [by exists ∅|].
  split; [|by eapply frame_clock]. apply (frame_int _ _ _ _ Hfr). apply not_eq_sym, lock_not_fence.
Qed.

Lemma relinquish_script_stale d r owner fence :
  leads d r -> r <> Some (owner, fence) ->
  exists code, leader_relinquish_script lock_key owner (show fence) d = (Ok code, d)
    /\ code = match r with None => 0 | Some _ => 2 end.
Proof.
  intros Hl Hne. unfold leader_relinquish_script. destruct r as [[o f]|].
  - pose proof Hl as (h & Hh & Ho & _). erewrite bind_run by (by eapply exists_present_run).
    cbn [negb]. erewrite bind_run by (by apply leader_matches_run).
    rewrite bool_decide_false by naive_solver. by eexists.
  - destruct Hl as (h & Hh & ->). erewrite bind_run by (by apply exists_absent_run). by eexists.
Qed.

(** ** The operations over any link *)

Record sound d r (n : Z) : Prop := {
  snd_leads : leads d r;
  snd_counter : int_at d fence_key = Some n;
  snd_counter_nonneg : 0 <= n;
  snd_current : forall owner fence, r = Some (owner, fence) ->
    fence = n /\ is_Some (expiry d lock_key);
  snd_era : in_era d;
}.

Lemma sound_now d d' : clock d' = clock d -> now_ms d' = now_ms d.
Proof. unfold now_ms. by intros ->. Qed.

Lemma in_era_clock d d' : clock d' = clock d -> in_era d -> in_era d'.
Proof. intros Hc. unfold in_era, clock_exact. by rewrite (sound_now _ _ Hc). Qed.

(** The database after the record was written for an owner. *)
Lemma sound_written d r n d' owner fence :
  sound d r n -> 0 <= fence -> leads d' (Some (owner, fence)) ->
  expiry d' lock_key = Some (now_ms d + ttl_ms) -> int_at d' fence_key = Some fence ->
  clock d' = clock d -> sound d' (Some (owner, fence)) fence.
Proof.
  intros Hs Hf Hl He Hi Hc. split; [done..| |by eapply in_era_clock, snd_era].
  intros o f [= <- <-]. split; [done|]. rewrite He. by eexists.
Qed.

Lemma elector_ttl op node : duration_ms op (el_lock_ttl (elector node)) = Ok ttl_ms.
Proof.
  apply duration_ms_Ok. simpl. rewrite as_millis_from_millis. unfold ttl_ok in Httl. mlia.
Qed.

Definition follows (reply : result CoordinationError LeadershipOutcome) : Prop :=
  match reply with Ok (LeaderAcquired _) | Ok (LeaderRenewed _) => False | _ => True end.

Definition acquire_moves d r (n : Z) (out : result CoordinationError LeadershipOutcome * db) : Prop :=
  (exists l, out.1 = Ok (LeaderAcquired l) /\ r = None /\ lead_fencing_token l = n + 1
     /\ lead_expires_at_unix_ms l = now_ms d + ttl_ms
     /\ expiry out.2 lock_key = Some (now_ms d + ttl_ms)
     /\ clock out.2 = clock d /\ sound out.2 (Some (lead_owner_token l, n + 1)) (n + 1))
  \/ (follows out.1
      /\ (out.2 = d
          \/ (r = None /\ clock out.2 = clock d
              /\ exists owner, sound out.2 (Some (owner, n + 1)) (n + 1)))).

Lemma acquire_ends node link uuid d r n :
  sound d r n -> n + 1 < 10 ^ 14 -> acquire_moves d r n (leader_acquire (elector node) link uuid d).
Proof.
  intros Hs Hn. pose proof Hs as [Hl Hi Hn0 Hcur He]. unfold leader_acquire. cbv zeta.
  erewrite op_lift_run by apply elector_ttl. cbn [elector leader_elector_new el_lock_key el_fence_key].
  pose proof (now_ms_nonneg d). unfold ttl_ok, in_era in *. destruct He as [Hx He]. destruct r as [[o f]|].
  - destruct (Hcur o f eq_refl) as [-> [t Ht]]. right.
    by_link (acquire_script_held d o n t (node +:+ ":" +:+ uuid) node Hl Ht Hx)
      as [[-> ->]|(_ & [e He'] & Hd)].
    + split; [done|by left].
    + split; [by rewrite He'|]. left. by destruct Hd.
  - destruct (acquire_script_free d n (node +:+ ":" +:+ uuid) node Hl Hi Hn0 Hn ltac:(done))
      as (d' & E & Hl' & Hx' & Hi' & Hc').
    pose proof (sound_written d None n d' _ (n + 1) Hs ltac:(lia) Hl' Hx' Hi' Hc') as Hs'.
    by_link E as [[-> ->]|(_ & [e He'] & Hd)].
    + left. cbn [Z.eqb Pos.eqb]. rewrite !as_u64_in by mlia. eexists. simpl. naive_solver.
    + right. split; [by rewrite He'|].
      destruct Hd as [->| ->]; [by left|right]. naive_solver.
Qed.

(** What renewing with lease [l] does. *)
Definition renew_moves d r (n : Z) l (out : result CoordinationError LeadershipOutcome * db) : Prop :=
  let mine := Some (lead_owner_token l, lead_fencing_token l) in
  (r = mine /\ clock out.2 = clock d /\ expiry out.2 lock_key = Some (now_ms d + ttl_ms)
   /\ sound out.2 r n
   /\ match out.1 with
      | Ok o => o = LeaderRenewed (mkLeader lock_key (lead_node_id l) (lead_owner_token l)
                  (lead_fencing_token l) (now_ms d + ttl_ms) (from_millis ttl_ms))
      | Err _ => True
      end)
  \/ (out.2 = d /\ exists e, out.1 = Err e).

Lemma foreign_lease_false node l :
  foreign_lease (elector node) l = false -> lead_lock_key l = lock_key /\ lead_node_id l = node.
Proof.
  unfold foreign_lease. intros [H2 H3]%orb_false_iff.
  by apply negb_false_iff, String.eqb_eq in H2, H3.
Qed.

Lemma fence_arg_cases op l :
  (fence_arg op l = Ok (lead_fencing_token l) /\ in_range i64_max (lead_fencing_token l))
  \/ exists e, fence_arg op l = Err e.
Proof.
  unfold fence_arg. destruct (try_from i64_max (lead_fencing_token l)) eqn:E; [|right; by eexists].
  apply try_from_Some in E as [-> ?]. by left.
Qed.

Lemma renew_ends node link l d r n :
  sound d r n -> renew_moves d r n l (leader_renew (elector node) link l d).
Proof.
  intros Hs. pose proof Hs as [Hl Hi Hn0 Hcur He]. unfold leader_renew. cbv zeta.
  destruct (foreign_lease (elector node) l) eqn:Ef; [right; split; [done|by eexists]|].
  apply foreign_lease_false in Ef as [Hk Hnode]. erewrite op_lift_run by done.
  erewrite op_lift_run by apply elector_ttl.
  destruct (fence_arg_cases "leader_renew" l) as [[Hf Hr]|[e Hf]]; [|rewrite Hf; right; split; [done|by eexists]].
  erewrite op_lift_run by exact Hf. cbn [elector leader_elector_new el_lock_key].
  pose proof (now_ms_nonneg d). unfold ttl_ok in Httl.
  destruct (decide (r = Some (lead_owner_token l, lead_fencing_token l))) as [->|Hne].
  - destruct (renew_script_current d _ _ Hl He) as (d' & E & Hl' & Hx' & Hi' & Hc').
    destruct (Hcur _ _ eq_refl) as [<- _]. rewrite Hi in Hi'.
    pose proof (sound_written d _ _ d' _ _ Hs Hn0 Hl' Hx' Hi' Hc') as Hs'. unfold in_era in He.
    by_link E as [[-> ->]|(_ & [e He'] & [Hd|Hd])].
    + left. cbn [Z.eqb Pos.eqb]. rewrite !as_u64_in by mlia. rewrite Hk. by simpl.
    + right. split; [done|by eexists].
    + left. rewrite He', Hd. done.
  - destruct (renew_script_stale d r _ _ Hl Hne) as [msg E].
    by_link E as [[-> ->]|(_ & [e He'] & Hd)]; [right; split; [done|by eexists]|].
    right. split; [by destruct Hd|by eexists].
Qed.

(** What giving lease [l] up does. *)
Lemma relinquish_ends node link l d r n :
  sound d r n ->
  let out := relinquish (elector node) link l d in
  out.2 = d
  \/ (r = Some (lead_owner_token l, lead_fencing_token l) /\ clock out.2 = clock d
      /\ sound out.2 None n).
Proof.
  intros Hs. pose proof Hs as [Hl Hi Hn0 Hcur He]. unfold relinquish. cbv zeta.
  destruct (foreign_lease (elector node) l); [by left|]. erewrite op_lift_run by done.
  destruct (fence_arg_cases "leader_relinquish" l) as [[Hf Hr]|[e Hf]]; [|rewrite Hf; by left].
  erewrite op_lift_run by exact Hf. cbn [elector leader_elector_new el_lock_key].
  destruct (decide (r = Some (lead_owner_token l, lead_fencing_token l))) as [->|Hne].
  - destruct (relinquish_script_current d _ _ Hl) as (d' & E & Hl' & Hi' & Hc').
    assert (sound d' None n) by (split; [done|congruence|done..|by eapply in_era_clock]).
    by_link E as [[-> ->]|(_ & [e He'] & [Hd|Hd])]; [by right|by left|right; by rewrite Hd].
  - destruct (relinquish_script_stale d r _ _ Hl Hne) as (code & E & _).
    by_link E as [[-> ->]|(_ & [e He'] & Hd)]; [by left|]. left. by destruct Hd.
Qed.

(** ** Nodes competing for leadership *)

(** The database, the leaderships nodes believe they hold (fencing token and
    expiry, by owner token), and the tokens granted so far, latest first. *)
Record elections := mkElections {
  ew_db : db;
  ew_grants : gmap string (Z * Z);
  ew_tokens : list Z;
}.

(** The clock moves on and other clients use other keys; the leader record
    disappears only when its time ran out, the counter never. *)
Inductive ages d d' : Prop :=
| ages_kept :
    now_ms d <= now_ms d' -> hash d' lock_key = hash d lock_key ->
    expiry d' lock_key = expiry d lock_key -> int_at d' fence_key = int_at d fence_key -> ages d d'
| ages_expired t :
    expiry d lock_key = Some t -> t < now_ms d' -> hash d' lock_key = Some ∅ ->
    int_at d' fence_key = int_at d fence_key -> ages d d'.

Definition note_leadership (r : result CoordinationError LeadershipOutcome) (w : elections) (d' : db)
    : elections :=
  match r with
  | Ok (LeaderAcquired l) =>
      mkElections d' (<[lead_owner_token l := (lead_fencing_token l, lead_expires_at_unix_ms l)]> (ew_grants w))
        (lead_fencing_token l :: ew_tokens w)
  | Ok (LeaderRenewed l) =>
      mkElections d' (<[lead_owner_token l := (lead_fencing_token l, lead_expires_at_unix_ms l)]> (ew_grants w))
        (ew_tokens w)
  | _ => mkElections d' (ew_grants w) (ew_tokens w)
  end.

(** Fewer than [10 ^ 14] elections have been won. *)
Definition tokens_left d : Prop := forall n, int_at d fence_key = Some n -> n + 1 < 10 ^ 14.

(** Any node may acquire, renew with any lease value, or relinquish, over any
    link; a node that relinquishes stops leading whatever the reply. *)
Inductive election_step (w : elections) : elections -> Prop :=
| step_elect node link uuid current : tokens_left (ew_db w) ->
    election_step w (note_leadership (acquire_or_renew (elector node) link uuid current (ew_db w)).1 w
                       (acquire_or_renew (elector node) link uuid current (ew_db w)).2)
| step_relinquish node link l :
    election_step w (mkElections (relinquish (elector node) link l (ew_db w)).2
                       (delete (lead_owner_token l) (ew_grants w)) (ew_tokens w))
| step_ages d' : ages (ew_db w) d' -> in_era d' ->
    election_step w (mkElections d' (ew_grants w) (ew_tokens w)).

Inductive elected : elections -> Prop :=
| elected_init d : hash d lock_key = Some ∅ -> int_at d fence_key = Some 0 -> in_era d ->
    elected (mkElections d ∅ [])
| elected_step w w' : elected w -> election_step w w' -> elected w'.

Definition backed d r (owner : string) (fence until : Z) : Prop :=
  r = Some (owner, fence) /\ exists t, expiry d lock_key = Some t /\ until <= t.

Record orderly (w : elections) r (n : Z) : Prop := {
  ord_sound : sound (ew_db w) r n;
  ord_tokens : Forall (fun t => t <= n) (ew_tokens w);
  ord_sorted : StronglySorted (fun a b => b < a) (ew_tokens w);
  ord_grants : forall owner fence until, ew_grants w !! owner = Some (fence, until) ->
    until <= now_ms (ew_db w) + ttl_ms
    /\ (now_ms (ew_db w) < until -> backed (ew_db w) r owner fence until);
}.

(** Replacing the database keeps order when live grants stay backed. *)
Lemma orderly_db w r n d' r' n' :
  orderly w r n -> sound d' r' n' -> n <= n' -> clock d' = clock (ew_db w) ->
  (forall owner fence until, until <= now_ms (ew_db w) + ttl_ms ->
     backed (ew_db w) r owner fence until -> backed d' r' owner fence until) ->
  orderly (mkElections d' (ew_grants w) (ew_tokens w)) r' n'.
Proof.
  intros [_ Ht Hsrt Hg] Hs Hn Hc Hb. split; simpl; [done| |done|].
  - eapply Forall_impl; [exact Ht|]. simpl. lia.
  - rewrite (sound_now _ _ Hc). intros o f u Hl. destruct (Hg o f u Hl) as [Hu Hbk]. auto.
Qed.

Lemma orderly_grant w r n owner fence until :
  orderly w r n -> until <= now_ms (ew_db w) + ttl_ms -> backed (ew_db w) r owner fence until ->
  orderly (mkElections (ew_db w) (<[owner := (fence, until)]> (ew_grants w)) (ew_tokens w)) r n.
Proof.
  intros [Hs Ht Hsrt Hg] Hu Hb. split; simpl; [done..|].
  intros o f u [[-> [= -> ->]]|[_ Hl]]%lookup_insert_Some; [done|by apply Hg].
Qed.

Lemma acquire_orderly w r n node link uuid :
  orderly w r n -> n + 1 < 10 ^ 14 ->
  let out := leader_acquire (elector node) link uuid (ew_db w) in
  exists r' n', orderly (note_leadership out.1 w out.2) r' n'.
Proof.
  intros Hw Hn out. pose proof (acquire_ends node link uuid _ _ _ (ord_sound _ _ _ Hw) Hn) as Hm.
  fold out in Hm. destruct Hm as [(l & -> & -> & Hf & Hu & Hx & Hc & Hs)|(Hno & Hd)].
  - exists (Some (lead_owner_token l, n + 1)), (n + 1). simpl. rewrite Hf, Hu.
    assert (orderly (mkElections out.2 (ew_grants w) (ew_tokens w))
              (Some (lead_owner_token l, n + 1)) (n + 1)) as Hw'
      by (eapply orderly_db; [exact Hw|done|lia|done|]; intros ? ? ? _ [? _]; done).
    apply (orderly_grant _ _ _ (lead_owner_token l) (n + 1) (now_ms (ew_db w) + ttl_ms)) in Hw';
      [|simpl; rewrite (sound_now _ _ Hc); lia|split; [done|]; eexists; split; [exact Hx|lia]].
    destruct Hw' as [Hs' Ht' Hsrt' Hg']. pose proof (ord_tokens _ _ _ Hw) as Ht.
    split; simpl in *; [done| | |done].
    + constructor; [lia|done].
    + constructor; [done|]. eapply Forall_impl; [exact Ht|]. simpl. lia.
  - assert (exists r' n', orderly (mkElections out.2 (ew_grants w) (ew_tokens w)) r' n') as (r' & n' & Hw').
    { destruct Hd as [->|(-> & Hc & owner & Hs)]; [destruct w; by exists r, n|].
      exists (Some (owner, n + 1)), (n + 1). eapply orderly_db; [exact Hw|done|lia|done|].
      intros ? ? ? _ [? _]; done. }
    exists r', n'. by destruct out as [[[l|l|?]|?] ?].
Qed.

Lemma renew_orderly w r n node link l :
  orderly w r n ->
  let out := leader_renew (elector node) link l (ew_db w) in
  exists r' n', orderly (note_leadership out.1 w out.2) r' n'.
Proof.
  intros Hw out. pose proof (renew_ends node link l _ _ _ (ord_sound _ _ _ Hw)) as Hm.
  fold out in Hm. exists r, n. destruct Hm as [(Hr & Hc & Hx & Hs & Ho)|[Hd [e He]]].
  - assert (orderly (mkElections out.2 (ew_grants w) (ew_tokens w)) r n) as Hw'.
    { eapply orderly_db; [exact Hw|done|lia|done|]. intros o f u Hu [-> _].
      split; [done|]. eexists. by split. }
    destruct out as [[o|e] d']; simpl in *; [|done]. subst o. simpl.
    apply (orderly_grant _ _ _ _ _ _ Hw'); simpl; [rewrite (sound_now _ _ Hc); lia|].
    split; [done|]. eexists. split; [exact Hx|lia].
  - rewrite He, Hd. by destruct w.
Qed.

Lemma relinquish_orderly w r n node link l :
  orderly w r n ->
  exists r' n', orderly (mkElections (relinquish (elector node) link l (ew_db w)).2
                           (delete (lead_owner_token l) (ew_grants w)) (ew_tokens w)) r' n'.
Proof.
  intros Hw. pose proof (relinquish_ends node link l _ _ _ (ord_sound _ _ _ Hw)) as Hm. simpl in Hm.
  destruct Hw as [Hs Ht Hsrt Hg]. destruct Hm as [->|(-> & Hc & Hs')].
  - exists r, n. split; simpl; [done..|]. intros o f u [_ Hl]%lookup_delete_Some. by apply Hg.
  - exists None, n. split; simpl; [done..|]. rewrite (sound_now _ _ Hc).
    intros o f u [Hne Hl]%lookup_delete_Some. destruct (Hg o f u Hl) as [Hu Hb].
    split; [done|]. intros Hlive. destruct (Hb Hlive) as [[= <- <-] _]. done.
Qed.

Lemma ages_orderly w r n d' :
  orderly w r n -> ages (ew_db w) d' -> in_era d' ->
  exists r' n', orderly (mkElections d' (ew_grants w) (ew_tokens w)) r' n'.
Proof.
  intros [Hs Ht Hsrt Hg] Hages He. pose proof Hs as [(h & Hh & Hr) Hi Hn Hcur _].
  destruct Hages as [Hnow Hh' Hx Hi'|t Hx Hlt Hh' Hi'].
  - exists r, n. split; simpl; [|done..|].
    + split; [|congruence|done| |done]; [exists h; by rewrite Hh'|]. intros o f E. rewrite Hx. by apply Hcur in E.
    + intros o f u Hl. destruct (Hg o f u Hl) as [Hu Hb]. split; [lia|]. intros Hlive.
      destruct (Hb ltac:(lia)) as [-> (t & Ht' & Hle)]. split; [done|]. exists t. by rewrite Hx.
  - assert (h <> ∅) as Hne by (intros ->; by rewrite (expiry_absent _ _ Hh) in Hx).
    pose proof (expiry_live _ _ _ _ Hh Hne Hx) as Hnow.
    exists None, n. split; simpl; [|done..|].
    + split; [by exists ∅|congruence|done..].
    + intros o f u Hl. destruct (Hg o f u Hl) as [Hu Hb]. split; [lia|]. intros Hlive.
      destruct (Hb ltac:(lia)) as [_ (t' & Ht' & Hle)]. simplify_eq. lia.
Qed.

Lemma elected_orderly w : elected w -> exists r n, orderly w r n.
Proof.
  induction 1 as [d Hh Hi He|w w' _ (r & n & IH) Hstep].
  - exists None, 0. split; simpl; [|constructor..|].
    + split; [by exists ∅|done..].
    + intros ? ? ?. by rewrite lookup_empty.
  - destruct Hstep as [node link uuid [l|] Hleft|node link l|d' Hd He].
    + by eapply renew_orderly.
    + eapply acquire_orderly; [exact IH|]. apply Hleft, (snd_counter _ _ _ (ord_sound _ _ _ IH)).
    + by eapply relinquish_orderly.
    + by eapply ages_orderly.
Qed.
End election.

(** C7: at most one leader.  However nodes interleave elections, renewals and
    resignations, whatever replies are lost and however the clock advances, two
    different owner tokens never hold unexpired leadership together. *)
Theorem leadership_exclusive {db} `{RedisLaws db} lock ttl (w : elections (db := db)) a b fa fb ua ub
    (Httl : ttl_ok ttl) (Hw : elected lock ttl w)
    (Ha : ew_grants w !! a = Some (fa, ua)) (Hb : ew_grants w !! b = Some (fb, ub))
    (Hla : now_ms (ew_db w) < ua) (Hlb : now_ms (ew_db w) < ub) :
  a = b /\ fa = fb.
Proof.
  destruct (elected_orderly lock ttl Httl w Hw) as (r & n & [_ _ _ Hg]).
  destruct (Hg a fa ua Ha) as [_ Hga], (Hg b fb ub Hb) as [_ Hgb].
  destruct (Hga Hla) as [-> _], (Hgb Hlb) as [[= -> ->] _]. done.
Qed.

(** C22: fencing.  The tokens of successive leaders strictly increase: a new
    leader's token exceeds every token granted before it.  A leader that has
    been superseded (a larger token was granted) can neither renew nor remove
    the record of its successor: both operations leave the database unchanged,
    and the renewal fails. *)
Theorem leadership_fenced {db} `{RedisLaws db} lock ttl (w : elections (db := db)) node link uuid l
    (Httl : ttl_ok ttl) (Hw : elected lock ttl w) (Hleft : tokens_left lock (ew_db w)) :
  (forall l', (leader_acquire (elector lock ttl node) link uuid (ew_db w)).1 = Ok (LeaderAcquired l') ->
     Forall (fun t => t < lead_fencing_token l') (ew_tokens w))
  /\ (Exists (fun t => lead_fencing_token l < t) (ew_tokens w) ->
      (exists e, (leader_renew (elector lock ttl node) link l (ew_db w)).1 = Err e)
      /\ (leader_renew (elector lock ttl node) link l (ew_db w)).2 = ew_db w
      /\ (relinquish (elector lock ttl node) link l (ew_db w)).2 = ew_db w).
Proof.
  destruct (elected_orderly lock ttl Httl w Hw) as (r & n & [Hs Ht _ _]). split.
  - intros l' Hl'. specialize (Hleft _ (snd_counter _ _ _ _ _ Hs)).
    destruct (acquire_ends lock ttl Httl node link uuid _ _ _ Hs Hleft) as [(l0 & E & _ & Hf & _)|[Hno _]].
    + rewrite Hl' in E. simplify_eq. rewrite Hf. eapply Forall_impl; [exact Ht|]. simpl. lia.
    + by rewrite Hl' in Hno.
  - intros (t & Hin & Hlt)%Exists_exists. rewrite Forall_forall in Ht. specialize (Ht t Hin).
    assert (r <> Some (lead_owner_token l, lead_fencing_token l)) as Hne.
    { intros E. destruct (snd_current _ _ _ _ _ Hs _ _ E). lia. }
    destruct (renew_ends lock ttl Httl node link l _ _ _ Hs) as [(Hr & _)|[Hd He]]; [done|].
    destruct (relinquish_ends lock ttl node link l _ _ _ Hs) as [Hq|(Hr & _)]; [|done]. done.
Qed.

(** ** An election on the in-memory database *)

Definition election_0 : elections := mkElections (mem_empty 1700000000000000) ∅ [].

(** Node [a] leads, resigns, and node [b] leads. *)
Definition lease_a : LeaderLease :=
  mkLeader "pulse:leader" "a" "a:u1" 1 1700000015000 (from_millis 15000).
Definition election_1 : elections :=
  let out := acquire_or_renew (elector "pulse:leader" 15000 "a") LinkUp "u1" None (ew_db election_0) in
  note_leadership out.1 election_0 out.2.
Definition election_2 : elections :=
  mkElections (relinquish (elector "pulse:leader" 15000 "a") LinkUp lease_a (ew_db election_1)).2
    (delete "a:u1" (ew_grants election_1)) (ew_tokens election_1).
Definition election_3 : elections :=
  let out := acquire_or_renew (elector "pulse:leader" 15000 "b") LinkUp "u2" None (ew_db election_2) in
  note_leadership out.1 election_2 out.2.

Lemma tokens_left_at (d : mem) n :
  int_at d (fence_key "pulse:leader") = Some n -> n + 1 < 10 ^ 14 -> tokens_left "pulse:leader" d.
Proof. intros Hn Hlt m Hm. rewrite Hn in Hm. by injection Hm as <-. Qed.

Lemma election_3_elected : elected "pulse:leader" 15000 election_3.
Proof.
  eapply elected_step; [eapply elected_step; [eapply elected_step|]|].
  - apply (elected_init "pulse:leader" 15000 (ew_db election_0)); [by vm_compute..|].
    split; by vm_compute.
  - apply (step_elect "pulse:leader" 15000 election_0 "a" LinkUp "u1" None).
    apply (tokens_left_at _ 0); [by vm_compute|lia].
  - apply (step_relinquish "pulse:leader" 15000 election_1 "a" LinkUp lease_a).
  - apply (step_elect "pulse:leader" 15000 election_2 "b" LinkUp "u2" None).
    apply (tokens_left_at _ 1); [by vm_compute|lia].
Qed.

Lemma sample_ttl_ok : ttl_ok 15000.
Proof. split; by vm_compute. Qed.

Lemma leadership_exclusive_witness :
  now_ms (ew_db election_3) < 1700000015000 /\ "b:u2" = "b:u2" /\ 2 = 2.
Proof.
  split; [by vm_compute|].
  apply (leadership_exclusive "pulse:leader" 15000 election_3 "b:u2" "b:u2" 2 2 1700000015000
    1700000015000 sample_ttl_ok election_3_elected); by vm_compute.
Defined.

Lemma leadership_fenced_witness :
  ew_tokens election_3 = [2; 1]
  /\ (relinquish (elector "pulse:leader" 15000 "a") LinkUp lease_a (ew_db election_3)).2 = ew_db election_3.
Proof.
  split; [by vm_compute|].
  assert (Exists (fun t => lead_fencing_token lease_a < t) (ew_tokens election_3)) as Hs
    by (vm_compute; constructor; reflexivity).
  pose proof (proj2 (leadership_fenced "pulse:leader" 15000 election_3 "a" LinkUp "u3" lease_a
    sample_ttl_ok election_3_elected
    (tokens_left_at (ew_db election_3) 2 ltac:(vm_compute; reflexivity) ltac:(lia))) Hs) as (_ & _ & H).
  exact H.
Defined.
