(* ===== verification/Dispatch.v ===== *)
(** * Dispatch windows

    [RedisDueStateStore] of [src/src/infrastructure/redis/mod.rs]: the schedule
    of a scenario is a Redis hash that remembers the open dispatch window, which
    of its slices have been acknowledged, and when the next window is due.  The
    scripts of [prepare_window], [ack_slice] and [register_run] are translated
    command by command.  An abstract schedule specifies the first two; they are
    proved to implement it for the current leader, and to change nothing for
    any other caller. *)

From S2P Require Import Prelude RustStr Contracts Domain Lua Redis RedisMem Coordination Leader.

(** ** The store *)

Definition MAX_DISPATCH_SLICES : Z := 4096.

Record AggregationRegistrationConfig := mkRegistration {
  reg_key_prefix : string;
  reg_partial_timeout : duration;
  reg_retention : duration;
  reg_max_active_runs : Z;
}.

Record RedisDueStateStore := mkDueStore {
  due_schedule_prefix : string;
  due_aggregation_registration : option AggregationRegistrationConfig;
}.

Definition due_store_new (schedule_prefix : string) : RedisDueStateStore :=
  mkDueStore schedule_prefix None.

Definition with_aggregation_registration (self : RedisDueStateStore) (key_prefix : string)
    (partial_timeout retention : duration) (max_active_runs : Z) : RedisDueStateStore :=
  mkDueStore (due_schedule_prefix self)
    (Some (mkRegistration key_prefix partial_timeout retention max_active_runs)).

Definition due_key_for (self : RedisDueStateStore) (scenario_id : string) : string :=
  due_schedule_prefix self +:+ ":" +:+ scenario_id.

(** One step of the loop over the comma-separated indexes. *)
Definition parse_missing_slice (operation : string) (total_slices : Z) (slices : list Z)
    (value : string) : result CoordinationError (list Z) :=
  index ← ok_or (parse_uint u32_max value)
            (InvalidState operation ("invalid missing-slice index '" +:+ value +:+ "'"));
  reject_if ((total_slices <=? index) || from_option (fun previous => index <=? previous) false (last slices))
    (InvalidState operation "missing-slice indexes are out of range or not strictly ordered");;
  Ok (slices ++ [index]).

Definition parse_missing_slices (operation raw : string) (total_slices : Z)
    : result CoordinationError (list Z) :=
  if str_is_empty raw then Ok []
  else try_fold (parse_missing_slice operation total_slices) [] (split_char "," raw).

(** ** Scripts *)

Section scripts.
Context {db : Type} `{Redis db}.
Implicit Types (lock_key schedule_key owner fence : string).

Definition leader_is_current lock_key owner fence : Script db bool :=
  present ← query (EXISTS lock_key);
  if negb present then mret false else
  remaining ← query (PTTL lock_key);
  if remaining <=? 0 then mret false else
  leader_matches lock_key owner fence.

Definition ack_field (index : Z) : string := "ack:" +:+ tostring index.

(** The loop that collects the slices not acknowledged yet. *)
Definition collect_missing schedule_key (total_slices : Z) : Script db (list string * Z) :=
  script_fold (fun '(missing, acked) index =>
      ack ← hget schedule_key (ack_field index);
      mret (if decide (ack = Some "1") then (missing, acked + 1)
            else (missing ++ [tostring index], acked)))
    ([], 0) (rangeZ total_slices).

Definition prepare_reply : Type := Z * string * Z * string * Z * string.

Definition prepare_refused (code : Z) (message : string) : prepare_reply :=
  (code, EmptyString, 0, EmptyString, 0, message).

(** The branch of an open window.  A reply whose timestamp is [nil] is cut
    short and fails to decode, which the caller sees as an error. *)
Definition resume_window schedule_key active_window (contract_version : string) (total_slices : Z)
    (repeat_kind : string) (repeat_ms : Z) (plan_fingerprint : string) : Script db prepare_reply :=
  version ← hget schedule_key "active_contract_version";
  total ← hget schedule_key "active_total_slices";
  kind ← hget schedule_key "active_repeat_kind";
  repeat_at ← hget schedule_key "active_repeat_ms";
  fingerprint ← hget schedule_key "active_plan_fingerprint";
  if negb (bool_decide (version = Some contract_version))
     || negb (bool_decide (tonumber_reply total = Some total_slices))
     || negb (bool_decide (kind = Some repeat_kind))
     || negb (bool_decide (tonumber_reply repeat_at = Some repeat_ms))
     || negb (bool_decide (fingerprint = Some plan_fingerprint))
  then mret (prepare_refused 5 "active window metadata does not match current dispatch spec")
  else
    scheduled ← hget schedule_key "active_scheduled_at";
    '(missing, acked) ← collect_missing schedule_key total_slices;
    ack_count ← hget_number_or schedule_key "active_ack_count" "-1";
    if negb (bool_decide (ack_count = Some acked))
    then mret (prepare_refused 5 "active acknowledgement count is inconsistent")
    else
      scheduled_at ← number (tonumber_reply scheduled);
      mret (1, active_window, scheduled_at, join "," missing, 0, EmptyString).

Definition window_id_of (contract_version scenario_id : string) (scheduled_at total_slices : Z) : string :=
  "v" +:+ contract_version +:+ ":s" +:+ tostring (str_len scenario_id) +:+ ":" +:+ scenario_id
  +:+ ":w" +:+ tostring scheduled_at +:+ ":n" +:+ tostring total_slices.

Definition prepare_script lock_key schedule_key owner fence scenario_id contract_version
    (total_arg repeat_kind repeat_arg plan_fingerprint : string) : Script db prepare_reply :=
  current ← leader_is_current lock_key owner fence;
  if negb current then mret (prepare_refused 4 "leader lease is stale") else
  total_slices ← number (tonumber total_arg);
  repeat_ms ← number (tonumber repeat_arg);
  active ← hget schedule_key "active_window_id";
  match active with
  | Some active_window =>
      resume_window schedule_key active_window contract_version total_slices repeat_kind repeat_ms
        plan_fingerprint
  | None =>
      once_done ← hget schedule_key "once_done";
      if bool_decide (repeat_kind = "once") && bool_decide (once_done = Some "1")
      then mret (prepare_refused 3 EmptyString)
      else
        now ← time_ms;
        next ← hget_number_or schedule_key "next_at" (tostring now);
        next_at ← number next;
        if now <? next_at then mret (2, EmptyString, 0, EmptyString, lua_sub next_at now, EmptyString)
        else
          let window_id := window_id_of contract_version scenario_id next_at total_slices in
          HSET schedule_key
            [("active_window_id", window_id);
             ("active_scheduled_at", tostring next_at);
             ("active_contract_version", contract_version);
             ("active_total_slices", tostring total_slices);
             ("active_repeat_kind", repeat_kind);
             ("active_repeat_ms", tostring repeat_ms);
             ("active_plan_fingerprint", plan_fingerprint);
             ("active_ack_count", "0")];;
          mret (1, window_id, next_at, join "," (map tostring (rangeZ total_slices)), 0, EmptyString)
  end.

Definition active_fields : list string :=
  ["active_window_id"; "active_scheduled_at"; "active_contract_version"; "active_total_slices";
   "active_repeat_kind"; "active_repeat_ms"; "active_plan_fingerprint"; "active_ack_count"].

(** The last slice has been acknowledged: schedule the next window and close
    this one. *)
Definition close_window schedule_key (active_window : string) (total_slices : Z)
    (repeat_kind : option string) (scheduled_at repeat_ms : option Z) : Script db (Z * Z * string) :=
  (if bool_decide (repeat_kind = Some "once") then
     HSET schedule_key [("once_done", "1")];;
     HDEL schedule_key ["next_at"]
   else
     at_ms ← number scheduled_at;
     step ← number repeat_ms;
     HSET schedule_key [("next_at", tostring (lua_add at_ms step))]);;
  now ← time_ms;
  HSET schedule_key [("last_completed_window", active_window); ("last_completed_at", tostring now)];;
  script_for (fun index => HDEL schedule_key [ack_field index]) (rangeZ total_slices);;
  HDEL schedule_key active_fields;;
  mret (2, 0, EmptyString).

Definition mark_slice schedule_key (slice_index : Z) : Script db unit :=
  fresh ← HSETNX schedule_key (ack_field slice_index) "1";
  if fresh =? 1 then HINCRBY schedule_key "active_ack_count" 1;; mret tt else mret tt.

(** Recording the acknowledgement of a slice of the open window. *)
Definition record_ack schedule_key (active_window : string) (total_slices slice_index : Z)
    (repeat_kind : option string) (scheduled_at repeat_ms : option Z) : Script db (Z * Z * string) :=
  mark_slice schedule_key slice_index;;
  count ← hget_number_or schedule_key "active_ack_count" "0";
  ack_count ← number count;
  let remaining := lua_sub total_slices ack_count in
  if 0 <? remaining then mret (1, remaining, EmptyString)
  else if remaining <? 0 then mret (5, 0, "acknowledgement count exceeds slice count")
  else close_window schedule_key active_window total_slices repeat_kind scheduled_at repeat_ms.

Definition ack_script lock_key schedule_key owner fence (window_id slice_arg total_arg fingerprint : string)
    : Script db (Z * Z * string) :=
  current ← leader_is_current lock_key owner fence;
  if negb current then mret (4, 0, "leader lease is stale") else
  active ← hget schedule_key "active_window_id";
  match active with
  | None =>
      completed ← hget schedule_key "last_completed_window";
      if bool_decide (completed = Some window_id) then mret (2, 0, EmptyString)
      else mret (5, 0, "dispatch window is not active")
  | Some active_window =>
      if negb (String.eqb active_window window_id)
      then mret (5, 0, "a different dispatch window is active") else
      total_text ← hget schedule_key "active_total_slices";
      if negb (bool_decide (tonumber_reply total_text = tonumber total_arg))
      then mret (5, 0, "dispatch slice count changed") else
      total_slices ← number (tonumber_reply total_text);
      plan ← hget schedule_key "active_plan_fingerprint";
      if negb (bool_decide (plan = Some fingerprint))
      then mret (5, 0, "dispatch plan fingerprint changed") else
      slice_index ← number (tonumber slice_arg);
      if (slice_index <? 0) || (total_slices <=? slice_index)
      then mret (5, 0, "slice index is outside the active window") else
      repeat_kind ← hget schedule_key "active_repeat_kind";
      repeat_ms ← hget_number_or schedule_key "active_repeat_ms" "0";
      scheduled_text ← hget schedule_key "active_scheduled_at";
      let scheduled_at := tonumber_reply scheduled_text in
      valid ← (if bool_decide (repeat_kind = Some "once") then mret true
               else if bool_decide (repeat_kind = Some "every")
               then step ← number repeat_ms; mret (0 <? step)
               else mret false);
      if negb valid then mret (5, 0, "active repeat policy is invalid") else
      if bool_decide (scheduled_at = None)
      then mret (5, 0, "active schedule timestamp is invalid") else
      previous ← hget_number_or schedule_key "active_ack_count" "-1";
      previous_ack_count ← number previous;
      if (previous_ack_count <? 0) || (total_slices <? previous_ack_count)
      then mret (5, 0, "acknowledgement count is invalid") else
      record_ack schedule_key active_window total_slices slice_index repeat_kind scheduled_at repeat_ms
  end.

(** ** Operations *)

Implicit Types (self : RedisDueStateStore) (link : Link) (leader : LeaderLease).

Definition dispatch_unknown_code (operation : string) (code : Z) : CoordinationError :=
  InvalidState operation ("unknown Redis response code " +:+ show code).

Definition repeat_args (operation : string) (repeat : RepeatPolicy) : result CoordinationError (string * Z) :=
  match repeat with
  | Once => Ok ("once", 0)
  | Every interval => ms ← duration_ms operation interval; Ok ("every", ms)
  end.

Definition check_spec (operation : string) (spec : DispatchSpec) : result CoordinationError unit :=
  reject_if (blank (spec_scenario_id spec)) (InvalidState operation "scenario id must not be empty");;
  reject_if (spec_contract_version spec =? 0)
    (InvalidState operation "contract version must be positive");;
  reject_if ((spec_total_slices spec =? 0) || (MAX_DISPATCH_SLICES <? spec_total_slices spec))
    (InvalidState operation ("total slices must be between 1 and " +:+ show MAX_DISPATCH_SLICES));;
  reject_if (blank (spec_plan_fingerprint spec))
    (InvalidState operation "plan fingerprint must not be empty").

(** What the reply of the prepare script means. *)
Definition prepare_outcome (operation : string) (spec : DispatchSpec) (reply : prepare_reply)
    : result CoordinationError DispatchOutcome :=
  let '(code, window_id, scheduled_at, missing_raw, retry_after, message) := reply in
  if code =? 1 then
    missing_slices ← parse_missing_slices operation missing_raw (spec_total_slices spec);
    reject_if (bool_decide (missing_slices = []))
      (InvalidState operation "active window has no missing slices but is not complete");;
    scheduled_at_unix_ms ← as_u64 operation "scheduled timestamp" scheduled_at;
    Ok (DispatchReady (mkWindow (spec_scenario_id spec) window_id window_id scheduled_at_unix_ms
          (spec_contract_version spec) (spec_total_slices spec) (spec_plan_fingerprint spec)
          missing_slices))
  else if code =? 2 then Ok (DispatchNotDue (duration_from_nonnegative_ms retry_after))
  else if code =? 3 then Ok DispatchFinished
  else if code =? 4 then Err (StaleOwner operation)
  else if code =? 5 then Err (InvalidState operation message)
  else Err (dispatch_unknown_code operation code).

Definition prepare_window self link (spec : DispatchSpec) leader : RedisOp db DispatchOutcome :=
  let OPERATION := "dispatch_prepare_window" in
  op_lift (check_spec OPERATION spec);;
  '(repeat_kind, repeat_ms) ← op_lift (repeat_args OPERATION (spec_repeat spec));
  fence ← op_lift (fence_arg OPERATION leader);
  reply ← invoke OPERATION link
    (prepare_script (lead_lock_key leader) (due_key_for self (spec_scenario_id spec))
       (lead_owner_token leader) (show fence) (spec_scenario_id spec)
       (show (spec_contract_version spec)) (show (spec_total_slices spec)) repeat_kind
       (show repeat_ms) (spec_plan_fingerprint spec));
  op_lift (prepare_outcome OPERATION spec reply).

Definition ack_outcome (operation : string) (reply : Z * Z * string)
    : result CoordinationError DispatchProgress :=
  let '(code, remaining, message) := reply in
  if code =? 1 then
    remaining_slices ← ok_or (try_from u32_max remaining)
                         (InvalidState operation "remaining slice count is out of range");
    Ok (DispatchPending remaining_slices)
  else if code =? 2 then Ok DispatchComplete
  else if code =? 4 then Err (StaleOwner operation)
  else if code =? 5 then Err (InvalidState operation message)
  else Err (dispatch_unknown_code operation code).

Definition ack_slice self link (window : DispatchWindow) (slice_index : Z) leader
    : RedisOp db DispatchProgress :=
  let OPERATION := "dispatch_ack_slice" in
  op_lift (reject_if (win_total_slices window <=? slice_index)
             (InvalidState OPERATION "slice index is outside the dispatch window"));;
  op_lift (reject_if ((win_total_slices window =? 0) || (MAX_DISPATCH_SLICES <? win_total_slices window))
             (InvalidState OPERATION "dispatch window has an invalid slice count"));;
  fence ← op_lift (fence_arg OPERATION leader);
  reply ← invoke OPERATION link
    (ack_script (lead_lock_key leader) (due_key_for self (win_scenario_id window))
       (lead_owner_token leader) (show fence) (win_window_id window) (show slice_index)
       (show (win_total_slices window)) (win_plan_fingerprint window));
  op_lift (ack_outcome OPERATION reply).
End scripts.

(** ** Specification *)

Module Schedule.
Record window := mkWin {
  w_id : string;
  w_scheduled : Z;
  w_version : string;
  w_total : Z;
  w_kind : string;
  w_repeat : Z;
  w_plan : string;
  w_acked : gset Z;
}.

Record state := mkState {
  open : option window;
  next_at : option Z;
  once_done : bool;
  last_completed : option string;
}.

Definition initial : state := mkState None None false None.

Definition missing (w : window) : list Z := filter (fun i => i ∉ w_acked w) (rangeZ (w_total w)).

(** What a caller asks to dispatch. *)
Record request := mkRequest {
  r_scenario : string;
  r_version : string;
  r_total : Z;
  r_kind : string;
  r_repeat : Z;
  r_plan : string;
}.

Inductive prepare_reply :=
| Ready (id : string) (scheduled_at : Z) (missing : list Z)
| NotDue (ms : Z)
| Finished
| Refused (message : string).

Definition same_plan (r : request) (w : window) : Prop :=
  w_version w = r_version r /\ w_total w = r_total r /\ w_kind w = r_kind r
  /\ w_repeat w = r_repeat r /\ w_plan w = r_plan r.

#[global] Instance same_plan_dec r w : Decision (same_plan r w).
Proof. unfold same_plan. apply _. Defined.

Definition open_window (r : request) (at_ms : Z) : window :=
  mkWin (window_id_of (r_version r) (r_scenario r) at_ms (r_total r)) at_ms (r_version r) (r_total r)
    (r_kind r) (r_repeat r) (r_plan r) ∅.

Definition prepare (r : request) (now : Z) (st : state) : prepare_reply * state :=
  match open st with
  | Some w =>
      if decide (same_plan r w) then (Ready (w_id w) (w_scheduled w) (missing w), st)
      else (Refused "active window metadata does not match current dispatch spec", st)
  | None =>
      if bool_decide (r_kind r = "once") && once_done st then (Finished, st)
      else
        let due := default now (next_at st) in
        if now <? due then (NotDue (due - now), st)
        else
          let w := open_window r due in
          (Ready (w_id w) due (missing w),
           mkState (Some w) (next_at st) (once_done st) (last_completed st))
  end.

Inductive ack_reply := Pending (remaining : Z) | Complete | AckRefused (message : string).

Definition acknowledge (i : Z) (w : window) : window :=
  mkWin (w_id w) (w_scheduled w) (w_version w) (w_total w) (w_kind w) (w_repeat w) (w_plan w)
    ({[i]} ∪ w_acked w).

(** Closing the open window schedules the next one. *)
Definition close (w : window) (st : state) : state :=
  if bool_decide (w_kind w = "once") then mkState None None true (Some (w_id w))
  else mkState None (Some (w_scheduled w + w_repeat w)) (once_done st) (Some (w_id w)).

Definition ack (id : string) (total : Z) (plan : string) (i : Z) (st : state) : ack_reply * state :=
  match open st with
  | None =>
      if bool_decide (last_completed st = Some id) then (Complete, st)
      else (AckRefused "dispatch window is not active", st)
  | Some w =>
      if negb (String.eqb (w_id w) id) then (AckRefused "a different dispatch window is active", st)
      else if negb (w_total w =? total) then (AckRefused "dispatch slice count changed", st)
      else if negb (String.eqb (w_plan w) plan) then (AckRefused "dispatch plan fingerprint changed", st)
      else
        let w' := acknowledge i w in
        if bool_decide (missing w' = []) then (Complete, close w st)
        else (Pending (Z.of_nat (length (missing w'))),
              mkState (Some w') (next_at st) (once_done st) (last_completed st))
  end.

(** Acknowledging slices one after another. *)
Fixpoint ack_each (id : string) (total : Z) (plan : string) (l : list Z) (st : state)
    : list ack_reply * state :=
  match l with
  | [] => ([], st)
  | i :: l' =>
      let '(reply, st1) := ack id total plan i st in
      let '(replies, st2) := ack_each id total plan l' st1 in
      (reply :: replies, st2)
  end.
End Schedule.

(** The hash that represents a schedule. *)

Record window_ok (w : Schedule.window) : Prop := {
  wok_total : 1 <= Schedule.w_total w <= MAX_DISPATCH_SLICES;
  wok_acked : forall i, i ∈ Schedule.w_acked w -> 0 <= i < Schedule.w_total w;
  wok_kind : Schedule.w_kind w = "once" \/ (Schedule.w_kind w = "every" /\ 0 < Schedule.w_repeat w);
  wok_repeat : 0 <= Schedule.w_repeat w;
  wok_time : 0 <= Schedule.w_scheduled w /\ Schedule.w_scheduled w + Schedule.w_repeat w < 10 ^ 14;
  wok_open : Schedule.missing w <> [];
}.

Definition window_fields (h : gmap string string) (w : Schedule.window) : Prop :=
  h !! "active_window_id" = Some (Schedule.w_id w)
  /\ h !! "active_scheduled_at" = Some (tostring (Schedule.w_scheduled w))
  /\ h !! "active_contract_version" = Some (Schedule.w_version w)
  /\ h !! "active_total_slices" = Some (tostring (Schedule.w_total w))
  /\ h !! "active_repeat_kind" = Some (Schedule.w_kind w)
  /\ h !! "active_repeat_ms" = Some (tostring (Schedule.w_repeat w))
  /\ h !! "active_plan_fingerprint" = Some (Schedule.w_plan w)
  /\ h !! "active_ack_count" = Some (show (Z.of_nat (size (Schedule.w_acked w)))).

Record scheduled (h : gmap string string) (st : Schedule.state) : Prop := {
  sch_open : match Schedule.open st with
             | Some w => window_ok w /\ window_fields h w
             | None => h !! "active_window_id" = None
             end;
  sch_acks : forall i, 0 <= i < MAX_DISPATCH_SLICES ->
    h !! ack_field i =
      if decide (i ∈ from_option Schedule.w_acked ∅ (Schedule.open st)) then Some "1" else None;
  sch_next : h !! "next_at" = tostring <$> Schedule.next_at st;
  sch_next_time : forall t, Schedule.next_at st = Some t -> 0 <= t < 10 ^ 14;
  sch_once : h !! "once_done" = if Schedule.once_done st then Some "1" else None;
  sch_last : h !! "last_completed_window" = Schedule.last_completed st;
}.

(** ** Reading the schedule *)

Section fields.
Implicit Types (h : gmap string string) (w : Schedule.window) (l : list Z).

Lemma tostring_small i : 0 <= i < 10 ^ 14 -> tostring i = show i.
Proof. intros. apply tostring_exact. unfold lua_exact. lia. Qed.

Lemma tostring_inj i j : 0 <= i < 10 ^ 14 -> 0 <= j < 10 ^ 14 -> tostring i = tostring j -> i = j.
Proof. intros ? ?. rewrite !tostring_small by lia. apply show_inj. Qed.

Lemma tonumber_tostring_small i : 0 <= i < 10 ^ 14 -> tonumber (tostring i) = Some i.
Proof. intros. apply tonumber_tostring; [lia|unfold lua_exact; lia]. Qed.

Lemma ack_field_inj i j :
  0 <= i < MAX_DISPATCH_SLICES -> 0 <= j < MAX_DISPATCH_SLICES -> ack_field i = ack_field j -> i = j.
Proof.
  unfold MAX_DISPATCH_SLICES, ack_field. intros Hi Hj E%str_app_inj_l. apply tostring_inj in E; lia.
Qed.

(** Reading back the comma-separated list of missing slices. *)
Lemma parse_missing_step op total acc i :
  0 <= i < total -> total <= MAX_DISPATCH_SLICES -> Forall (fun j => j < i) acc ->
  parse_missing_slice op total acc (tostring i) = Ok (acc ++ [i]).
Proof.
  unfold MAX_DISPATCH_SLICES, parse_missing_slice. intros Hi Ht Hacc.
  rewrite tostring_small, parse_uint_show by mlia. unfold ok_or, mbind, result_bind.
  destruct (Z.leb_spec total i); [lia|]. cbn [orb].
  assert (from_option (fun previous => i <=? previous) false (last acc) = false) as ->; [|done].
  destruct (last acc) as [j|] eqn:E; [|done]. simpl. rewrite Forall_forall in Hacc.
  apply last_Some_elem_of in E. specialize (Hacc j E). lia.
Qed.

Lemma parse_missing_fold op total l acc :
  Forall (fun i => 0 <= i < total) l -> total <= MAX_DISPATCH_SLICES -> StronglySorted Z.lt (acc ++ l) ->
  try_fold (parse_missing_slice op total) acc (map tostring l) = Ok (acc ++ l).
Proof.
  intros Hl Ht. revert acc. induction Hl as [|i l Hi Hl IH]; intros acc Hs.
  - simpl. by rewrite app_nil_r.
  - cbn [map try_fold]. rewrite parse_missing_step; [|done..|].
    + unfold mbind, result_bind. rewrite IH; [by rewrite <- app_assoc|by rewrite <- app_assoc].
    + apply StronglySorted_app in Hs as (Hlt & _ & _). apply Forall_forall. intros j Hj.
      apply Hlt; [done|]. constructor.
Qed.

Lemma parse_missing_join op total l :
  l <> [] -> Forall (fun i => 0 <= i < total) l -> total <= MAX_DISPATCH_SLICES ->
  StronglySorted Z.lt l ->
  parse_missing_slices op (join "," (map tostring l)) total = Ok l.
Proof.
  intros Hne Hl Ht Hs. unfold parse_missing_slices.
  assert (split_char "," (join "," (map tostring l)) = map tostring l) as Hsplit.
  { apply split_join; [by destruct l|]. apply Forall_forall. intros s (i & -> & Hi)%elem_of_map.
    rewrite Forall_forall in Hl. specialize (Hl i Hi). unfold MAX_DISPATCH_SLICES in Ht.
    rewrite tostring_small by lia. eapply all_chars_impl; [|by apply show_digits; lia].
    intros c Hc. apply negb_true_iff. apply Ascii.eqb_neq. by intros ->. }
  rewrite Hsplit, (parse_missing_fold op total l []) by done.
  destruct (str_is_empty _) eqn:E; [|done]. apply str_is_empty_true in E. rewrite E in Hsplit.
  destruct l as [|i l]; [done|]. simpl in Hsplit. injection Hsplit as Hi _.
  apply Forall_cons in Hl as [Hr _]. unfold MAX_DISPATCH_SLICES in Ht.
  pose proof (show_len_pos i ltac:(lia)) as Hp. rewrite <- tostring_small in Hp by lia.
  rewrite <- Hi in Hp. by vm_compute in Hp.
Qed.

Lemma missing_range w i : i ∈ Schedule.missing w <-> 0 <= i < Schedule.w_total w /\ i ∉ Schedule.w_acked w.
Proof. unfold Schedule.missing. rewrite list_elem_of_filter, elem_of_rangeZ. tauto. Qed.

Lemma missing_sorted w : StronglySorted Z.lt (Schedule.missing w).
Proof. apply StronglySorted_filter_list, rangeZ_sorted. Qed.

Lemma acked_size (acked : gset Z) total :
  (forall i, i ∈ acked -> 0 <= i < total) ->
  size acked = length (filter (fun i => i ∈ acked) (rangeZ total)).
Proof.
  intros Hr.
  assert (acked = list_to_set (filter (fun i => i ∈ acked) (rangeZ total))) as E.
  { apply set_eq. intros i. rewrite elem_of_list_to_set, list_elem_of_filter, elem_of_rangeZ. naive_solver. }
  rewrite E at 1. apply size_list_to_set, NoDup_filter, NoDup_rangeZ.
Qed.

(** Acknowledged and missing slices partition the window. *)
Lemma acked_count w :
  (forall i, i ∈ Schedule.w_acked w -> 0 <= i < Schedule.w_total w) -> 0 <= Schedule.w_total w ->
  Z.of_nat (size (Schedule.w_acked w)) + Z.of_nat (length (Schedule.missing w)) = Schedule.w_total w.
Proof.
  intros Hr Ht. pose proof (length_rangeZ (Schedule.w_total w) Ht) as Hlen.
  rewrite (acked_size _ _ Hr). unfold Schedule.missing. rewrite <- Hlen at 3.
  rewrite <- Nat2Z.inj_add. f_equal. clear.
  induction (rangeZ (Schedule.w_total w)) as [|i l IH]; [done|].
  rewrite !filter_cons. repeat case_decide; try done; simpl; lia.
Qed.
End fields.

(** ** Running the scripts *)

Section running.
Context {db : Type} `{RedisLaws db}.
Implicit Types (d : db) (h : gmap string string) (st : Schedule.state) (w : Schedule.window)
  (key lock owner : string).

(** The record under [lock] names [owner] with [fence] and has time left. *)
Definition holds_lease d lock owner (fence : Z) : Prop :=
  exists h t, hash d lock = Some h /\ h !! "owner" = Some owner /\ h !! "fence" = Some (show fence)
    /\ expiry d lock = Some t /\ now_ms d < t.

Lemma leader_is_current_yes d lock owner fence :
  holds_lease d lock owner fence -> leader_is_current lock owner (show fence) d = (Ok true, d).
Proof.
  intros (h & t & Hh & Ho & Hf & Ht & Hlt). unfold leader_is_current.
  erewrite bind_run by (by eapply exists_present_run). cbn [negb].
  erewrite bind_run by done. rewrite (pttl_law _ _ _ Hh), decide_False by (by eapply lookup_nonempty).
  rewrite Ht. cbn [from_option]. destruct (Z.leb_spec (Z.max 0 (t - now_ms d)) 0); [lia|].
  rewrite (leader_matches_hash _ _ _ _ _ Hh). by rewrite bool_decide_true by done.
Qed.

Lemma leader_is_current_no d lock owner fence h :
  hash d lock = Some h -> ~ holds_lease d lock owner fence ->
  leader_is_current lock owner (show fence) d = (Ok false, d).
Proof.
  intros Hh Hno. unfold leader_is_current. erewrite bind_run by done.
  rewrite (exists_law _ _ _ Hh). case_bool_decide as Hne; cbn [negb]; [|done].
  erewrite bind_run by done. rewrite (pttl_law _ _ _ Hh), decide_False by done.
  destruct (Z.leb_spec (from_option (fun t => Z.max 0 (t - now_ms d)) (-1) (expiry d lock)) 0)
    as [|Hpos]; [done|].
  rewrite (leader_matches_hash _ _ _ _ _ Hh). rewrite bool_decide_false; [done|].
  intros [Ho Hf]. apply Hno. destruct (expiry d lock) as [t|] eqn:Et; simpl in Hpos; [|lia].
  exists h, t. split_and!; try done. lia.
Qed.

Definition missing_step key : list string * Z -> Z -> Script db (list string * Z) :=
  fun '(missing, acked) index =>
    ack ← hget key (ack_field index);
    mret (if decide (ack = Some "1") then (missing, acked + 1)
          else (missing ++ [tostring index], acked)).

Lemma missing_fold_run d key h (acked : gset Z) l m a :
  hash d key = Some h ->
  (forall i, i ∈ l -> h !! ack_field i = if decide (i ∈ acked) then Some "1" else None) ->
  script_fold (missing_step key) (m, a) l d
  = (Ok (m ++ map tostring (filter (fun i => i ∉ acked) l),
         a + Z.of_nat (length (filter (fun i => i ∈ acked) l))), d).
Proof.
  intros Hh. revert m a. induction l as [|i l IH]; intros m a Hl.
  - simpl. rewrite app_nil_r. by rewrite Z.add_0_r.
  - assert (missing_step key (m, a) i d
      = (Ok (if decide (h !! ack_field i = Some "1") then (m, a + 1) else (m ++ [tostring i], a)), d)) as E
      by (unfold missing_step; by erewrite bind_run by (by apply hget_run)).
    cbn [script_fold]. erewrite bind_run by exact E. clear E. rewrite (Hl i) by constructor. rewrite !filter_cons.
    assert (forall j, j ∈ l -> h !! ack_field j = if decide (j ∈ acked) then Some "1" else None) as Hl'
      by (intros; apply Hl; by constructor).
    destruct (decide (i ∈ acked)) as [Hi|Hi].
    + rewrite (decide_True (P := Some "1" = Some "1")) by done.
      rewrite decide_False by tauto. rewrite IH by done. simpl length. do 3 f_equal. lia.
    + rewrite (decide_False (P := None = Some "1")) by done.
      rewrite decide_True by done. rewrite IH by done. simpl. by rewrite <- app_assoc.
Qed.

Lemma collect_missing_run d key h (acked : gset Z) total :
  hash d key = Some h ->
  (forall i, i ∈ rangeZ total -> h !! ack_field i = if decide (i ∈ acked) then Some "1" else None) ->
  collect_missing key total d
  = (Ok (map tostring (filter (fun i => i ∉ acked) (rangeZ total)),
         Z.of_nat (length (filter (fun i => i ∈ acked) (rangeZ total)))), d).
Proof. apply (missing_fold_run d key h acked (rangeZ total) [] 0). Qed.

(** Removing the acknowledgement fields one by one. *)
Lemma hdel_each_run d key h (f : Z -> string) l :
  hash d key = Some h ->
  exists d', script_for (fun i => HDEL key [f i]) l d = (Ok tt, d')
    /\ hash d' key = Some (hdel_fields (map f l) h) /\ frame d d' key.
Proof.
  unfold script_for. revert d h. induction l as [|i l IH]; intros d h Hh.
  - exists d. split; [done|]. split; [done|apply frame_refl].
  - destruct (hdel_law d key [f i] h Hh) as (d1 & E & Hh1 & _ & Hf1).
    destruct (IH d1 _ Hh1) as (d2 & E2 & Hh2 & Hf2). exists d2. cbn [script_fold].
    erewrite bind_run by exact E. split; [done|]. split; [done|]. by eapply frame_trans.
Qed.

(** *** Preparing a window *)

Definition prepare_wire (reply : Schedule.prepare_reply) : prepare_reply :=
  match reply with
  | Schedule.Ready id at_ms missing => (1, id, at_ms, join "," (map tostring missing), 0, EmptyString)
  | Schedule.NotDue ms => (2, EmptyString, 0, EmptyString, ms, EmptyString)
  | Schedule.Finished => prepare_refused 3 EmptyString
  | Schedule.Refused message => prepare_refused 5 message
  end.

(** A request the Rust side lets through, at a time the scripts can print. *)
Record request_ok (r : Schedule.request) (now : Z) : Prop := {
  rok_total : 1 <= Schedule.r_total r <= MAX_DISPATCH_SLICES;
  rok_kind : Schedule.r_kind r = "once" \/ (Schedule.r_kind r = "every" /\ 0 < Schedule.r_repeat r);
  rok_repeat : 0 <= Schedule.r_repeat r;
  rok_time : now + Schedule.r_repeat r < 10 ^ 14;
}.

Lemma negb_decide (P : Prop) `{Decision P} : P -> negb (bool_decide P) = false.
Proof. intros. by rewrite bool_decide_true. Qed.

Lemma resume_window_run d key h st w r :
  hash d key = Some h -> scheduled h st -> Schedule.open st = Some w ->
  0 <= Schedule.r_repeat r < 10 ^ 14 ->
  resume_window key (Schedule.w_id w) (Schedule.r_version r) (Schedule.r_total r) (Schedule.r_kind r)
    (Schedule.r_repeat r) (Schedule.r_plan r) d
  = (Ok (prepare_wire (Schedule.prepare r (now_ms d) st).1), d).
Proof.
  intros Hh Hs Ho Hrep. pose proof Hs as [Hopen Hacks _ _ _ _]. rewrite Ho in Hopen, Hacks.
  destruct Hopen as [[Ht Ha Hk Hr Htime Hmiss] (F1 & F2 & F3 & F4 & F5 & F6 & F7 & F8)].
  unfold MAX_DISPATCH_SLICES in Ht, Hacks. simpl in Hacks.
  unfold resume_window. do 5 (erewrite bind_run by (by apply hget_run)).
  rewrite F3, F4, F5, F6, F7. unfold tonumber_reply at 1 2. simpl option_bind.
  unfold Schedule.prepare. rewrite Ho.
  destruct (decide (Schedule.same_plan r w)) as [Hsame|Hdiff].
  - destruct Hsame as (-> & Et & -> & Er & ->).
    assert (tonumber_reply (Some (tostring (Schedule.w_total w))) = Some (Schedule.r_total r)) as E1
      by (rewrite <- Et; apply tonumber_tostring_small; lia).
    assert (tonumber_reply (Some (tostring (Schedule.w_repeat w))) = Some (Schedule.r_repeat r)) as E2
      by (rewrite <- Er; apply tonumber_tostring_small; lia).
    rewrite !negb_decide by done. cbn [orb].
    erewrite bind_run by (by apply hget_run).
    erewrite bind_run by (apply (collect_missing_run d key h (Schedule.w_acked w)); [done|];
      intros i Hi%elem_of_rangeZ; apply Hacks; lia). cbv beta iota zeta.
    erewrite bind_run by (by apply hget_number_or_run). rewrite F8. cbn [from_option]. unfold id.
    rewrite <- Et, <- (acked_size (Schedule.w_acked w) (Schedule.w_total w) Ha).
    pose proof (acked_count w Ha ltac:(lia)). rewrite tonumber_show, negb_decide by (done || lia).
    rewrite F2. unfold tonumber_reply. cbn [mbind option_bind]. rewrite tonumber_tostring_small by lia.
    by erewrite bind_run by apply number_run.
  - destruct (_ || _) eqn:E; [done|]. exfalso. apply Hdiff.
    bool_hyps. repeat match goal with
    | Hb : negb (bool_decide _) = false |- _ => apply negb_false_iff, bool_decide_eq_true in Hb end.
    unfold tonumber_reply in *. simpl in *. rewrite tonumber_tostring_small in * by lia.
    unfold Schedule.same_plan. naive_solver.
Qed.

(** Writing a fresh window into an idle schedule. *)
Definition open_fields (w : Schedule.window) : list (string * string) :=
  [("active_window_id", Schedule.w_id w);
   ("active_scheduled_at", tostring (Schedule.w_scheduled w));
   ("active_contract_version", Schedule.w_version w);
   ("active_total_slices", tostring (Schedule.w_total w));
   ("active_repeat_kind", Schedule.w_kind w);
   ("active_repeat_ms", tostring (Schedule.w_repeat w));
   ("active_plan_fingerprint", Schedule.w_plan w);
   ("active_ack_count", "0")].

Lemma scheduled_open h st w :
  scheduled h st -> Schedule.open st = None -> window_ok w -> Schedule.w_acked w = ∅ ->
  scheduled (hset_fields (open_fields w) h)
    (Schedule.mkState (Some w) (Schedule.next_at st) (Schedule.once_done st) (Schedule.last_completed st)).
Proof.
  intros [Ho Hacks Hn Hnt Honce Hlast] Hopen Hw Hempty. rewrite Hopen in Ho, Hacks.
  unfold hset_fields, open_fields. split; cbn [foldl Schedule.open Schedule.next_at Schedule.once_done
    Schedule.last_completed fst snd from_option].
  - split; [done|]. unfold window_fields. rewrite Hempty, size_empty. split_and!; by simplify_map_eq.
  - intros i Hi. specialize (Hacks i Hi). rewrite Hempty in *. simpl in Hacks.
    rewrite !lookup_insert_ne by done. done.
  - rewrite !lookup_insert_ne by done. done.
  - done.
  - rewrite !lookup_insert_ne by done. done.
  - rewrite !lookup_insert_ne by done. done.
Qed.

Lemma open_window_ok r now due :
  request_ok r now -> 0 <= due <= now -> window_ok (Schedule.open_window r due).
Proof.
  intros [Ht Hk Hr Htime] Hdue. split; simpl; [done| |done..|lia|].
  - set_solver.
  - intros E. assert (0 ∈ Schedule.missing (Schedule.open_window r due)) as Hin
      by (apply missing_range; simpl; set_solver by lia).
    rewrite E in Hin. by apply elem_of_nil in Hin.
Qed.

Lemma prepare_script_refines d lock key owner fence r h st :
  holds_lease d lock owner fence -> clock_exact d -> request_ok r (now_ms d) ->
  hash d key = Some h -> scheduled h st ->
  exists d' h', prepare_script lock key owner (show fence) (Schedule.r_scenario r) (Schedule.r_version r)
      (show (Schedule.r_total r)) (Schedule.r_kind r) (show (Schedule.r_repeat r)) (Schedule.r_plan r) d
    = (Ok (prepare_wire (Schedule.prepare r (now_ms d) st).1), d')
    /\ hash d' key = Some h' /\ scheduled h' (Schedule.prepare r (now_ms d) st).2 /\ frame d d' key.
Proof.
  intros Hlead Hx Hr Hh Hs. pose proof Hr as [Ht Hk Hrep Htime]. pose proof (now_ms_nonneg d) as Hnow.
  pose proof Hs as [Ho _ Hn Hnt Honce _]. unfold MAX_DISPATCH_SLICES in Ht.
  unfold prepare_script. erewrite bind_run by (by apply leader_is_current_yes). cbn [negb].
  rewrite !tonumber_show by lia. do 2 (erewrite bind_run by apply number_run).
  erewrite bind_run by (by apply hget_run). destruct (Schedule.open st) as [w|] eqn:Eo.
  { destruct Ho as [Hok F]. rewrite (proj1 F). exists d, h. rewrite (resume_window_run d key h st w r) by (done || lia).
    split; [done|]. split; [done|]. split; [|apply frame_refl].
    unfold Schedule.prepare. rewrite Eo. by case_decide. }
  rewrite Ho. erewrite bind_run by (by apply hget_run). rewrite Honce.
  unfold Schedule.prepare. rewrite Eo.
  replace (bool_decide ((if Schedule.once_done st then Some "1" else None) = Some "1"))
    with (Schedule.once_done st) by (by destruct (Schedule.once_done st)).
  destruct (bool_decide (Schedule.r_kind r = "once") && Schedule.once_done st).
  { exists d, h. split; [done|]. split; [done|]. split; [done|apply frame_refl]. }
  erewrite bind_run by (by apply time_ms_run). erewrite bind_run by (by apply hget_number_or_run).
  set (due := default (now_ms d) (Schedule.next_at st)).
  assert (0 <= due < 10 ^ 14) as Hdue.
  { unfold due. destruct (Schedule.next_at st) eqn:E; simpl; [by apply Hnt|unfold id; lia]. }
  assert (tonumber (default (tostring (now_ms d)) (h !! "next_at")) = Some due) as ->.
  { rewrite Hn. unfold due in *. destruct (Schedule.next_at st); simpl in *; by apply tonumber_tostring_small. }
  erewrite bind_run by apply number_run. destruct (Z.ltb_spec (now_ms d) due) as [Hlt|Hge].
  { exists d, h. unfold mret, script_ret. rewrite lua_sub_exact by lia.
    split; [done|]. split; [done|]. split; [done|apply frame_refl]. }
  cbv zeta. destruct (hset_law d key (open_fields (Schedule.open_window r due)) h Hh)
    as (d' & E & Hh' & _ & Hf); [done|].
  exists d', (hset_fields (open_fields (Schedule.open_window r due)) h).
  erewrite bind_run by exact E. split.
  - unfold mret, script_ret, Schedule.missing. simpl fst. simpl Schedule.w_acked.
    by rewrite filter_all by set_solver.
  - split; [done|]. split; [|done]. apply scheduled_open; [done..| |done].
    apply (open_window_ok _ (now_ms d)); [done|lia].
Qed.

(** *** Acknowledging a slice *)

(** The hash left behind when a window closes. *)
Lemma scheduled_closed h w next once :
  (forall i, Schedule.w_total w <= i < MAX_DISPATCH_SLICES -> h !! ack_field i = None) ->
  1 <= Schedule.w_total w <= MAX_DISPATCH_SLICES ->
  h !! "next_at" = tostring <$> next -> (forall t, next = Some t -> 0 <= t < 10 ^ 14) ->
  h !! "once_done" = (if once : bool then Some "1" else None) ->
  h !! "last_completed_window" = Some (Schedule.w_id w) ->
  scheduled (hdel_fields active_fields (hdel_fields (map ack_field (rangeZ (Schedule.w_total w))) h))
    (Schedule.mkState None next once (Some (Schedule.w_id w))).
Proof.
  intros Hacks Ht Hn Hnt Honce Hlast. unfold MAX_DISPATCH_SLICES in *.
  assert (forall f, f ∉ active_fields -> (forall i, f <> ack_field i) ->
    hdel_fields active_fields (hdel_fields (map ack_field (rangeZ (Schedule.w_total w))) h) !! f = h !! f)
    as Hkeep.
  { intros f Hf1 Hf2. rewrite !lookup_hdel_fields, !decide_False; [done| |done].
    intros (i & -> & _)%elem_of_map. by destruct (Hf2 i). }
  split; cbn [Schedule.open Schedule.next_at Schedule.once_done Schedule.last_completed from_option];
    [| | |done|by rewrite Hkeep by (done || (vm_compute; set_solver))..].
  - rewrite lookup_hdel_fields. by rewrite decide_True by (vm_compute; set_solver).
  - intros i Hi. unfold MAX_DISPATCH_SLICES in Hi. rewrite !lookup_hdel_fields. rewrite (decide_False (P := i ∈ ∅)) by set_solver.
    case_decide; [done|]. case_decide as Hin; [done|].
    apply Hacks. destruct (decide (Schedule.w_total w <= i)); [lia|]. exfalso. apply Hin, elem_of_map.
    exists i. rewrite elem_of_rangeZ. split; [done|lia].
  - rewrite Hkeep; [done|vm_compute; set_solver|done].
Qed.

Lemma close_window_run d key h st w :
  hash d key = Some h -> clock_exact d -> window_ok w ->
  (forall i, Schedule.w_total w <= i < MAX_DISPATCH_SLICES -> h !! ack_field i = None) ->
  h !! "once_done" = (if Schedule.once_done st then Some "1" else None) ->
  exists d' h', close_window key (Schedule.w_id w) (Schedule.w_total w) (Some (Schedule.w_kind w))
      (Some (Schedule.w_scheduled w)) (Some (Schedule.w_repeat w)) d = (Ok (2, 0, EmptyString), d')
    /\ hash d' key = Some h' /\ scheduled h' (Schedule.close w st) /\ frame d d' key.
Proof.
  intros Hh Hx [Ht _ Hk Hr Htime _] Hacks Honce.
  set (head := if bool_decide (Some (Schedule.w_kind w) = Some "once")
     then (HSET key [("once_done", "1")];; HDEL key ["next_at"]) : Script db unit
     else at_ms ← number (Some (Schedule.w_scheduled w)); step ← number (Some (Schedule.w_repeat w));
          HSET key [("next_at", tostring (lua_add at_ms step))]).
  assert (exists d1 h1, head d = (Ok tt, d1) /\ hash d1 key = Some h1 /\ frame d d1 key
    /\ (forall i, h1 !! ack_field i = h !! ack_field i)
    /\ h1 !! "next_at" = tostring <$> Schedule.next_at (Schedule.close w st)
    /\ h1 !! "once_done" = if Schedule.once_done (Schedule.close w st) then Some "1" else None)
    as (d1 & h1 & E1 & Hh1 & Hf1 & Ha1 & Hn1 & Ho1).
  { unfold head, Schedule.close. destruct (decide (Schedule.w_kind w = "once")) as [->|Hne].
    - rewrite !bool_decide_true by done.
      destruct (hset_law d key [("once_done", "1")] h Hh) as (d1 & E1 & Hh1 & _ & Hf1); [done|].
      destruct (hdel_law d1 key ["next_at"] _ Hh1) as (d2 & E2 & Hh2 & _ & Hf2).
      exists d2, (hdel_fields ["next_at"] (hset_fields [("once_done", "1")] h)).
      erewrite bind_run by exact E1. split; [done|]. split; [done|]. split; [by eapply frame_trans|].
      simpl. by split_and!; intros; simplify_map_eq.
    - rewrite !bool_decide_false by congruence. do 2 (erewrite bind_run by apply number_run).
      rewrite lua_add_exact by lia.
      destruct (hset_law d key [("next_at", tostring (Schedule.w_scheduled w + Schedule.w_repeat w))] h Hh)
        as (d1 & E1 & Hh1 & _ & Hf1); [done|].
      eexists d1, _. split; [done|]. split; [done|]. split; [done|]. simpl. by split_and!; intros; simplify_map_eq. }
  destruct (hset_law d1 key [("last_completed_window", Schedule.w_id w);
      ("last_completed_at", tostring (now_ms d1))] h1 Hh1) as (d2 & E2 & Hh2 & _ & Hf2); [done|].
  destruct (hdel_each_run d2 key _ ack_field (rangeZ (Schedule.w_total w)) Hh2) as (d3 & E3 & Hh3 & Hf3).
  destruct (hdel_law d3 key active_fields _ Hh3) as (d4 & E4 & Hh4 & _ & Hf4).
  eexists d4, _. unfold close_window. fold head. erewrite bind_run by exact E1.
  erewrite bind_run by (apply time_ms_run; unfold clock_exact; by rewrite (frame_now _ _ _ Hf1)).
  erewrite bind_run by exact E2. erewrite bind_run by exact E3. erewrite bind_run by exact E4.
  split; [done|]. split; [done|]. split; [|eauto using frame_trans].
  assert (Schedule.close w st = Schedule.mkState None (Schedule.next_at (Schedule.close w st))
    (Schedule.once_done (Schedule.close w st)) (Some (Schedule.w_id w))) as ->
    by (unfold Schedule.close; by case_bool_decide).
  apply scheduled_closed; [|exact Ht|by simpl; simplify_map_eq| |by simpl; simplify_map_eq|by simpl; simplify_map_eq].
  - intros i Hi. simpl. rewrite !lookup_insert_ne by done. by rewrite Ha1, Hacks.
  - unfold Schedule.close. intros t. case_bool_decide; [done|]. intros [= <-]. lia.
Qed.

(** The hash after slice [i] of [w] was marked, whether it was new or not. *)
Record marked h h1 w (i : Z) : Prop := {
  mk_count : h1 !! "active_ack_count" = Some (show (Z.of_nat (size ({[i]} ∪ Schedule.w_acked w))));
  mk_acks : forall j, 0 <= j < MAX_DISPATCH_SLICES ->
    h1 !! ack_field j = if decide (j ∈ ({[i]} ∪ Schedule.w_acked w : gset Z)) then Some "1" else None;
  mk_other : forall f, f <> "active_ack_count" -> (forall j, f <> ack_field j) -> h1 !! f = h !! f;
}.

Lemma mark_run d key h st w i :
  hash d key = Some h -> scheduled h st -> Schedule.open st = Some w -> 0 <= i < Schedule.w_total w ->
  exists d' h1, mark_slice key i d = (Ok tt, d')
    /\ hash d' key = Some h1 /\ marked h h1 w i /\ frame d d' key.
Proof.
  intros Hh [Hopen Hacks _ _ _ _] Ho Hi. rewrite Ho in Hopen, Hacks. simpl in Hacks.
  destruct Hopen as [[Ht Ha _ _ _ _] (_ & _ & _ & _ & _ & _ & _ & Hcnt)].
  pose proof (acked_count w Ha ltac:(lia)) as Hsize. unfold MAX_DISPATCH_SLICES in *.
  destruct (hsetnx_law d key (ack_field i) "1" h Hh) as (d1 & E1 & Hh1 & _ & Hf1).
  rewrite (Hacks i) in E1, Hh1 by lia. destruct (decide (i ∈ Schedule.w_acked w)) as [Hin|Hin].
  - rewrite decide_False in E1 by done. rewrite decide_False in Hh1 by done. exists d1, h. unfold mark_slice. erewrite bind_run by exact E1.
    assert ({[i]} ∪ Schedule.w_acked w = Schedule.w_acked w) as Hsame by set_solver.
    split; [done|]. split; [done|]. split; [|done]. split; rewrite ?Hsame; done.
  - rewrite decide_True in E1 by done. rewrite decide_True in Hh1 by done.
    destruct (hincrby_law d1 key "active_ack_count" 1 (Z.of_nat (size (Schedule.w_acked w))) _ Hh1)
      as (d2 & E2 & Hh2 & _ & Hf2); [right; by rewrite lookup_insert_ne by done|lia|lia|].
    exists d2. eexists. unfold mark_slice. erewrite bind_run by exact E1. cbn [Z.eqb Pos.eqb]. erewrite bind_run by exact E2.
    split; [done|]. split; [done|]. split; [|by eapply frame_trans]. split.
    + rewrite lookup_insert_eq, size_union, size_singleton by set_solver. do 2 f_equal. lia.
    + intros j Hj. rewrite lookup_insert_ne by done. destruct (decide (j = i)) as [->|Hne].
      * rewrite lookup_insert_eq. by rewrite decide_True by set_solver.
      * rewrite lookup_insert_ne by (intros E%ack_field_inj; unfold MAX_DISPATCH_SLICES in *; (congruence || lia)).
        rewrite Hacks by done. by apply decide_ext; set_solver.
    + intros f Hf1' Hf2'. rewrite !lookup_insert_ne by (done || apply not_eq_sym, Hf2'). done.
Qed.

Lemma acknowledge_range w i :
  0 <= i < Schedule.w_total w -> (forall j, j ∈ Schedule.w_acked w -> 0 <= j < Schedule.w_total w) ->
  forall j, j ∈ Schedule.w_acked (Schedule.acknowledge i w) -> 0 <= j < Schedule.w_total w.
Proof. intros Hi Ha j. simpl. set_solver. Qed.

(** A marked window that still misses a slice stays open. *)
Lemma scheduled_marked h h1 st w i :
  scheduled h st -> Schedule.open st = Some w -> marked h h1 w i -> 0 <= i < Schedule.w_total w ->
  Schedule.missing (Schedule.acknowledge i w) <> [] ->
  scheduled h1 (Schedule.mkState (Some (Schedule.acknowledge i w)) (Schedule.next_at st)
                  (Schedule.once_done st) (Schedule.last_completed st)).
Proof.
  intros [Hopen _ Hn Hnt Honce Hlast] Ho [Hc Hacks Hother] Hi Hmiss. rewrite Ho in Hopen.
  destruct Hopen as [[Ht Ha Hk Hr Htime _] (F1 & F2 & F3 & F4 & F5 & F6 & F7 & _)].
  split; cbn [Schedule.open Schedule.next_at Schedule.once_done Schedule.last_completed from_option];
    [|done|by rewrite Hother|done|by rewrite Hother..].
  split; [split; simpl; [exact Ht|by apply acknowledge_range|exact Hk|exact Hr|exact Htime|exact Hmiss]|].
  unfold window_fields. rewrite !Hother by done. done.
Qed.

Definition ack_wire (reply : Schedule.ack_reply) : Z * Z * string :=
  match reply with
  | Schedule.Pending n => (1, n, EmptyString)
  | Schedule.Complete => (2, 0, EmptyString)
  | Schedule.AckRefused message => (5, 0, message)
  end.

Lemma record_ack_run d key h st w i :
  hash d key = Some h -> clock_exact d -> scheduled h st -> Schedule.open st = Some w ->
  0 <= i < Schedule.w_total w ->
  exists d' h', record_ack key (Schedule.w_id w) (Schedule.w_total w) i (Some (Schedule.w_kind w))
      (Some (Schedule.w_scheduled w)) (Some (Schedule.w_repeat w)) d
    = (Ok (ack_wire (Schedule.ack (Schedule.w_id w) (Schedule.w_total w) (Schedule.w_plan w) i st).1), d')
    /\ hash d' key = Some h'
    /\ scheduled h' (Schedule.ack (Schedule.w_id w) (Schedule.w_total w) (Schedule.w_plan w) i st).2
    /\ frame d d' key.
Proof.
  intros Hh Hx Hs Ho Hi. pose proof Hs as [Hopen _ _ _ Honce _]. rewrite Ho in Hopen.
  destruct Hopen as [Hok _]. pose proof Hok as [Ht Ha _ _ _ _].
  destruct (mark_run d key h st w i Hh Hs Ho Hi) as (d1 & h1 & E1 & Hh1 & Hm & Hf1).
  pose proof (acked_count (Schedule.acknowledge i w) (acknowledge_range w i Hi Ha) ltac:(simpl; lia)) as Hsz.
  simpl in Hsz. unfold MAX_DISPATCH_SLICES in Ht.
  unfold Schedule.ack. rewrite Ho, !String.eqb_refl, Z.eqb_refl. cbn [negb].
  unfold record_ack. erewrite bind_run by exact E1. erewrite bind_run by (by apply hget_number_or_run).
  rewrite (mk_count _ _ _ _ Hm). cbn [from_option]. unfold id. rewrite tonumber_show by lia.
  erewrite bind_run by apply number_run. cbv zeta. rewrite lua_sub_exact by lia.
  case_bool_decide as Hmiss.
  - rewrite Hmiss in Hsz. simpl in Hsz.
    destruct (Z.ltb_spec 0 (Schedule.w_total w - Z.of_nat (size ({[i]} ∪ Schedule.w_acked w)))); [lia|].
    destruct (Z.ltb_spec (Schedule.w_total w - Z.of_nat (size ({[i]} ∪ Schedule.w_acked w))) 0); [lia|].
    destruct (close_window_run d1 key h1 st w Hh1) as (d2 & h2 & E2 & Hh2 & Hs2 & Hf2);
      [unfold clock_exact; by rewrite (frame_now _ _ _ Hf1)|done| |by rewrite (mk_other _ _ _ _ Hm)|].
    { intros j Hj. rewrite (mk_acks _ _ _ _ Hm) by lia. apply decide_False.
      intros Hin. apply (acknowledge_range w i Hi Ha) in Hin. lia. }
    exists d2, h2. eauto using frame_trans.
  - assert (Schedule.missing (Schedule.acknowledge i w) <> []) as Hmiss' by done.
    destruct (Schedule.missing (Schedule.acknowledge i w)) as [|m ms] eqn:Em; [done|].
    destruct (Z.ltb_spec 0 (Schedule.w_total w - Z.of_nat (size ({[i]} ∪ Schedule.w_acked w))));
      [|simpl in Hsz; lia].
    exists d1, h1. unfold mret, script_ret, ack_wire, fst. split; [do 4 f_equal; lia|].
    split; [done|]. split; [|done]. eapply scheduled_marked; eauto. by rewrite Em.
Qed.

Lemma ack_script_refines d lock key owner fence wid total plan i h st :
  holds_lease d lock owner fence -> clock_exact d -> 0 <= i < total -> total <= MAX_DISPATCH_SLICES ->
  hash d key = Some h -> scheduled h st ->
  exists d' h', ack_script lock key owner (show fence) wid (show i) (show total) plan d
    = (Ok (ack_wire (Schedule.ack wid total plan i st).1), d')
    /\ hash d' key = Some h' /\ scheduled h' (Schedule.ack wid total plan i st).2 /\ frame d d' key.
Proof.
  intros Hlead Hx Hi Htot Hh Hs. pose proof Hs as [Hopen _ _ _ _ Hlast]. unfold MAX_DISPATCH_SLICES in Htot.
  unfold ack_script. erewrite bind_run by (by apply leader_is_current_yes). cbn [negb].
  erewrite bind_run by (by apply hget_run). destruct (Schedule.open st) as [w|] eqn:Ho.
  2: { rewrite Hopen. erewrite bind_run by (by apply hget_run). rewrite Hlast. unfold Schedule.ack. rewrite Ho.
       exists d, h. case_bool_decide; (split; [done|]); split; eauto using frame_refl. }
  destruct Hopen as [Hok (F1 & F2 & F3 & F4 & F5 & F6 & F7 & F8)]. pose proof Hok as [Ht Ha Hk Hr Htime Hmiss].
  unfold MAX_DISPATCH_SLICES in Ht. pose proof (acked_count w Ha ltac:(lia)) as Hsz. rewrite F1.
  assert (forall msg, Schedule.ack wid total plan i st = (Schedule.AckRefused msg, st) ->
    exists d' h', (mret (5, 0, msg) : Script db _) d = (Ok (ack_wire (Schedule.ack wid total plan i st).1), d')
    /\ hash d' key = Some h' /\ scheduled h' (Schedule.ack wid total plan i st).2 /\ frame d d' key) as Hrefuse.
  { intros msg ->. exists d, h. eauto using frame_refl. }
  destruct (String.eqb_spec (Schedule.w_id w) wid) as [Hid|Hid]; cbn [negb];
    [|apply Hrefuse; unfold Schedule.ack; rewrite Ho; by apply String.eqb_neq in Hid as ->].
  apply String.eqb_eq in Hid as Hid'. erewrite bind_run by (by apply hget_run). rewrite F4.
  assert (tonumber_reply (Some (tostring (Schedule.w_total w))) = Some (Schedule.w_total w)) as En
    by (apply tonumber_tostring_small; lia).
  assert (tonumber (show total) = Some total) as Es by (apply tonumber_show; lia).
  case_bool_decide as Et; rewrite En, Es in Et; cbn [negb];
    [|apply Hrefuse; unfold Schedule.ack; rewrite Ho, Hid'; cbn [negb];
      destruct (Z.eqb_spec (Schedule.w_total w) total); [congruence|done]].
  injection Et as Et. rewrite En. erewrite bind_run by apply number_run.
  erewrite bind_run by (by apply hget_run). rewrite F7. case_bool_decide as Ep; cbn [negb];
    [|apply Hrefuse; unfold Schedule.ack; rewrite Ho, Hid', Et, Z.eqb_refl; cbn [negb];
      destruct (String.eqb_spec (Schedule.w_plan w) plan); [congruence|done]].
  injection Ep as Ep. rewrite tonumber_show by lia. erewrite bind_run by apply number_run.
  destruct (Z.ltb_spec i 0); [lia|]. destruct (Z.leb_spec (Schedule.w_total w) i); [lia|]. cbn [orb].
  erewrite bind_run by (by apply hget_run). erewrite bind_run by (by apply hget_number_or_run).
  erewrite bind_run by (by apply hget_run). rewrite F2, F5, F6. cbv zeta. unfold tonumber_reply.
  cbn [mbind option_bind from_option]. unfold id. rewrite !tonumber_tostring_small by lia.
  erewrite bind_run with (a := true) (d' := d).
  2: { destruct Hk as [->|[-> Hpos]]; [by rewrite bool_decide_true by done|].
       rewrite bool_decide_false, bool_decide_true by done. erewrite bind_run by apply number_run.
       unfold mret, script_ret. by apply Z.ltb_lt in Hpos as ->. }
  cbn [negb]. rewrite bool_decide_false by done.
  erewrite bind_run by (by apply hget_number_or_run). rewrite F8. cbn [from_option]. unfold id.
  rewrite tonumber_show by lia. erewrite bind_run by apply number_run.
  destruct (Z.ltb_spec (Z.of_nat (size (Schedule.w_acked w))) 0); [lia|].
  destruct (Z.ltb_spec (Schedule.w_total w) (Z.of_nat (size (Schedule.w_acked w)))); [lia|]. cbn [orb].
  rewrite <- Hid, <- Et, <- Ep. apply (record_ack_run d key h); (done || lia).
Qed.
End running.

(** ** The operations over any link *)

Section operations.
Context {db : Type} `{RedisLaws db}.
Variable self : RedisDueStateStore.
Implicit Types (d : db) (st : Schedule.state) (leader : LeaderLease) (spec : DispatchSpec)
  (window : DispatchWindow) (link : Link).

Definition spec_request spec : Schedule.request :=
  let '(kind, ms) := match spec_repeat spec with
                     | Once => ("once", 0)
                     | Every interval => ("every", as_millis interval)
                     end in
  Schedule.mkRequest (spec_scenario_id spec) (show (spec_contract_version spec))
    (spec_total_slices spec) kind ms (spec_plan_fingerprint spec).

(** A dispatch spec within the limits, at a time the scripts can print. *)
Record spec_ok spec (now : Z) : Prop := {
  sok_scenario : blank (spec_scenario_id spec) = false;
  sok_version : spec_contract_version spec <> 0;
  sok_total : 1 <= spec_total_slices spec <= MAX_DISPATCH_SLICES;
  sok_plan : blank (spec_plan_fingerprint spec) = false;
  sok_repeat : match spec_repeat spec with Once => True | Every i => 1 <= as_millis i end;
  sok_time : now + Schedule.r_repeat (spec_request spec) < 10 ^ 14;
}.

Definition leader_current d leader : Prop :=
  in_range i64_max (lead_fencing_token leader)
  /\ holds_lease d (lead_lock_key leader) (lead_owner_token leader) (lead_fencing_token leader).

Definition tracks_schedule d (scenario_id : string) st : Prop :=
  exists h, hash d (due_key_for self scenario_id) = Some h /\ scheduled h st.

(** The reply and the schedule of the specification, or an error from the
    network and the schedule from before or after. *)
Definition dispatch_ends {A} link d scenario_id (good : result CoordinationError A) st st'
    (out : result CoordinationError A * db) : Prop :=
  frame d out.2 (due_key_for self scenario_id)
  /\ ((link = LinkUp /\ out.1 = good /\ tracks_schedule out.2 scenario_id st')
      \/ (link <> LinkUp /\ (exists e, out.1 = Err e)
          /\ (tracks_schedule out.2 scenario_id st \/ tracks_schedule out.2 scenario_id st'))).

Definition prepare_result spec (reply : Schedule.prepare_reply) : result CoordinationError DispatchOutcome :=
  match reply with
  | Schedule.Ready id at_ms missing =>
      Ok (DispatchReady (mkWindow (spec_scenario_id spec) id id at_ms (spec_contract_version spec)
            (spec_total_slices spec) (spec_plan_fingerprint spec) missing))
  | Schedule.NotDue ms => Ok (DispatchNotDue (from_millis ms))
  | Schedule.Finished => Ok DispatchFinished
  | Schedule.Refused message => Err (InvalidState "dispatch_prepare_window" message)
  end.

Definition ack_result (reply : Schedule.ack_reply) : result CoordinationError DispatchProgress :=
  match reply with
  | Schedule.Pending n => Ok (DispatchPending n)
  | Schedule.Complete => Ok DispatchComplete
  | Schedule.AckRefused message => Err (InvalidState "dispatch_ack_slice" message)
  end.

Lemma check_spec_ok op spec now : spec_ok spec now -> check_spec op spec = Ok tt.
Proof.
  intros [Hs Hv Ht Hp _ _]. unfold check_spec. rewrite Hs, Hp. apply Z.eqb_neq in Hv as ->.
  unfold MAX_DISPATCH_SLICES in *. destruct (Z.eqb_spec (spec_total_slices spec) 0); [lia|].
  by destruct (Z.ltb_spec 4096 (spec_total_slices spec)); [lia|].
Qed.

Lemma repeat_args_ok op spec now :
  0 <= now -> spec_ok spec now ->
  repeat_args op (spec_repeat spec) = Ok (Schedule.r_kind (spec_request spec), Schedule.r_repeat (spec_request spec)).
Proof.
  intros Hnow [_ _ _ _ Hr Htime]. unfold repeat_args, spec_request in *.
  destruct (spec_repeat spec) as [|i]; simpl in *; [done|].
  assert (duration_ms op i = Ok (as_millis i)) as -> by (apply duration_ms_Ok; mlia). done.
Qed.

Lemma spec_request_ok spec now : spec_ok spec now -> request_ok (spec_request spec) now.
Proof.
  intros [_ _ Ht _ Hr Htime]. unfold spec_request in *.
  destruct (spec_repeat spec) as [|i]; simpl in *; split; simpl; try lia; auto with lia.
Qed.

Lemma fence_arg_ok op leader :
  in_range i64_max (lead_fencing_token leader) -> fence_arg op leader = Ok (lead_fencing_token leader).
Proof. intros Hr. unfold fence_arg. by apply ok_or_Ok, try_from_Some. Qed.

(** The reply of the script is decoded to the outcome it encodes. *)
Lemma prepare_outcome_wire spec now st :
  0 <= now -> spec_ok spec now ->
  (forall w, Schedule.open st = Some w -> window_ok w) ->
  (forall t, Schedule.next_at st = Some t -> 0 <= t < 10 ^ 14) ->
  let reply := (Schedule.prepare (spec_request spec) now st).1 in
  prepare_outcome "dispatch_prepare_window" spec (prepare_wire reply) = prepare_result spec reply.
Proof.
  intros Hnow Hs Hopen Hnext. pose proof (spec_request_ok _ _ Hs) as Hr. pose proof Hr as [_ _ Hr0 Hrt].
  assert (forall w, window_ok w -> Schedule.w_total w = spec_total_slices spec ->
    prepare_outcome "dispatch_prepare_window" spec
      (prepare_wire (Schedule.Ready (Schedule.w_id w) (Schedule.w_scheduled w) (Schedule.missing w)))
    = prepare_result spec (Schedule.Ready (Schedule.w_id w) (Schedule.w_scheduled w) (Schedule.missing w))) as Hready.
  { intros w [Ht _ _ Hrep Htime Hmiss] Etot. unfold prepare_wire, prepare_outcome. cbn [Z.eqb Pos.eqb].
    rewrite parse_missing_join; [|done| |by rewrite <- Etot; apply Ht|apply missing_sorted].
    - unfold mbind, result_bind. rewrite bool_decide_false by done. simpl.
      by rewrite as_u64_in by mlia.
    - apply Forall_forall. intros i Hi%missing_range. rewrite <- Etot. lia. }
  unfold Schedule.prepare. destruct (Schedule.open st) as [w|] eqn:Eo.
  - case_decide as Hsame; [|done]. apply Hready; [by apply Hopen|].
    destruct Hsame as (_ & -> & _). unfold spec_request. by destruct (spec_repeat spec).
  - destruct (_ && _); [done|]. cbv zeta.
    assert (0 <= default now (Schedule.next_at st) < 10 ^ 14) as Hdue
      by (destruct (Schedule.next_at st) eqn:E; simpl; [by apply Hnext|unfold id; lia]).
    destruct (Z.ltb_spec now (default now (Schedule.next_at st))) as [Hlt|Hge].
    + simpl. by rewrite duration_from_ms_in by mlia.
    + apply (Hready (Schedule.open_window (spec_request spec) (default now (Schedule.next_at st)))).
      * apply (open_window_ok _ now); [done|lia].
      * simpl. unfold spec_request. by destruct (spec_repeat spec).
Qed.

Lemma dispatch_ends_invoke {A B} op link (sc : Script db A) (k : A -> result CoordinationError B) good d
    scenario_id st st' a d' h' :
  sc d = (Ok a, d') -> tracks_schedule d scenario_id st ->
  hash d' (due_key_for self scenario_id) = Some h' -> scheduled h' st' ->
  frame d d' (due_key_for self scenario_id) -> k a = good ->
  dispatch_ends link d scenario_id good st st' ((invoke op link sc ≫= fun x => op_lift (k x)) d).
Proof.
  intros E Ht Hh' Hs' Hf Hk. assert (tracks_schedule d' scenario_id st') by (by exists h').
  by_link E as [[-> ->]|(Hl & He & [Hd|Hd])].
  - split; [done|]. left. unfold op_lift. by rewrite Hk.
  - rewrite <- Hd in Ht. split; [rewrite Hd; apply frame_refl|]. right. auto.
  - split; [by rewrite Hd|]. right. rewrite <- Hd in *. auto.
Qed.

Lemma prepare_implements link spec leader d st :
  leader_current d leader -> clock_exact d -> spec_ok spec (now_ms d) ->
  tracks_schedule d (spec_scenario_id spec) st ->
  let '(reply, st') := Schedule.prepare (spec_request spec) (now_ms d) st in
  dispatch_ends link d (spec_scenario_id spec) (prepare_result spec reply) st st'
    (prepare_window self link spec leader d).
Proof.
  intros [Hf Hl] Hx Hs (h & Hh & Hsch). pose proof (now_ms_nonneg d) as Hnow.
  destruct (prepare_script_refines d _ (due_key_for self (spec_scenario_id spec)) _ _ (spec_request spec) h st
    Hl Hx (spec_request_ok _ _ Hs) Hh Hsch) as (d' & h' & E & Hh' & Hsch' & Hfr).
  pose proof (prepare_outcome_wire spec (now_ms d) st Hnow Hs) as Hwire. simpl in Hwire.
  destruct (Schedule.prepare _ _ _) as [reply st'] eqn:Ep. simpl in *.
  unfold prepare_window. cbv zeta. erewrite op_lift_run by (by eapply check_spec_ok).
  erewrite op_lift_run by (by eapply repeat_args_ok). cbv beta iota.
  erewrite op_lift_run by (by apply fence_arg_ok).
  eapply dispatch_ends_invoke; [|by exists h|exact Hh'|exact Hsch'|exact Hfr|].
  - revert E. unfold spec_request. by destruct (spec_repeat spec).
  - apply Hwire; destruct Hsch as [Ho _ _ Hn _ _]; [|exact Hn].
    intros w Hw. rewrite Hw in Ho. by destruct Ho.
Qed.

Lemma ack_implements link window i leader d st :
  leader_current d leader -> clock_exact d -> 0 <= i < win_total_slices window ->
  win_total_slices window <= MAX_DISPATCH_SLICES ->
  tracks_schedule d (win_scenario_id window) st ->
  let '(reply, st') := Schedule.ack (win_window_id window) (win_total_slices window)
                         (win_plan_fingerprint window) i st in
  dispatch_ends link d (win_scenario_id window) (ack_result reply) st st'
    (ack_slice self link window i leader d).
Proof.
  intros [Hf Hl] Hx Hi Htot (h & Hh & Hsch).
  destruct (ack_script_refines d _ (due_key_for self (win_scenario_id window)) _ _ (win_window_id window)
    (win_total_slices window) (win_plan_fingerprint window) i h st Hl Hx Hi Htot Hh Hsch)
    as (d' & h' & E & Hh' & Hsch' & Hfr).
  assert (forall n, (Schedule.ack (win_window_id window) (win_total_slices window)
    (win_plan_fingerprint window) i st).1 = Schedule.Pending n -> in_range u32_max n) as Hn.
  { intros n. unfold Schedule.ack. destruct Hsch as [Ho _ _ _ _ _].
    destruct (Schedule.open st) as [w|]; [|by case_bool_decide].
    destruct (negb _); [done|]. destruct (Z.eqb_spec (Schedule.w_total w) (win_total_slices window))
      as [Et|]; cbn [negb]; [|done].
    destruct (negb _); [done|]. case_bool_decide; [done|]. intros [= <-]. rewrite <- Et in Hi.
    destruct Ho as [[Ht Ha _ _ _ _] _]. unfold MAX_DISPATCH_SLICES in *.
    pose proof (acked_count (Schedule.acknowledge i w) (acknowledge_range w i Hi Ha) ltac:(simpl; lia)).
    simpl in *. mlia. }
  unfold MAX_DISPATCH_SLICES in *. unfold ack_slice. cbv zeta.
  destruct (Schedule.ack _ _ _ _ _) as [reply st'] eqn:Ep. simpl in *.
  rewrite (op_lift_run _ _ d tt) by (apply reject_if_Ok; lia).
  rewrite (op_lift_run _ _ d tt) by (apply reject_if_Ok; unfold MAX_DISPATCH_SLICES; lia).
  erewrite op_lift_run by (by apply fence_arg_ok).
  eapply dispatch_ends_invoke; [exact E|by exists h|exact Hh'|exact Hsch'|exact Hfr|].
  destruct reply as [n| |m]; simpl; [|done..].
  assert (try_from u32_max n = Some n) as -> by (apply try_from_Some; auto). done.
Qed.

(** A caller whose leadership is not current is refused and changes nothing. *)
Lemma stale_leader_refused link spec window i leader d h :
  hash d (lead_lock_key leader) = Some h ->
  ~ holds_lease d (lead_lock_key leader) (lead_owner_token leader) (lead_fencing_token leader) ->
  ((exists e, (prepare_window self link spec leader d).1 = Err e) /\ (prepare_window self link spec leader d).2 = d)
  /\ ((exists e, (ack_slice self link window i leader d).1 = Err e) /\ (ack_slice self link window i leader d).2 = d).
Proof.
  intros Hh Hno. split.
  - unfold prepare_window. cbv zeta. destruct (check_spec _ spec) as [[]|e]; [|by eauto].
    erewrite op_lift_run by done. destruct (repeat_args _ _) as [[kind ms]|e]; [|by eauto].
    erewrite op_lift_run by done. cbv beta iota.
    destruct (fence_arg_cases "dispatch_prepare_window" leader) as [[-> _]|[e ->]]; [|by eauto].
    erewrite op_lift_run by done.
    match goal with |- context [invoke _ _ ?sc] =>
      assert (sc d = (Ok (prepare_refused 4 "leader lease is stale"), d)) as E
        by (unfold prepare_script; by erewrite bind_run by (by eapply leader_is_current_no)) end.
    by_link E as [[-> ->]|(_ & He & [Hd|Hd])]; eauto.
  - unfold ack_slice. cbv zeta. destruct (reject_if (_ <=? i) _) as [[]|e]; [|by eauto].
    erewrite op_lift_run by done. destruct (reject_if (_ || _) _) as [[]|e]; [|by eauto].
    erewrite op_lift_run by done.
    destruct (fence_arg_cases "dispatch_ack_slice" leader) as [[-> _]|[e ->]]; [|by eauto].
    erewrite op_lift_run by done.
    match goal with |- context [invoke _ _ ?sc] =>
      assert (sc d = (Ok (4, 0, "leader lease is stale"), d)) as E
        by (unfold ack_script; by erewrite bind_run by (by eapply leader_is_current_no)) end.
    by_link E as [[-> ->]|(_ & He & [Hd|Hd])]; eauto.
Qed.

(** Acknowledging slices one after another, as the scheduler does. *)
Fixpoint ack_each window leader (l : list Z) : RedisOp db (list DispatchProgress) :=
  match l with
  | [] => mret []
  | i :: l' =>
      progress ← ack_slice self LinkUp window i leader;
      rest ← ack_each window leader l';
      mret (progress :: rest)
  end.

Lemma holds_lease_frame d d' key lock owner fence :
  frame d d' key -> lock <> key -> holds_lease d lock owner fence -> holds_lease d' lock owner fence.
Proof.
  intros Hf Hne (h & t & Hh & Ho & Hfe & Ht & Hlt). exists h, t.
  rewrite (frame_hash _ _ _ _ Hf Hne), (frame_expiry _ _ _ _ Hf Hne), (frame_now _ _ _ Hf). done.
Qed.

Lemma ack_each_implements window leader l d st :
  leader_current d leader -> clock_exact d ->
  lead_lock_key leader <> due_key_for self (win_scenario_id window) ->
  Forall (fun i => 0 <= i < win_total_slices window) l -> win_total_slices window <= MAX_DISPATCH_SLICES ->
  tracks_schedule d (win_scenario_id window) st ->
  let '(replies, st') := Schedule.ack_each (win_window_id window) (win_total_slices window)
                           (win_plan_fingerprint window) l st in
  Forall (fun r => is_ok (ack_result r) = true) replies ->
  exists ps d', ack_each window leader l d = (Ok ps, d')
    /\ map ack_result replies = map Ok ps /\ tracks_schedule d' (win_scenario_id window) st'.
Proof.
  intros Hlead Hx Hlock Hl Htot. revert d st Hlead Hx.
  induction Hl as [|i l Hi Hl IH]; intros d st Hlead Hx Ht; [by exists [], d|].
  pose proof (ack_implements LinkUp window i leader d st Hlead Hx Hi Htot Ht) as Hack.
  cbn [Schedule.ack_each]. destruct (Schedule.ack _ _ _ i st) as [reply st1].
  destruct Hack as [Hfr [(_ & Hgood & Ht1)|(? & _)]]; [|done].
  cbn [ack_each]. unfold mbind at 1, op_bind at 1.
  destruct (ack_slice self LinkUp window i leader d) as [r d1]. simpl in *. subst r.
  assert (leader_current d1 leader) as Hlead1
    by (destruct Hlead; split; [done|by eapply holds_lease_frame]).
  assert (clock_exact d1) as Hx1 by (unfold clock_exact; by rewrite (frame_now _ _ _ Hfr)).
  specialize (IH d1 st1 Hlead1 Hx1 Ht1). destruct (Schedule.ack_each _ _ _ l st1) as [replies st2].
  intros [Hok Hrest]%Forall_cons. destruct (ack_result reply) as [p|e] eqn:Er; [|done].
  destruct (IH Hrest) as (ps & d2 & E & Hm & Ht2). exists (p :: ps), d2.
  unfold mbind, op_bind. rewrite E. split; [done|]. split; [|done]. simpl. by rewrite Er, Hm.
Qed.
End operations.

Section completion.
Implicit Types (st : Schedule.state) (w : Schedule.window) (l : list Z).

(** Acknowledgements of a window that has closed are confirmed again. *)
Lemma ack_each_closed id total plan l st :
  Schedule.open st = None -> Schedule.last_completed st = Some id ->
  Schedule.ack_each id total plan l st = (map (fun _ => Schedule.Complete) l, st).
Proof.
  intros Ho Hlast. induction l as [|i l IH]; [done|]. cbn [Schedule.ack_each]. unfold Schedule.ack.
  rewrite Ho, bool_decide_true by done. by rewrite IH.
Qed.

Lemma missing_acknowledge w i :
  Schedule.missing (Schedule.acknowledge i w) = filter (fun j => j <> i) (Schedule.missing w).
Proof.
  unfold Schedule.missing. simpl. rewrite list_filter_filter. apply list_filter_iff. set_solver.
Qed.

(** The window stays open, missing exactly the slices not acknowledged, until
    the last missing slice is acknowledged, which closes it. *)
Lemma ack_each_open l st w :
  Schedule.open st = Some w -> Schedule.missing w <> [] ->
  let '(replies, st') := Schedule.ack_each (Schedule.w_id w) (Schedule.w_total w) (Schedule.w_plan w) l st in
  (if decide (Schedule.missing w ⊆ l) then st' = Schedule.close w st /\ last replies = Some Schedule.Complete
   else Schedule.Complete ∉ replies
        /\ exists w', Schedule.open st' = Some w'
             /\ Schedule.missing w' = filter (fun j => j ∉ l) (Schedule.missing w))
  /\ Forall (fun r => is_ok (ack_result r) = true) replies.
Proof.
  revert st w. induction l as [|i l IH]; intros st w Ho Hmiss.
  - cbn [Schedule.ack_each]. split; [|constructor]. rewrite decide_False.
    + split; [set_solver|]. exists w. split; [done|]. symmetry. apply filter_all. set_solver.
    + destruct (Schedule.missing w) as [|j ?]; [done|]. intros Hsub. specialize (Hsub j). set_solver.
  - cbn [Schedule.ack_each]. unfold Schedule.ack. rewrite Ho, !String.eqb_refl, Z.eqb_refl. cbn [negb].
    pose proof (missing_acknowledge w i) as Hma.
    assert (Schedule.missing w ⊆ i :: l <-> Schedule.missing (Schedule.acknowledge i w) ⊆ l) as Hiff.
    { rewrite Hma. split; intros Hsub j.
      - intros [Hne Hj]%list_elem_of_filter. apply Hsub in Hj. set_solver.
      - intros Hj. destruct (decide (j = i)) as [->|]; [constructor|]. right. apply Hsub.
        by apply list_elem_of_filter. }
    case_bool_decide as Hdone.
    + rewrite ack_each_closed by (unfold Schedule.close; by case_bool_decide).
      rewrite decide_True by (apply Hiff; rewrite Hdone; set_solver). split.
      * split; [done|]. clear. induction l; [done|]. by destruct l.
      * constructor; [done|]. apply Forall_forall. intros r (j & -> & _)%elem_of_map. done.
    + specialize (IH (Schedule.mkState (Some (Schedule.acknowledge i w)) (Schedule.next_at st)
        (Schedule.once_done st) (Schedule.last_completed st)) (Schedule.acknowledge i w) eq_refl Hdone).
      simpl in IH. destruct (Schedule.ack_each _ _ _ l _) as [replies st2].
      destruct IH as [IH Hok]. split; [|by constructor]. destruct (decide (Schedule.missing (Schedule.acknowledge i w) ⊆ l)) as [Hs|Hs].
      * rewrite decide_True by (by apply Hiff). destruct IH as [-> Hlast]. split; [done|].
        by destruct replies.
      * rewrite decide_False by (by rewrite Hiff). destruct IH as (Hno & w' & Ho' & Hm'). split; [set_solver|].
        exists w'. split; [done|]. rewrite Hm', Hma, list_filter_filter. apply list_filter_iff. set_solver.
Qed.
End completion.

(** ** Identities *)

Section identities.

(** Decimal text ended by a character that is not a digit. *)
Lemma show_delimited_inj z1 z2 c r1 r2 :
  0 <= z1 -> 0 <= z2 -> is_digit c = false ->
  show z1 +:+ String c r1 = show z2 +:+ String c r2 -> z1 = z2 /\ r1 = r2.
Proof.
  intros H1 H2 Hc E. apply (delimited_inj is_digit) in E as [E ->]; [|by apply show_digits..|done].
  split; [|done]. by apply show_inj.
Qed.

(** The identity of a window followed by anything that starts with [":"]. *)
Lemma window_id_prefix_inj v1 v2 s1 s2 t1 t2 n1 n2 r1 r2 :
  0 <= v1 -> 0 <= v2 -> str_len s1 < 10 ^ 14 -> str_len s2 < 10 ^ 14 ->
  0 <= t1 < 10 ^ 14 -> 0 <= t2 < 10 ^ 14 -> 0 <= n1 < 10 ^ 14 -> 0 <= n2 < 10 ^ 14 ->
  window_id_of (show v1) s1 t1 n1 +:+ String ":" r1 = window_id_of (show v2) s2 t2 n2 +:+ String ":" r2 ->
  (v1 = v2 /\ s1 = s2 /\ t1 = t2 /\ n1 = n2) /\ r1 = r2.
Proof.
  intros Hv1 Hv2 Hl1 Hl2 Ht1 Ht2 Hn1 Hn2. unfold window_id_of.
  pose proof (str_len_nonneg s1). pose proof (str_len_nonneg s2).
  rewrite !tostring_small by lia. rewrite !str_app_assoc. intros E%str_app_inj_l.
  apply show_delimited_inj in E as [-> E]; [|done..].
  apply (str_app_inj_l "s") in E. apply show_delimited_inj in E as [El E]; [|done..].
  apply str_app_inj_len in E as [-> E]; [|done].
  apply (str_app_inj_l ":w") in E. apply show_delimited_inj in E as [-> E]; [|lia..|done].
  apply (str_app_inj_l "n") in E. apply show_delimited_inj in E as [-> ->]; [done|lia..|done].
Qed.
End identities.

(** ** Theorems *)

(** C8: the dispatch store implements the abstract schedule.  For the current
    leader, [prepare_window] and [ack_slice] give the reply and leave the
    schedule that the specification prescribes on every branch; when the network
    fails the caller gets an error and the schedule is the old one or the one
    of the specification. *)
Theorem dispatch_store_refines {db} `{RedisLaws db} self link spec window i leader (d : db) st
    (Hlead : leader_current d leader) (Hx : clock_exact d) (Hspec : spec_ok spec (now_ms d))
    (Hi : 0 <= i < win_total_slices window) (Htot : win_total_slices window <= MAX_DISPATCH_SLICES)
    (Hst : tracks_schedule self d (spec_scenario_id spec) st)
    (Hsame : win_scenario_id window = spec_scenario_id spec) :
  (let '(reply, st') := Schedule.prepare (spec_request spec) (now_ms d) st in
   dispatch_ends self link d (spec_scenario_id spec) (prepare_result spec reply) st st'
     (prepare_window self link spec leader d))
  /\ (let '(reply, st') := Schedule.ack (win_window_id window) (win_total_slices window)
                             (win_plan_fingerprint window) i st in
      dispatch_ends self link d (spec_scenario_id spec) (ack_result reply) st st'
        (ack_slice self link window i leader d)).
Proof.
  split; [by apply prepare_implements|]. rewrite <- Hsame in *. by apply ack_implements.
Qed.

(** C24: fencing of dispatch.  Whatever the schedule holds, a caller whose
    leadership record is gone, expired, or belongs to another owner or fencing
    token can neither open a window nor acknowledge a slice: both operations
    fail and leave the database unchanged. *)
Theorem stale_leader_cannot_dispatch {db} `{RedisLaws db} self link spec window i leader (d : db) h
    (Hh : hash d (lead_lock_key leader) = Some h)
    (Hno : ~ holds_lease d (lead_lock_key leader) (lead_owner_token leader) (lead_fencing_token leader)) :
  ((exists e, (prepare_window self link spec leader d).1 = Err e)
   /\ (prepare_window self link spec leader d).2 = d)
  /\ ((exists e, (ack_slice self link window i leader d).1 = Err e)
      /\ (ack_slice self link window i leader d).2 = d).
Proof. by eapply stale_leader_refused. Qed.

(** C23: a window completes exactly when every slice has been acknowledged.
    Acknowledging a list of slices of the open window, in any order and with
    repetitions, succeeds; the last reply is [Complete] and the schedule moves
    on (the next window is due one interval after this one, or never for a
    one-shot scenario) if the list covers the missing slices, and otherwise no
    reply is [Complete] and the window stays open, missing exactly the slices
    not in the list. *)
Theorem dispatch_window_completes {db} `{RedisLaws db} self window leader l (d : db) st w
    (Hlead : leader_current d leader) (Hx : clock_exact d)
    (Hlock : lead_lock_key leader <> due_key_for self (win_scenario_id window))
    (Hl : Forall (fun i => 0 <= i < win_total_slices window) l)
    (Hst : tracks_schedule self d (win_scenario_id window) st) (Hopen : Schedule.open st = Some w)
    (Hwin : win_window_id window = Schedule.w_id w /\ win_total_slices window = Schedule.w_total w
            /\ win_plan_fingerprint window = Schedule.w_plan w) :
  exists replies d' st',
    ack_each self window leader l d = (Ok replies, d') /\ tracks_schedule self d' (win_scenario_id window) st'
    /\ (if decide (Schedule.missing w ⊆ l)
        then st' = Schedule.close w st /\ last replies = Some DispatchComplete
        else DispatchComplete ∉ replies
             /\ exists w', Schedule.open st' = Some w'
                  /\ Schedule.missing w' = filter (fun j => j ∉ l) (Schedule.missing w)).
Proof.
  destruct Hwin as (Hid & Htot & Hplan). pose proof Hst as (h & _ & [Ho _ _ _ _ _]).
  rewrite Hopen in Ho. destruct Ho as [[Ht _ _ _ _ Hmiss] _].
  pose proof (ack_each_open l st w Hopen Hmiss) as Hspec.
  pose proof (ack_each_implements self window leader l d st Hlead Hx Hlock Hl ltac:(lia) Hst) as Himpl.
  rewrite Hid, Htot, Hplan in Himpl. destruct (Schedule.ack_each _ _ _ l st) as [replies st'].
  destruct Hspec as [Hspec Hok]. destruct (Himpl Hok) as (ps & d' & E & Hm & Ht').
  exists ps, d', st'. split; [done|]. split; [done|].
  assert (forall r p, ack_result r = Ok p -> (p = DispatchComplete <-> r = Schedule.Complete)) as Hc
    by (intros [] ?; simpl; naive_solver).
  case_decide.
  - destruct Hspec as [-> Hlast]. split; [done|].
    assert (last (map ack_result replies) = Some (Ok DispatchComplete)) as Hl'
      by (by rewrite (fmap_last ack_result), Hlast).
    rewrite Hm, (fmap_last (@Ok CoordinationError DispatchProgress)) in Hl'. destruct (last ps); naive_solver.
  - destruct Hspec as [Hno Hw']. split; [|done]. intros Hin. apply Hno.
    assert (Ok DispatchComplete ∈ map ack_result replies) as Hin'
      by (rewrite Hm; apply elem_of_map; by exists DispatchComplete).
    apply elem_of_map in Hin' as (r & Hr & Hin'). symmetry in Hr.
    destruct (Hc _ _ Hr) as [Hcr _]. by rewrite <- (Hcr eq_refl).
Qed.

(** Execution identities are unique.  Two slices of windows opened for
    possibly different scenarios, contract versions, times or slice counts have
    the same execution key only when all of them and the slice index agree. *)
Theorem execution_identity_injective v1 v2 s1 s2 t1 t2 n1 n2 i1 i2 p1 p2 m1 m2 key
    (Hv1 : in_range u16_max v1) (Hv2 : in_range u16_max v2)
    (Hl1 : str_len s1 <= MAX_CONTRACT_ID_BYTES) (Hl2 : str_len s2 <= MAX_CONTRACT_ID_BYTES)
    (Ht1 : in_range (10 ^ 14 - 1) t1) (Ht2 : in_range (10 ^ 14 - 1) t2)
    (Hn1 : in_range u32_max n1) (Hn2 : in_range u32_max n2) (Hi1 : 0 <= i1) (Hi2 : 0 <= i2) :
  let window v s t n p m :=
    let id := window_id_of (show v) s t n in mkWindow s id id t v n p m in
  window_execution_key (window v1 s1 t1 n1 p1 m1) i1 = Some key ->
  window_execution_key (window v2 s2 t2 n2 p2 m2) i2 = Some key ->
  v1 = v2 /\ s1 = s2 /\ t1 = t2 /\ n1 = n2 /\ i1 = i2.
Proof.
  intros window. unfold window_execution_key. simpl.
  destruct (i1 <? n1); [|done]. destruct (i2 <? n2); [|done]. intros <- E%(inj Some).
  unfold MAX_CONTRACT_ID_BYTES in *. unfold in_range in *.
  apply (window_id_prefix_inj v2 v1 s2 s1 t2 t1 n2 n1) in E as [(-> & -> & -> & ->) E]; [|lia..].
  injection E as E. apply (show_delimited_inj _ _ "-"%char) in E as [-> _]; [|done..]. done.
Qed.

(** ** A dispatch on the in-memory database *)

Definition sample_due : RedisDueStateStore := mkDueStore "pulse:schedule" None.
Definition sample_spec : DispatchSpec :=
  mkSpec "checkout" 2 3 (Every (from_secs 60)) "plan-1".
Definition sample_id : string := window_id_of "2" "checkout" 1700000000000 3.
Definition sample_window : DispatchWindow :=
  mkWindow "checkout" sample_id sample_id 1700000000000 2 3 "plan-1" [0; 1; 2].

(** Node [a] of the sample election leads; the window is open in [dispatch_1]. *)
Definition dispatch_0 : mem := ew_db election_1.
Definition dispatch_1 : mem := (prepare_window sample_due LinkUp sample_spec lease_a dispatch_0).2.

Lemma lease_a_current_at (d : mem) t :
  (hash d "pulse:leader" ≫= lookup "owner") = Some "a:u1" ->
  (hash d "pulse:leader" ≫= lookup "fence") = Some "1" ->
  expiry d "pulse:leader" = Some t -> now_ms d < t -> leader_current d lease_a.
Proof.
  intros Ho Hf Ht Hlt. split; [split; by vm_compute|].
  unfold holds_lease. simpl. destruct (hash d "pulse:leader") as [h|] eqn:Hh; [|done]. exists h, t.
  split; [exact Hh|]. split; [exact Ho|]. split; [exact Hf|]. by split.
Qed.

Lemma lease_a_current : leader_current dispatch_0 lease_a.
Proof. apply (lease_a_current_at _ 1700000015000); vm_compute; reflexivity. Qed.

Lemma lease_a_still_current : leader_current dispatch_1 lease_a.
Proof. apply (lease_a_current_at _ 1700000015000); vm_compute; reflexivity. Qed.

Lemma sample_spec_ok : spec_ok sample_spec (now_ms dispatch_0).
Proof. split; by vm_compute. Qed.

Lemma dispatch_0_idle : tracks_schedule sample_due dispatch_0 "checkout" Schedule.initial.
Proof. exists ∅. split; [by vm_compute|]. by split. Qed.

Definition sample_open : Schedule.window :=
  Schedule.open_window (spec_request sample_spec) 1700000000000.

Lemma dispatch_0_prepares :
  Schedule.prepare (spec_request sample_spec) (now_ms dispatch_0) Schedule.initial
  = (Schedule.Ready sample_id 1700000000000 [0; 1; 2], Schedule.mkState (Some sample_open) None false None).
Proof. vm_compute. reflexivity. Qed.

Lemma dispatch_store_refines_witness :
  (prepare_window sample_due LinkUp sample_spec lease_a dispatch_0).1 = Ok (DispatchReady sample_window).
Proof.
  pose proof (dispatch_store_refines sample_due LinkUp sample_spec sample_window 0 lease_a dispatch_0
    Schedule.initial lease_a_current ltac:(by vm_compute) sample_spec_ok ltac:(by vm_compute)
    ltac:(by vm_compute) dispatch_0_idle eq_refl) as [H _].
  rewrite dispatch_0_prepares in H. destruct H as [_ [(_ & Hgood & _)|(Hbad & _)]].
  - exact Hgood.
  - by destruct Hbad.
Defined.

Lemma stale_leader_cannot_dispatch_witness :
  (ack_slice sample_due LinkUp sample_window 0 lease_a (ew_db election_3)).2 = ew_db election_3.
Proof.
  assert ((hash (ew_db election_3) (lead_lock_key lease_a) ≫= lookup "owner") = Some "b:u2") as Hb
    by (vm_compute; reflexivity).
  destruct (hash (ew_db election_3) (lead_lock_key lease_a)) as [h|] eqn:Hh; [|discriminate Hb].
  refine (proj2 (proj2 (stale_leader_cannot_dispatch sample_due LinkUp sample_spec sample_window 0 lease_a
    (ew_db election_3) h Hh _))).
  intros (h' & t & Hh' & Ho & _). rewrite Hh in Hh'. injection Hh' as <-. simpl in Hb.
  rewrite Ho in Hb. discriminate Hb.
Defined.

Lemma dispatch_1_open :
  tracks_schedule sample_due dispatch_1 "checkout" (Schedule.mkState (Some sample_open) None false None).
Proof.
  pose proof (prepare_implements sample_due LinkUp sample_spec lease_a dispatch_0 Schedule.initial
    lease_a_current ltac:(by vm_compute) sample_spec_ok dispatch_0_idle) as H.
  rewrite dispatch_0_prepares in H. destruct H as [_ [(_ & _ & Ht)|(Hbad & _)]]; [exact Ht|by destruct Hbad].
Qed.

Lemma dispatch_window_completes_witness :
  exists d', ack_each sample_due sample_window lease_a [2; 0; 2; 1] dispatch_1
    = (Ok [DispatchPending 2; DispatchPending 1; DispatchPending 1; DispatchComplete], d').
Proof.
  pose proof (dispatch_window_completes sample_due sample_window lease_a [2; 0; 2; 1] dispatch_1
    (Schedule.mkState (Some sample_open) None false None) sample_open lease_a_still_current ltac:(by vm_compute)
    ltac:(by vm_compute) ltac:(repeat constructor; by vm_compute) dispatch_1_open eq_refl
    ltac:(split_and!; by vm_compute)) as (replies & d' & st' & E & _).
  assert ((ack_each sample_due sample_window lease_a [2; 0; 2; 1] dispatch_1).1
    = Ok [DispatchPending 2; DispatchPending 1; DispatchPending 1; DispatchComplete]) as Hr
    by (vm_compute; reflexivity).
  exists d'. rewrite E in Hr |- *. simpl in Hr. by rewrite Hr.
Defined.

Lemma execution_identity_injective_witness :
  window_execution_key sample_window 1 = Some (sample_id +:+ ":slice-1-of-3") /\ 1 = 1.
Proof.
  split; [by vm_compute|].
  destruct (execution_identity_injective 2 2 "checkout" "checkout" 1700000000000 1700000000000 3 3 1 1
    "plan-1" "plan-1" [0; 1; 2] [0; 1; 2] (sample_id +:+ ":slice-1-of-3")) as (_ & _ & _ & _ & H);
    first [exact H | by vm_compute].
Defined.
