(* ===== verification/RunStore.v ===== *)
(** * The durable aggregation store

    [RedisRunAggregationStore] of [src/src/infrastructure/redis/aggregation.rs]
    and [register_run] of [src/src/infrastructure/redis/mod.rs]: the scripts that
    register a run, merge a slice result, expire and finalize a run, list due
    runs, acknowledge a published summary and clean the outbox, translated
    command by command, with the Rust operations around them.  A run is a hash;
    three sorted sets index deadlines, unpublished summaries and active runs. *)

From S2P Require Import Prelude RustStr F64 Contracts Aggregation Lua Redis RedisMem Coordination Dispatch.

(** ** Script arguments *)

(** [ARGV[n]]. *)
Definition argv_at (argv : list string) (n : Z) : option string := argv !! Z.to_nat (n - 1).

(** [tonumber(ARGV[n])]. *)
Definition narg (argv : list string) (n : Z) : option Z := argv_at argv n ≫= tonumber.

Definition max_exact : Z := 9007199254740991.

(** A comparison guarded by [not x or ...]: a value that is no number fails. *)
Definition number_within (lo hi : Z) (x : option Z) : bool :=
  match x with Some z => (lo <=? z) && (z <=? hi) | None => false end.

Definition number_at_least (lo : Z) (x : option Z) : bool :=
  match x with Some z => lo <=? z | None => false end.

Section scripts.
Context {db : Type} `{Redis db}.
Implicit Types (run_key deadline_key outbox_key active_key run_id : string) (argv : list string).

Definition snapshot_reply : Type := Z * string * list string.

Definition response run_key (code : Z) (message : string) : Script db snapshot_reply :=
  snapshot ← query_res (HGETALL run_key);
  mret (code, message, snapshot).

(** [refresh_retention]: a run with an unpublished summary never expires. *)
Definition refresh_retention run_key active_key run_id (retention_ms now : Z) : Script db unit :=
  p ← hget_number_or run_key "summary_pending_revision" "0";
  a ← hget_number_or run_key "summary_ack_revision" "0";
  pending ← number p;
  acknowledged ← number a;
  if acknowledged <? pending then
    PERSIST run_key;;
    ZADD active_key max_exact run_id
  else
    PEXPIRE run_key retention_ms;;
    ZADD active_key (lua_add now retention_ms) run_id.

(** *** Ingesting a result *)

Record ingest_locals := mkLocals {
  il_scenario : string;
  il_run : string;
  il_schema : string;
  il_expected : Z;
  il_index : Z;
  il_execution : string;
  il_bounds : string;
  il_total : Z;
  il_success : Z;
  il_failure : Z;
  il_retention : Z;
  il_max_kinds : Z;
  il_max_active : Z;
  il_partial : Z;
  il_buckets : Z;
}.

(** The locals at the top of the script; [None] is the refusal of the
    arguments. *)
Definition ingest_arguments argv (received_at : Z) : option ingest_locals :=
  scenario_id ← argv_at argv 1;
  run_id ← argv_at argv 2;
  schema_version ← argv_at argv 3;
  expected_slices ← narg argv 4;
  slice_index ← narg argv 5;
  execution_key ← argv_at argv 6;
  histogram_bounds ← argv_at argv 7;
  incoming_total ← narg argv 8;
  incoming_success ← narg argv 9;
  incoming_failure ← narg argv 10;
  retention_ms ← narg argv 11;
  max_error_kinds ← narg argv 12;
  max_active_runs ← narg argv 13;
  partial_timeout_ms ← narg argv 14;
  bucket_count ← narg argv 15;
  if (1 <=? expected_slices) && (0 <=? slice_index) && (slice_index <? expected_slices)
     && number_within 0 max_exact (Some incoming_total)
     && number_within 0 max_exact (Some incoming_success)
     && number_within 0 max_exact (Some incoming_failure)
     && (lua_add incoming_success incoming_failure =? incoming_total)
     && (1 <=? retention_ms) && (1 <=? max_error_kinds) && (1 <=? max_active_runs)
     && (1 <=? partial_timeout_ms) && (received_at <=? lua_sub max_exact partial_timeout_ms)
     && (0 <=? bucket_count)
  then Some (mkLocals scenario_id run_id schema_version expected_slices slice_index execution_key
               histogram_bounds incoming_total incoming_success incoming_failure retention_ms
               max_error_kinds max_active_runs partial_timeout_ms bucket_count)
  else None.

Definition bucket_arg argv (i : Z) : option Z := narg argv (16 + i).
Definition error_count_index (l : ingest_locals) : Z := 16 + il_buckets l.
Definition kind_arg argv (l : ingest_locals) (i : Z) : option string :=
  argv_at argv (error_count_index l + 1 + i * 2).
Definition count_arg argv (l : ingest_locals) (i : Z) : option Z :=
  narg argv (error_count_index l + 2 + i * 2).

Definition known_status (status : string) : bool :=
  String.eqb status "open" || String.eqb status "partial" || String.eqb status "timed_out"
  || String.eqb status "cancelled" || String.eqb status "complete".

(** How the checks on an existing run end: a reply to return, or its status. *)
Inductive admission :=
| Refuse (code : Z) (message : string)
| Known
| Admit (status : string).

Definition slice_field (i : Z) : string := "slice:" +:+ tostring i.
Definition execution_field (key : string) : string := "execution:" +:+ key.
Definition latency_field (i : Z) : string := "latency:" +:+ tostring i.
Definition error_field (kind : string) : string := "error:" +:+ kind.

(** Whether the slice or the execution was recorded before. *)
Definition place_slice run_key (l : ingest_locals) : Script db admission :=
  stored_status ← hget run_key "status";
  let status := default EmptyString stored_status in
  if negb (known_status status) then mret (Refuse 5 "stored aggregation status is invalid") else
  existing_slice ← hget run_key (slice_field (il_index l));
  match existing_slice with
  | Some owner =>
      mret (if String.eqb owner (il_execution l) then Known
            else Refuse 5 "slice index already belongs to a different execution identity")
  | None =>
      existing_execution ← hget run_key (execution_field (il_execution l));
      match existing_execution with
      | Some slice =>
          mret (if bool_decide (tonumber slice = Some (il_index l)) then Known
                else Refuse 5 "execution identity already belongs to a different slice")
      | None =>
          mret (if String.eqb status "complete" || String.eqb status "cancelled"
                then Refuse 5 "terminal run cannot accept an unrecorded slice"
                else Admit status)
      end
  end.

(** The branch [if exists then ... end] of the script. *)
Definition admit_existing run_key (l : ingest_locals) : Script db admission :=
  stored_bounds ← hget run_key "histogram_bounds";
  scenario ← hget run_key "scenario_id";
  run ← hget run_key "run_id";
  schema ← hget run_key "schema_version";
  expected ← hget_number_or run_key "expected_slices" "-1";
  if negb (bool_decide (scenario = Some (il_scenario l)))
     || negb (bool_decide (run = Some (il_run l)))
     || negb (bool_decide (schema = Some (il_schema l)))
     || negb (bool_decide (expected = Some (il_expected l)))
     || (negb (bool_decide (stored_bounds = Some EmptyString))
         && negb (bool_decide (stored_bounds = Some (il_bounds l))))
  then mret (Refuse 5 "scenario, schema, expected slices, or histogram bounds changed") else
  unset ← (if bool_decide (stored_bounds = Some EmptyString) then
             received ← hget_number_or run_key "received_slices" "-1";
             if negb (bool_decide (received = Some 0)) then mret true
             else HSET run_key [("histogram_bounds", il_bounds l)];; mret false
           else mret false);
  if unset : bool then mret (Refuse 5 "registered run histogram is unset after accepting slices")
  else place_slice run_key l.

(** How many of the incoming error kinds the run has not seen. *)
Definition new_error_kinds run_key argv (l : ingest_locals) (pairs : Z) : Script db Z :=
  script_fold (fun n i =>
      match kind_arg argv l i with
      | None => raise "attempt to concatenate a nil value"
      | Some kind =>
          known ← query_res (HEXISTS run_key (error_field kind));
          mret (if known : bool then n else n + 1)
      end) 0 (rangeZ pairs).

Definition sum_is_exact run_key (field : string) (incoming : option Z) : Script db bool :=
  current ← hget_number_or run_key field "0";
  match current with
  | None => mret false
  | Some c =>
      if (0 <=? c) && (c <=? max_exact)
      then n ← number incoming; mret (n <=? lua_sub max_exact c)
      else mret false
  end.

(** [not sum_is_exact(..)] on each field in turn; [true] when all are exact. *)
Fixpoint all_exact run_key (fields : list (option string * option Z)) : Script db bool :=
  match fields with
  | [] => mret true
  | (None, _) :: _ => raise "attempt to concatenate a nil value"
  | (Some f, incoming) :: rest =>
      ok ← sum_is_exact run_key f incoming;
      if ok : bool then all_exact run_key rest else mret false
  end.

Definition new_run_fields (l : ingest_locals) (received_at : Z) : list (string * string) :=
  [("scenario_id", il_scenario l); ("run_id", il_run l); ("schema_version", il_schema l);
   ("expected_slices", tostring (il_expected l)); ("histogram_bounds", il_bounds l);
   ("status", "open"); ("received_slices", "0"); ("total", "0"); ("success", "0"); ("failure", "0");
   ("error_kind_count", "0"); ("first_result_at", tostring received_at);
   ("last_result_at", tostring received_at);
   ("deadline_at", tostring (lua_add received_at (il_partial l))); ("finalized_at", "0");
   ("summary_revision", "0"); ("summary_pending_revision", "0"); ("summary_ack_revision", "0")].

Definition hincrby_arg run_key (field : string) (arg : option string) : Script db Z :=
  match arg with
  | None => raise "Lua redis lib command arguments must be strings or integers"
  | Some s => n ← int_arg s; HINCRBY run_key field n
  end.

Definition merge_error run_key argv (l : ingest_locals) (i : Z) : Script db unit :=
  match kind_arg argv l i with
  | None => raise "attempt to concatenate a nil value"
  | Some kind =>
      known ← query_res (HEXISTS run_key (error_field kind));
      (if known : bool then mret tt else HINCRBY run_key "error_kind_count" 1;; mret tt);;
      hincrby_arg run_key (error_field kind) (argv_at argv (error_count_index l + 2 + i * 2));;
      mret tt
  end.

(** The writes that merge the slice into the run. *)
Definition merge_slice run_key argv (l : ingest_locals) (pairs received_at : Z) : Script db Z :=
  HSET run_key [(slice_field (il_index l), il_execution l);
                (execution_field (il_execution l), tostring (il_index l))];;
  received_slices ← HINCRBY run_key "received_slices" 1;
  hincrby_arg run_key "total" (argv_at argv 8);;
  hincrby_arg run_key "success" (argv_at argv 9);;
  hincrby_arg run_key "failure" (argv_at argv 10);;
  script_for (fun i => hincrby_arg run_key (latency_field i) (argv_at argv (16 + i));; mret tt)
    (rangeZ (il_buckets l));;
  script_for (merge_error run_key argv l) (rangeZ pairs);;
  last ← hget_number_or run_key "last_result_at" "0";
  first ← hget_number_or run_key "first_result_at" "0";
  (if bool_decide (first = Some 0)
   then HSET run_key [("first_result_at", tostring received_at)] else mret tt);;
  previous_last ← number last;
  (if previous_last <? received_at
   then HSET run_key [("last_result_at", tostring received_at)] else mret tt);;
  mret received_slices.

(** The last part of the script: the run may be complete now. *)
Definition conclude_ingest run_key deadline_key outbox_key active_key (l : ingest_locals)
    (status : string) (received_slices received_at : Z) : Script db snapshot_reply :=
  let late := String.eqb status "partial" || String.eqb status "timed_out" in
  if received_slices =? il_expected l then
    revision ← HINCRBY run_key "summary_revision" 1;
    HSET run_key [("status", "complete"); ("finalized_at", tostring received_at);
                  ("summary_pending_revision", tostring revision)];;
    ZREM deadline_key (il_run l);;
    ZADD outbox_key received_at (il_run l);;
    refresh_retention run_key active_key (il_run l) (il_retention l) received_at;;
    response run_key (if late then 4 else 3) EmptyString
  else response run_key (if late then 7 else 1) EmptyString.

(** Capacity and exactness: the code and message of a refusal, if any. *)
Definition vet_slice run_key argv (l : ingest_locals) (pairs current_error_kinds : Z)
    : Script db (option (Z * string)) :=
  additional ← new_error_kinds run_key argv l pairs;
  if il_max_kinds l <? lua_add current_error_kinds additional
  then mret (Some (6, "bounded error-kind capacity exceeded")) else
  exact ← all_exact run_key [(Some "total", Some (il_total l)); (Some "success", Some (il_success l));
                             (Some "failure", Some (il_failure l))];
  if negb exact then mret (Some (9, "aggregate result counter exceeds the exact Redis Lua range")) else
  exact ← all_exact run_key (map (fun i => (Some (latency_field i), bucket_arg argv i)) (rangeZ (il_buckets l)));
  if negb exact then mret (Some (9, "aggregate latency counter exceeds the exact Redis Lua range")) else
  exact ← all_exact run_key (map (fun i => (error_field <$> kind_arg argv l i, count_arg argv l i)) (rangeZ pairs));
  mret (if negb exact then Some (9, "aggregate error counter exceeds the exact Redis Lua range") else None).

(** Everything after the identity checks: stored counters, capacity, exactness,
    the writes. *)
Definition accept_slice run_key deadline_key outbox_key active_key argv (l : ingest_locals)
    (exists_ : bool) (status : string) (pairs received_at : Z) : Script db snapshot_reply :=
  counters ← (if exists_ then
                r ← hget_number_or run_key "received_slices" "-1";
                k ← hget_number_or run_key "error_kind_count" "-1";
                mret (match r, k with
                      | Some r, Some k =>
                          if (0 <=? r) && (r <? il_expected l) && (0 <=? k) then Some k else None
                      | _, _ => None
                      end)
              else mret (Some 0));
  match counters with
  | None => response run_key 5 "stored aggregation counters are invalid"
  | Some current_error_kinds =>
      verdict ← vet_slice run_key argv l pairs current_error_kinds;
      match verdict with
      | Some (code, message) => response run_key code message
      | None =>
          (if exists_ then mret tt else
             HSET run_key (new_run_fields l received_at);;
             ZADD deadline_key (lua_add received_at (il_partial l)) (il_run l));;
          received_slices ← merge_slice run_key argv l pairs received_at;
          refresh_retention run_key active_key (il_run l) (il_retention l) received_at;;
          conclude_ingest run_key deadline_key outbox_key active_key l status received_slices received_at
      end
  end.

Definition ingest_script run_key deadline_key outbox_key active_key argv : Script db snapshot_reply :=
  received_at ← time_ms;
  match ingest_arguments argv received_at with
  | None => mret (5, "invalid aggregation script arguments", [])
  | Some l =>
      match narg argv (error_count_index l) with
      | None => mret (5, "invalid aggregation error-count arguments", [])
      | Some pairs =>
          if pairs <? 0 then mret (5, "invalid aggregation error-count arguments", []) else
          if negb (forallb (fun i => number_within 0 max_exact (bucket_arg argv i)) (rangeZ (il_buckets l)))
          then mret (5, "latency bucket count is outside the exact Redis Lua range", []) else
          if negb (forallb (fun i => number_within 0 max_exact (count_arg argv l i)) (rangeZ pairs))
          then mret (5, "error count is outside the exact Redis Lua range", []) else
          exists_ ← query (EXISTS run_key);
          ZREMRANGEBYSCORE active_key received_at;;
          active ← query_res (ZCARD active_key);
          if negb exists_ && (il_max_active l <=? active)
          then mret (8, "bounded active-run capacity exceeded", []) else
          decision ← (if exists_ : bool then admit_existing run_key l else mret (Admit "open"));
          match decision with
          | Refuse code message => response run_key code message
          | Known =>
              refresh_retention run_key active_key (il_run l) (il_retention l) received_at;;
              response run_key 2 EmptyString
          | Admit status =>
              accept_slice run_key deadline_key outbox_key active_key argv l exists_ status pairs received_at
          end
      end
  end.

(** *** Expiry and explicit finalization *)

Definition forget_run deadline_key outbox_key active_key run_id : Script db unit :=
  ZREM deadline_key run_id;;
  ZREM outbox_key run_id;;
  ZREM active_key run_id.

(** A finalized run leaves the deadline index and, while its summary is
    unpublished, does not expire. *)
Definition keep_unpublished run_key deadline_key active_key run_id : Script db unit :=
  ZREM deadline_key run_id;;
  p ← hget_number_or run_key "summary_pending_revision" "0";
  a ← hget_number_or run_key "summary_ack_revision" "0";
  pending ← number p;
  acknowledged ← number a;
  if acknowledged <? pending then
    PERSIST run_key;;
    ZADD active_key max_exact run_id
  else mret tt.

(** A new revision of the summary enters the outbox. *)
Definition finalize_status run_key deadline_key outbox_key active_key run_id (status : string) (now : Z)
    : Script db unit :=
  revision ← HINCRBY run_key "summary_revision" 1;
  HSET run_key [("status", status); ("finalized_at", tostring now);
                ("summary_pending_revision", tostring revision)];;
  ZREM deadline_key run_id;;
  ZADD outbox_key now run_id;;
  PERSIST run_key;;
  ZADD active_key max_exact run_id.

Definition final_status (status : string) : bool :=
  String.eqb status "partial" || String.eqb status "timed_out"
  || String.eqb status "cancelled" || String.eqb status "complete".

(** [not retention_ms or retention_ms < 1 or now_ms > max_exact - retention_ms]. *)
Definition retention_invalid (retention : option Z) (now : Z) : bool :=
  match retention with
  | Some ms => (ms <? 1) || (lua_sub max_exact ms <? now)
  | None => true
  end.

Definition mark_expired_script run_key deadline_key outbox_key active_key (retention_arg run_id : string)
    : Script db snapshot_reply :=
  present ← query (EXISTS run_key);
  if negb present then
    forget_run deadline_key outbox_key active_key run_id;;
    mret (0, EmptyString, [])
  else
    now ← time_ms;
    if retention_invalid (tonumber retention_arg) now
    then response run_key 4 "invalid expiration arguments" else
    stored ← hget run_key "status";
    let status := default EmptyString stored in
    if final_status status then
      keep_unpublished run_key deadline_key active_key run_id;;
      response run_key 3 EmptyString
    else if negb (String.eqb status "open")
    then response run_key 4 "stored aggregation status is invalid"
    else
      deadline ← hget_number_or run_key "deadline_at" "-1";
      match deadline with
      | None => response run_key 4 "stored aggregation deadline is invalid"
      | Some deadline_at =>
          if deadline_at <? 0 then response run_key 4 "stored aggregation deadline is invalid"
          else if now <? deadline_at then response run_key 1 (tostring (lua_sub deadline_at now))
          else
            finalize_status run_key deadline_key outbox_key active_key run_id "timed_out" now;;
            response run_key 2 EmptyString
      end.

Definition finalize_script run_key deadline_key outbox_key active_key
    (requested_status retention_arg run_id : string) : Script db snapshot_reply :=
  now ← time_ms;
  if negb (String.eqb requested_status "partial") && negb (String.eqb requested_status "cancelled")
  then mret (3, "only partial or cancelled explicit finalization is supported", []) else
  if retention_invalid (tonumber retention_arg) now
  then mret (3, "invalid explicit finalization arguments", []) else
  present ← query (EXISTS run_key);
  if negb present then
    forget_run deadline_key outbox_key active_key run_id;;
    mret (0, EmptyString, [])
  else
    stored ← hget run_key "status";
    let status := default EmptyString stored in
    if negb (String.eqb status "open") then
      if final_status status then
        keep_unpublished run_key deadline_key active_key run_id;;
        response run_key 2 EmptyString
      else response run_key 3 "stored aggregation status is invalid"
    else
      finalize_status run_key deadline_key outbox_key active_key run_id requested_status now;;
      response run_key 1 EmptyString.

Definition due_runs_script deadline_key (limit_arg : string) : Script db (list string) :=
  match tonumber limit_arg with
  | None => raise "aggregation scan limit must be positive"
  | Some limit =>
      if limit <? 1 then raise "aggregation scan limit must be positive"
      else now ← time_ms; query_res (ZRANGEBYSCORE deadline_key now limit)
  end.

(** *** Acknowledging a published summary *)

(** A published run leaves the outbox and expires after its retention. *)
Definition settle_run run_key outbox_key active_key run_id (retention_ms : Z) : Script db unit :=
  ZREM outbox_key run_id;;
  PEXPIRE run_key retention_ms;;
  now ← time_ms;
  ZADD active_key (lua_add now retention_ms) run_id.

Definition acknowledge_script run_key outbox_key active_key (revision_arg run_id retention_arg : string)
    : Script db (Z * Z * string) :=
  present ← query (EXISTS run_key);
  if negb present then
    ZREM outbox_key run_id;;
    ZREM active_key run_id;;
    mret (0, 0, EmptyString)
  else
    current ← hget_number_or run_key "summary_revision" "0";
    acknowledged ← hget_number_or run_key "summary_ack_revision" "0";
    pending ← hget_number_or run_key "summary_pending_revision" "0";
    match tonumber revision_arg, tonumber retention_arg, current, acknowledged, pending with
    | Some revision, Some retention_ms, Some current, Some acknowledged, Some pending =>
        if (revision <? 1) || (retention_ms <? 1) || (current <? 1) || (acknowledged <? 0) || (pending <? 0)
        then mret (4, current, "stored summary revision is invalid")
        else if current <? revision then mret (4, current, "cannot acknowledge a future summary revision")
        else if revision <? current then
          (if acknowledged <? revision
           then HSET run_key [("summary_ack_revision", tostring revision)] else mret tt);;
          mret (3, current, EmptyString)
        else if revision <=? acknowledged then
          (if pending <=? acknowledged
           then settle_run run_key outbox_key active_key run_id retention_ms else mret tt);;
          mret (2, current, EmptyString)
        else
          HSET run_key [("summary_ack_revision", tostring revision)];;
          (if pending =? revision
           then settle_run run_key outbox_key active_key run_id retention_ms else mret tt);;
          mret (1, current, EmptyString)
    | _, _, _, _, _ => mret (4, default 0 current, "stored summary revision is invalid")
    end.

Definition clean_outbox_script run_key outbox_key run_id : Script db Z :=
  present ← query (EXISTS run_key);
  if negb present then ZREM outbox_key run_id;; mret 1 else
  p ← hget_number_or run_key "summary_pending_revision" "0";
  a ← hget_number_or run_key "summary_ack_revision" "0";
  pending ← number p;
  acknowledged ← number a;
  if pending <=? acknowledged then ZREM outbox_key run_id;; mret 1 else mret 0.

(** *** Registering a run before its slices are published *)

Definition registered_fields (run_id scenario_id schema_version : string) (expected_slices deadline_at : Z)
    : list (string * string) :=
  [("scenario_id", scenario_id); ("run_id", run_id); ("schema_version", schema_version);
   ("expected_slices", tostring expected_slices); ("histogram_bounds", EmptyString);
   ("status", "open"); ("received_slices", "0"); ("total", "0"); ("success", "0"); ("failure", "0");
   ("error_kind_count", "0"); ("first_result_at", "0"); ("last_result_at", "0");
   ("deadline_at", tostring deadline_at); ("finalized_at", "0");
   ("summary_revision", "0"); ("summary_pending_revision", "0"); ("summary_ack_revision", "0")].

Definition register_script run_key deadline_key active_key run_id (scenario_id schema_version : string)
    (expected_arg deadline_arg retention_arg max_active_arg : string) : Script db (Z * string) :=
  match tonumber expected_arg, tonumber deadline_arg, tonumber retention_arg, tonumber max_active_arg with
  | Some expected_slices, Some deadline_at, Some retention_ms, Some max_active =>
      if (expected_slices <? 1) || (deadline_at <? 0) || (max_exact <? deadline_at)
         || (retention_ms <? 1) || (max_active <? 1)
      then mret (3, "invalid run registration arguments") else
      now ← time_ms;
      ZREMRANGEBYSCORE active_key now;;
      present ← query (EXISTS run_key);
      if present : bool then
        run ← hget run_key "run_id";
        scenario ← hget run_key "scenario_id";
        schema ← hget run_key "schema_version";
        expected ← hget_number_or run_key "expected_slices" "-1";
        if negb (bool_decide (run = Some run_id)) || negb (bool_decide (scenario = Some scenario_id))
           || negb (bool_decide (schema = Some schema_version))
           || negb (bool_decide (expected = Some expected_slices))
        then mret (3, "registered run metadata changed")
        else
          refresh_retention run_key active_key run_id retention_ms now;;
          mret (2, EmptyString)
      else
        active ← query_res (ZCARD active_key);
        if max_active <=? active then mret (4, "bounded active-run capacity exceeded") else
        HSET run_key (registered_fields run_id scenario_id schema_version expected_slices deadline_at);;
        ZADD deadline_key deadline_at run_id;;
        PEXPIRE run_key retention_ms;;
        ZADD active_key (lua_add now retention_ms) run_id;;
        mret (1, EmptyString)
  | _, _, _, _ => mret (3, "invalid run registration arguments")
  end.

Definition registration_deadline (window : DispatchWindow) (load_duration partial_timeout : duration)
    : result CoordinationError Z :=
  let OPERATION := "aggregation_register_run" in
  load_ms ← ok_or (try_from u64_max (as_millis load_duration))
              (InvalidState OPERATION "load duration exceeds u64 milliseconds");
  partial_ms ← ok_or (try_from u64_max (as_millis partial_timeout))
                 (InvalidState OPERATION "partial timeout exceeds u64 milliseconds");
  deadline ← ok_or (value ← checked_add u128_max (win_scheduled_at_unix_ms window) load_ms;
                    checked_add u128_max value partial_ms)
               (InvalidState OPERATION "run deadline overflowed");
  reject_if (9007199254740991 <? deadline)
    (InvalidState OPERATION "run deadline exceeds Redis Lua's exact integer range");;
  Ok deadline.

Definition register_outcome (reply : Z * string) : result CoordinationError unit :=
  let OPERATION := "aggregation_register_run" in
  let '(code, message) := reply in
  if (code =? 1) || (code =? 2) then Ok tt
  else if (code =? 3) || (code =? 4) then Err (InvalidState OPERATION message)
  else Err (dispatch_unknown_code OPERATION code).

Definition register_run (self : RedisDueStateStore) (link : Link) (window : DispatchWindow)
    (load_duration : duration) : RedisOp db unit :=
  let OPERATION := "aggregation_register_run" in
  match due_aggregation_registration self with
  | None => mret tt
  | Some config =>
      deadline ← op_lift (registration_deadline window load_duration (reg_partial_timeout config));
      retention_ms ← op_lift (duration_ms OPERATION (reg_retention config));
      max_active ← op_lift (ok_or (try_from i64_max (reg_max_active_runs config))
                     (InvalidState OPERATION "active-run limit exceeds Redis range"));
      op_lift (reject_if (max_active <? 1) (InvalidState OPERATION "active-run limit must be positive"));;
      reply ← invoke OPERATION link
        (register_script (reg_key_prefix config +:+ ":{runs}:run:" +:+ win_run_id window)
           (reg_key_prefix config +:+ ":{runs}:deadlines") (reg_key_prefix config +:+ ":{runs}:active")
           (win_run_id window) (win_scenario_id window) (show (win_contract_version window))
           (show (win_total_slices window)) (show deadline) (show retention_ms) (show max_active));
      op_lift (register_outcome reply)
  end.
End scripts.

(** ** The store *)

Record RedisRunAggregationStore := mkRunStore {
  rs_key_prefix : string;
  rs_partial_timeout : duration;
  rs_retention_ttl : duration;
  rs_operation_timeout : duration;
  rs_max_error_kinds : Z;
  rs_max_active_runs : Z;
  rs_max_scan_limit : Z;
}.

Definition DEFAULT_OPERATION_TIMEOUT : duration := from_secs 2.
Definition DEFAULT_MAX_ERROR_KINDS : Z := 64.
Definition DEFAULT_MAX_ACTIVE_RUNS : Z := 10000.
Definition DEFAULT_MAX_SCAN_LIMIT : Z := 1024.
Definition MAX_IDENTITY_BYTES : Z := 1024.
Definition MAX_EXACT_LUA_INTEGER : Z := MAX_CONTRACT_EXACT_INTEGER.

Definition invalid_state {A} (operation message : string) : result RunAggregationStoreError A :=
  Err (StoreInvalidState operation message).

Definition map_coordination_error (e : CoordinationError) : RunAggregationStoreError :=
  match e with
  | Unavailable operation message => StoreUnavailable operation message
  | Timeout operation => StoreTimeout operation
  | InvalidState operation message => StoreInvalidState operation message
  | StaleOwner operation => StoreInvalidState operation "unexpected stale-owner response"
  end.

(** A sub-millisecond duration passes the zero test and becomes 0. *)
Definition checked_duration_ms (operation : string) (d : duration) : result RunAggregationStoreError Z :=
  if duration_is_zero d then invalid_state operation "duration must be at least one millisecond"
  else ok_or (try_from i64_max (as_millis d))
         (StoreInvalidState operation "duration exceeds the Redis integer range").

Definition checked_lua_duration_ms (operation : string) (d : duration) : result RunAggregationStoreError Z :=
  millis ← checked_duration_ms operation d;
  unsigned ← ok_or (try_from u64_max millis)
               (StoreInvalidState operation "duration must not be negative");
  reject_if (MAX_EXACT_LUA_INTEGER <? unsigned)
    (StoreInvalidState operation "duration exceeds Redis Lua's exact integer range");;
  Ok millis.

Definition exact_result_integer (field : string) (value : Z) : result RunAggregationStoreError unit :=
  reject_if (MAX_EXACT_LUA_INTEGER <? value)
    (StoreContract (InvalidResult (field +:+ " exceeds Redis Lua's exact integer range"))).

Definition validate_identity (field value : string) : result RunAggregationStoreError unit :=
  reject_if (blank value || (MAX_IDENTITY_BYTES <? str_len value))
    (StoreInvalidState "aggregation_ingest"
       (field +:+ " must be non-empty and at most " +:+ show MAX_IDENTITY_BYTES +:+ " bytes")).

Definition is_permanent_result_conflict (message : string) : bool :=
  String.eqb message "scenario, schema, expected slices, or histogram bounds changed"
  || String.eqb message "slice index already belongs to a different execution identity"
  || String.eqb message "execution identity already belongs to a different slice"
  || String.eqb message "terminal run cannot accept an unrecorded slice".

Definition run_store_new (key_prefix : string) (partial_timeout retention_ttl : duration)
    : result RunAggregationStoreError RedisRunAggregationStore :=
  reject_if (blank key_prefix || (MAX_IDENTITY_BYTES <? str_len key_prefix)
             || str_contains "{" key_prefix || str_contains "}" key_prefix)
    (StoreInvalidState "aggregation_config"
       "Redis aggregation key prefix must be non-empty, bounded, and contain no hash-tag braces");;
  checked_lua_duration_ms "aggregation_config" partial_timeout;;
  checked_lua_duration_ms "aggregation_config" retention_ttl;;
  reject_if (retention_ttl <=? partial_timeout)
    (StoreInvalidState "aggregation_config"
       "aggregation retention TTL must exceed the partial-run timeout");;
  Ok (mkRunStore key_prefix partial_timeout retention_ttl DEFAULT_OPERATION_TIMEOUT DEFAULT_MAX_ERROR_KINDS
        DEFAULT_MAX_ACTIVE_RUNS DEFAULT_MAX_SCAN_LIMIT).

Definition with_operation_timeout (self : RedisRunAggregationStore) (operation_timeout : duration)
    : result RunAggregationStoreError RedisRunAggregationStore :=
  checked_duration_ms "aggregation_config" operation_timeout;;
  Ok (mkRunStore (rs_key_prefix self) (rs_partial_timeout self) (rs_retention_ttl self) operation_timeout
        (rs_max_error_kinds self) (rs_max_active_runs self) (rs_max_scan_limit self)).

Definition redis_limit (message : string) (n : Z) : result RunAggregationStoreError unit :=
  reject_if ((n =? 0) || (MAX_EXACT_LUA_INTEGER <? n)) (StoreInvalidState "aggregation_config" message).

Definition with_max_error_kinds (self : RedisRunAggregationStore) (n : Z)
    : result RunAggregationStoreError RedisRunAggregationStore :=
  redis_limit "maximum error kinds must fit in Redis and be greater than zero" n;;
  Ok (mkRunStore (rs_key_prefix self) (rs_partial_timeout self) (rs_retention_ttl self)
        (rs_operation_timeout self) n (rs_max_active_runs self) (rs_max_scan_limit self)).

Definition with_max_active_runs (self : RedisRunAggregationStore) (n : Z)
    : result RunAggregationStoreError RedisRunAggregationStore :=
  redis_limit "maximum active runs must fit in Redis and be greater than zero" n;;
  Ok (mkRunStore (rs_key_prefix self) (rs_partial_timeout self) (rs_retention_ttl self)
        (rs_operation_timeout self) (rs_max_error_kinds self) n (rs_max_scan_limit self)).

Definition with_max_scan_limit (self : RedisRunAggregationStore) (n : Z)
    : result RunAggregationStoreError RedisRunAggregationStore :=
  redis_limit "maximum aggregation scan limit must fit in Redis and be greater than zero" n;;
  Ok (mkRunStore (rs_key_prefix self) (rs_partial_timeout self) (rs_retention_ttl self)
        (rs_operation_timeout self) (rs_max_error_kinds self) (rs_max_active_runs self) n).

Definition key_for_run (self : RedisRunAggregationStore) (run_id : string) : string :=
  rs_key_prefix self +:+ ":{runs}:run:" +:+ run_id.
Definition deadline_key (self : RedisRunAggregationStore) : string :=
  rs_key_prefix self +:+ ":{runs}:deadlines".
Definition outbox_key (self : RedisRunAggregationStore) : string :=
  rs_key_prefix self +:+ ":{runs}:summary-outbox".
Definition active_key (self : RedisRunAggregationStore) : string :=
  rs_key_prefix self +:+ ":{runs}:active".

Definition validate_scan_limit (self : RedisRunAggregationStore) (limit : Z)
    : result RunAggregationStoreError Z :=
  reject_if ((limit =? 0) || (rs_max_scan_limit self <? limit))
    (StoreInvalidState "aggregation_scan"
       ("scan limit must be within 1..=" +:+ show (rs_max_scan_limit self)));;
  ok_or (try_from i64_max limit) (StoreInvalidState "aggregation_scan" "scan limit exceeds Redis range").
