(* ===== verification/RunSummary.v ===== *)
(** * Operations of the durable aggregation store

    The Rust side of [src/src/infrastructure/redis/aggregation.rs]: how a slice
    result becomes script arguments, and how the reply of a script, which carries
    the fields of the run, is decoded into progress and summaries. *)

From S2P Require Import Prelude RustStr F64 Contracts Aggregation Lua Redis RedisMem Coordination Dispatch RunStore.

(** ** Snapshots *)

(** [chunks_exact(2)]: pairs of a field and its value. *)
Fixpoint pairs_of (values : list string) : list (string * string) :=
  match values with
  | f :: v :: rest => (f, v) :: pairs_of rest
  | _ => []
  end.

(** Later pairs override earlier ones, as when collecting into a [HashMap]. *)
Definition snapshot_map (values : list string) (operation : string)
    : result RunAggregationStoreError (gmap string string) :=
  reject_if (Z.odd (Z.of_nat (length values)))
    (StoreInvalidState operation "Redis aggregation snapshot has an odd field count");;
  Ok (foldl (fun m p => <[p.1 := p.2]> m) ∅ (pairs_of values)).

Definition required (snapshot : gmap string string) (field operation : string)
    : result RunAggregationStoreError string :=
  ok_or (snapshot !! field)
    (StoreInvalidState operation ("aggregation field '" +:+ field +:+ "' is missing")).

(** [parse_field::<T>] for an unsigned type with largest value [max]. *)
Definition parse_field (max : Z) (snapshot : gmap string string) (field operation : string)
    : result RunAggregationStoreError Z :=
  text ← required snapshot field operation;
  ok_or (parse_uint max text)
    (StoreInvalidState operation ("aggregation field '" +:+ field +:+ "' is invalid")).

Definition progress (values : list string) (operation : string)
    : result RunAggregationStoreError (Z * Z * string) :=
  snapshot ← snapshot_map values operation;
  received ← parse_field u32_max snapshot "received_slices" operation;
  expected ← parse_field u32_max snapshot "expected_slices" operation;
  status ← required snapshot "status" operation;
  reject_if (negb (known_status status)) (StoreInvalidState operation "aggregation status is invalid");;
  Ok (received, expected, status).

Definition status_of (status : string) : option ScenarioRunSummaryStatus :=
  if String.eqb status "partial" then Some SummaryPartial
  else if String.eqb status "timed_out" then Some SummaryTimedOut
  else if String.eqb status "cancelled" then Some SummaryCancelled
  else if String.eqb status "complete" then Some SummaryComplete
  else None.

Definition finalized_status (status operation : string)
    : result RunAggregationStoreError (option ScenarioRunSummaryStatus) :=
  if String.eqb status "open" then Ok None
  else match status_of status with
       | Some s => Ok (Some s)
       | None => invalid_state operation "aggregation status is invalid"
       end.

(** ** Summaries *)

(** One field of a snapshot, when it names a slice index. *)
Definition stored_slice (expected_slices : Z) (operation : string) (indexes : gset Z) (field : string)
    : result RunAggregationStoreError (gset Z) :=
  match strip_prefix "slice:" field with
  | None => Ok indexes
  | Some text =>
      index ← ok_or (parse_uint u32_max text)
                (StoreInvalidState operation "stored slice index is not an unsigned integer");
      reject_if (expected_slices <=? index)
        (StoreInvalidState operation "stored slice index exceeds expected slice count");;
      Ok ({[index]} ∪ indexes)
  end.

Definition stored_slices (snapshot : gmap string string) (expected_slices : Z) (operation : string)
    : result RunAggregationStoreError (gset Z) :=
  try_fold (stored_slice expected_slices operation) ∅ (map fst (map_to_list snapshot)).

(** One bound of the stored histogram and the count recorded for it. *)
Definition stored_bucket (snapshot : gmap string string) (operation : string)
    (st : list LatencyBucket * option Z * Z) (bound : string)
    : result RunAggregationStoreError (list LatencyBucket * option Z * Z) :=
  let '(buckets, previous_bound, i) := st in
  upper ← ok_or (parse_uint u64_max bound)
            (StoreInvalidState operation "stored latency histogram bound is invalid");
  reject_if (from_option (fun previous => upper <=? previous) false previous_bound)
    (StoreInvalidState operation "stored latency histogram bounds are not strictly increasing");;
  text ← ok_or (snapshot !! ("latency:" +:+ show i))
           (StoreInvalidState operation "latency bucket count is missing");
  count ← ok_or (parse_uint u64_max text)
            (StoreInvalidState operation "latency bucket count is invalid");
  Ok (buckets ++ [mkBucket upper count], Some upper, i + 1).

Definition stored_histogram (snapshot : gmap string string) (operation : string)
    : result RunAggregationStoreError (list LatencyBucket) :=
  bounds ← required snapshot "histogram_bounds" operation;
  if str_is_empty bounds then Ok []
  else
    st ← try_fold (stored_bucket snapshot operation) ([], None, 0) (split_char "," bounds);
    Ok st.1.1.

Definition stored_error (operation : string) (errors : gmap string Z) (entry : string * string)
    : result RunAggregationStoreError (gmap string Z) :=
  match strip_prefix "error:" entry.1 with
  | None => Ok errors
  | Some kind =>
      count ← ok_or (parse_uint u64_max entry.2)
                (StoreInvalidState operation "stored error count is invalid");
      Ok (<[kind := count]> errors)
  end.

Definition stored_errors (snapshot : gmap string string) (operation : string)
    : result RunAggregationStoreError (gmap string Z) :=
  try_fold (stored_error operation) ∅ (map_to_list snapshot).

(** The count of slices must fit the status. *)
Definition check_slice_counts (status : ScenarioRunSummaryStatus) (received expected : Z) (operation : string)
    : result RunAggregationStoreError unit :=
  reject_if (expected <? received)
    (StoreInvalidState operation "received slice count exceeds expected slice count");;
  match status with
  | SummaryComplete =>
      reject_if (negb (received =? expected))
        (StoreInvalidState operation "complete aggregation does not contain every expected slice")
  | SummaryPartial | SummaryTimedOut | SummaryCancelled =>
      reject_if (received =? expected)
        (StoreInvalidState operation "incomplete aggregation status contains every expected slice")
  end.

Definition check_counters (total success failure : Z) (histogram : list LatencyBucket) (operation : string)
    : result RunAggregationStoreError unit :=
  reject_if (negb (bool_decide (checked_add u64_max success failure = Some total)))
    (StoreInvalidState operation "stored success and failure counts do not equal total");;
  histogram_total ← try_fold (fun n b =>
      ok_or (checked_add u64_max n (bucket_count b))
        (StoreInvalidState operation "stored latency histogram count overflowed")) 0 histogram;
  reject_if (negb (bool_decide (histogram = [])) && negb (histogram_total =? total))
    (StoreInvalidState operation "stored latency histogram count does not equal total").

Definition summary_from_snapshot (values : list string) (operation : string)
    : result RunAggregationStoreError ScenarioRunSummary :=
  snapshot ← snapshot_map values operation;
  status_text ← required snapshot "status" operation;
  status ← ok_or (status_of status_text)
             (StoreInvalidState operation
                ("cannot build a final summary from status '" +:+ status_text +:+ "'"));
  expected_slices ← parse_field u32_max snapshot "expected_slices" operation;
  received_slices ← parse_field u32_max snapshot "received_slices" operation;
  check_slice_counts status received_slices expected_slices operation;;
  received_indexes ← stored_slices snapshot expected_slices operation;
  reject_if (negb (Z.of_nat (size received_indexes) =? received_slices))
    (StoreInvalidState operation "stored received-slice count does not match slice identities");;
  let missing_slices := filter (fun i => i ∉ received_indexes) (rangeZ expected_slices) in
  latency_histogram ← stored_histogram snapshot operation;
  errors ← stored_errors snapshot operation;
  let error_breakdown := error_entries errors in
  stored_error_kind_count ← parse_field usize_max snapshot "error_kind_count" operation;
  reject_if (negb (Z.of_nat (length error_breakdown) =? stored_error_kind_count))
    (StoreInvalidState operation "stored error-kind count does not match error fields");;
  total ← parse_field u64_max snapshot "total" operation;
  success ← parse_field u64_max snapshot "success" operation;
  failure ← parse_field u64_max snapshot "failure" operation;
  check_counters total success failure latency_histogram operation;;
  schema_version ← parse_field u16_max snapshot "schema_version" operation;
  scenario_id ← required snapshot "scenario_id" operation;
  run_id ← required snapshot "run_id" operation;
  first_result_at ← parse_field u128_max snapshot "first_result_at" operation;
  finalized_at ← parse_field u128_max snapshot "finalized_at" operation;
  Ok (mkSummary schema_version scenario_id run_id status expected_slices received_slices missing_slices
        total success failure (histogram_quantile latency_histogram q50)
        (histogram_quantile latency_histogram q95) (histogram_quantile latency_histogram q99)
        latency_histogram error_breakdown first_result_at finalized_at).

Definition summary_label (status : ScenarioRunSummaryStatus) : string :=
  match status with
  | SummaryPartial => "partial"
  | SummaryComplete => "complete"
  | SummaryTimedOut => "timed-out"
  | SummaryCancelled => "cancelled"
  end.

Definition durable_summary_from_snapshot (values : list string) (operation : string)
    : result RunAggregationStoreError (option DurableRunSummary) :=
  if bool_decide (values = []) then Ok None else
  snapshot ← snapshot_map values operation;
  status ← required snapshot "status" operation;
  if String.eqb status "open" then Ok None else
  reject_if (negb (final_status status)) (StoreInvalidState operation "aggregation status is invalid");;
  revision ← parse_field u64_max snapshot "summary_revision" operation;
  pending_revision ← parse_field u64_max snapshot "summary_pending_revision" operation;
  acknowledged_revision ← parse_field u64_max snapshot "summary_ack_revision" operation;
  reject_if ((revision =? 0) || (revision <? pending_revision) || (revision <? acknowledged_revision))
    (StoreInvalidState operation "stored summary publication revisions are inconsistent");;
  summary ← summary_from_snapshot values operation;
  Ok (Some (mkDurable revision
              (sum_run_id summary +:+ ":summary:r" +:+ show revision +:+ ":"
               +:+ summary_label (sum_status summary))
              (acknowledged_revision <? pending_revision) summary)).

(** ** From a result to script arguments *)

Record NormalizedResult := mkNormalized {
  norm_histogram_bounds : string;
  norm_histogram_counts : list Z;
  norm_error_counts : list (string * Z);
}.

(** One entry of the error breakdown, merged by kind. *)
Definition normalize_error (errors : gmap string Z) (e : ErrorCount)
    : result RunAggregationStoreError (gmap string Z) :=
  reject_if (blank (error_kind e) || (MAX_CONTRACT_ERROR_KIND_BYTES <? str_len (error_kind e)))
    (StoreInvalidState "aggregation_ingest" "error kind must be non-empty and at most 256 bytes");;
  exact_result_integer "error count" (error_count e);;
  count ← ok_or (checked_add u64_max (default 0 (errors !! error_kind e)) (error_count e))
            (StoreInvalidState "aggregation_ingest" "error count overflowed u64");
  exact_result_integer "merged error count" count;;
  Ok (<[error_kind e := count]> errors).

Definition normalize_result (self : RedisRunAggregationStore) (r : ScenarioRunResult)
    : result RunAggregationStoreError NormalizedResult :=
  map_err StoreContract (ScenarioRunResult_validate r);;
  reject_if (MAX_CONTRACT_SLICES <? total (res_slice r))
    (StoreInvalidState "aggregation_ingest"
       ("expected slices exceed the bounded maximum of " +:+ show MAX_CONTRACT_SLICES));;
  reject_if (MAX_CONTRACT_HISTOGRAM_BUCKETS <? Z.of_nat (length (res_latency_histogram r)))
    (StoreInvalidState "aggregation_ingest"
       ("latency histogram exceeds the bounded maximum of "
        +:+ show MAX_CONTRACT_HISTOGRAM_BUCKETS +:+ " buckets"));;
  reject_if (rs_max_error_kinds self <? Z.of_nat (length (res_error_breakdown r)))
    (StoreErrorKindCapacity (rs_max_error_kinds self));;
  validate_identity "scenario_id" (res_scenario_id r);;
  validate_identity "run_id" (res_run_id r);;
  validate_identity "execution_key" (res_execution_key r);;
  exact_result_integer "total" (res_total r);;
  exact_result_integer "success" (res_success r);;
  exact_result_integer "failure" (res_failure r);;
  let bounds := join "," (map (fun b => show (upper_bound_ms b)) (res_latency_histogram r)) in
  try_for (fun b => exact_result_integer "latency bucket count" (bucket_count b)) (res_latency_histogram r);;
  errors ← try_fold normalize_error ∅ (res_error_breakdown r);
  reject_if (rs_max_error_kinds self <? Z.of_nat (size errors))
    (StoreErrorKindCapacity (rs_max_error_kinds self));;
  Ok (mkNormalized bounds (map bucket_count (res_latency_histogram r)) (btree_entries string_le errors)).

Definition ingest_argv (self : RedisRunAggregationStore) (r : ScenarioRunResult) (n : NormalizedResult)
    (retention_ms partial_timeout_ms : Z) : list string :=
  [res_scenario_id r; res_run_id r; show (res_schema_version r); show (total (res_slice r));
   show (index (res_slice r)); res_execution_key r; norm_histogram_bounds n; show (res_total r);
   show (res_success r); show (res_failure r); show retention_ms; show (rs_max_error_kinds self);
   show (rs_max_active_runs self); show partial_timeout_ms; show (Z.of_nat (length (norm_histogram_counts n)))]
  ++ map show (norm_histogram_counts n)
  ++ [show (Z.of_nat (length (norm_error_counts n)))]
  ++ concat (map (fun p => [p.1; show p.2]) (norm_error_counts n)).

(** ** Operations *)

Definition StoreOp (db A : Type) : Type := db -> result RunAggregationStoreError A * db.

#[global] Instance store_ret {db} : MRet (StoreOp db) := fun A a d => (Ok a, d).

#[global] Instance store_bind {db} : MBind (StoreOp db) := fun A B f m d =>
  match m d with
  | (Ok a, d') => f a d'
  | (Err e, d') => (Err e, d')
  end.

#[global] Arguments store_ret : simpl never.
#[global] Arguments store_bind : simpl never.

Definition store_lift {db A} (r : result RunAggregationStoreError A) : StoreOp db A := fun d => (r, d).

Definition run_redis_operation {db A} (operation : string) (link : Link) (script : Script db A) : StoreOp db A :=
  fun d => let '(r, d') := redis_operation operation link script d in (map_err map_coordination_error r, d').

Section operations.
Context {db : Type} `{Redis db}.
Variable self : RedisRunAggregationStore.
Implicit Types (link : Link) (run_id : string).

Definition unknown_reply {A} (operation : string) (code : Z) : result RunAggregationStoreError A :=
  invalid_state operation ("unknown Redis response code " +:+ show code).

Definition ingest_outcome (reply : snapshot_reply) : result RunAggregationStoreError RunAggregationUpdate :=
  let OPERATION := "aggregation_ingest" in
  let '(code, message, snapshot) := reply in
  if code =? 1 then
    '(received, expected, _) ← progress snapshot OPERATION; Ok (UpdAccepted received expected)
  else if code =? 2 then
    '(received, expected, status) ← progress snapshot OPERATION;
    final ← finalized_status status OPERATION;
    Ok (UpdDuplicate received expected final)
  else if code =? 3 then UpdCompleted <$> summary_from_snapshot snapshot OPERATION
  else if code =? 4 then UpdLateCompleted <$> summary_from_snapshot snapshot OPERATION
  else if code =? 5 then
    if is_permanent_result_conflict message then Err (StoreInconsistentResult message)
    else invalid_state OPERATION message
  else if code =? 6 then Err (StoreErrorKindCapacity (rs_max_error_kinds self))
  else if code =? 7 then
    '(received, expected, _) ← progress snapshot OPERATION; Ok (UpdLateAccepted received expected)
  else if code =? 8 then Err (StoreActiveRunCapacity (rs_max_active_runs self))
  else if code =? 9 then Err (StoreContract (InvalidResult message))
  else unknown_reply OPERATION code.

Definition store_ingest link (r : ScenarioRunResult) : StoreOp db RunAggregationUpdate :=
  let OPERATION := "aggregation_ingest" in
  normalized ← store_lift (normalize_result self r);
  retention_ms ← store_lift (checked_duration_ms OPERATION (rs_retention_ttl self));
  partial_timeout_ms ← store_lift (checked_duration_ms OPERATION (rs_partial_timeout self));
  reply ← run_redis_operation OPERATION link
    (ingest_script (key_for_run self (res_run_id r)) (deadline_key self) (outbox_key self) (active_key self)
       (ingest_argv self r normalized retention_ms partial_timeout_ms));
  store_lift (ingest_outcome reply).

Definition store_due_runs link (limit : Z) : StoreOp db (list string) :=
  limit ← store_lift (validate_scan_limit self limit);
  run_redis_operation "aggregation_due_runs" link (due_runs_script (deadline_key self) (show limit)).

Definition expiry_outcome (reply : snapshot_reply) : result RunAggregationStoreError RunExpiryOutcome :=
  let OPERATION := "aggregation_mark_expired" in
  let '(code, message, snapshot) := reply in
  if code =? 0 then Ok ExpMissing
  else if code =? 1 then
    retry_ms ← ok_or (parse_uint u64_max message)
                 (StoreInvalidState OPERATION "Redis returned an invalid expiration delay");
    Ok (ExpNotExpired (from_millis retry_ms))
  else if code =? 2 then ExpMarkedTimedOut <$> summary_from_snapshot snapshot OPERATION
  else if code =? 3 then ExpAlreadyFinalized <$> summary_from_snapshot snapshot OPERATION
  else if code =? 4 then invalid_state OPERATION message
  else unknown_reply OPERATION code.

Definition store_mark_expired link run_id : StoreOp db RunExpiryOutcome :=
  let OPERATION := "aggregation_mark_expired" in
  store_lift (validate_identity "run_id" run_id);;
  retention_ms ← store_lift (checked_duration_ms OPERATION (rs_retention_ttl self));
  reply ← run_redis_operation OPERATION link
    (mark_expired_script (key_for_run self run_id) (deadline_key self) (outbox_key self) (active_key self)
       (show retention_ms) run_id);
  store_lift (expiry_outcome reply).

Definition finalization_outcome (reply : snapshot_reply)
    : result RunAggregationStoreError RunFinalizationOutcome :=
  let OPERATION := "aggregation_finalize_run" in
  let '(code, message, snapshot) := reply in
  if code =? 0 then Ok FinMissing
  else if code =? 1 then FinFinalized <$> summary_from_snapshot snapshot OPERATION
  else if code =? 2 then FinAlreadyFinalized <$> summary_from_snapshot snapshot OPERATION
  else if code =? 3 then invalid_state OPERATION message
  else unknown_reply OPERATION code.

Definition store_finalize_run link run_id (status : ScenarioRunSummaryStatus) : StoreOp db RunFinalizationOutcome :=
  let OPERATION := "aggregation_finalize_run" in
  store_lift (validate_identity "run_id" run_id);;
  status_text ← store_lift
    (match status with
     | SummaryPartial => Ok "partial"
     | SummaryCancelled => Ok "cancelled"
     | SummaryComplete | SummaryTimedOut =>
         invalid_state OPERATION "explicit finalization only accepts Partial or Cancelled"
     end);
  retention_ms ← store_lift (checked_duration_ms OPERATION (rs_retention_ttl self));
  reply ← run_redis_operation OPERATION link
    (finalize_script (key_for_run self run_id) (deadline_key self) (outbox_key self) (active_key self)
       status_text (show retention_ms) run_id);
  store_lift (finalization_outcome reply).

Definition load_snapshot link (operation run_id : string) : StoreOp db (list string) :=
  run_redis_operation operation link (query_res (HGETALL (key_for_run self run_id))).

Definition store_load_summary link run_id : StoreOp db (option DurableRunSummary) :=
  let OPERATION := "aggregation_load_summary" in
  store_lift (validate_identity "run_id" run_id);;
  snapshot ← load_snapshot link OPERATION run_id;
  store_lift (durable_summary_from_snapshot snapshot OPERATION).

Definition clean_outbox_if_settled link run_id : StoreOp db unit :=
  run_redis_operation "aggregation_outbox_cleanup" link
    (clean_outbox_script (key_for_run self run_id) (outbox_key self) run_id);;
  mret tt.

(** Splits the scanned runs into pending summaries and settled entries. *)
Definition triage (operation : string) (entries : list (string * list string))
    : result RunAggregationStoreError (list DurableRunSummary * list string) :=
  try_fold (fun '(summaries, stale) '(run_id, snapshot) =>
      summary ← durable_summary_from_snapshot snapshot operation;
      Ok (match summary with
          | Some s => if dur_pending_publication s then (summaries ++ [s], stale)
                      else (summaries, stale ++ [run_id])
          | None => (summaries, stale ++ [run_id])
          end)) ([], []) entries.

Definition all_snapshots (run_ids : list string) : Script db (list (list string)) :=
  script_fold (fun acc run_id =>
      snapshot ← query_res (HGETALL (key_for_run self run_id)); mret (acc ++ [snapshot])) [] run_ids.

Fixpoint clean_each (links : string -> Link) (stale : list string) : StoreOp db unit :=
  match stale with
  | [] => mret tt
  | run_id :: rest => clean_outbox_if_settled (links run_id) run_id;; clean_each links rest
  end.

(** The scan, the batched snapshots and the cleanups are separate invocations;
    [scan], [batch] and [cleanup] are what the network does to each.  The
    cleanups run concurrently and touch different members. *)
Definition store_pending_summaries (scan batch : Link) (cleanup : string -> Link) (limit : Z)
    : StoreOp db (list DurableRunSummary) :=
  let OPERATION := "aggregation_pending_summaries" in
  limit ← store_lift (validate_scan_limit self limit);
  run_ids ← run_redis_operation OPERATION scan (query_res (ZRANGE (outbox_key self) (limit - 1)));
  if bool_decide (run_ids = []) then mret [] else
  snapshots ← run_redis_operation OPERATION batch (all_snapshots run_ids);
  store_lift (reject_if (negb (Nat.eqb (length snapshots) (length run_ids)))
    (StoreInvalidState OPERATION "Redis aggregation snapshot batch length changed"));;
  '(summaries, stale) ← store_lift (triage OPERATION (zip run_ids snapshots));
  clean_each cleanup stale;;
  mret summaries.

Definition acknowledgement_outcome (reply : Z * Z * string)
    : result RunAggregationStoreError SummaryAcknowledgement :=
  let OPERATION := "aggregation_acknowledge_summary" in
  let '(code, current, message) := reply in
  if code =? 0 then Ok MissingSummary
  else if code =? 1 then Ok Acknowledged
  else if code =? 2 then Ok AlreadyAcknowledged
  else if code =? 3 then
    revision ← ok_or (try_from u64_max current)
                 (StoreInvalidState OPERATION "stored summary revision is negative");
    Ok (StaleAcknowledgement revision)
  else if code =? 4 then invalid_state OPERATION message
  else unknown_reply OPERATION code.

Definition store_acknowledge_summary link run_id (revision : Z) : StoreOp db SummaryAcknowledgement :=
  let OPERATION := "aggregation_acknowledge_summary" in
  store_lift (validate_identity "run_id" run_id);;
  store_lift (reject_if ((revision =? 0) || (i64_max <? revision))
    (StoreInvalidState OPERATION "summary revision must be within 1..=i64::MAX"));;
  retention_ms ← store_lift (checked_duration_ms OPERATION (rs_retention_ttl self));
  reply ← run_redis_operation OPERATION link
    (acknowledge_script (key_for_run self run_id) (outbox_key self) (active_key self) (show revision)
       run_id (show retention_ms));
  store_lift (acknowledgement_outcome reply).
End operations.
