(* ===== verification/RunLedger.v ===== *)
(** * Reasoning about the scripts of the aggregation store

    A script of [src/src/infrastructure/redis/aggregation.rs] touches one run
    hash and the three sorted sets that index runs.  [book] is what those four
    keys hold; [wp] is the weakest precondition of a script over books, with one
    rule per command, derived from the documented behaviour of Redis. *)

From S2P Require Import Prelude RustStr F64 Contracts Aggregation Lua Redis RedisMem Coordination Dispatch RunStore RunSummary.

(** ** Books *)

(** What the keys of a run hold, with the run itself in some form [F]: the
    fields of its hash, or an abstract run. *)
Record book (F : Type) := mkBook {
  bk_run : F;
  bk_expires : option Z;
  bk_deadlines : gmap string Z;
  bk_outbox : gmap string Z;
  bk_active : gmap string Z;
  bk_now : Z;
}.
Arguments mkBook {F}.
Arguments bk_run {F}.
Arguments bk_expires {F}.
Arguments bk_deadlines {F}.
Arguments bk_outbox {F}.
Arguments bk_active {F}.
Arguments bk_now {F}.

Section setters.
Context {F : Type}.
Implicit Types b : book F.

Definition set_run {G} (x : G) b : book G :=
  mkBook x (bk_expires b) (bk_deadlines b) (bk_outbox b) (bk_active b) (bk_now b).
Definition set_expires (e : option Z) b : book F :=
  mkBook (bk_run b) e (bk_deadlines b) (bk_outbox b) (bk_active b) (bk_now b).
Definition set_deadlines (z : gmap string Z) b : book F :=
  mkBook (bk_run b) (bk_expires b) z (bk_outbox b) (bk_active b) (bk_now b).
Definition set_outbox (z : gmap string Z) b : book F :=
  mkBook (bk_run b) (bk_expires b) (bk_deadlines b) z (bk_active b) (bk_now b).
Definition set_active (z : gmap string Z) b : book F :=
  mkBook (bk_run b) (bk_expires b) (bk_deadlines b) (bk_outbox b) z (bk_now b).
End setters.

Abbreviation record := (book (gmap string string)).

(** The four keys of a run. *)
Record keys := mkKeys { k_run : string; k_deadlines : string; k_outbox : string; k_active : string }.

Definition keys_distinct (k : keys) : Prop := NoDup [k_run k; k_deadlines k; k_outbox k; k_active k].

Definition snapshot_of (h : gmap string string) (values : list string) : Prop :=
  exists l, values = flatten_pairs l /\ l ≡ₚ map_to_list h.

Section wp.
Context {db : Type} `{RedisLaws db}.
Variable ks : keys.
Hypothesis ks_distinct : keys_distinct ks.
Implicit Types (d : db) (b : record).

Record holds d b : Prop := {
  holds_fields : hash d (k_run ks) = Some (bk_run b);
  holds_expires : expiry d (k_run ks) = bk_expires b;
  holds_deadlines : zset d (k_deadlines ks) = Some (bk_deadlines b);
  holds_outbox : zset d (k_outbox ks) = Some (bk_outbox b);
  holds_active : zset d (k_active ks) = Some (bk_active b);
  holds_now : now_ms d = bk_now b;
}.

(** Nothing but the four keys changes. *)
Definition aside d d' : Prop :=
  clock d' = clock d
  /\ forall k, k ∉ [k_run ks; k_deadlines ks; k_outbox ks; k_active ks] -> same_key d d' k.

Definition wp {A} (s : Script db A) (Q : A -> record -> Prop) b : Prop :=
  forall d, holds d b ->
  exists a d' b', s d = (Ok a, d') /\ holds d' b' /\ aside d d' /\ Q a b'.

Lemma aside_refl d : aside d d.
Proof. split; [done|]. intros. by repeat split. Qed.

Lemma aside_trans d1 d2 d3 : aside d1 d2 -> aside d2 d3 -> aside d1 d3.
Proof.
  intros [Hc1 Hk1] [Hc2 Hk2]. split; [congruence|]. intros k Hk.
  destruct (Hk1 k Hk) as (? & ? & ? & ?), (Hk2 k Hk) as (? & ? & ? & ?). repeat split; congruence.
Qed.

Lemma frame_aside d d' k :
  frame d d' k -> k ∈ [k_run ks; k_deadlines ks; k_outbox ks; k_active ks] -> aside d d'.
Proof. intros [Hc Hf] Hin. split; [done|]. intros k' Hk'. apply Hf. intros ->. done. Qed.

(** The keys differ pairwise. *)
Lemma keys_differ :
  k_run ks <> k_deadlines ks /\ k_run ks <> k_outbox ks /\ k_run ks <> k_active ks
  /\ k_deadlines ks <> k_outbox ks /\ k_deadlines ks <> k_active ks /\ k_outbox ks <> k_active ks.
Proof.
  pose proof ks_distinct as Hk. unfold keys_distinct in Hk.
  rewrite !NoDup_cons in Hk. split_and!; intros E; rewrite E in Hk; set_solver.
Qed.

(** *** Structural rules *)

Lemma wp_ret {A} (a : A) (Q : A -> record -> Prop) b : Q a b -> wp (mret a) Q b.
Proof. intros HQ d Hd. exists a, d, b. by split_and!; [|done|apply aside_refl|]. Qed.

Lemma wp_bind {A B} (m : Script db A) (f : A -> Script db B) (Q : B -> record -> Prop) b :
  wp m (fun a b' => wp (f a) Q b') b -> wp (m ≫= f) Q b.
Proof.
  intros Hm d Hd. destruct (Hm d Hd) as (a & d1 & b1 & E1 & Hd1 & Ha1 & Hf).
  destruct (Hf d1 Hd1) as (a2 & d2 & b2 & E2 & Hd2 & Ha2 & HQ).
  exists a2, d2, b2. split; [by rewrite (bind_run _ _ _ _ _ E1)|].
  split_and!; [done|by eapply aside_trans|done].
Qed.

Lemma wp_mono {A} (s : Script db A) (P Q : A -> record -> Prop) b :
  wp s P b -> (forall a b', P a b' -> Q a b') -> wp s Q b.
Proof. intros Hs HPQ d Hd. destruct (Hs d Hd) as (a & d' & b' & ? & ? & ? & ?). exists a, d', b'. auto. Qed.

(** A command that only reads. *)
Lemma wp_read {A} (s : Script db A) (Q : A -> record -> Prop) b :
  (forall d, holds d b -> exists a, s d = (Ok a, d) /\ Q a b) -> wp s Q b.
Proof.
  intros Hs d Hd. destruct (Hs d Hd) as (a & E & HQ). exists a, d, b.
  by split_and!; [|done|apply aside_refl|].
Qed.

Lemma wp_number z (Q : Z -> record -> Prop) b : Q z b -> wp (number (Some z)) Q b.
Proof. apply wp_ret. Qed.

Lemma wp_for_nil {A} (f : A -> Script db unit) (Q : unit -> record -> Prop) b :
  Q tt b -> wp (script_for f []) Q b.
Proof. apply wp_ret. Qed.

(** A loop whose iterations follow a function on books. *)
Lemma wp_fold {S A} (f : S -> A -> Script db S) (g : S -> record -> A -> S * record)
    (inv : S -> record -> Prop) s l b (Q : S -> record -> Prop) :
  inv s b ->
  (forall s b x, x ∈ l -> inv s b ->
     wp (f s x) (fun s' b' => (s', b') = g s b x /\ inv s' b') b) ->
  (let '(s', b') := foldl (fun sb x => g sb.1 sb.2 x) (s, b) l in inv s' b' -> Q s' b') ->
  wp (script_fold f s l) Q b.
Proof.
  revert s b. induction l as [|x l IH]; intros s b Hi Hf HQ; simpl; [by apply wp_ret; auto|].
  apply wp_bind. eapply wp_mono; [apply Hf; [constructor|done]|].
  intros s' b' [E Hi']. simpl in HQ. rewrite <- E in HQ. apply IH; [done| |done].
  intros. apply Hf; [by constructor|done].
Qed.

(** *** Commands *)

Lemma wp_hget f (Q : option string -> record -> Prop) b :
  Q (bk_run b !! f) b -> wp (hget (k_run ks) f) Q b.
Proof.
  intros HQ. apply wp_read. intros d Hd. eexists. split; [apply hget_run, Hd|done].
Qed.

Lemma wp_hget_number f dflt (Q : option Z -> record -> Prop) b :
  Q (tonumber (default dflt (bk_run b !! f))) b -> wp (hget_number_or (k_run ks) f dflt) Q b.
Proof.
  intros HQ. apply wp_read. intros d Hd. eexists. split; [apply hget_number_or_run, Hd|done].
Qed.

Lemma wp_hexists f (Q : bool -> record -> Prop) b :
  Q (bool_decide (is_Some (bk_run b !! f))) b -> wp (query_res (HEXISTS (k_run ks) f)) Q b.
Proof.
  intros HQ. apply wp_read. intros d Hd. eexists. split; [|done]. unfold query_res.
  by rewrite (hexists_law _ _ _ _ (holds_fields _ _ Hd)).
Qed.

Lemma wp_exists (Q : bool -> record -> Prop) b :
  Q (bool_decide (bk_run b <> ∅)) b -> wp (query (EXISTS (k_run ks))) Q b.
Proof.
  intros HQ. apply wp_read. intros d Hd. eexists. split; [|done]. unfold query.
  by rewrite (exists_law _ _ _ (holds_fields _ _ Hd)).
Qed.

Lemma wp_zcard (Q : Z -> record -> Prop) b :
  Q (Z.of_nat (size (bk_active b))) b -> wp (query_res (ZCARD (k_active ks))) Q b.
Proof.
  intros HQ. apply wp_read. intros d Hd. eexists. split; [|done]. unfold query_res.
  by rewrite (zcard_law _ _ _ (holds_active _ _ Hd)).
Qed.

Lemma wp_time (Q : Z -> record -> Prop) b : lua_exact (bk_now b) -> Q (bk_now b) b -> wp time_ms Q b.
Proof.
  intros Hx HQ. apply wp_read. intros d Hd. eexists. split; [|done].
  rewrite <- (holds_now _ _ Hd) in *. by apply time_ms_run.
Qed.

Lemma wp_response code message (Q : snapshot_reply -> record -> Prop) b :
  (forall values, snapshot_of (bk_run b) values -> Q (code, message, values) b) ->
  wp (response (k_run ks) code message) Q b.
Proof.
  intros HQ. apply wp_read. intros d Hd.
  destruct (hgetall_law _ _ _ (holds_fields _ _ Hd)) as (l & E & Hl).
  exists (code, message, flatten_pairs l). split; [|apply HQ; by exists l].
  unfold response. erewrite bind_run by (unfold query_res; by rewrite E). done.
Qed.

(** A write to the run hash. *)
Lemma wp_write_run {A} (s : Script db A) (a : A) h e (Q : A -> record -> Prop) b :
  (forall d, holds d b -> exists d', s d = (Ok a, d') /\ hash d' (k_run ks) = Some h
     /\ expiry d' (k_run ks) = e /\ frame d d' (k_run ks)) ->
  Q a (set_expires e (set_run h b)) -> wp s Q b.
Proof.
  intros Hs HQ d Hd. destruct (Hs d Hd) as (d' & E & Hh & He & Hf).
  destruct keys_differ as (? & ? & ? & _).
  exists a, d', (set_expires e (set_run h b)). split_and!; [done| | |done].
  - split; simpl; [done|done| | | |by rewrite (frame_now _ _ _ Hf); apply Hd];
      rewrite (frame_zset _ _ _ _ Hf) by congruence; apply Hd.
  - eapply frame_aside; [done|]. constructor.
Qed.

Lemma wp_hset l (Q : unit -> record -> Prop) b :
  l <> [] -> Q tt (set_run (hset_fields l (bk_run b)) b) -> wp (HSET (k_run ks) l) Q b.
Proof.
  intros Hl HQ. eapply (wp_write_run _ tt (hset_fields l (bk_run b)) (bk_expires b)); [|done].
  intros d Hd. rewrite <- (holds_expires _ _ Hd). apply hset_law; [apply Hd|done].
Qed.

Lemma wp_hincrby f n c (Q : Z -> record -> Prop) b :
  (bk_run b !! f = None /\ c = 0 \/ bk_run b !! f = Some (show c)) ->
  - i64_max <= c <= i64_max -> - i64_max <= c + n <= i64_max ->
  Q (c + n) (set_run (<[f := show (c + n)]> (bk_run b)) b) ->
  wp (HINCRBY (k_run ks) f n) Q b.
Proof.
  intros Hf Hc Hn HQ. eapply (wp_write_run _ (c + n) _ (bk_expires b)); [|exact HQ].
  intros d Hd. rewrite <- (holds_expires _ _ Hd). apply hincrby_law; [apply Hd|done..].
Qed.

Lemma wp_pexpire ms (Q : unit -> record -> Prop) b :
  0 < ms -> Q tt (set_expires (keep_expiry (bk_run b) (Some (bk_now b + ms))) b) ->
  wp (PEXPIRE (k_run ks) ms) Q b.
Proof.
  intros Hms HQ. eapply (wp_write_run _ tt (bk_run b)); [|exact HQ].
  intros d Hd. rewrite <- (holds_now _ _ Hd). apply pexpire_law; [apply Hd|done].
Qed.

Lemma wp_persist (Q : unit -> record -> Prop) b :
  Q tt (set_expires None b) -> wp (PERSIST (k_run ks)) Q b.
Proof.
  intros HQ. eapply (wp_write_run _ tt (bk_run b)); [|exact HQ].
  intros d Hd. apply persist_law, Hd.
Qed.

(** A write to one of the sorted sets. *)
Lemma wp_write_set (s : Script db unit) key z b' (Q : unit -> record -> Prop) b :
  (forall d, holds d b -> exists d', s d = (Ok tt, d') /\ zset d' key = Some z /\ frame d d' key) ->
  (key = k_deadlines ks /\ b' = set_deadlines z b \/ key = k_outbox ks /\ b' = set_outbox z b
   \/ key = k_active ks /\ b' = set_active z b) ->
  Q tt b' -> wp s Q b.
Proof.
  intros Hs Hkey HQ d Hd. destruct (Hs d Hd) as (d' & E & Hz & Hf).
  destruct keys_differ as (? & ? & ? & ? & ? & ?).
  exists tt, d', b'. split_and!; [done| | |done].
  - destruct Hkey as [[-> ->]|[[-> ->]|[-> ->]]]; destruct Hd; split; simpl;
      by rewrite ?(frame_hash _ _ _ _ Hf), ?(frame_expiry _ _ _ _ Hf), ?(frame_now _ _ _ Hf),
        ?(frame_zset _ _ _ _ Hf) by congruence.
  - eapply frame_aside; [done|]. destruct Hkey as [[-> _]|[[-> _]|[-> _]]]; set_solver.
Qed.

Lemma wp_zadd_deadlines score m (Q : unit -> record -> Prop) b :
  Q tt (set_deadlines (<[m := score]> (bk_deadlines b)) b) -> wp (ZADD (k_deadlines ks) score m) Q b.
Proof. eapply wp_write_set; [|by left]. intros d Hd. apply zadd_law, Hd. Qed.

Lemma wp_zadd_outbox score m (Q : unit -> record -> Prop) b :
  Q tt (set_outbox (<[m := score]> (bk_outbox b)) b) -> wp (ZADD (k_outbox ks) score m) Q b.
Proof. eapply wp_write_set; [|by right; left]. intros d Hd. apply zadd_law, Hd. Qed.

Lemma wp_zadd_active score m (Q : unit -> record -> Prop) b :
  Q tt (set_active (<[m := score]> (bk_active b)) b) -> wp (ZADD (k_active ks) score m) Q b.
Proof. eapply wp_write_set; [|by right; right]. intros d Hd. apply zadd_law, Hd. Qed.

Lemma wp_zrem_deadlines m (Q : unit -> record -> Prop) b :
  Q tt (set_deadlines (delete m (bk_deadlines b)) b) -> wp (ZREM (k_deadlines ks) m) Q b.
Proof. eapply wp_write_set; [|by left]. intros d Hd. apply zrem_law, Hd. Qed.

Lemma wp_zrem_outbox m (Q : unit -> record -> Prop) b :
  Q tt (set_outbox (delete m (bk_outbox b)) b) -> wp (ZREM (k_outbox ks) m) Q b.
Proof. eapply wp_write_set; [|by right; left]. intros d Hd. apply zrem_law, Hd. Qed.

Lemma wp_zrem_active m (Q : unit -> record -> Prop) b :
  Q tt (set_active (delete m (bk_active b)) b) -> wp (ZREM (k_active ks) m) Q b.
Proof. eapply wp_write_set; [|by right; right]. intros d Hd. apply zrem_law, Hd. Qed.

Lemma wp_prune_active top (Q : unit -> record -> Prop) b :
  Q tt (set_active (filter (fun p => top < p.2) (bk_active b)) b) ->
  wp (ZREMRANGEBYSCORE (k_active ks) top) Q b.
Proof. eapply wp_write_set; [|by right; right]. intros d Hd. apply zremrangebyscore_law, Hd. Qed.
End wp.
