(* ===== verification/RunSpec.v ===== *)
(** * What the aggregation store promises

    The abstract specification of a run: the list of slice results it has
    accepted, its life cycle and the revisions of its summary; the operations of
    the store on it; and the relation between the fields of the run hash and the
    abstract run. *)

From S2P Require Import Prelude RustStr F64 Contracts Aggregation Lua Redis RedisMem Coordination Dispatch RunStore RunSummary RunLedger.

(** ** Abstract runs *)

Inductive run_status := StOpen | StPartial | StTimedOut | StCancelled | StComplete.

#[global] Instance run_status_eq_dec : EqDecision run_status.
Proof. solve_decision. Defined.

Record run := mkRun {
  r_scenario : string;
  r_id : string;
  r_schema : Z;
  r_expected : Z;
  r_bounds : list Z;
  r_status : run_status;
  r_accepted : list ScenarioRunResult;
  r_first : Z;
  r_last : Z;
  r_deadline : Z;
  r_finalized : Z;
  r_revision : Z;
  r_acked : Z;
}.

Definition status_text (s : run_status) : string :=
  match s with
  | StOpen => "open" | StPartial => "partial" | StTimedOut => "timed_out"
  | StCancelled => "cancelled" | StComplete => "complete"
  end.

Definition summary_status (s : run_status) : option ScenarioRunSummaryStatus :=
  match s with
  | StOpen => None
  | StPartial => Some SummaryPartial
  | StTimedOut => Some SummaryTimedOut
  | StCancelled => Some SummaryCancelled
  | StComplete => Some SummaryComplete
  end.

(** *** Accounts of the accepted results *)

Section accounts.
Implicit Types (acc : list ScenarioRunResult) (x : ScenarioRunResult).

Definition bounds_of x : list Z := map upper_bound_ms (res_latency_histogram x).
Definition slice_of x : Z := index (res_slice x).

Definition bucket_at x (i : nat) : Z := default 0 (bucket_count <$> res_latency_histogram x !! i).

(** The count of bucket [i] over the accepted results. *)
Definition bucket_total acc (i : nat) : Z := sumZ (map (fun x => bucket_at x i) acc).

Definition add_count (m : gmap string Z) (k : string) (n : Z) : gmap string Z :=
  <[k := default 0 (m !! k) + n]> m.

(** The error counts with the errors of one more result. *)
Definition add_errors (m : gmap string Z) (l : list ErrorCount) : gmap string Z :=
  foldl (fun m e => add_count m (error_kind e) (error_count e)) m l.

Definition errors_of acc : gmap string Z :=
  foldl (fun m x => add_errors m (res_error_breakdown x)) ∅ acc.

Definition histogram_of (bounds : list Z) acc : list LatencyBucket :=
  imap (fun i u => mkBucket u (bucket_total acc i)) bounds.

(** The execution that owns a slice, and the slice an execution was accepted
    for. *)
Fixpoint owner_of acc (i : Z) : option string :=
  match acc with
  | [] => None
  | x :: acc' => if decide (slice_of x = i) then Some (res_execution_key x) else owner_of acc' i
  end.

Fixpoint slice_for acc (k : string) : option Z :=
  match acc with
  | [] => None
  | x :: acc' => if decide (res_execution_key x = k) then Some (slice_of x) else slice_for acc' k
  end.
End accounts.

Section runs.
Implicit Types (r : run) (x : ScenarioRunResult).

Definition received r : Z := Z.of_nat (length (r_accepted r)).

Definition missing r : list Z :=
  filter (fun i => i ∉ map slice_of (r_accepted r)) (rangeZ (r_expected r)).

Definition summary_of r (status : ScenarioRunSummaryStatus) : ScenarioRunSummary :=
  let h := histogram_of (r_bounds r) (r_accepted r) in
  mkSummary (r_schema r) (r_scenario r) (r_id r) status (r_expected r) (received r) (missing r)
    (sum_of res_total (r_accepted r)) (sum_of res_success (r_accepted r)) (sum_of res_failure (r_accepted r))
    (histogram_quantile h q50) (histogram_quantile h q95) (histogram_quantile h q99) h
    (error_entries (errors_of (r_accepted r))) (r_first r) (r_finalized r).

(** A histogram without any accepted result has bounds and no counts: such a run
    has no summary. *)
Definition decodable r : bool := negb (bool_decide (r_accepted r = [])) || bool_decide (r_bounds r = []).

Definition summary_result (operation : string) r : result RunAggregationStoreError ScenarioRunSummary :=
  match summary_status (r_status r) with
  | None => invalid_state operation
              ("cannot build a final summary from status '" +:+ status_text (r_status r) +:+ "'")
  | Some status => if decodable r then Ok (summary_of r status)
                   else invalid_state operation "latency bucket count is missing"
  end.

Definition durable_of (operation : string) r : result RunAggregationStoreError (option DurableRunSummary) :=
  if bool_decide (r_status r = StOpen) then Ok None
  else summary ← summary_result operation r;
       Ok (Some (mkDurable (r_revision r)
                   (r_id r +:+ ":summary:r" +:+ show (r_revision r) +:+ ":" +:+ summary_label (sum_status summary))
                   (r_acked r <? r_revision r) summary)).

(** *** Changes of a run *)

Definition set_bounds (bounds : list Z) r : run :=
  mkRun (r_scenario r) (r_id r) (r_schema r) (r_expected r) bounds (r_status r) (r_accepted r)
    (r_first r) (r_last r) (r_deadline r) (r_finalized r) (r_revision r) (r_acked r).

Definition accept x (now : Z) r : run :=
  mkRun (r_scenario r) (r_id r) (r_schema r) (r_expected r) (r_bounds r) (r_status r)
    (r_accepted r ++ [x]) (if r_first r =? 0 then now else r_first r) (Z.max (r_last r) now)
    (r_deadline r) (r_finalized r) (r_revision r) (r_acked r).

Definition finalize (status : run_status) (now : Z) r : run :=
  mkRun (r_scenario r) (r_id r) (r_schema r) (r_expected r) (r_bounds r) status (r_accepted r)
    (r_first r) (r_last r) (r_deadline r) now (r_revision r + 1) (r_acked r).

Definition acked (revision : Z) r : run :=
  mkRun (r_scenario r) (r_id r) (r_schema r) (r_expected r) (r_bounds r) (r_status r) (r_accepted r)
    (r_first r) (r_last r) (r_deadline r) (r_finalized r) (r_revision r) revision.

Definition registered (id scenario : string) (schema expected deadline : Z) : run :=
  mkRun scenario id schema expected [] StOpen [] 0 0 deadline 0 0 0.

Definition first_run x (now partial : Z) : run :=
  mkRun (res_scenario_id x) (res_run_id x) (res_schema_version x) (total (res_slice x)) (bounds_of x)
    StOpen [] now now (now + partial) 0 0 0.
End runs.

(** ** Operations on the keys of a run *)

Definition ledger : Type := book (option run).

(** *** Changes that leave the run alone *)

Section indexes.
Context {F : Type}.
Implicit Types (b : book F) (id : string) (ms : Z).

(** A run with an unpublished summary stays; any other expires. *)
Definition persist id b : book F := set_active (<[id := max_exact]> (bk_active b)) (set_expires None b).

Definition expire id ms b : book F :=
  set_active (<[id := bk_now b + ms]> (bk_active b)) (set_expires (Some (bk_now b + ms)) b).

Definition prune b : book F := set_active (filter (fun p => bk_now b < p.2) (bk_active b)) b.

Definition drop_deadline id b : book F := set_deadlines (delete id (bk_deadlines b)) b.

Definition drop_outbox id b : book F := set_outbox (delete id (bk_outbox b)) b.

Definition drop_active id b : book F := set_active (delete id (bk_active b)) b.

Definition forget id b : book F := drop_active id (drop_outbox id (drop_deadline id b)).

(** The run leaves the deadlines, enters the outbox and stays. *)
Definition enqueue id b : book F :=
  persist id (set_outbox (<[id := bk_now b]> (bk_outbox b)) (drop_deadline id b)).

Definition settle id ms b : book F := expire id ms (drop_outbox id b).
End indexes.

Section operations.
Variable self : RedisRunAggregationStore.
Implicit Types (l : ledger) (id : string) (r : run) (x : ScenarioRunResult).

Definition retention_ms : Z := as_millis (rs_retention_ttl self).
Definition partial_ms : Z := as_millis (rs_partial_timeout self).

Definition unpublished l : bool :=
  match bk_run l with Some r => r_acked r <? r_revision r | None => false end.

Definition refresh id (ms : Z) l : ledger := if unpublished l then persist id l else expire id ms l.

Definition keep id l : ledger :=
  let l := drop_deadline id l in if unpublished l then persist id l else l.

(** A new revision enters the outbox. *)
Definition publish id r l : ledger := enqueue id (set_run (Some r) l).

(** *** Ingest *)

Definition new_kinds (m : gmap string Z) x : Z :=
  Z.of_nat (length (filter (fun e => m !! error_kind e = None) (res_error_breakdown x))).

Definition over_limit (current incoming : Z) : bool := max_exact <? current + incoming.

Definition overflow r x : option string :=
  let acc := r_accepted r in
  if over_limit (sum_of res_total acc) (res_total x)
     || over_limit (sum_of res_success acc) (res_success x)
     || over_limit (sum_of res_failure acc) (res_failure x)
  then Some "aggregate result counter exceeds the exact Redis Lua range"
  else if existsb (fun i => over_limit (bucket_total acc i) (bucket_at x i)) (seq 0 (length (res_latency_histogram x)))
  then Some "aggregate latency counter exceeds the exact Redis Lua range"
  else if existsb (fun e => over_limit (default 0 (errors_of acc !! error_kind e)) (error_count e))
            (res_error_breakdown x)
  then Some "aggregate error counter exceeds the exact Redis Lua range"
  else None.

(** The result joins the run; the last expected slice completes it. *)
Definition admit_result x r l : RunAggregationUpdate * ledger :=
  let late := bool_decide (r_status r = StPartial) || bool_decide (r_status r = StTimedOut) in
  let r' := accept x (bk_now l) r in
  if received r' =? r_expected r' then
    let done_ := finalize StComplete (bk_now l) r' in
    let summary := summary_of done_ SummaryComplete in
    ((if late then UpdLateCompleted summary else UpdCompleted summary), publish (res_run_id x) done_ l)
  else
    ((if late then UpdLateAccepted (received r') (r_expected r') else UpdAccepted (received r') (r_expected r')),
     refresh (res_run_id x) retention_ms (set_run (Some r') l)).

Definition ingest_into x r l : result RunAggregationStoreError RunAggregationUpdate * ledger :=
  if negb (bool_decide (r_scenario r = res_scenario_id x /\ r_id r = res_run_id x
                        /\ r_schema r = res_schema_version x /\ r_expected r = total (res_slice x)
                        /\ (r_bounds r = [] \/ r_bounds r = bounds_of x)))
  then (Err (StoreInconsistentResult "scenario, schema, expected slices, or histogram bounds changed"), l) else
  if bool_decide (r_bounds r = []) && negb (bool_decide (r_accepted r = []))
  then (invalid_state "aggregation_ingest" "registered run histogram is unset after accepting slices", l) else
  let r := set_bounds (bounds_of x) r in
  let l := set_run (Some r) l in
  match owner_of (r_accepted r) (slice_of x) with
  | Some key =>
      if bool_decide (key = res_execution_key x)
      then (Ok (UpdDuplicate (received r) (r_expected r) (summary_status (r_status r))),
            refresh (res_run_id x) retention_ms l)
      else (Err (StoreInconsistentResult "slice index already belongs to a different execution identity"), l)
  | None =>
      if bool_decide (is_Some (slice_for (r_accepted r) (res_execution_key x)))
      then (Err (StoreInconsistentResult "execution identity already belongs to a different slice"), l)
      else if bool_decide (r_status r = StComplete) || bool_decide (r_status r = StCancelled)
      then (Err (StoreInconsistentResult "terminal run cannot accept an unrecorded slice"), l)
      else if rs_max_error_kinds self <? Z.of_nat (size (errors_of (r_accepted r))) + new_kinds (errors_of (r_accepted r)) x
      then (Err (StoreErrorKindCapacity (rs_max_error_kinds self)), l)
      else match overflow r x with
           | Some message => (Err (StoreContract (InvalidResult message)), l)
           | None => let '(update, l') := admit_result x r l in (Ok update, l')
           end
  end.

Definition ingest_spec x l : result RunAggregationStoreError RunAggregationUpdate * ledger :=
  let l := prune l in
  match bk_run l with
  | None =>
      if rs_max_active_runs self <=? Z.of_nat (size (bk_active l))
      then (Err (StoreActiveRunCapacity (rs_max_active_runs self)), l)
      else
        let r := first_run x (bk_now l) partial_ms in
        let '(update, l') :=
          admit_result x r (set_deadlines (<[res_run_id x := bk_now l + partial_ms]> (bk_deadlines l)) l) in
        (Ok update, l')
  | Some r => ingest_into x r l
  end.

(** *** Expiry, finalization, publication *)

Definition expire_spec id l : result RunAggregationStoreError RunExpiryOutcome * ledger :=
  let OPERATION := "aggregation_mark_expired" in
  match bk_run l with
  | None => (Ok ExpMissing, forget id l)
  | Some r =>
      if negb (bool_decide (r_status r = StOpen))
      then (ExpAlreadyFinalized <$> summary_result OPERATION r, keep id l)
      else if bk_now l <? r_deadline r
      then (Ok (ExpNotExpired (from_millis (r_deadline r - bk_now l))), l)
      else let r' := finalize StTimedOut (bk_now l) r in
           (ExpMarkedTimedOut <$> summary_result OPERATION r', publish id r' l)
  end.

Definition finalize_spec id (status : run_status) l : result RunAggregationStoreError RunFinalizationOutcome * ledger :=
  let OPERATION := "aggregation_finalize_run" in
  match bk_run l with
  | None => (Ok FinMissing, forget id l)
  | Some r =>
      if negb (bool_decide (r_status r = StOpen))
      then (FinAlreadyFinalized <$> summary_result OPERATION r, keep id l)
      else let r' := finalize status (bk_now l) r in
           (FinFinalized <$> summary_result OPERATION r', publish id r' l)
  end.

Definition acknowledge_spec id (revision : Z) l : result RunAggregationStoreError SummaryAcknowledgement * ledger :=
  let OPERATION := "aggregation_acknowledge_summary" in
  match bk_run l with
  | None => (Ok MissingSummary, drop_active id (drop_outbox id l))
  | Some r =>
      if r_revision r <? 1 then (invalid_state OPERATION "stored summary revision is invalid", l)
      else if r_revision r <? revision
      then (invalid_state OPERATION "cannot acknowledge a future summary revision", l)
      else if revision <? r_revision r
      then (Ok (StaleAcknowledgement (r_revision r)),
            set_run (Some (acked (Z.max (r_acked r) revision) r)) l)
      else if revision <=? r_acked r then (Ok AlreadyAcknowledged, settle id retention_ms l)
      else (Ok Acknowledged, settle id retention_ms (set_run (Some (acked revision r)) l))
  end.

Definition clean_spec id l : ledger :=
  if unpublished l then l else drop_outbox id l.

Definition register_spec id (scenario : string) (schema expected deadline ms max_active : Z) l
    : result CoordinationError unit * ledger :=
  let refuse message := Err (InvalidState "aggregation_register_run" message) in
  let l := prune l in
  match bk_run l with
  | Some r =>
      if negb (bool_decide (r_id r = id /\ r_scenario r = scenario /\ r_schema r = schema
                            /\ r_expected r = expected))
      then (refuse "registered run metadata changed", l)
      else (Ok tt, refresh id ms l)
  | None =>
      if max_active <=? Z.of_nat (size (bk_active l)) then (refuse "bounded active-run capacity exceeded", l)
      else (Ok tt, expire id ms (set_deadlines (<[id := deadline]> (bk_deadlines l))
                     (set_run (Some (registered id scenario schema expected deadline)) l)))
  end.
End operations.

(** ** The hash of a run *)

Section stored.
Implicit Types (r : run) (h : gmap string string) (acc : list ScenarioRunResult) (x : ScenarioRunResult).

Definition bounds_text (bounds : list Z) : string := join "," (map show bounds).

Definition run_fields r : list (string * string) :=
  [("scenario_id", r_scenario r); ("run_id", r_id r); ("schema_version", show (r_schema r));
   ("expected_slices", show (r_expected r)); ("histogram_bounds", bounds_text (r_bounds r));
   ("status", status_text (r_status r)); ("received_slices", show (received r));
   ("total", show (sum_of res_total (r_accepted r)));
   ("success", show (sum_of res_success (r_accepted r)));
   ("failure", show (sum_of res_failure (r_accepted r)));
   ("error_kind_count", show (Z.of_nat (size (errors_of (r_accepted r)))));
   ("first_result_at", show (r_first r)); ("last_result_at", show (r_last r));
   ("deadline_at", show (r_deadline r)); ("finalized_at", show (r_finalized r));
   ("summary_revision", show (r_revision r)); ("summary_pending_revision", show (r_revision r));
   ("summary_ack_revision", show (r_acked r))].

Record stored h r : Prop := {
  st_text : Forall (fun p => h !! p.1 = Some p.2) (run_fields r);
  st_slice i : h !! ("slice:" +:+ show i) = owner_of (r_accepted r) i;
  st_slice_only s v : h !! ("slice:" +:+ s) = Some v -> exists i, 0 <= i /\ s = show i;
  st_execution k : h !! ("execution:" +:+ k) = show <$> slice_for (r_accepted r) k;
  st_latency (i : nat) : h !! ("latency:" +:+ show (Z.of_nat i)) =
    if decide (r_accepted r = [] \/ (length (r_bounds r) <= i)%nat) then None
    else Some (show (bucket_total (r_accepted r) i));
  st_error k : h !! ("error:" +:+ k) = show <$> errors_of (r_accepted r) !! k;
}.

(** The integers of a slice result at their widths, bucket bounds included. *)
Definition result_wide x : Prop := result_typed x /\ Forall (in_range u64_max) (bounds_of x).

(** A result a run may hold. *)
Record belongs r x : Prop := {
  bl_typed : result_wide x;
  bl_contract : result_contract x;
  bl_scenario : res_scenario_id x = r_scenario r;
  bl_run : res_run_id x = r_id r;
  bl_schema : res_schema_version x = r_schema r;
  bl_expected : total (res_slice x) = r_expected r;
  bl_bounds : bounds_of x = r_bounds r;
}.

Definition exact_count (z : Z) : Prop := 0 <= z <= max_exact.

Record sane r : Prop := {
  wf_expected : 1 <= r_expected r <= 4096;
  wf_schema : in_range u16_max (r_schema r);
  wf_bounds : StronglySorted Z.lt (r_bounds r) /\ Forall (in_range u64_max) (r_bounds r);
  wf_accepted : Forall (belongs r) (r_accepted r);
  wf_slices : NoDup (map slice_of (r_accepted r));
  wf_executions : NoDup (map res_execution_key (r_accepted r));
  wf_totals : exact_count (sum_of res_total (r_accepted r))
              /\ exact_count (sum_of res_success (r_accepted r))
              /\ exact_count (sum_of res_failure (r_accepted r));
  wf_buckets i : exact_count (bucket_total (r_accepted r) i);
  wf_errors k n : errors_of (r_accepted r) !! k = Some n -> exact_count n;
  wf_status : r_status r = StComplete <-> received r = r_expected r;
  wf_open : r_status r = StOpen <-> r_revision r = 0;
  wf_times : Forall (fun t => 0 <= t /\ lua_exact t) [r_first r; r_last r; r_deadline r; r_finalized r];
  wf_revision : 0 <= r_acked r <= r_revision r /\ r_revision r <= 2
                /\ (r_status r <> StComplete -> r_revision r <= 1);
}.

(** Bounds without a count remain only where a cancelled run refused the first
    result. *)
Record wf r : Prop := {
  wf_sane :> sane r;
  wf_histogram : r_accepted r = [] -> r_bounds r = [] \/ r_status r = StCancelled;
}.

(** What a database record says of the abstract run. *)
Definition shows (b : record) (l : ledger) : Prop :=
  match bk_run l with
  | None => bk_run b = ∅
  | Some r => stored (bk_run b) r /\ wf r
  end
  /\ bk_expires b = bk_expires l /\ bk_deadlines b = bk_deadlines l /\ bk_outbox b = bk_outbox l
  /\ bk_active b = bk_active l /\ bk_now b = bk_now l.

(** *** Reading *)

Lemma stored_get h r f v : stored h r -> In (f, v) (run_fields r) -> h !! f = Some v.
Proof. intros Hs Hin%list_elem_of_In. by eapply (proj1 (Forall_forall _ _) (st_text _ _ Hs) (f, v)). Qed.

Lemma stored_nonempty h r : stored h r -> h <> ∅.
Proof. intros Hs. eapply lookup_nonempty, (stored_get h r "scenario_id"); [done|]. by left. Qed.

(** *** Accounts *)

Lemma sum_of_snoc f acc x : sum_of f (acc ++ [x]) = sum_of f acc + f x.
Proof. unfold sum_of. rewrite map_app, sumZ_app. simpl. lia. Qed.

Lemma bucket_total_snoc acc x i :
  bucket_total (acc ++ [x]) i = bucket_total acc i + bucket_at x i.
Proof. unfold bucket_total. rewrite map_app, sumZ_app. simpl. lia. Qed.

Lemma errors_of_snoc acc x : errors_of (acc ++ [x]) = add_errors (errors_of acc) (res_error_breakdown x).
Proof. unfold errors_of. by rewrite foldl_app. Qed.

Lemma owner_of_snoc acc x i :
  owner_of acc (slice_of x) = None ->
  owner_of (acc ++ [x]) i = if decide (slice_of x = i) then Some (res_execution_key x) else owner_of acc i.
Proof.
  induction acc as [|y acc IH]; simpl; [done|]. destruct (decide (slice_of y = slice_of x)); [done|].
  intros Hx. destruct (decide (slice_of y = i)) as [<-|]; [by rewrite decide_False by congruence|auto].
Qed.

Lemma slice_for_snoc acc x k :
  slice_for acc (res_execution_key x) = None ->
  slice_for (acc ++ [x]) k = if decide (res_execution_key x = k) then Some (slice_of x) else slice_for acc k.
Proof.
  induction acc as [|y acc IH]; simpl; [done|].
  destruct (decide (res_execution_key y = res_execution_key x)); [done|].
  intros Hx. destruct (decide (res_execution_key y = k)) as [<-|]; [by rewrite decide_False by congruence|auto].
Qed.

Lemma owner_of_None acc i : owner_of acc i = None <-> i ∉ map slice_of acc.
Proof.
  induction acc as [|y acc IH]; simpl; [set_solver|]. rewrite not_elem_of_cons.
  case_decide; [naive_solver|]. rewrite IH. naive_solver.
Qed.

Lemma slice_for_None acc k : slice_for acc k = None <-> k ∉ map res_execution_key acc.
Proof.
  induction acc as [|y acc IH]; simpl; [set_solver|]. rewrite not_elem_of_cons.
  case_decide; [naive_solver|]. rewrite IH. naive_solver.
Qed.

(** When a slice has no owner, no execution was accepted for it. *)
Lemma slice_for_Some acc k i : slice_for acc k = Some i -> is_Some (owner_of acc i).
Proof.
  intros Hk. destruct (owner_of acc i) as [o|] eqn:E; [done|]. apply owner_of_None in E.
  exfalso. apply E. clear E. induction acc as [|y acc IH]; simpl in *; [done|].
  case_decide; [injection Hk as <-; constructor|]. apply list_elem_of_further. auto.
Qed.
End stored.

(** ** Writing *)

(** The fields of a run that name a slice, an execution, a bucket or an error
    have a colon; the others do not. *)
Definition plain (f : string) : bool := all_chars (fun c => negb (Ascii.eqb c ":")) f.

Ltac in_fields := solve [cbn [run_fields In]; repeat first [left; reflexivity | right]].

Section writing.
Implicit Types (r : run) (h : gmap string string) (acc : list ScenarioRunResult) (x : ScenarioRunResult).

Definition same_named h h' : Prop := forall f, plain f = false -> h' !! f = h !! f.

Lemma same_named_trans h1 h2 h3 : same_named h1 h2 -> same_named h2 h3 -> same_named h1 h3.
Proof. intros H1 H2 f Hf. by rewrite H2, H1. Qed.

Lemma same_named_insert h f v : plain f = true -> same_named h (<[f := v]> h).
Proof. intros Hf g Hg. rewrite lookup_insert_ne; [done|]. intros ->. congruence. Qed.

Lemma same_named_hset h l : Forall (fun p => plain p.1 = true) l -> same_named h (hset_fields l h).
Proof.
  revert h. induction l as [|[f v] l IH]; intros h Hl; [by intros ? ?|].
  inversion_clear Hl. eapply same_named_trans; [by apply (same_named_insert h f v)|]. by apply IH.
Qed.

(** A run changes in fields without a colon only. *)
Lemma stored_rewrite h h' r r' :
  stored h r -> same_named h h' -> r_accepted r' = r_accepted r ->
  (r_accepted r = [] \/ r_bounds r' = r_bounds r) ->
  Forall (fun p => h' !! p.1 = Some p.2) (run_fields r') -> stored h' r'.
Proof.
  intros [Ht Hs Hso He Hl Hr] Hn Ha Hb Hf. split; [done|..]; intros; rewrite ?Ha, ?Hn by done.
  - apply Hs.
  - eapply Hso. by rewrite <- Hn.
  - apply He.
  - rewrite Hl. destruct Hb as [-> | ->]; [|done]. by rewrite !decide_True by tauto.
  - apply Hr.
Qed.

(** A fresh run. *)
Lemma stored_fresh l r :
  r_accepted r = [] -> Forall (fun p => plain p.1 = true) l ->
  Forall (fun p => hset_fields l ∅ !! p.1 = Some p.2) (run_fields r) -> stored (hset_fields l ∅) r.
Proof.
  intros Ha Hl Hf. pose proof (same_named_hset ∅ l Hl) as Hn.
  split; [done|..]; intros; rewrite ?Ha, ?Hn by done; rewrite ?lookup_empty.
  - done.
  - match goal with E : _ = Some _ |- _ => rewrite Hn, lookup_empty in E by done; discriminate E end.
  - done.
  - by rewrite decide_True by tauto.
  - done.
Qed.
End writing.

(** Looks a plain field up through the writes of a script. *)
Ltac plain_lookup :=
  repeat (apply Forall_cons; split;
          [cbn [fst snd hset_fields foldl];
           repeat first [rewrite lookup_insert_eq | rewrite lookup_insert_ne by discriminate]
          |]); try apply Forall_nil.
