(* ===== verification/RunDecode.v ===== *)
(** * Reading a run back

    [HGETALL] lists the fields of a run in some order; [summary_from_snapshot]
    and its relatives ([src/src/infrastructure/redis/aggregation.rs]) decode the
    list.  On the fields of a well-formed run they recover the run: progress,
    status, and the summary of the accepted results. *)

From S2P Require Import Prelude RustStr F64 Contracts Aggregation Lua Redis RedisMem Coordination Dispatch RunStore RunSummary RunLedger RunSpec.

(** ** The map of a snapshot *)

Lemma pairs_of_flatten l : pairs_of (flatten_pairs l) = l.
Proof. induction l as [|[f v] l IH]; [done|]. unfold flatten_pairs in *. simpl. by rewrite IH. Qed.

Lemma length_flatten l : length (flatten_pairs l) = (2 * length l)%nat.
Proof. induction l as [|p l IH]; [done|]. unfold flatten_pairs in *. simpl. rewrite IH. lia. Qed.

Lemma foldl_insert_lookup (l : list (string * string)) (m : gmap string string) (f : string) :
  NoDup l.*1 ->
  foldl (fun m p => <[p.1 := p.2]> m) m l !! f = match list_to_map (M := gmap string string) l !! f with
                                                | Some v => Some v | None => m !! f end.
Proof.
  revert m. induction l as [|[g v] l IH]; intros m Hd; [done|]. simpl in Hd. apply NoDup_cons in Hd as [Hg Hd].
  simpl. rewrite IH by done. destruct (decide (g = f)) as [->|Hne].
  - apply not_elem_of_list_to_map_1 in Hg. rewrite Hg. by rewrite !lookup_insert_eq.
  - by rewrite !lookup_insert_ne.
Qed.

Lemma snapshot_map_of h values op : snapshot_of h values -> snapshot_map values op = Ok h.
Proof.
  intros (l & -> & Hl). unfold snapshot_map. rewrite length_flatten, Nat2Z.inj_mul, Z.odd_mul. cbn [Z.odd Z.of_nat].
  rewrite pairs_of_flatten. unfold reject_if, mbind, result_bind. simpl. f_equal.
  apply map_eq. intros f.
  assert (NoDup l.*1) as Hd by (rewrite Hl; apply NoDup_fst_map_to_list).
  rewrite foldl_insert_lookup, lookup_empty by done.
  rewrite (list_to_map_proper l (map_to_list h)) by done. rewrite list_to_map_to_list. by destruct (h !! f).
Qed.

Lemma snapshot_nonempty h values : snapshot_of h values -> h <> ∅ -> values <> [].
Proof.
  intros (l & -> & Hl) Hh E. apply Hh. destruct l as [|p l]; [|by destruct p].
  apply map_to_list_empty_iff. by apply Permutation_nil_l in Hl.
Qed.

Section decode.
Implicit Types (r : run) (h : gmap string string) (op : string).

Lemma required_stored h r f v op :
  stored h r -> In (f, v) (run_fields r) -> required h f op = Ok v.
Proof. intros Hs Hin. unfold required. by rewrite (stored_get h r f v). Qed.

Lemma parse_stored h r f z max op :
  stored h r -> In (f, show z) (run_fields r) -> in_range max z -> parse_field max h f op = Ok z.
Proof.
  intros Hs Hin Hz. unfold parse_field. rewrite (required_stored h r f (show z)) by done.
  unfold mbind, result_bind. by rewrite parse_uint_show.
Qed.

(** *** Slices *)

Lemma accepted_slice_bound r i : sane r -> i ∈ map slice_of (r_accepted r) -> 0 <= i < r_expected r.
Proof.
  intros Hw (x & -> & Hx)%elem_of_map.
  pose proof (proj1 (Forall_forall _ _) (wf_accepted _ Hw) x Hx) as Hb.
  pose proof (rc_slice _ (bl_contract _ _ Hb)) as [? _]. rewrite (bl_expected _ _ Hb) in *.
  destruct (bl_typed _ _ Hb) as [(_ & _ & _ & ? & _) _]. unfold slice_of in *. mlia.
Qed.

Lemma stored_slice_named h r op S s v :
  stored h r -> wf r -> h !! ("slice:" +:+ s) = Some v ->
  exists i, 0 <= i /\ s = show i /\ stored_slice (r_expected r) op S ("slice:" +:+ s) = Ok ({[i]} ∪ S).
Proof.
  intros Hs Hw Hv. destruct (st_slice_only _ _ Hs _ _ Hv) as (i & Hi0 & ->). exists i. split_and!; [done..|].
  rewrite (st_slice _ _ Hs) in Hv. assert (i ∈ map slice_of (r_accepted r)) as Hin.
  { destruct (decide (i ∈ map slice_of (r_accepted r))) as [|Hn%owner_of_None]; [done|congruence]. }
  pose proof (accepted_slice_bound r i Hw Hin). pose proof (wf_expected _ Hw).
  unfold stored_slice. rewrite strip_prefix_app, parse_uint_show by mlia.
  unfold ok_or, mbind, result_bind, reject_if. by rewrite (proj2 (Z.leb_gt _ _)) by lia.
Qed.

Lemma stored_slices_fold h r op L S :
  stored h r -> wf r -> Forall (fun f => is_Some (h !! f)) L ->
  exists S', try_fold (stored_slice (r_expected r) op) S L = Ok S'
    /\ forall i, i ∈ S' <-> i ∈ S \/ (0 <= i /\ "slice:" +:+ show i ∈ L).
Proof.
  intros Hs Hw. revert S. induction L as [|f L IH]; intros S HL; [exists S; set_solver|].
  apply Forall_cons in HL as [[v Hv] HL]. cbn [try_fold].
  destruct (strip_prefix "slice:" f) as [t|] eqn:Ef.
  - apply strip_prefix_Some in Ef as ->.
    destruct (stored_slice_named h r op S t v Hs Hw Hv) as (i & Hi & -> & ->).
    destruct (IH ({[i]} ∪ S) HL) as (S' & E & HS').
    exists S'. split; [exact E|]. intros j. rewrite HS', elem_of_cons, elem_of_union, elem_of_singleton.
    split; [naive_solver|]. intros [?|[? [Hj|?]]]; [tauto| |tauto].
    apply str_app_inj_l, show_inj in Hj. tauto.
  - destruct (IH S HL) as (S' & E & HS'). exists S'. split.
    { assert (stored_slice (r_expected r) op S f = Ok S) as -> by (unfold stored_slice; by rewrite Ef). exact E. }
    intros j. rewrite HS', elem_of_cons.
    split; [tauto|]. intros [?|[? [<-|?]]]; [tauto| |tauto]. by rewrite strip_prefix_app in Ef.
Qed.

Lemma stored_slices_of h r op :
  stored h r -> wf r -> stored_slices h (r_expected r) op = Ok (list_to_set (map slice_of (r_accepted r))).
Proof.
  intros Hs Hw. unfold stored_slices.
  destruct (stored_slices_fold h r op (map fst (map_to_list h)) ∅ Hs Hw) as (S' & E & HS').
  { apply Forall_forall. intros f ([g v] & -> & Hf)%elem_of_map. apply elem_of_map_to_list in Hf. by exists v. }
  etrans; [exact E|]. f_equal. apply set_eq. intros i. rewrite HS', elem_of_list_to_set.
  rewrite elem_of_map. setoid_rewrite elem_of_map_to_list'.
  assert (forall i, is_Some (h !! ("slice:" +:+ show i)) <-> i ∈ map slice_of (r_accepted r)) as Hi.
  { intros j. rewrite (st_slice _ _ Hs). destruct (owner_of (r_accepted r) j) eqn:Ej.
    - split; [|eauto]. intros _. destruct (decide (j ∈ map slice_of (r_accepted r))) as [|Hn%owner_of_None]; [done|congruence].
    - apply owner_of_None in Ej. split; [by intros []|done]. }
  split.
  - intros [?|[_ ([f v] & Ef & Hf)]]; [set_solver|]. apply Hi. simpl in *. subst f. eauto.
  - intros Hin. pose proof (proj2 (Hi i) Hin) as [v Hv]. right. split.
    + by apply (accepted_slice_bound r i Hw).
    + exists ("slice:" +:+ show i, v). done.
Qed.

(** *** Histogram *)

Lemma show_no_comma z : 0 <= z -> all_chars (fun c => negb (Ascii.eqb c ",")) (show z) = true.
Proof.
  intros Hz. eapply all_chars_impl; [|by apply show_digits]. intros c Hc.
  destruct (Ascii.eqb_spec c ","); [subst; by vm_compute in Hc|done].
Qed.

Lemma bounds_text_split bounds :
  bounds <> [] -> Forall (in_range u64_max) bounds -> split_char "," (bounds_text bounds) = map show bounds.
Proof.
  intros Hne Hb. apply split_join; [by destruct bounds|]. apply Forall_fmap.
  eapply Forall_impl; [exact Hb|]. intros z Hz. apply show_no_comma. mlia.
Qed.

Lemma bounds_text_empty bounds :
  Forall (in_range u64_max) bounds -> str_is_empty (bounds_text bounds) = bool_decide (bounds = []).
Proof.
  intros Hb. destruct bounds as [|z bounds]; [done|]. rewrite bool_decide_false by done.
  destruct (str_is_empty _) eqn:E; [|done]. apply str_is_empty_true in E. exfalso.
  pose proof (show_len_pos z) as Hl. inversion_clear Hb.
  assert (str_len (bounds_text (z :: bounds)) = 0) as Hz by (by rewrite E).
  revert Hz. unfold bounds_text. destruct bounds as [|z' bounds]; [simpl; mlia|].
  change (join "," (map show (z :: z' :: bounds)))
    with (show z +:+ ("," +:+ join "," (map show (z' :: bounds)))).
  rewrite str_len_app. pose proof (str_len_nonneg ("," +:+ join "," (map show (z' :: bounds)))). mlia.
Qed.

Lemma stored_bucket_run h op bs prev (i : nat) u c :
  in_range u64_max u -> from_option (fun p => p < u) True prev ->
  h !! ("latency:" +:+ show (Z.of_nat i)) = Some (show c) -> in_range u64_max c ->
  stored_bucket h op (bs, prev, Z.of_nat i) (show u) = Ok (bs ++ [mkBucket u c], Some u, Z.of_nat (S i)).
Proof.
  intros Hu Hp Hl Hc. unfold stored_bucket. rewrite Hl, !parse_uint_show by done.
  unfold ok_or, mbind, result_bind, reject_if.
  assert (from_option (fun previous => u <=? previous) false prev = false) as ->.
  { destruct prev as [p|]; [|done]. simpl in *. apply Z.leb_gt. lia. }
  rewrite parse_uint_show by done. by replace (Z.of_nat (S i)) with (Z.of_nat i + 1) by lia.
Qed.

Lemma stored_buckets h op us (k : nat) (c : nat -> Z) bs prev :
  Forall (in_range u64_max) us ->
  StronglySorted Z.lt us -> Forall (fun u => from_option (fun p => p < u) True prev) us ->
  (forall j, (j < length us)%nat -> h !! ("latency:" +:+ show (Z.of_nat (k + j))) = Some (show (c (k + j)%nat))) ->
  (forall j, in_range u64_max (c j)) ->
  exists p, try_fold (stored_bucket h op) (bs, prev, Z.of_nat k) (map show us)
    = Ok (bs ++ imap (fun j u => mkBucket u (c (k + j)%nat)) us, p, Z.of_nat (k + length us)).
Proof.
  revert k bs prev. induction us as [|u us IH]; intros k bs prev Hr Hs Hp Hl Hc.
  { exists prev. cbn. by rewrite app_nil_r, Nat.add_0_r. }
  inversion_clear Hr as [|? ? Hu Hr']. apply StronglySorted_inv in Hs as [Hs Hu']. inversion_clear Hp as [|? ? Hp1 Hp2].
  pose proof (Hl 0%nat ltac:(simpl; lia)) as H0. rewrite Nat.add_0_r in H0.
  cbn [map try_fold]. rewrite (stored_bucket_run h op bs prev k u (c k)) by (done || apply Hc).
  unfold mbind, result_bind at 1. cbv beta iota.
  destruct (IH (S k) (bs ++ [mkBucket u (c k)]) (Some u)) as (p & ->); [done|done| | |done|].
  - exact Hu'.
  - intros j Hj. pose proof (Hl (S j) ltac:(simpl; lia)) as Hj'. by rewrite Nat.add_succ_r in Hj'.
  - exists p. f_equal. rewrite <- app_assoc. rewrite imap_cons, Nat.add_0_r. cbn [length app].
    f_equal; [|f_equal; lia]. do 3 f_equal. apply imap_ext. intros j x _. simpl. by rewrite Nat.add_succ_r.
Qed.

Lemma stored_histogram_of h r op :
  stored h r -> wf r ->
  stored_histogram h op =
    if decodable r then Ok (histogram_of (r_bounds r) (r_accepted r))
    else invalid_state op "latency bucket count is missing".
Proof.
  intros Hs Hw. destruct (wf_bounds _ Hw) as [Hsort Hu]. unfold stored_histogram.
  rewrite (required_stored h r _ (bounds_text (r_bounds r))) by (done || in_fields).
  unfold mbind, result_bind at 1. rewrite bounds_text_empty by done.
  unfold decodable. destruct (decide (r_bounds r = [])) as [E|Hne].
  { by rewrite E, !bool_decide_true, orb_true_r by done. }
  rewrite (bool_decide_false (r_bounds r = [])), orb_false_r by done. rewrite bounds_text_split by done.
  case_bool_decide as Ha; simpl negb; cbv beta iota.
  - pose proof (st_latency _ _ Hs 0%nat) as Hl. rewrite decide_True in Hl by tauto.
    destruct (r_bounds r) as [|u us] eqn:Eb; [done|]. inversion_clear Hu.
    cbn [map try_fold]. change (Z.of_nat 0) with 0 in Hl.
    assert (stored_bucket h op ([], None, 0) (show u) = invalid_state op "latency bucket count is missing") as ->; [|done].
    unfold stored_bucket. rewrite parse_uint_show by done. unfold ok_or, mbind, result_bind, reject_if. simpl from_option. by rewrite Hl.
  - destruct (stored_buckets h op (r_bounds r) 0 (bucket_total (r_accepted r)) [] None) as (p & E); [done|done| | | |].
    + apply Forall_forall. done.
    + intros j Hj. rewrite (st_latency _ _ Hs). rewrite decide_False; [done|]. intros [?|?]; [done|lia].
    + intros j. pose proof (wf_buckets _ Hw j) as [? ?]. unfold max_exact in *. mlia.
    + change (Z.of_nat 0) with 0 in E. by rewrite E.
Qed.

(** *** Errors *)

Lemma stored_error_named h r op m k v :
  stored h r -> wf r -> h !! ("error:" +:+ k) = Some v ->
  exists n, errors_of (r_accepted r) !! k = Some n
    /\ stored_error op m ("error:" +:+ k, v) = Ok (<[k := n]> m).
Proof.
  intros Hs Hw Hv. rewrite (st_error _ _ Hs) in Hv. destruct (errors_of _ !! k) as [n|] eqn:En; [|done].
  injection Hv as <-. exists n. split; [done|]. pose proof (wf_errors _ Hw _ _ En) as [? ?].
  unfold stored_error. cbn [fst snd]. rewrite strip_prefix_app, parse_uint_show by (unfold max_exact in *; mlia). done.
Qed.

Lemma stored_errors_fold h r op L m :
  stored h r -> wf r -> Forall (fun p => h !! p.1 = Some p.2) L ->
  exists m', try_fold (stored_error op) m L = Ok m'
    /\ forall k, m' !! k = if decide ("error:" +:+ k ∈ map fst L) then errors_of (r_accepted r) !! k else m !! k.
Proof.
  intros Hs Hw. revert m. induction L as [|[f v] L IH]; intros m HL; [by exists m|].
  apply Forall_cons in HL as [Hv HL]. cbn [fst snd] in Hv. cbn [try_fold map fst].
  destruct (strip_prefix "error:" f) as [k|] eqn:Ef.
  - apply strip_prefix_Some in Ef as ->.
    destruct (stored_error_named h r op m k v Hs Hw Hv) as (n & En & ->).
    destruct (IH (<[k := n]> m) HL) as (m' & E & Hm'). exists m'. split; [exact E|].
    intros k'. rewrite Hm'. destruct (decide (k' = k)) as [->|Hne].
    + rewrite (decide_True _ _ (P := "error:" +:+ k ∈ _ :: _)) by constructor. rewrite lookup_insert_eq, En. by case_decide.
    + rewrite lookup_insert_ne by done. apply decide_ext. rewrite elem_of_cons. split; [tauto|].
      intros [Hk|?]; [|done]. by apply str_app_inj_l in Hk.
  - destruct (IH m HL) as (m' & E & Hm'). exists m'. split.
    { assert (stored_error op m (f, v) = Ok m) as -> by (unfold stored_error; cbn [fst snd]; by rewrite Ef). exact E. }
    intros k. rewrite Hm'. apply decide_ext. rewrite elem_of_cons. split; [tauto|].
    intros [<-|?]; [|done]. by rewrite strip_prefix_app in Ef.
Qed.

Lemma stored_errors_of h r op : stored h r -> wf r -> stored_errors h op = Ok (errors_of (r_accepted r)).
Proof.
  intros Hs Hw. unfold stored_errors.
  destruct (stored_errors_fold h r op (map_to_list h) ∅ Hs Hw) as (m' & E & Hm').
  { apply Forall_forall. intros [f v] Hf. by apply elem_of_map_to_list in Hf. }
  etrans; [exact E|]. f_equal. apply map_eq. intros k. rewrite Hm'. case_decide as Hk; [done|].
  rewrite lookup_empty. pose proof (st_error _ _ Hs k) as Hh.
  destruct (errors_of _ !! k) as [n|]; [|done]. exfalso. apply Hk. apply elem_of_map.
  exists ("error:" +:+ k, show n). split; [done|]. by apply elem_of_map_to_list.
Qed.

(** *** Counters *)

Lemma sumZ_imap_add {A} (f g : nat -> Z) (l : list A) :
  sumZ (imap (fun i _ => f i + g i) l) = sumZ (imap (fun i _ => f i) l) + sumZ (imap (fun i _ => g i) l).
Proof.
  revert f g. induction l as [|a l IH]; intros f g; [done|]. rewrite !imap_cons. unfold compose. cbn [sumZ foldr].
  pose proof (IH (fun i => f (S i)) (fun i => g (S i))). unfold sumZ in *. lia.
Qed.

Lemma sumZ_imap_lookup {A} (h : list LatencyBucket) (l : list A) :
  length h = length l ->
  sumZ (imap (fun i _ => default 0 (bucket_count <$> h !! i)) l) = sumZ (map bucket_count h).
Proof.
  revert l. induction h as [|b h IH]; intros [|a l] Hl; [done..|]. rewrite imap_cons. simpl.
  injection Hl as Hl. by rewrite <- (IH l Hl).
Qed.

Lemma sumZ_imap_zero {A} (l : list A) : sumZ (imap (fun _ _ => 0) l) = 0.
Proof. induction l as [|a l IH]; [done|]. rewrite imap_cons. simpl. exact IH. Qed.

Lemma histogram_total bounds acc :
  Forall (fun x => length (res_latency_histogram x) = length bounds
                   /\ sumZ (map bucket_count (res_latency_histogram x)) = res_total x) acc ->
  sumZ (map bucket_count (histogram_of bounds acc)) = sum_of res_total acc.
Proof.
  intros Hacc. unfold histogram_of. rewrite fmap_imap. unfold compose. simpl.
  induction Hacc as [|x acc [Hl Ht] _ IH]; [apply sumZ_imap_zero|].
  unfold sum_of in *. simpl. rewrite <- IH, <- Ht, <- (sumZ_imap_lookup _ bounds Hl). apply sumZ_imap_add.
Qed.

Lemma checked_sum op (h : list LatencyBucket) n :
  Forall (fun b => 0 <= bucket_count b) h -> 0 <= n -> n + sumZ (map bucket_count h) <= u64_max ->
  try_fold (fun n b => ok_or (checked_add u64_max n (bucket_count b))
     (StoreInvalidState op "stored latency histogram count overflowed")) n h
  = Ok (n + sumZ (map bucket_count h)).
Proof.
  intros Hh. revert n. induction Hh as [|b h Hb Hh IH]; intros n Hn Hs; simpl in *; [f_equal; lia|].
  assert (0 <= sumZ (map bucket_count h)) by (apply sumZ_nonneg, Forall_fmap; done).
  rewrite (proj2 (checked_add_Some _ _ _ (n + bucket_count b))) by lia.
  unfold ok_or, mbind, result_bind. rewrite IH by lia. f_equal. lia.
Qed.

Lemma accepted_histograms r :
  wf r -> r_bounds r <> [] ->
  Forall (fun x => length (res_latency_histogram x) = length (r_bounds r)
                   /\ sumZ (map bucket_count (res_latency_histogram x)) = res_total x) (r_accepted r).
Proof.
  intros Hw Hb. eapply Forall_impl; [apply (wf_accepted _ Hw)|]. intros x Hx.
  pose proof (bl_bounds _ _ Hx) as Hbx. unfold bounds_of in Hbx.
  assert (length (res_latency_histogram x) = length (r_bounds r)) as Hl by (by rewrite <- Hbx, length_map).
  split; [done|]. destruct (rc_histogram _ (bl_contract _ _ Hx)) as [_ Hh].
  apply Hh. intros E. rewrite E in Hbx. by apply Hb.
Qed.

Lemma histogram_of_nonneg r : wf r -> Forall (fun b => 0 <= bucket_count b) (histogram_of (r_bounds r) (r_accepted r)).
Proof.
  intros Hw. apply Forall_lookup. intros i b. unfold histogram_of. rewrite list_lookup_imap.
  destruct (r_bounds r !! i); [|done]. intros [= <-]. simpl. apply (wf_buckets _ Hw i).
Qed.

Lemma outcomes_add r : wf r ->
  sum_of res_success (r_accepted r) + sum_of res_failure (r_accepted r) = sum_of res_total (r_accepted r).
Proof.
  intros Hw. pose proof (wf_accepted _ Hw) as Ha. unfold sum_of. rewrite <- sumZ_map_add. apply sumZ_map_ext.
  eapply Forall_impl; [exact Ha|]. intros x Hx. apply (rc_outcomes _ (bl_contract _ _ Hx)).
Qed.

Lemma check_counters_of r op :
  wf r -> check_counters (sum_of res_total (r_accepted r)) (sum_of res_success (r_accepted r))
            (sum_of res_failure (r_accepted r)) (histogram_of (r_bounds r) (r_accepted r)) op = Ok tt.
Proof.
  intros Hw. destruct (wf_totals _ Hw) as (Ht & _ & _). unfold exact_count, max_exact in Ht.
  unfold check_counters. rewrite (proj2 (checked_add_Some _ _ _ (sum_of res_total (r_accepted r))))
    by (pose proof (outcomes_add r Hw); lia). rewrite (bool_decide_true (Some _ = Some _)) by done. cbn [negb reject_if].
  unfold mbind, result_bind at 1. cbv beta iota.
  destruct (decide (r_bounds r = [])) as [E|Hne]; [by rewrite E|].
  pose proof (histogram_total _ _ (accepted_histograms r Hw Hne)) as Hh.
  rewrite checked_sum; [|by apply histogram_of_nonneg|lia|lia]. unfold result_bind. rewrite Z.add_0_l, Hh, Z.eqb_refl, andb_false_r. done.
Qed.

Lemma received_bound r : sane r -> 0 <= received r <= r_expected r.
Proof.
  intros Hw. unfold received. split; [lia|].
  pose proof (wf_expected _ Hw).
  assert (length (map slice_of (r_accepted r)) <= length (rangeZ (r_expected r)))%nat as Hl.
  { apply NoDup_incl_length; [apply NoDup_ListNoDup, (wf_slices _ Hw)|]. intros i Hi%list_elem_of_In.
    apply list_elem_of_In, elem_of_rangeZ. by apply (accepted_slice_bound r). }
  rewrite length_map in Hl. pose proof (length_rangeZ (r_expected r)). lia.
Qed.

Lemma status_of_text s : status_of (status_text s) = summary_status s.
Proof. by destruct s. Qed.

Lemma check_slice_counts_of r op status :
  wf r -> summary_status (r_status r) = Some status ->
  check_slice_counts status (received r) (r_expected r) op = Ok tt.
Proof.
  intros Hw Hs. unfold check_slice_counts, reject_if. pose proof (received_bound r Hw).
  rewrite (proj2 (Z.ltb_ge _ _)) by lia. unfold mbind, result_bind.
  pose proof (wf_status _ Hw) as Hc.
  destruct (r_status r); simpl in Hs; simplify_eq;
    [rewrite (proj2 (Z.eqb_neq _ _)) by (intros E; discriminate (proj2 Hc E)); done..|].
  by rewrite (proj1 Hc), Z.eqb_refl by done.
Qed.

Lemma missing_of r : wf r ->
  filter (fun i => i ∉ (list_to_set (map slice_of (r_accepted r)) : gset Z)) (rangeZ (r_expected r)) = missing r.
Proof. intros Hw. unfold missing. apply list_filter_iff. intros i. by rewrite elem_of_list_to_set. Qed.

Lemma size_slices r : wf r ->
  Z.of_nat (size (list_to_set (map slice_of (r_accepted r)) : gset Z)) = received r.
Proof. intros Hw. by rewrite size_list_to_set, length_map by apply (wf_slices _ Hw). Qed.

Lemma error_entries_length m : length (error_entries m) = size m.
Proof.
  unfold error_entries, btree_entries. rewrite length_map.
  by rewrite (Permutation_length (merge_sort_Permutation _ _)), length_map_to_list.
Qed.

Lemma errors_size_bound acc : Forall (fun x => result_contract x) acc ->
  Z.of_nat (size (errors_of acc)) <= 64 * Z.of_nat (length acc).
Proof.
  induction acc as [|x acc IH] using rev_ind; [done|]. rewrite Forall_app, Forall_singleton. intros [Ha Hx].
  specialize (IH Ha). rewrite errors_of_snoc, length_app. simpl length.
  destruct (rc_errors _ Hx) as [Hl _].
  assert (forall l m, (size (add_errors m l) <= size m + length l)%nat) as Hadd.
  { induction l as [|e l IHl]; intros m; [simpl; lia|]. cbn [add_errors foldl length].
    etrans; [apply (IHl (add_count m (error_kind e) (error_count e)))|].
    unfold add_count. rewrite map_size_insert. destruct (m !! error_kind e); simpl; lia. }
  specialize (Hadd (res_error_breakdown x) (errors_of acc)). lia.
Qed.

(** *** Summaries *)

(** Runs the next step of a decoder by the lemma for what it reads. *)
Ltac decode_by tac := erewrite ok_bind by (tac; first [done | in_fields | mlia]); cbv beta.

Ltac decode_step :=
  match goal with
  | |- (required _ _ _ ≫= _) = _ => decode_by ltac:(eapply required_stored)
  | |- (parse_field _ _ _ _ ≫= _) = _ => decode_by ltac:(eapply parse_stored)
  | |- (snapshot_map _ _ ≫= _) = _ => decode_by ltac:(eapply snapshot_map_of)
  end.

Lemma summary_of_snapshot h r values op :
  snapshot_of h values -> stored h r -> wf r -> summary_from_snapshot values op = summary_result op r.
Proof.
  intros Hsnap Hs Hw. unfold summary_from_snapshot, summary_result.
  pose proof (wf_expected _ Hw). pose proof (received_bound r Hw). pose proof (wf_schema _ Hw).
  destruct (wf_totals _ Hw) as (Ht & Hsu & Hf). pose proof (wf_times _ Hw) as Htimes.
  rewrite !Forall_cons in Htimes. unfold exact_count, max_exact, lua_exact in *.
  assert (Z.of_nat (size (errors_of (r_accepted r))) <= 64 * 4096) as Hsize.
  { etrans; [apply errors_size_bound|unfold received in *; lia].
    eapply Forall_impl; [apply (wf_accepted _ Hw)|]. intros x Hx. apply (bl_contract _ _ Hx). }
  do 2 decode_step. rewrite status_of_text.
  destruct (summary_status (r_status r)) as [status|] eqn:Est; [|done].
  decode_by idtac. do 2 decode_step.
  decode_by ltac:(eapply check_slice_counts_of). decode_by ltac:(eapply stored_slices_of).
  rewrite size_slices, Z.eqb_refl, missing_of by done. decode_by idtac.
  rewrite (stored_histogram_of h r) by done. destruct (decodable r); [|done]. decode_by idtac.
  decode_by ltac:(eapply stored_errors_of). decode_step.
  rewrite error_entries_length, Z.eqb_refl. decode_by idtac.
  do 3 decode_step. decode_by ltac:(eapply check_counters_of).
  do 5 decode_step. done.
Qed.

Lemma durable_of_snapshot h r values op :
  snapshot_of h values -> stored h r -> wf r -> durable_summary_from_snapshot values op = durable_of op r.
Proof.
  intros Hsnap Hs Hw. unfold durable_summary_from_snapshot, durable_of.
  rewrite bool_decide_false by (by eapply snapshot_nonempty, stored_nonempty).
  do 2 decode_step.
  destruct (wf_revision _ Hw) as (Hr & Hr2 & _). pose proof (wf_open _ Hw) as Ho.
  destruct (decide (r_status r = StOpen)) as [E|Hne]; [by rewrite E, bool_decide_true|].
  rewrite bool_decide_false by done.
  assert (String.eqb (status_text (r_status r)) "open" = false /\ final_status (status_text (r_status r)) = true)
    as [-> ->] by (by destruct (r_status r)).
  decode_by idtac. do 3 decode_step.
  assert ((r_revision r =? 0) || (r_revision r <? r_revision r) || (r_revision r <? r_acked r) = false) as ->.
  { rewrite !orb_false_iff, Z.eqb_neq, !Z.ltb_ge. split_and!; [tauto|lia|lia]. }
  decode_by idtac. rewrite (summary_of_snapshot h r) by done.
  unfold summary_result. destruct (summary_status (r_status r)); [|done]. by destruct (decodable r).
Qed.

Lemma progress_of_snapshot h r values op :
  snapshot_of h values -> stored h r -> wf r ->
  progress values op = Ok (received r, r_expected r, status_text (r_status r)).
Proof.
  intros Hsnap Hs Hw. unfold progress.
  pose proof (wf_expected _ Hw). pose proof (received_bound r Hw).
  do 4 decode_step. by destruct (r_status r).
Qed.

Lemma finalized_status_text s op : finalized_status (status_text s) op = Ok (summary_status s).
Proof. by destruct s. Qed.
End decode.
