(* ===== verification/RunRefine.v ===== *)
(** * The aggregation store implements its specification

    Every script of the store, run on a database whose keys show an abstract
    ledger, replies as the specification says and leaves a database that shows
    the ledger of the specification; a lost reply leaves one of the two. *)

From S2P Require Import Prelude RustStr F64 Contracts Aggregation Lua Redis RedisMem Coordination Dispatch RunStore RunSummary RunLedger RunSpec RunDecode.

(** ** Numbers *)

Lemma number_stored h r f z dflt :
  stored h r -> In (f, show z) (run_fields r) -> 0 <= z <= 2 ^ 53 -> tonumber (default dflt (h !! f)) = Some z.
Proof. intros Hs Hin Hz. rewrite (stored_get h r f (show z)) by done. by apply tonumber_show. Qed.

Lemma status_stored h r : stored h r -> default EmptyString (h !! "status") = status_text (r_status r).
Proof. intros Hs. rewrite (stored_get h r "status" _ Hs) by in_fields. done. Qed.

Lemma shows_some b l r : shows b l -> bk_run l = Some r -> stored (bk_run b) r /\ wf r.
Proof. intros [Hr _] E. by rewrite E in Hr. Qed.

Lemma shows_none b l : shows b l -> bk_run l = None -> bk_run b = ∅.
Proof. intros [Hr _] E. by rewrite E in Hr. Qed.

(** A ledger whose run is [r'] is shown by a record that stores [r']. *)
Lemma shows_run b l h r : shows b l -> stored h r -> wf r -> shows (set_run h b) (set_run (Some r) l).
Proof. intros (_ & ? & ? & ? & ? & ?) Hs Hw. split; [done|]. by split_and!. Qed.

Ltac shows_tac :=
  match goal with
  | H : shows ?b ?l |- shows _ _ =>
      destruct b, l, H as (? & ? & ? & ? & ? & ?); cbn in *; subst; split; [assumption|done]
  end.

Section same_indexes.
Implicit Types (b : record) (l : ledger).

Lemma shows_persist b l i : shows b l -> shows (persist i b) (persist i l).
Proof. intros. shows_tac. Qed.

Lemma shows_expire b l i ms : shows b l -> shows (expire i ms b) (expire i ms l).
Proof. intros. shows_tac. Qed.

Lemma shows_prune b l : shows b l -> shows (prune b) (prune l).
Proof. intros. shows_tac. Qed.

Lemma shows_forget b l i : shows b l -> shows (forget i b) (forget i l).
Proof. intros. shows_tac. Qed.

Lemma shows_drop_deadline b l i : shows b l -> shows (drop_deadline i b) (drop_deadline i l).
Proof. intros. shows_tac. Qed.

Lemma shows_drop_outbox b l i : shows b l -> shows (drop_outbox i b) (drop_outbox i l).
Proof. intros. shows_tac. Qed.

Lemma shows_drop_active b l i : shows b l -> shows (drop_active i b) (drop_active i l).
Proof. intros. shows_tac. Qed.

Lemma shows_enqueue b l i : shows b l -> shows (enqueue i b) (enqueue i l).
Proof. intros. shows_tac. Qed.

Lemma shows_deadline b l i t :
  shows b l -> shows (set_deadlines (<[i := t]> (bk_deadlines b)) b) (set_deadlines (<[i := t]> (bk_deadlines l)) l).
Proof. intros. shows_tac. Qed.
End same_indexes.

#[export] Hint Resolve shows_persist shows_expire shows_prune shows_forget shows_drop_deadline
  shows_drop_outbox shows_drop_active shows_enqueue shows_deadline : pulse.

(** ** Running scripts on records *)

Ltac wp_step :=
  match goal with
  | |- wp _ (_ ≫= _) _ _ => apply wp_bind
  | |- wp _ (mret _) _ _ => apply wp_ret
  | |- wp _ (number (Some _)) _ _ => apply wp_number
  | |- wp _ (hget _ _) _ _ => apply wp_hget
  | |- wp _ (hget_number_or _ _ _) _ _ => apply wp_hget_number
  | |- wp _ (query (EXISTS _)) _ _ => apply wp_exists
  | |- wp _ (query_res (ZCARD _)) _ _ => apply wp_zcard
  | |- wp _ (HSET _ _) _ _ => apply wp_hset; [done|done|]
  | |- wp _ (PERSIST _) _ _ => apply wp_persist; [done|]
  | |- wp _ (PEXPIRE _ _) _ _ => apply wp_pexpire; [done|lia|]
  | |- wp _ (ZADD (k_deadlines _) _ _) _ _ => apply wp_zadd_deadlines; [done|]
  | |- wp _ (ZADD (k_outbox _) _ _) _ _ => apply wp_zadd_outbox; [done|]
  | |- wp _ (ZADD (k_active _) _ _) _ _ => apply wp_zadd_active; [done|]
  | |- wp _ (ZREM (k_deadlines _) _) _ _ => apply wp_zrem_deadlines; [done|]
  | |- wp _ (ZREM (k_outbox _) _) _ _ => apply wp_zrem_outbox; [done|]
  | |- wp _ (ZREM (k_active _) _) _ _ => apply wp_zrem_active; [done|]
  | |- wp _ (ZREMRANGEBYSCORE (k_active _) _) _ _ => apply wp_prune_active; [done|]
  | |- wp _ time_ms _ _ => apply wp_time; [done|]
  | |- wp _ (response _ _ _) _ _ => apply wp_response; intros values Hvalues
  end; cbv beta.

Ltac wp_steps := repeat wp_step.

Section scripts.
Context {db : Type} `{RedisLaws db}.
Variable ks : keys.
Hypothesis ks_distinct : keys_distinct ks.
Implicit Types (b : record) (l : ledger) (r : run) (i : string).

(** What every script assumes of the clock and of the retention. *)
Definition timely (b : record) (ms : Z) : Prop :=
  1 <= ms /\ 0 <= bk_now b /\ lua_exact (bk_now b) /\ bk_now b + ms <= max_exact.

Lemma refresh_stored_wp b r i ms now (Q : unit -> record -> Prop) :
  now = bk_now b -> stored (bk_run b) r -> 0 <= r_acked r <= r_revision r -> r_revision r <= 2 -> timely b ms ->
  Q tt (if r_acked r <? r_revision r then persist i b else expire i ms b) ->
  wp ks (refresh_retention (k_run ks) (k_active ks) i ms now) Q b.
Proof.
  intros -> Hs Hrev Hrev2 (Hms & Hn0 & Hnow & Hmax) HQ.
  unfold refresh_retention. do 2 wp_step.
  rewrite (number_stored _ r _ (r_revision r)) by (done || lia || in_fields). do 2 wp_step.
  rewrite (number_stored _ r _ (r_acked r)) by (done || lia || in_fields). wp_steps.
  destruct (r_acked r <? r_revision r); wp_steps; [exact HQ|].
  rewrite lua_add_exact by (unfold max_exact in *; lia).
  unfold keep_expiry. rewrite decide_False by (by eapply stored_nonempty). exact HQ.
Qed.

Lemma refresh_wp b l r i ms (Q : unit -> record -> Prop) :
  shows b l -> bk_run l = Some r -> timely b ms ->
  (forall b', shows b' (refresh i ms l) -> bk_run b' = bk_run b -> Q tt b') ->
  wp ks (refresh_retention (k_run ks) (k_active ks) i ms (bk_now b)) Q b.
Proof.
  intros Hsh Hr Ht HQ. destruct (shows_some b l r Hsh Hr) as [Hs Hw].
  destruct (wf_revision _ Hw) as (Hrev & Hrev2 & _). unfold refresh, unpublished in HQ. rewrite Hr in HQ.
  apply refresh_stored_wp with (r := r); [done..|].
  destruct (r_acked r <? r_revision r); apply HQ; (done || auto with pulse).
Qed.

Lemma exact_tostring z : 0 <= z <= 2 -> tostring z = show z.
Proof. intros. apply tostring_exact. unfold lua_exact. lia. Qed.

Lemma stored_finalize h r st now :
  stored h r -> 0 <= r_revision r <= 1 -> lua_exact now ->
  stored (hset_fields [("status", status_text st); ("finalized_at", tostring now);
                       ("summary_pending_revision", tostring (r_revision r + 1))]
            (<["summary_revision" := show (r_revision r + 1)]> h)) (finalize st now r).
Proof.
  intros Hs Hr Hn. rewrite (exact_tostring (r_revision r + 1)) by lia. rewrite tostring_exact by done.
  eapply stored_rewrite; [exact Hs| |done|by right|].
  - eapply same_named_trans; [|apply same_named_hset; by repeat constructor]. by apply same_named_insert.
  - plain_lookup; try reflexivity; eapply stored_get; try exact Hs; in_fields.
Qed.

Lemma wf_finalize r st now :
  wf r -> r_status r = StOpen -> st = StPartial \/ st = StTimedOut \/ st = StCancelled ->
  0 <= now -> lua_exact now -> wf (finalize st now r).
Proof.
  intros Hw Ho Hst Hz Hn. pose proof (proj1 (wf_open _ Hw) Ho) as Hr. pose proof (wf_status _ Hw) as Hc.
  pose proof (wf_times _ Hw) as Ht. rewrite !Forall_cons in Ht. destruct (wf_revision _ Hw) as (? & _).
  pose proof (wf_histogram _ Hw) as Hh. rewrite Ho in *.
  destruct Hw as [[? ? ? Ha] _]. split; [split; simpl; try done|].
  - eapply Forall_impl; [exact Ha|]. intros x []. by split.
  - rewrite <- Hc. naive_solver.
  - rewrite Hr. naive_solver.
  - rewrite !Forall_cons, Forall_nil. tauto.
  - split_and!; [lia|lia|lia|lia].
  - intros E. left. destruct (Hh E); [done|discriminate].
Qed.

Lemma finalize_wp b l r i st (Q : unit -> record -> Prop) :
  shows b l -> bk_run l = Some r -> 0 <= bk_now b -> lua_exact (bk_now b) -> r_revision r <= 1 ->
  wf (finalize st (bk_now b) r) ->
  (forall b', shows b' (publish i (finalize st (bk_now b) r) l) -> Q tt b') ->
  wp ks (finalize_status (k_run ks) (k_deadlines ks) (k_outbox ks) (k_active ks) i (status_text st) (bk_now b)) Q b.
Proof.
  intros Hsh Hr Hz Hn Hr1 Hwf HQ. destruct (shows_some b l r Hsh Hr) as [Hs Hw].
  destruct (wf_revision _ Hw) as (? & _).
  unfold finalize_status. wp_step.
  apply (wp_hincrby ks ks_distinct _ 1 (r_revision r)); [right; eapply stored_get; [exact Hs|in_fields]|lia|lia|].
  wp_steps. apply HQ.
  exact (shows_enqueue _ _ i (shows_run b l _ _ Hsh (stored_finalize _ r st (bk_now b) Hs ltac:(lia) Hn) Hwf)).
Qed.

Lemma forget_wp b l i (Q : unit -> record -> Prop) :
  shows b l -> (forall b', shows b' (forget i l) -> Q tt b') ->
  wp ks (forget_run (k_deadlines ks) (k_outbox ks) (k_active ks) i) Q b.
Proof. intros Hsh HQ. unfold forget_run. wp_steps. apply HQ. exact (shows_forget b l i Hsh). Qed.

Lemma keep_wp b l r i (Q : unit -> record -> Prop) :
  shows b l -> bk_run l = Some r ->
  (forall b', shows b' (keep i l) -> bk_run b' = bk_run b -> Q tt b') ->
  wp ks (keep_unpublished (k_run ks) (k_deadlines ks) (k_active ks) i) Q b.
Proof.
  intros Hsh Hr HQ. destruct (shows_some b l r Hsh Hr) as [Hs Hw].
  destruct (wf_revision _ Hw) as (Hrev & Hrev2 & _). unfold keep, unpublished in HQ.
  cbn [bk_run drop_deadline set_deadlines] in HQ. rewrite Hr in HQ.
  pose proof (shows_drop_deadline b l i Hsh) as Hd.
  unfold keep_unpublished. do 4 wp_step. cbn [bk_run set_deadlines].
  rewrite (number_stored _ r _ (r_revision r)) by (done || lia || in_fields). do 2 wp_step. cbn [bk_run set_deadlines].
  rewrite (number_stored _ r _ (r_acked r)) by (done || lia || in_fields). wp_steps.
  destruct (r_acked r <? r_revision r); wp_steps; apply HQ; try done.
  exact (shows_persist _ _ i Hd).
Qed.

(** The reply and the record a script ends with, given by the specification. *)
Definition yields {R A} (decode : R -> result RunAggregationStoreError A)
    (spec : result RunAggregationStoreError A * ledger) (reply : R) (b' : record) : Prop :=
  decode reply = spec.1 /\ shows b' spec.2.

Lemma status_tests s :
  final_status (status_text s) = negb (bool_decide (s = StOpen))
  /\ String.eqb (status_text s) "open" = bool_decide (s = StOpen).
Proof. by destruct s. Qed.

Lemma retention_valid b ms : timely b ms -> retention_invalid (tonumber (show ms)) (bk_now b) = false.
Proof.
  intros (? & ? & ? & ?). unfold max_exact in *. rewrite tonumber_show by lia. unfold retention_invalid, max_exact.
  rewrite lua_sub_exact by lia. rewrite orb_false_iff, !Z.ltb_ge. lia.
Qed.

Lemma present_false b l : shows b l -> bk_run l = None -> bool_decide (bk_run b <> ∅) = false.
Proof. intros Hsh E. apply bool_decide_eq_false. rewrite (shows_none b l Hsh E). tauto. Qed.

Lemma present_true b l r : shows b l -> bk_run l = Some r -> bool_decide (bk_run b <> ∅) = true.
Proof. intros Hsh E. apply bool_decide_eq_true. eapply stored_nonempty, shows_some; eauto. Qed.

Lemma shows_now b l : shows b l -> bk_now b = bk_now l.
Proof. by intros (_ & _ & _ & _ & _ & ?). Qed.

Lemma mark_expired_wp b l i ms :
  shows b l -> timely b ms ->
  wp ks (mark_expired_script (k_run ks) (k_deadlines ks) (k_outbox ks) (k_active ks) (show ms) i)
    (yields expiry_outcome (expire_spec i l)) b.
Proof.
  intros Hsh Ht. pose proof Ht as (Hms & Hn0 & Hnow & Hmax). unfold mark_expired_script, expire_spec. do 2 wp_step.
  destruct (bk_run l) as [r|] eqn:Hr.
  2:{ rewrite (present_false b l) by done. simpl negb. cbv iota. wp_step. apply forget_wp with (l := l); [done|].
      intros b' Hb'. wp_steps. by split. }
  rewrite (present_true b l r) by done. destruct (shows_some b l r Hsh Hr) as [Hs Hw]. simpl negb. cbv iota.
  do 2 wp_step. rewrite retention_valid by done. do 2 wp_step.
  rewrite (status_stored _ r Hs). destruct (status_tests (r_status r)) as [-> ->].
  case_bool_decide as Ho; simpl negb; cbv iota.
  - do 2 wp_step. pose proof (wf_times _ Hw) as Hti. rewrite !Forall_cons in Hti. unfold lua_exact in *.
    rewrite (number_stored _ r _ (r_deadline r)) by (done || lia || in_fields).
    rewrite (proj2 (Z.ltb_ge (r_deadline r) 0)) by lia. rewrite <- (shows_now b l Hsh).
    destruct (Z.ltb_spec (bk_now b) (r_deadline r)) as [Hlt|Hge]; wp_steps.
    + split; [|exact Hsh]. cbn [expiry_outcome fst]. rewrite lua_sub_exact, tostring_exact by (unfold lua_exact; lia).
      by rewrite parse_uint_show by mlia.
    + apply finalize_wp with (l := l) (r := r) (st := StTimedOut); try done.
      { pose proof (proj1 (wf_open _ Hw) Ho). lia. }
      { apply wf_finalize; try done. tauto. }
      intros b' Hb'. wp_steps. split; [|exact Hb']. destruct (shows_some b' _ _ Hb' eq_refl) as [Hs' Hw'].
      cbn [expiry_outcome fst]. simpl Z.eqb. cbv iota. by rewrite (summary_of_snapshot _ _ _ _ Hvalues Hs' Hw').
  - wp_step. apply keep_wp with (l := l) (r := r); [done..|]. intros b' Hb' Eb. wp_steps.
    split; [|exact Hb']. rewrite Eb in Hvalues. cbn [expiry_outcome fst]. simpl Z.eqb. cbv iota.
    by rewrite (summary_of_snapshot _ _ _ _ Hvalues Hs Hw).
Qed.

Lemma finalize_run_wp b l i st ms :
  shows b l -> timely b ms -> st = StPartial \/ st = StCancelled ->
  wp ks (finalize_script (k_run ks) (k_deadlines ks) (k_outbox ks) (k_active ks) (status_text st) (show ms) i)
    (yields finalization_outcome (finalize_spec i st l)) b.
Proof.
  intros Hsh Ht Hst. pose proof Ht as (Hms & Hn0 & Hnow & Hmax). unfold finalize_script, finalize_spec. do 2 wp_step.
  assert (negb (String.eqb (status_text st) "partial") && negb (String.eqb (status_text st) "cancelled") = false) as ->
    by (by destruct Hst as [-> | ->]).
  rewrite retention_valid by done. do 2 wp_step.
  destruct (bk_run l) as [r|] eqn:Hr.
  2:{ rewrite (present_false b l) by done. simpl negb. cbv iota. wp_step. apply forget_wp with (l := l); [done|].
      intros b' Hb'. wp_steps. by split. }
  rewrite (present_true b l r) by done. destruct (shows_some b l r Hsh Hr) as [Hs Hw]. simpl negb. cbv iota.
  do 2 wp_step. rewrite (status_stored _ r Hs). destruct (status_tests (r_status r)) as [-> ->].
  rewrite <- (shows_now b l Hsh). case_bool_decide as Ho; simpl negb; cbv iota; wp_step.
  - apply finalize_wp with (l := l) (r := r); try done.
    { pose proof (proj1 (wf_open _ Hw) Ho). lia. }
    { apply wf_finalize; try done. tauto. }
    intros b' Hb'. wp_steps. split; [|exact Hb']. destruct (shows_some b' _ _ Hb' eq_refl) as [Hs' Hw'].
    cbn [finalization_outcome fst]. simpl Z.eqb. cbv iota. by rewrite (summary_of_snapshot _ _ _ _ Hvalues Hs' Hw').
  - apply keep_wp with (l := l) (r := r); [done..|]. intros b' Hb' Eb. wp_steps.
    split; [|exact Hb']. rewrite Eb in Hvalues. cbn [finalization_outcome fst]. simpl Z.eqb. cbv iota.
    by rewrite (summary_of_snapshot _ _ _ _ Hvalues Hs Hw).
Qed.

(** *** Acknowledgements *)

Lemma stored_acked h r n :
  stored h r -> stored (hset_fields [("summary_ack_revision", show n)] h) (acked n r).
Proof.
  intros Hs. eapply stored_rewrite; [exact Hs| |done|by right|].
  - apply same_named_hset. by repeat constructor.
  - plain_lookup; try reflexivity; eapply stored_get; try exact Hs; in_fields.
Qed.

Lemma wf_acked r n : wf r -> r_acked r <= n <= r_revision r -> wf (acked n r).
Proof.
  intros Hw Hn. pose proof (wf_revision _ Hw) as (? & ? & ?). destruct Hw as [[? ? ? Ha] ?]. split; [split; simpl; try done|done].
  - eapply Forall_impl; [exact Ha|]. intros x []. by split.
  - split_and!; [lia|lia|lia|done].
Qed.

Lemma settle_wp b l r i ms (Q : unit -> record -> Prop) :
  shows b l -> bk_run l = Some r -> timely b ms ->
  (forall b', shows b' (settle i ms l) -> Q tt b') ->
  wp ks (settle_run (k_run ks) (k_outbox ks) (k_active ks) i ms) Q b.
Proof.
  intros Hsh Hr (Hms & Hn0 & Hnow & Hmax) HQ. unfold settle_run. wp_steps. apply HQ.
  rewrite lua_add_exact by (cbn [bk_now set_outbox set_expires]; unfold max_exact in *; lia).
  unfold keep_expiry. cbn [bk_run set_outbox].
  rewrite decide_False by (eapply stored_nonempty, (shows_some b l r); done).
  exact (shows_expire _ _ i ms (shows_drop_outbox b l i Hsh)).
Qed.

Lemma acknowledge_wp self b l i revision :
  shows b l -> timely b (retention_ms self) -> 1 <= revision <= 2 ^ 53 ->
  wp ks (acknowledge_script (k_run ks) (k_outbox ks) (k_active ks) (show revision) i (show (retention_ms self)))
    (yields acknowledgement_outcome (acknowledge_spec self i revision l)) b.
Proof.
  intros Hsh Ht Hrev. pose proof Ht as (Hms & Hn0 & Hnow & Hmax). unfold acknowledge_script, acknowledge_spec. do 2 wp_step.
  destruct (bk_run l) as [r|] eqn:Hr.
  2:{ rewrite (present_false b l) by done. simpl negb. cbv iota. wp_steps. split; [done|].
      exact (shows_drop_active _ _ i (shows_drop_outbox b l i Hsh)). }
  rewrite (present_true b l r) by done. destruct (shows_some b l r Hsh Hr) as [Hs Hw]. simpl negb. cbv iota.
  destruct (wf_revision _ Hw) as (Hr1 & Hr2 & _). do 6 wp_step.
  rewrite (number_stored _ r "summary_revision" (r_revision r)) by (done || lia || in_fields).
  rewrite (number_stored _ r "summary_ack_revision" (r_acked r)) by (done || lia || in_fields).
  rewrite (number_stored _ r "summary_pending_revision" (r_revision r)) by (done || lia || in_fields).
  rewrite !tonumber_show by (unfold max_exact in *; lia).
  rewrite (proj2 (Z.ltb_ge revision 1)), (proj2 (Z.ltb_ge (retention_ms self) 1)), (proj2 (Z.ltb_ge (r_acked r) 0)),
    (proj2 (Z.ltb_ge (r_revision r) 0)) by lia. rewrite !orb_false_r. simpl orb.
  destruct (Z.ltb_spec (r_revision r) 1); [wp_steps; by split|].
  destruct (Z.ltb_spec (r_revision r) revision); [wp_steps; by split|].
  destruct (Z.ltb_spec revision (r_revision r)) as [Hstale|Hcur].
  { wp_step. assert (decode : acknowledgement_outcome (3, r_revision r, EmptyString) = Ok (StaleAcknowledgement (r_revision r))).
    { cbn [acknowledgement_outcome]. simpl Z.eqb. cbv iota. by rewrite (proj2 (try_from_Some _ _ (r_revision r))) by mlia. }
    destruct (Z.ltb_spec (r_acked r) revision); wp_steps; split; try exact decode.
    - rewrite exact_tostring by lia. cbn [snd]. rewrite Z.max_r by lia.
      apply shows_run; [done|by apply stored_acked|]. apply wf_acked; [done|lia].
    - cbn [snd]. rewrite Z.max_l by lia.
      assert (acked (r_acked r) r = r) as -> by (by destruct r). destruct l; cbn in *; subst; done. }
  assert (revision = r_revision r) as -> by lia.
  destruct (Z.leb_spec (r_revision r) (r_acked r)) as [Hle|Hgt].
  { wp_step. apply settle_wp with (l := l) (r := r); [done..|]. intros b' Hb'. wp_steps. by split. }
  wp_steps. rewrite exact_tostring by lia. rewrite Z.eqb_refl.
  apply settle_wp with (l := set_run (Some (acked (r_revision r) r)) l) (r := acked (r_revision r) r); [|done|done|].
  - apply shows_run; [done|by apply stored_acked|]. apply wf_acked; [done|lia].
  - intros b' Hb'. wp_steps. by split.
Qed.

Lemma clean_wp b l i :
  shows b l ->
  wp ks (clean_outbox_script (k_run ks) (k_outbox ks) i) (fun _ b' => shows b' (clean_spec i l)) b.
Proof.
  intros Hsh. unfold clean_outbox_script, clean_spec, unpublished. do 2 wp_step.
  destruct (bk_run l) as [r|] eqn:Hr.
  2:{ rewrite (present_false b l) by done. simpl negb. cbv iota. wp_steps. exact (shows_drop_outbox b l i Hsh). }
  rewrite (present_true b l r) by done. destruct (shows_some b l r Hsh Hr) as [Hs Hw]. simpl negb. cbv iota.
  destruct (wf_revision _ Hw) as (Hr1 & Hr2 & _). do 2 wp_step.
  rewrite (number_stored _ r "summary_pending_revision" (r_revision r)) by (done || lia || in_fields). do 2 wp_step.
  rewrite (number_stored _ r "summary_ack_revision" (r_acked r)) by (done || lia || in_fields). wp_steps.
  destruct (Z.leb_spec (r_revision r) (r_acked r)), (Z.ltb_spec (r_acked r) (r_revision r)); try lia; wp_steps; [|done].
  exact (shows_drop_outbox b l i Hsh).
Qed.

(** *** Registration *)

Lemma stored_registered i scenario schema expected deadline :
  1 <= expected <= 4096 -> 0 <= deadline -> lua_exact deadline ->
  stored (hset_fields (registered_fields i scenario (show schema) expected deadline) ∅)
    (registered i scenario schema expected deadline).
Proof.
  intros He Hd Hx. apply stored_fresh; [done|by repeat constructor|]. unfold registered_fields.
  rewrite !tostring_exact by (done || unfold lua_exact; lia). plain_lookup; reflexivity.
Qed.

Lemma wf_registered i scenario schema expected deadline :
  1 <= expected <= 4096 -> in_range u16_max schema -> 0 <= deadline -> lua_exact deadline ->
  wf (registered i scenario schema expected deadline).
Proof.
  intros He Hs Hd Hx. split; [split; simpl; try done; try (by repeat constructor)|by left].
  - unfold received. simpl. split; [done|lia].
Qed.

Lemma register_wp b l i scenario schema expected deadline ms max_active :
  shows b l -> timely b ms -> 1 <= expected <= 4096 -> in_range u16_max schema ->
  0 <= deadline -> lua_exact deadline -> 1 <= max_active <= 2 ^ 53 ->
  wp ks (register_script (k_run ks) (k_deadlines ks) (k_active ks) i scenario (show schema) (show expected)
           (show deadline) (show ms) (show max_active))
    (fun reply b' => register_outcome reply = (register_spec i scenario schema expected deadline ms max_active l).1
       /\ shows b' (register_spec i scenario schema expected deadline ms max_active l).2) b.
Proof.
  intros Hsh Ht He Hsc Hd0 Hdx Hact. pose proof Ht as (Hms & Hn0 & Hnow & Hmax).
  unfold register_script, register_spec. unfold max_exact, lua_exact in *.
  rewrite !tonumber_show by lia. unfold max_exact.
  rewrite (proj2 (Z.ltb_ge expected 1)), (proj2 (Z.ltb_ge deadline 0)), (proj2 (Z.ltb_ge 9007199254740991 deadline)),
    (proj2 (Z.ltb_ge ms 1)), (proj2 (Z.ltb_ge max_active 1)) by lia. simpl orb. cbv iota. do 6 wp_step.
  pose proof (shows_prune b l Hsh) as Hp.
  change (set_active (filter (fun p => bk_now b < p.2) (bk_active b)) b) with (prune b).
  assert (timely (prune b) ms) as Ht' by done. cbn [bk_run prune set_active] in *.
  destruct (bk_run l) as [r|] eqn:Hr.
  - rewrite (present_true b l r) by done. destruct (shows_some b l r Hsh Hr) as [Hs Hw]. do 8 wp_step.
    cbn [bk_run prune set_active].
    pose proof (wf_expected _ Hw). rewrite (number_stored _ r "expected_slices" (r_expected r)) by (done || lia || in_fields).
    rewrite (stored_get _ r "run_id" _ Hs), (stored_get _ r "scenario_id" _ Hs), (stored_get _ r "schema_version" _ Hs) by in_fields.
    match goal with |- wp _ (if ?c then _ else _) _ _ => replace c with
      (negb (bool_decide (r_id r = i /\ r_scenario r = scenario /\ r_schema r = schema /\ r_expected r = expected))) end.
    2:{ rewrite <- !negb_andb. f_equal. rewrite <- !bool_decide_and. apply bool_decide_ext.
        split; [naive_solver|]. intros [[[? ?] Hsch] ?]. by simplify_eq. }
    case_bool_decide; simpl negb; cbv iota; wp_steps; [|by split].
    apply refresh_wp with (l := prune l) (r := r) (b := prune b); [done..|]. intros b' Hb' _. wp_steps. by split.
  - rewrite (present_false b l) by done. do 2 wp_step. rewrite <- (proj1 (proj2 (proj2 (proj2 (proj2 Hp))))).
    cbn [bk_active prune set_active]. destruct (max_active <=? _); [wp_steps; by split|].
    wp_steps. split; [done|]. cbn [snd]. rewrite lua_add_exact by (cbn; lia).
    unfold keep_expiry. cbn [bk_run set_run set_deadlines].
    pose proof (stored_registered i scenario schema expected deadline He Hd0 Hdx) as Hst.
    rewrite <- (shows_none b l Hsh Hr) in Hst.
    rewrite decide_False by (by eapply stored_nonempty).
    exact (shows_expire _ _ i ms (shows_deadline _ _ i deadline (shows_run _ _ _ _ Hp Hst
      (wf_registered i scenario schema expected deadline He Hsc Hd0 Hdx)))).
Qed.
End scripts.
