(* ===== verification/RunIngest.v ===== *)
(** * Merging a slice result

    [INGEST_SCRIPT] of [src/src/infrastructure/redis/aggregation.rs] implements
    the specification of [RunSpec]: the arguments a normalized result becomes,
    the identity checks, the exactness checks, the writes that merge the result,
    and completion. *)

From S2P Require Import Prelude RustStr F64 Contracts Aggregation Lua Redis RedisMem Coordination Dispatch RunStore RunSummary RunLedger RunSpec RunDecode RunRefine.

(** ** Arguments *)

Section arguments.
Implicit Types (head : list string) (counts : list Z) (es : list (string * Z)).

Definition argv_of head counts es : list string :=
  head ++ map show counts ++ [show (Z.of_nat (length es))] ++ concat (map (fun p => [p.1; show p.2]) es).

Lemma lookup_concat_pairs es (j : nat) :
  concat (map (fun p => [p.1; show p.2]) es) !! (2 * j)%nat = fst <$> es !! j
  /\ concat (map (fun p => [p.1; show p.2]) es) !! S (2 * j)%nat = show ∘ snd <$> es !! j.
Proof.
  revert j. induction es as [|p es IH]; intros j; [by rewrite !lookup_nil|]. destruct j as [|j]; [done|].
  replace (2 * S j)%nat with (S (S (2 * j))) by lia. simpl. apply IH.
Qed.

Context (head : list string) (counts : list Z) (es : list (string * Z)).
Hypothesis head_15 : length head = 15%nat.
Abbreviation argv := (argv_of head counts es).

Lemma argv_bucket (i : nat) : (i < length counts)%nat -> argv_at argv (16 + Z.of_nat i) = show <$> counts !! i.
Proof.
  intros Hi. unfold argv_at, argv_of. replace (Z.to_nat (16 + Z.of_nat i - 1)) with (length head + i)%nat by lia.
  rewrite lookup_app_r by lia. rewrite lookup_app_l by (rewrite length_map; lia).
  replace (length head + i - length head)%nat with i by lia. apply list_lookup_fmap.
Qed.

Lemma argv_pairs : argv_at argv (16 + Z.of_nat (length counts)) = Some (show (Z.of_nat (length es))).
Proof.
  unfold argv_at, argv_of.
  replace (Z.to_nat (16 + Z.of_nat (length counts) - 1)) with (length head + length (map show counts))%nat
    by (rewrite length_map; lia).
  rewrite lookup_app_r by lia. rewrite lookup_app_r by lia.
  replace (length head + length (map show counts) - length head - length (map show counts))%nat with 0%nat by lia. done.
Qed.

Lemma argv_tail (k : nat) :
  argv_at argv (16 + Z.of_nat (length counts) + 1 + Z.of_nat k) = concat (map (fun p => [p.1; show p.2]) es) !! k.
Proof.
  unfold argv_at, argv_of.
  replace (Z.to_nat (16 + Z.of_nat (length counts) + 1 + Z.of_nat k - 1))
    with (length head + (length (map show counts) + S k))%nat by (rewrite length_map; lia).
  rewrite lookup_app_r by lia. rewrite lookup_app_r by lia.
  replace (length head + (length (map show counts) + S k) - length head - length (map show counts))%nat
    with (S k) by lia. done.
Qed.

Lemma argv_kind (j : nat) :
  argv_at argv (16 + Z.of_nat (length counts) + 1 + Z.of_nat j * 2) = fst <$> es !! j.
Proof.
  replace (Z.of_nat j * 2) with (Z.of_nat (2 * j)) by lia. rewrite argv_tail. apply lookup_concat_pairs.
Qed.

Lemma argv_count (j : nat) :
  argv_at argv (16 + Z.of_nat (length counts) + 2 + Z.of_nat j * 2) = show ∘ snd <$> es !! j.
Proof.
  replace (16 + Z.of_nat (length counts) + 2 + Z.of_nat j * 2)
    with (16 + Z.of_nat (length counts) + 1 + Z.of_nat (S (2 * j))) by lia.
  rewrite argv_tail. apply lookup_concat_pairs.
Qed.
End arguments.

(** ** Normalized results *)

Section normalized.
Implicit Types (x : ScenarioRunResult) (m : gmap string Z) (l : list ErrorCount).

Definition error_pairs x : list (string * Z) := map (fun e => (error_kind e, error_count e)) (res_error_breakdown x).

Lemma normalize_errors_Ok l m m' :
  try_fold normalize_error m l = Ok m' ->
  m' = add_errors m l /\ Forall (fun e => error_count e <= max_exact) l.
Proof.
  revert m. induction l as [|e l IH]; intros m H; simpl in H.
  - injection H as <-. done.
  - apply bind_Ok in H as (m1 & H1 & H). unfold normalize_error, exact_result_integer in H1. inv_ok. bool_hyps.
    match goal with H : checked_add _ _ _ = Some _ |- _ => apply checked_add_Some in H as [-> _] end.
    subst m1. apply IH in H as [-> ?]. split; [done|]. constructor; [|done].
    unfold MAX_EXACT_LUA_INTEGER, MAX_CONTRACT_EXACT_INTEGER, max_exact in *. lia.
Qed.

Lemma add_errors_list l m :
  NoDup (map error_kind l) -> Forall (fun e => m !! error_kind e = None) l ->
  map_to_list (add_errors m l) ≡ₚ map_to_list m ++ map (fun e => (error_kind e, error_count e)) l.
Proof.
  revert m. induction l as [|e l IH]; intros m Hd Hm; [by rewrite app_nil_r|].
  apply NoDup_cons in Hd as [He Hd]. apply Forall_cons in Hm as [Hk Hm].
  change (add_errors m (e :: l)) with (add_errors (add_count m (error_kind e) (error_count e)) l).
  rewrite IH; [|done|].
  - unfold add_count. rewrite Hk. simpl default. rewrite map_to_list_insert by done. simpl.
    by rewrite <- Permutation_middle.
  - rewrite Forall_forall in Hm |- *. intros e' He'. unfold add_count.
    rewrite lookup_insert_ne; [by apply Hm|]. intros E. apply He. rewrite E. by apply elem_of_map; exists e'.
Qed.

(** What the arguments of the script say of the result. *)
Record normalized (self : RedisRunAggregationStore) x (n : NormalizedResult) : Prop := {
  nm_wide : result_wide x;
  nm_contract : result_contract x;
  nm_bounds : norm_histogram_bounds n = bounds_text (bounds_of x);
  nm_counts : norm_histogram_counts n = map bucket_count (res_latency_histogram x);
  nm_errors : norm_error_counts n ≡ₚ error_pairs x;
  nm_totals : exact_count (res_total x) /\ exact_count (res_success x) /\ exact_count (res_failure x);
  nm_exact_counts : Forall (fun b => exact_count (bucket_count b)) (res_latency_histogram x);
  nm_exact_errors : Forall (fun e => exact_count (error_count e)) (res_error_breakdown x);
  nm_kinds : Z.of_nat (length (res_error_breakdown x)) <= rs_max_error_kinds self;
}.

Lemma normalize_result_Ok self x n :
  result_wide x -> normalize_result self x = Ok n -> normalized self x n.
Proof.
  intros Hx H. pose proof Hx as [(Hs & Hf & Ht & _ & _ & He & Hh) _].
  unfold normalize_result, validate_identity, exact_result_integer, MAX_EXACT_LUA_INTEGER,
    MAX_CONTRACT_EXACT_INTEGER in H. inv_ok.
  match goal with H : ScenarioRunResult_validate x = Ok _ |- _ => apply result_contract_iff in H as Hc; [|by apply Hx] end.
  match goal with H : try_for _ _ = Ok _ |- _ => apply try_for_Ok in H as Hb end.
  match goal with H : try_fold normalize_error _ _ = Ok _ |- _ => apply normalize_errors_Ok in H as [-> Hec] end.
  bool_hyps. subst n. destruct (rc_errors _ Hc) as (_ & _ & Hd & _).
  split; simpl; try done.
  - unfold bounds_text, bounds_of. by rewrite map_map.
  - unfold btree_entries. rewrite merge_sort_Permutation.
    rewrite add_errors_list; [by rewrite map_to_list_empty|done|]. by apply Forall_forall; intros; rewrite lookup_empty.
  - unfold exact_count, max_exact. mlia.
  - apply Forall_forall. intros b Hin. rewrite Forall_forall in Hb, Hh. specialize (Hb b Hin). specialize (Hh b Hin).
    apply reject_if_Ok in Hb. unfold exact_count, max_exact. mlia.
  - apply Forall_forall. intros e Hin. rewrite Forall_forall in Hec, He. specialize (Hec e Hin). specialize (He e Hin).
    unfold exact_count. mlia.
Qed.
End normalized.

(** ** The arguments as the script reads them *)

(** A store whose limits were accepted, with durations of at least a
    millisecond. *)
Record store_ok (self : RedisRunAggregationStore) : Prop := {
  so_partial : 1 <= partial_ms self <= max_exact;
  so_retention : 1 <= retention_ms self <= max_exact;
  so_kinds : 1 <= rs_max_error_kinds self <= max_exact;
  so_active : 1 <= rs_max_active_runs self <= max_exact;
}.

Section reading.
Context (self : RedisRunAggregationStore) (x : ScenarioRunResult) (n : NormalizedResult).
Hypothesis Hself : store_ok self.
Hypothesis Hn : normalized self x n.

Definition nbuckets : Z := Z.of_nat (length (res_latency_histogram x)).
Definition nerrors : Z := Z.of_nat (length (norm_error_counts n)).
Definition locals_of : ingest_locals :=
  mkLocals (res_scenario_id x) (res_run_id x) (show (res_schema_version x)) (total (res_slice x)) (slice_of x)
    (res_execution_key x) (bounds_text (bounds_of x)) (res_total x) (res_success x) (res_failure x)
    (retention_ms self) (rs_max_error_kinds self) (rs_max_active_runs self) (partial_ms self) nbuckets.

Abbreviation argv := (ingest_argv self x n (retention_ms self) (partial_ms self)).

Lemma result_small : 0 <= slice_of x < total (res_slice x) /\ 1 <= total (res_slice x) <= 4096 /\ nbuckets <= 128.
Proof.
  pose proof (nm_wide _ _ _ Hn) as [(_ & _ & _ & Hi & Ht & _) _]. pose proof (nm_contract _ _ _ Hn) as Hc.
  destruct (rc_slice _ Hc) as [? ?]. destruct (rc_histogram _ Hc) as [? _]. unfold slice_of, nbuckets. mlia.
Qed.

Lemma locals_accepted now : 0 <= now -> now + partial_ms self <= max_exact ->
  ingest_arguments argv now = Some locals_of.
Proof.
  intros H0 Hnow. unfold ingest_arguments, narg.
  repeat match goal with
  | |- context [argv_at argv ?k] =>
      let e := eval hnf in (argv_at argv k) in change (argv_at argv k) with e
  end.
  destruct Hself as [[? ?] [? ?] [? ?] [? ?]]. destruct (nm_totals _ _ _ Hn) as ([? ?] & [? ?] & [? ?]).
  destruct result_small as (? & ? & ?). unfold nbuckets in *.
  pose proof (rc_outcomes _ (nm_contract _ _ _ Hn)) as Hout. unfold max_exact, slice_of in *.
  unfold mbind, option_bind. rewrite (nm_bounds _ _ _ Hn), (nm_counts _ _ _ Hn), length_map.
  rewrite !tonumber_show by lia.
  match goal with |- (if ?c then _ else _) = _ => assert (c = true) as -> end; [|done].
  unfold number_within, max_exact. rewrite lua_add_exact, lua_sub_exact by lia.
  rewrite !andb_true_iff, !Z.leb_le, Z.ltb_lt, Z.eqb_eq. lia.
Qed.

Lemma bucket_argument (i : nat) b :
  res_latency_histogram x !! i = Some b ->
  argv_at argv (16 + Z.of_nat i) = Some (show (bucket_count b))
  /\ bucket_arg argv (Z.of_nat i) = Some (bucket_count b) /\ exact_count (bucket_count b).
Proof.
  intros Hb. pose proof (Forall_lookup_1 _ _ _ _ (nm_exact_counts _ _ _ Hn) Hb) as [? ?].
  assert (argv_at argv (16 + Z.of_nat i) = Some (show (bucket_count b))) as Ha.
  { change argv with (argv_of (take 15 argv) (norm_histogram_counts n) (norm_error_counts n)).
    rewrite argv_bucket; rewrite ?(nm_counts _ _ _ Hn), ?length_map; [|done|by eapply lookup_lt_Some].
    by rewrite list_lookup_fmap, Hb. }
  split; [done|]. split; [|done]. unfold bucket_arg, narg. rewrite Ha. unfold max_exact in *.
  simpl. rewrite tonumber_show by lia. done.
Qed.

Lemma pairs_argument : narg argv (error_count_index locals_of) = Some nerrors.
Proof.
  unfold narg, error_count_index. simpl il_buckets. unfold nbuckets.
  change argv with (argv_of (take 15 argv) (norm_histogram_counts n) (norm_error_counts n)).
  replace (length (res_latency_histogram x)) with (length (norm_histogram_counts n))
    by (by rewrite (nm_counts _ _ _ Hn), length_map).
  rewrite argv_pairs by done. simpl. apply tonumber_show. unfold nerrors.
  rewrite (nm_errors _ _ _ Hn). unfold error_pairs. rewrite length_map.
  destruct (rc_errors _ (nm_contract _ _ _ Hn)) as [? _]. lia.
Qed.

Lemma error_argument (j : nat) k c :
  norm_error_counts n !! j = Some (k, c) ->
  kind_arg argv locals_of (Z.of_nat j) = Some k /\ count_arg argv locals_of (Z.of_nat j) = Some c
  /\ argv_at argv (error_count_index locals_of + 2 + Z.of_nat j * 2) = Some (show c) /\ exact_count c.
Proof.
  intros Hj. assert (exact_count c) as Hc.
  { apply list_elem_of_lookup_2 in Hj. rewrite (nm_errors _ _ _ Hn) in Hj. apply elem_of_map in Hj as (e & [= -> ->] & He).
    eapply (proj1 (Forall_forall _ _) (nm_exact_errors _ _ _ Hn) e He). }
  unfold kind_arg, count_arg, narg, error_count_index. simpl il_buckets. unfold nbuckets.
  change argv with (argv_of (take 15 argv) (norm_histogram_counts n) (norm_error_counts n)).
  replace (length (res_latency_histogram x)) with (length (norm_histogram_counts n))
    by (by rewrite (nm_counts _ _ _ Hn), length_map).
  rewrite argv_kind, !argv_count by done. rewrite Hj. simpl. destruct Hc. unfold max_exact in *.
  rewrite tonumber_show by lia. done.
Qed.
End reading.

(** ** Loops *)

Section loops.
Context {db : Type} `{RedisLaws db}.
Variable ks : keys.
Hypothesis ks_distinct : keys_distinct ks.
Implicit Types (b : record) (h : gmap string string).

(** The loop over the positions of a list, with an invariant on the part done. *)
Lemma wp_positions {T A} (l : list A) (body : T -> Z -> Script db T)
    (inv : list A -> T -> record -> Prop) s (Q : T -> record -> Prop) b :
  inv [] s b ->
  (forall before a after s b, l = before ++ a :: after -> inv before s b ->
     wp ks (body s (Z.of_nat (length before))) (fun s' b' => inv (before ++ [a]) s' b') b) ->
  (forall s' b', inv l s' b' -> Q s' b') ->
  wp ks (script_fold body s (rangeZ (Z.of_nat (length l)))) Q b.
Proof.
  intros Hinit Hstep HQ. unfold rangeZ. rewrite Nat2Z.id.
  assert (forall after before s b, l = before ++ after -> inv before s b ->
    wp ks (script_fold body s (map Z.of_nat (seq (length before) (length after)))) Q b) as Hloop.
  { induction after as [|a after IH]; intros before s' b' El Hi; simpl.
    - apply wp_ret. rewrite app_nil_r in El. subst. by apply HQ.
    - apply wp_bind. eapply wp_mono; [by eapply Hstep|]. cbv beta. intros s2 b2 Hi2.
      replace (S (length before)) with (length (before ++ [a])) by (rewrite length_app; simpl; lia).
      apply IH; [by rewrite <- app_assoc|done]. }
  by apply (Hloop l [] s b).
Qed.

Definition reads h f (c : Z) : Prop := h !! f = None /\ c = 0 \/ h !! f = Some (show c).

Lemma reads_number h f c : reads h f c -> 0 <= c <= 2 ^ 53 -> tonumber (default "0" (h !! f)) = Some c.
Proof. intros [[-> ->] | ->] Hc; [done|]. by apply tonumber_show. Qed.

Lemma sum_is_exact_wp b f c amount (Q : bool -> record -> Prop) :
  reads (bk_run b) f c -> exact_count c -> exact_count amount ->
  Q (negb (over_limit c amount)) b -> wp ks (sum_is_exact (k_run ks) f (Some amount)) Q b.
Proof.
  unfold exact_count, max_exact. intros Hr Hc Ha HQ. unfold sum_is_exact. do 2 wp_step. rewrite (reads_number _ _ c) by (done || lia).
  unfold max_exact. rewrite (proj2 (Z.leb_le 0 c)), (proj2 (Z.leb_le c _)) by lia. simpl andb. cbv iota. wp_steps.
  rewrite lua_sub_exact by lia. unfold over_limit, max_exact in HQ.
  destruct (Z.ltb_spec 9007199254740991 (c + amount)), (Z.leb_spec amount (9007199254740991 - c)); try lia; exact HQ.
Qed.

Lemma all_exact_wp {A} b (l : list A) (F : A -> option string * option Z) (field : A -> string) (old amount : A -> Z)
    (Q : bool -> record -> Prop) :
  (forall i, i ∈ l -> F i = (Some (field i), Some (amount i)) /\ reads (bk_run b) (field i) (old i)
                      /\ exact_count (old i) /\ exact_count (amount i)) ->
  Q (forallb (fun i => negb (over_limit (old i) (amount i))) l) b ->
  wp ks (all_exact (k_run ks) (map F l)) Q b.
Proof.
  intros Hl. induction l as [|i l IH]; intros HQ; [by apply wp_ret|].
  destruct (Hl i) as (HF & ? & ? & ?); [constructor|]. simpl in HQ. simpl map. rewrite HF. cbn [all_exact]. wp_step.
  apply (sum_is_exact_wp b _ (old i)); [done..|]. destruct (over_limit _ _); simpl in HQ |- *; [by wp_steps|].
  apply IH; [|done]. intros. apply Hl. by constructor.
Qed.

Lemma hincrby_arg_wp b f amount c (Q : Z -> record -> Prop) :
  reads (bk_run b) f c -> exact_count c -> exact_count amount ->
  Q (c + amount) (set_run (<[f := show (c + amount)]> (bk_run b)) b) ->
  wp ks (hincrby_arg (k_run ks) f (Some (show amount))) Q b.
Proof.
  unfold exact_count, max_exact. intros Hr Hc Ha HQ. unfold hincrby_arg. wp_step.
  apply wp_read. intros d Hd. exists amount. split; [apply int_arg_show; lia|].
  apply (wp_hincrby ks ks_distinct f amount c); [exact Hr|lia|lia|exact HQ].
Qed.
End loops.

(** ** The writes *)

Definition lat (i : nat) : string := "latency:" +:+ show (Z.of_nat i).

Lemma lat_inj i j : lat i = lat j -> i = j.
Proof. intros E%str_app_inj_l%show_inj. lia. Qed.

Definition add_pairs (m : gmap string Z) (es : list (string * Z)) : gmap string Z :=
  foldl (fun m p => add_count m p.1 p.2) m es.

Lemma add_errors_pairs m x : add_errors m (res_error_breakdown x) = add_pairs m (error_pairs x).
Proof. unfold add_errors, add_pairs, error_pairs. by rewrite foldl_fmap. Qed.

Lemma add_count_comm m k1 n1 k2 n2 :
  add_count (add_count m k1 n1) k2 n2 = add_count (add_count m k2 n2) k1 n1.
Proof.
  unfold add_count. apply map_eq. intros k. rewrite !lookup_insert. repeat case_decide; subst; simplify_eq; try done.
  simpl. f_equal. lia.
Qed.

Lemma add_pairs_perm es1 es2 m : es1 ≡ₚ es2 -> add_pairs m es1 = add_pairs m es2.
Proof.
  intros Hp. revert m. induction Hp as [|p l1 l2 _ IH|p q l|l1 l2 l3 _ IH1 _ IH2]; intros m; [done|apply IH| |].
  - unfold add_pairs. simpl. by rewrite add_count_comm.
  - by rewrite IH1.
Qed.

Lemma add_pairs_other m es k : k ∉ map fst es -> add_pairs m es !! k = m !! k.
Proof.
  revert m. induction es as [|p es IH]; intros m Hk; [done|]. apply not_elem_of_cons in Hk as [? Hk].
  change (add_pairs m (p :: es)) with (add_pairs (add_count m p.1 p.2) es). rewrite IH by done.
  unfold add_count. by rewrite lookup_insert_ne.
Qed.

Section merging.
Context {db : Type} `{RedisLaws db}.
Variable ks : keys.
Hypothesis ks_distinct : keys_distinct ks.
Context (self : RedisRunAggregationStore) (x : ScenarioRunResult) (n : NormalizedResult).
Hypothesis Hself : store_ok self.
Hypothesis Hn : normalized self x n.
Implicit Types (b : record) (h : gmap string string) (r : run).
Abbreviation argv := (ingest_argv self x n (retention_ms self) (partial_ms self)).
Abbreviation ls := (locals_of self x).

Lemma latency_field_nat (i : nat) : (i < 128)%nat -> latency_field (Z.of_nat i) = lat i.
Proof. intros Hi. unfold latency_field, lat. rewrite tostring_exact; [done|]. unfold lua_exact. lia. Qed.

(** The fields after the first [k] buckets. *)
Definition buckets_done (old : nat -> Z) h (k : nat) h' : Prop :=
  (forall i, (i < k)%nat -> h' !! lat i = Some (show (old i + bucket_at x i)))
  /\ forall f, (forall i, (i < k)%nat -> f <> lat i) -> h' !! f = h !! f.

Lemma latency_loop_wp b (old : nat -> Z) (Q : unit -> record -> Prop) :
  (forall i, (i < length (res_latency_histogram x))%nat -> reads (bk_run b) (lat i) (old i) /\ exact_count (old i)) ->
  (forall h', buckets_done old (bk_run b) (length (res_latency_histogram x)) h' -> Q tt (set_run h' b)) ->
  wp ks (script_for (fun i => hincrby_arg (k_run ks) (latency_field i) (argv_at argv (16 + i));; mret tt)
           (rangeZ (nbuckets x))) Q b.
Proof.
  intros Hold HQ. unfold script_for, nbuckets.
  apply (wp_positions ks (res_latency_histogram x) _
    (fun before _ b' => exists h', b' = set_run h' b /\ buckets_done old (bk_run b) (length before) h')).
  - exists (bk_run b). split; [by destruct b|]. split; [simpl; intros; lia|done].
  - intros before bk after _ b' El (h' & -> & Hdone). remember (length before) as i eqn:Ei.
    assert (res_latency_histogram x !! i = Some bk) as Hi by (subst i; rewrite El; by apply list_lookup_middle).
    assert (i < length (res_latency_histogram x))%nat as Hlt by (by eapply lookup_lt_Some).
    destruct (bucket_argument self x n Hn i bk Hi) as (Ha & _ & Hx). rewrite Ha.
    destruct (result_small self x n Hn) as (_ & _ & Hsm). unfold nbuckets in Hsm.
    rewrite latency_field_nat by lia. destruct (Hold i Hlt) as [Hr Hox]. destruct Hdone as [Hd1 Hd2].
    wp_step. apply (hincrby_arg_wp ks ks_distinct _ _ _ (old i)); [|done..|].
    { unfold reads in *. simpl. rewrite Hd2; [exact Hr|]. intros j Hj E%lat_inj. lia. }
    wp_steps. eexists. split; [reflexivity|]. rewrite length_app, <- Ei. simpl length. split.
    + intros j Hj. simpl. destruct (decide (j = i)) as [->|Hne].
      * rewrite lookup_insert_eq. unfold bucket_at. by rewrite Hi.
      * rewrite lookup_insert_ne; [apply Hd1; lia|]. by intros E%lat_inj.
    + intros f Hf. simpl. rewrite lookup_insert_ne; [|intros E; apply (Hf i); [lia|done]].
      apply Hd2. intros j Hj. apply Hf. lia.
  - intros [] b' (h' & -> & Hd). by apply HQ.
Qed.

(** The fields after some of the errors. *)
Definition errors_done (m0 : gmap string Z) h (es : list (string * Z)) h' : Prop :=
  (forall k, h' !! error_field k = show <$> add_pairs m0 es !! k)
  /\ h' !! "error_kind_count" = Some (show (Z.of_nat (size (add_pairs m0 es))))
  /\ forall f, f <> "error_kind_count" -> strip_prefix "error:" f = None -> h' !! f = h !! f.

Lemma error_step_wp b m k c (Q : unit -> record -> Prop) :
  (forall k, bk_run b !! error_field k = show <$> m !! k) ->
  bk_run b !! "error_kind_count" = Some (show (Z.of_nat (size m))) -> Z.of_nat (size m) <= max_exact ->
  exact_count (default 0 (m !! k)) -> exact_count c ->
  (forall h', errors_done m (bk_run b) [(k, c)] h' -> Q tt (set_run h' b)) ->
  wp ks (known ← query_res (HEXISTS (k_run ks) (error_field k));
         (if known : bool then mret tt else HINCRBY (k_run ks) "error_kind_count" 1;; mret tt);;
         hincrby_arg (k_run ks) (error_field k) (Some (show c));; mret tt) Q b.
Proof.
  intros Hm Hkc Hsz Hd Hc HQ. wp_step. apply wp_hexists. rewrite Hm.
  assert (forall h0, (forall f, f <> "error_kind_count" -> h0 !! f = bk_run b !! f) ->
    h0 !! "error_kind_count" = Some (show (Z.of_nat (size (add_count m k c)))) ->
    errors_done m (bk_run b) [(k, c)] (<[error_field k := show (default 0 (m !! k) + c)]> h0)) as Hgoal.
  { intros h0 Ho Hk. unfold errors_done, add_pairs. simpl foldl. split_and!.
    - intros k'. unfold add_count. destruct (decide (k' = k)) as [->|Hne]; [by rewrite !lookup_insert_eq|].
      rewrite !lookup_insert_ne; [by rewrite Ho, Hm|done|]. by intros E%str_app_inj_l.
    - rewrite lookup_insert_ne by done. exact Hk.
    - intros f Hf Hp. rewrite lookup_insert_ne by (intros <-; by rewrite strip_prefix_app in Hp). by apply Ho. }
  unfold add_count in Hgoal. rewrite map_size_insert in Hgoal.
  destruct (m !! k) as [o|] eqn:Ek; simpl in Hd.
  - rewrite bool_decide_true by eauto. wp_steps. apply (hincrby_arg_wp ks ks_distinct _ _ _ o); [|done..|].
    { right. by rewrite Hm, Ek. }
    wp_steps. apply HQ. by apply Hgoal.
  - rewrite bool_decide_false by (by intros []). wp_step. wp_step. unfold max_exact in *.
    apply (wp_hincrby ks ks_distinct _ 1 (Z.of_nat (size m))); [by right|lia|lia|]. wp_steps.
    apply (hincrby_arg_wp ks ks_distinct _ _ _ 0); [|done..|].
    { left. simpl. rewrite lookup_insert_ne by done. by rewrite Hm, Ek. }
    wp_steps. apply (HQ (<[error_field k := show (0 + c)]> (<["error_kind_count" := show (Z.of_nat (size m) + 1)]> (bk_run b)))).
    apply Hgoal.
    + intros f Hf. by rewrite lookup_insert_ne.
    + rewrite lookup_insert_eq. do 2 f_equal. lia.
Qed.

Lemma size_add_pairs m es : Z.of_nat (size (add_pairs m es)) <= Z.of_nat (size m) + Z.of_nat (length es).
Proof.
  revert m. induction es as [|p es IH]; intros m; [simpl; lia|].
  change (add_pairs m (p :: es)) with (add_pairs (add_count m p.1 p.2) es). etrans; [apply IH|].
  unfold add_count. rewrite map_size_insert. simpl length. destruct (m !! p.1); simpl; lia.
Qed.

Lemma kinds_distinct : NoDup (map fst (norm_error_counts n)).
Proof.
  rewrite (nm_errors _ _ _ Hn). unfold error_pairs. rewrite map_map. simpl.
  apply (rc_errors _ (nm_contract _ _ _ Hn)).
Qed.

Lemma error_loop_wp b m (Q : unit -> record -> Prop) :
  (forall k, bk_run b !! error_field k = show <$> m !! k) ->
  bk_run b !! "error_kind_count" = Some (show (Z.of_nat (size m))) ->
  Z.of_nat (size m) + nerrors n <= max_exact ->
  (forall k, exact_count (default 0 (m !! k))) ->
  (forall h', errors_done m (bk_run b) (norm_error_counts n) h' -> Q tt (set_run h' b)) ->
  wp ks (script_for (merge_error (k_run ks) argv ls) (rangeZ (nerrors n))) Q b.
Proof.
  intros Hm Hkc Hsz Hold HQ. unfold script_for, nerrors in *.
  apply (wp_positions ks (norm_error_counts n) _
    (fun before _ b' => exists h', b' = set_run h' b /\ errors_done m (bk_run b) before h')).
  - exists (bk_run b). split; [by destruct b|]. done.
  - intros before [k c] after _ b' El (h' & -> & Hd1 & Hd2 & Hd3).
    assert (norm_error_counts n !! length before = Some (k, c)) as Hi by (rewrite El; by apply list_lookup_middle).
    destruct (error_argument self x n Hn _ k c Hi) as (Hk & _ & Ha & Hx).
    unfold merge_error. rewrite Hk, Ha.
    pose proof kinds_distinct as Hnd. rewrite El, map_app in Hnd. apply NoDup_app in Hnd as (_ & Hfresh & _).
    assert (k ∉ map fst before) as Hkb by (intros Hin; apply (Hfresh k Hin); constructor).
    apply (error_step_wp (set_run h' b) (add_pairs m before)); [done|done| | |done|].
    + etrans; [apply size_add_pairs|]. apply lookup_lt_Some in Hi. lia.
    + by rewrite add_pairs_other.
    + intros h2 (He1 & He2 & He3). exists h2. split; [done|]. unfold errors_done.
      assert (add_pairs m (before ++ [(k, c)]) = add_pairs (add_pairs m before) [(k, c)]) as ->
        by (unfold add_pairs; by rewrite foldl_app).
      split_and!; [done|done|]. intros f Hf Hp. rewrite He3 by done. by apply Hd3.
  - intros [] b' (h' & -> & Hd). by apply HQ.
Qed.

(** A result that may join the run: nothing of it was accepted before and the
    sums stay exact. *)
Record joins r : Prop := {
  jn_sane : sane r;
  jn_belongs : belongs r x;
  jn_slice : owner_of (r_accepted r) (slice_of x) = None;
  jn_execution : slice_for (r_accepted r) (res_execution_key x) = None;
  jn_total : exact_count (sum_of res_total (r_accepted r) + res_total x);
  jn_success : exact_count (sum_of res_success (r_accepted r) + res_success x);
  jn_failure : exact_count (sum_of res_failure (r_accepted r) + res_failure x);
  jn_buckets i : exact_count (bucket_total (r_accepted r) i + bucket_at x i);
  jn_errors e : e ∈ res_error_breakdown x ->
    exact_count (default 0 (errors_of (r_accepted r) !! error_kind e) + error_count e);
}.

Lemma errors_after r :
  errors_of (r_accepted r ++ [x]) = add_pairs (errors_of (r_accepted r)) (norm_error_counts n).
Proof. rewrite errors_of_snoc, add_errors_pairs. symmetry. apply add_pairs_perm, (nm_errors _ _ _ Hn). Qed.

(** The first writes of the merge. *)
Definition counted h r : gmap string string :=
  <["failure" := show (sum_of res_failure (r_accepted r) + res_failure x)]>
  (<["success" := show (sum_of res_success (r_accepted r) + res_success x)]>
  (<["total" := show (sum_of res_total (r_accepted r) + res_total x)]>
  (<["received_slices" := show (received r + 1)]>
  (<["execution:" +:+ res_execution_key x := show (slice_of x)]>
  (<["slice:" +:+ show (slice_of x) := res_execution_key x]> h))))).

(** The last ones. *)
Definition dated h r now : gmap string string :=
  let h := if r_first r =? 0 then <["first_result_at" := show now]> h else h in
  if r_last r <? now then <["last_result_at" := show now]> h else h.

Lemma dated_other h r now f : f <> "first_result_at" -> f <> "last_result_at" -> dated h r now !! f = h !! f.
Proof. intros. unfold dated. destruct (_ =? _), (_ <? _); by rewrite ?lookup_insert_ne. Qed.

Ltac skip_inserts := repeat first [rewrite lookup_insert_eq | rewrite lookup_insert_ne by discriminate].

Lemma stored_merge h h1 h2 r now :
  stored h r -> joins r ->
  buckets_done (bucket_total (r_accepted r)) (counted h r) (length (res_latency_histogram x)) h1 ->
  errors_done (errors_of (r_accepted r)) h1 (norm_error_counts n) h2 ->
  stored (dated h2 r now) (accept x now r).
Proof.
  intros Hs Hj [Hb1 Hb2] (He1 & He2 & He3).
  assert (forall f, f <> "first_result_at" -> f <> "last_result_at" -> f <> "error_kind_count" ->
    strip_prefix "error:" f = None -> strip_prefix "latency:" f = None -> dated h2 r now !! f = counted h r !! f) as Hsame.
  { intros f ? ? ? ? Hl. rewrite dated_other, He3 by done. apply Hb2.
    intros i _ ->. unfold lat in Hl. by rewrite strip_prefix_app in Hl. }
  assert (length (r_bounds r) = length (res_latency_histogram x)) as Hlen.
  { rewrite <- (bl_bounds _ _ (jn_belongs _ Hj)). unfold bounds_of. by rewrite length_map. }
  split; cbn [accept r_accepted r_bounds].
  - assert (h2 !! "first_result_at" = Some (show (r_first r)) /\ h2 !! "last_result_at" = Some (show (r_last r))) as [Hf Hl].
    { rewrite !He3, !Hb2 by (done || by intros). unfold counted. skip_inserts. split; eapply stored_get; try exact Hs; in_fields. }
    unfold run_fields, accept, received. cbn [r_scenario r_id r_schema r_expected r_bounds r_status r_accepted r_first r_last
      r_deadline r_finalized r_revision r_acked].
    rewrite !sum_of_snoc, length_app, errors_after. cbn [length].
    repeat (apply Forall_cons; split; [cbn [fst snd]|]); try (by apply Forall_nil);
      try (rewrite Hsame by done; unfold counted; skip_inserts; first [reflexivity | eapply stored_get; [exact Hs|in_fields]]).
    + rewrite Hsame by done. unfold counted. skip_inserts. unfold received. do 2 f_equal. lia.
    + by rewrite dated_other, He2.
    + unfold dated. destruct (_ =? _), (_ <? _); skip_inserts; (reflexivity || done).
    + unfold dated. destruct (_ =? _), (Z.ltb_spec (r_last r) now); skip_inserts;
        rewrite ?Hl; do 2 f_equal; lia.
  - intros i. rewrite Hsame by done. rewrite owner_of_snoc by apply Hj. unfold counted. skip_inserts.
    case_decide as Hi; [by rewrite <- Hi, lookup_insert_eq|].
    rewrite lookup_insert_ne; [apply (st_slice _ _ Hs)|]. by intros E%str_app_inj_l%show_inj.
  - intros s v. rewrite Hsame by done. unfold counted. skip_inserts. destruct (decide (s = show (slice_of x))) as [->|Hne].
    + intros _. exists (slice_of x). destruct (result_small self x n Hn) as [[? ?] _]. done.
    + rewrite lookup_insert_ne by (by intros E%str_app_inj_l). apply (st_slice_only _ _ Hs).
  - intros k. rewrite Hsame by done. rewrite slice_for_snoc by apply Hj. unfold counted. skip_inserts.
    case_decide as Hk; [subst k; by rewrite lookup_insert_eq|].
    rewrite lookup_insert_ne by (by intros E%str_app_inj_l). skip_inserts. apply (st_execution _ _ Hs).
  - intros i. fold (lat i). rewrite dated_other, He3 by done. rewrite bucket_total_snoc.
    destruct (decide (length (r_bounds r) <= i)%nat) as [Hi|Hi].
    + rewrite decide_True by tauto. rewrite Hb2 by (intros j Hji E%lat_inj; lia).
      unfold counted, lat. skip_inserts. rewrite (st_latency _ _ Hs). by rewrite decide_True by tauto.
    + rewrite decide_False by (intros [E|?]; [by destruct (r_accepted r)|done]). apply Hb1. lia.
  - intros k. rewrite dated_other by done. rewrite errors_after. apply He1.
Qed.

Lemma exact_add a c : exact_count a -> exact_count c -> exact_count (a + c) \/ over_limit a c = true.
Proof. unfold exact_count, over_limit. intros. destruct (Z.ltb_spec max_exact (a + c)); [by right|left; lia]. Qed.

Lemma error_exact r k : sane r -> exact_count (default 0 (errors_of (r_accepted r) !! k)).
Proof.
  intros Hw. destruct (errors_of (r_accepted r) !! k) as [c|] eqn:E; simpl; [by apply (wf_errors _ Hw k)|].
  unfold exact_count, max_exact. lia.
Qed.

Lemma accepted_contracts r : sane r -> Forall result_contract (r_accepted r).
Proof. intros Hw. eapply Forall_impl; [apply (wf_accepted _ Hw)|]. intros y Hy. apply (bl_contract _ _ Hy). Qed.

Lemma bucket_reads h r i :
  stored h r -> bounds_of x = r_bounds r -> (i < length (res_latency_histogram x))%nat ->
  reads h (lat i) (bucket_total (r_accepted r) i).
Proof.
  intros Hs Hb Hi. unfold reads, lat. rewrite (st_latency _ _ Hs).
  assert (length (r_bounds r) = length (res_latency_histogram x)) as Hl
    by (rewrite <- Hb; unfold bounds_of; by rewrite length_map).
  destruct (decide (r_accepted r = [])) as [E|Hne].
  - left. rewrite decide_True by tauto. by rewrite E.
  - right. rewrite decide_False; [done|]. intros [?|?]; [done|lia].
Qed.

Lemma received_small r : sane r -> 0 <= received r <= 4096.
Proof. intros Hw. pose proof (wf_expected _ Hw). pose proof (received_bound r Hw). lia. Qed.

Lemma kinds_small r : sane r -> 0 <= Z.of_nat (size (errors_of (r_accepted r))) <= 64 * 4096.
Proof.
  intros Hw. pose proof (received_small r Hw) as Hr. unfold received in Hr.
  pose proof (errors_size_bound _ (accepted_contracts r Hw)). lia.
Qed.

Lemma merge_slice_wp b r (Q : Z -> record -> Prop) :
  stored (bk_run b) r -> joins r -> 0 <= bk_now b -> lua_exact (bk_now b) ->
  (forall h', stored h' (accept x (bk_now b) r) -> Q (received r + 1) (set_run h' b)) ->
  wp ks (merge_slice (k_run ks) argv ls (nerrors n) (bk_now b)) Q b.
Proof.
  intros Hs Hj Hn0 Hnow HQ. pose proof (jn_sane _ Hj) as Hw. pose proof (received_small r Hw) as Hrec.
  destruct (wf_totals _ Hw) as (Ht & Hsu & Hfa). destruct (nm_totals _ _ _ Hn) as (Hxt & Hxs & Hxf).
  destruct (result_small self x n Hn) as (Hi & He & _).
  unfold merge_slice. wp_steps. cbn [il_index il_execution locals_of hset_fields foldl fst snd].
  unfold slice_field, execution_field. rewrite (tostring_exact (slice_of x)) by (unfold lua_exact; lia).
  apply (wp_hincrby ks ks_distinct _ 1 (received r)); [right|lia|lia|].
  { simpl. rewrite !lookup_insert_ne by discriminate. eapply stored_get; [exact Hs|in_fields]. }
  cbv beta. wp_step.
  assert (forall f c h0 k v, reads h0 f c -> f <> k -> reads (<[k := v]> h0) f c) as Hr_ins.
  { intros f c h0 k v Hr Hne. unfold reads. by rewrite lookup_insert_ne. }
  assert (forall f c, In (f, show c) (run_fields r) -> reads (bk_run b) f c) as Hr_st.
  { intros f c Hin. right. by eapply stored_get. }
  eapply (hincrby_arg_wp ks ks_distinct _ _ _ (sum_of res_total (r_accepted r))); [|done..|].
  { simpl. repeat (apply Hr_ins; [|discriminate]). apply Hr_st. in_fields. }
  cbv beta. wp_step. eapply (hincrby_arg_wp ks ks_distinct _ _ _ (sum_of res_success (r_accepted r))); [|done..|].
  { simpl. repeat (apply Hr_ins; [|discriminate]). apply Hr_st. in_fields. }
  cbv beta. wp_step. eapply (hincrby_arg_wp ks ks_distinct _ _ _ (sum_of res_failure (r_accepted r))); [|done..|].
  { simpl. repeat (apply Hr_ins; [|discriminate]). apply Hr_st. in_fields. }
  cbv beta. wp_step. match goal with |- wp _ _ _ ?b0 => change b0 with (set_run (counted (bk_run b) r) b) end.
  apply (latency_loop_wp _ (bucket_total (r_accepted r))).
  { intros i Hlt. split; [|apply (wf_buckets _ Hw)]. simpl. repeat (apply Hr_ins; [|discriminate]).
    by apply bucket_reads; [|apply (bl_bounds _ _ (jn_belongs _ Hj))|]. }
  intros h1 Hh1. cbv beta. wp_step. change (set_run h1 (set_run _ b)) with (set_run h1 b).
  assert (forall f, strip_prefix "latency:" f = None -> h1 !! f = counted (bk_run b) r !! f) as Hl1.
  { intros f Hf. apply Hh1. intros i _ ->. unfold lat in Hf. by rewrite strip_prefix_app in Hf. }
  apply (error_loop_wp _ (errors_of (r_accepted r))).
  { intros k. simpl. rewrite Hl1 by done. unfold counted, error_field. skip_inserts. apply (st_error _ _ Hs). }
  { simpl. rewrite Hl1 by done. unfold counted. skip_inserts. eapply stored_get; [exact Hs|in_fields]. }
  { pose proof (kinds_small r Hw). unfold nerrors, max_exact. rewrite (nm_errors _ _ _ Hn). unfold error_pairs.
    rewrite length_map. destruct (rc_errors _ (nm_contract _ _ _ Hn)). lia. }
  { intros k. by apply error_exact. }
  intros h2 Hh2. cbv beta. do 4 wp_step. change (set_run h2 (set_run h1 b)) with (set_run h2 b).
  pose proof Hh2 as (_ & _ & Hl2). pose proof (wf_times _ Hw) as Hti. rewrite !Forall_cons in Hti. unfold lua_exact in *.
  assert (forall f z, f <> "error_kind_count" -> plain f = true -> counted (bk_run b) r !! f = bk_run b !! f ->
    In (f, show z) (run_fields r) -> 0 <= z <= 2 ^ 53 -> tonumber (default "0" (h2 !! f)) = Some z) as Hread.
  { intros f z Hne Hp Hc Hin Hz.
    assert (forall p, plain (p +:+ EmptyString) = false -> strip_prefix p f = None) as Hstrip.
    { intros p Hpp. destruct (strip_prefix p f) eqn:E; [|done]. apply strip_prefix_Some in E as ->.
      unfold plain in *. rewrite all_chars_app in *. by destruct (all_chars _ p). }
    rewrite Hl2, Hl1, Hc by (done || by apply Hstrip). by eapply number_stored. }
  cbn [bk_run set_run]. rewrite (Hread "last_result_at" (r_last r)) by first [done | lia | in_fields | unfold counted; by skip_inserts].
  rewrite (Hread "first_result_at" (r_first r)) by first [done | lia | in_fields | unfold counted; by skip_inserts].
  pose proof (HQ _ (stored_merge _ h1 h2 r (bk_now b) Hs Hj Hh1 Hh2)) as HQ'. unfold dated in HQ'.
  rewrite (tostring_exact (bk_now b)) by done.
  replace (bool_decide (Some (r_first r) = Some 0)) with (r_first r =? 0).
  2:{ destruct (Z.eqb_spec (r_first r) 0) as [E|E]; [by rewrite E|]. symmetry. apply bool_decide_eq_false. congruence. }
  destruct (r_first r =? 0); wp_steps; destruct (r_last r <? bk_now b); wp_steps; exact HQ'.
Qed.

(** *** The checks *)

(** The counters the checks read; an absent run reads as one that accepted
    nothing. *)
Record tallies h r : Prop := {
  ty_total : reads h "total" (sum_of res_total (r_accepted r));
  ty_success : reads h "success" (sum_of res_success (r_accepted r));
  ty_failure : reads h "failure" (sum_of res_failure (r_accepted r));
  ty_bucket i : (i < length (res_latency_histogram x))%nat -> reads h (lat i) (bucket_total (r_accepted r) i);
  ty_error k : h !! error_field k = show <$> errors_of (r_accepted r) !! k;
}.

Lemma tallies_stored h r : stored h r -> bounds_of x = r_bounds r -> tallies h r.
Proof.
  intros Hs Hb. split; try (right; eapply stored_get; [exact Hs|in_fields]).
  - intros i Hi. by apply bucket_reads.
  - intros k. apply (st_error _ _ Hs).
Qed.

Lemma tallies_absent r : r_accepted r = [] -> tallies ∅ r.
Proof. intros E. split; rewrite E; try (by left). done. Qed.

Lemma existsb_false_iff {A} (g : A -> bool) l : existsb g l = false <-> forall a, a ∈ l -> g a = false.
Proof.
  induction l as [|a l IH]; simpl; [split; [intros _ a Ha; by apply elem_of_nil in Ha|done]|].
  rewrite orb_false_iff, IH. setoid_rewrite elem_of_cons. naive_solver.
Qed.

Lemma forallb_perm {A} (g : A -> bool) l1 l2 : l1 ≡ₚ l2 -> forallb g l1 = forallb g l2.
Proof. induction 1 as [|? ? ? _ IH|? ? ?|]; simpl; [done|by rewrite IH|by destruct (g _), (g _)|congruence]. Qed.

Lemma new_kinds_wp b r (Q : Z -> record -> Prop) :
  tallies (bk_run b) r -> Q (new_kinds (errors_of (r_accepted r)) x) b ->
  wp ks (new_error_kinds (k_run ks) argv ls (nerrors n)) Q b.
Proof.
  intros Hty HQ. unfold new_error_kinds, nerrors. set (m := errors_of (r_accepted r)) in *.
  apply (wp_positions ks (norm_error_counts n) _
    (fun before c b' => b' = b /\ c = Z.of_nat (length (filter (fun p => m !! p.1 = None) before)))).
  - done.
  - intros before [k c] after s b' El [-> ->].
    assert (norm_error_counts n !! length before = Some (k, c)) as Hi by (rewrite El; by apply list_lookup_middle).
    destruct (error_argument self x n Hn _ k c Hi) as (Hk & _). rewrite Hk. wp_step. apply wp_hexists. wp_step.
    split; [done|]. rewrite (ty_error _ _ Hty). fold m. rewrite filter_app, length_app, filter_cons, filter_nil. simpl.
    destruct (m !! k) eqn:Ek; [rewrite bool_decide_true by (by eexists)|rewrite bool_decide_false by (by intros [])]; simpl; lia.
  - intros s b' [-> ->]. replace (Z.of_nat _) with (new_kinds m x); [exact HQ|].
    unfold new_kinds. f_equal. rewrite (nm_errors _ _ _ Hn). unfold error_pairs.
    induction (res_error_breakdown x) as [|e es IH]; [done|]. simpl. rewrite !filter_cons. simpl.
    case_decide; simpl; congruence.
Qed.

Lemma positions_list {A} (l : list A) a0 : map (fun j => default a0 (l !! Z.to_nat j)) (rangeZ (Z.of_nat (length l))) = l.
Proof.
  apply list_eq. intros i. unfold rangeZ. rewrite Nat2Z.id, map_map, list_lookup_fmap.
  destruct (decide (i < length l)%nat) as [Hi|Hi].
  - rewrite lookup_seq_lt by lia. simpl. rewrite Nat2Z.id. by destruct (lookup_lt_is_Some_2 l i Hi) as [a ->].
  - rewrite lookup_seq_ge by lia. simpl. symmetry. apply lookup_ge_None. lia.
Qed.

Lemma forallb_negb {A} (g : A -> bool) l : forallb (fun a => negb (g a)) l = negb (existsb g l).
Proof. induction l as [|a l IH]; simpl; [done|]. by rewrite IH, negb_orb. Qed.

(** The refusal the specification gives. *)
Definition verdict r : option (Z * string) :=
  if rs_max_error_kinds self <? Z.of_nat (size (errors_of (r_accepted r))) + new_kinds (errors_of (r_accepted r)) x
  then Some (6, "bounded error-kind capacity exceeded")
  else pair 9 <$> overflow r x.

Lemma exact_buckets_wp b r (Q : bool -> record -> Prop) :
  tallies (bk_run b) r -> sane r ->
  Q (negb (existsb (fun i => over_limit (bucket_total (r_accepted r) i) (bucket_at x i))
             (seq 0 (length (res_latency_histogram x))))) b ->
  wp ks (all_exact (k_run ks) (map (fun i => (Some (latency_field i), bucket_arg argv i)) (rangeZ (nbuckets x)))) Q b.
Proof.
  intros Hty Hw HQ. apply (all_exact_wp ks b _ _ (fun i => lat (Z.to_nat i))
    (fun i => bucket_total (r_accepted r) (Z.to_nat i)) (fun i => bucket_at x (Z.to_nat i))).
  - intros i Hi%elem_of_rangeZ. unfold nbuckets in Hi. destruct (result_small self x n Hn) as (_ & _ & Hsm). unfold nbuckets in Hsm.
    destruct (lookup_lt_is_Some_2 (res_latency_histogram x) (Z.to_nat i) ltac:(lia)) as [bk Hbk].
    destruct (bucket_argument self x n Hn _ bk Hbk) as (_ & Ha & Hx). rewrite Z2Nat.id in Ha by lia.
    assert (latency_field i = lat (Z.to_nat i)) as -> by (by rewrite <- latency_field_nat, Z2Nat.id by lia).
    unfold bucket_at. rewrite Ha, Hbk. split; [done|]. split; [|split; [apply (wf_buckets _ Hw)|done]].
    apply (ty_bucket _ _ Hty). lia.
  - rewrite forallb_negb. unfold nbuckets, rangeZ. rewrite Nat2Z.id.
    replace (existsb _ (map Z.of_nat _)) with
      (existsb (fun i => over_limit (bucket_total (r_accepted r) i) (bucket_at x i)) (seq 0 (length (res_latency_histogram x))));
      [exact HQ|].
    clear HQ. induction (seq 0 _) as [|i l IH]; simpl; [done|]. by rewrite Nat2Z.id, IH.
Qed.

Lemma exact_errors_wp b r (Q : bool -> record -> Prop) :
  tallies (bk_run b) r -> sane r ->
  Q (negb (existsb (fun e => over_limit (default 0 (errors_of (r_accepted r) !! error_kind e)) (error_count e))
             (res_error_breakdown x))) b ->
  wp ks (all_exact (k_run ks) (map (fun i => (error_field <$> kind_arg argv ls i, count_arg argv ls i))
           (rangeZ (nerrors n)))) Q b.
Proof.
  intros Hty Hw HQ. set (at_ := fun j : Z => default (EmptyString, 0) (norm_error_counts n !! Z.to_nat j)).
  apply (all_exact_wp ks b _ _ (fun j => error_field (at_ j).1)
    (fun j => default 0 (errors_of (r_accepted r) !! (at_ j).1)) (fun j => (at_ j).2)).
  - intros i Hi%elem_of_rangeZ. unfold nerrors in Hi.
    destruct (lookup_lt_is_Some_2 (norm_error_counts n) (Z.to_nat i) ltac:(lia)) as [[k c] Hk].
    destruct (error_argument self x n Hn _ k c Hk) as (Ha & Hc & _ & Hx). rewrite Z2Nat.id in Ha, Hc by lia.
    unfold at_. rewrite Hk, Ha, Hc. simpl. split_and!; [done| |by apply error_exact|done].
    unfold reads. rewrite (ty_error _ _ Hty). destruct (errors_of _ !! k); [by right|by left].
  - rewrite forallb_negb. replace (existsb _ (rangeZ _)) with
      (existsb (fun e => over_limit (default 0 (errors_of (r_accepted r) !! error_kind e)) (error_count e))
         (res_error_breakdown x)); [exact HQ|].
    set (g := fun p : string * Z => over_limit (default 0 (errors_of (r_accepted r) !! p.1)) p.2).
    transitivity (existsb g (map at_ (rangeZ (nerrors n)))).
    + unfold at_, nerrors. rewrite positions_list. rewrite <- (negb_involutive (existsb _ _)), <- (negb_involutive (existsb g _)). f_equal. rewrite <- !forallb_negb.
      rewrite (forallb_perm _ _ _ (nm_errors _ _ _ Hn)). unfold error_pairs.
      clear HQ. induction (res_error_breakdown x) as [|e es IH]; simpl; [done|]. by rewrite IH.
    + induction (rangeZ (nerrors n)) as [|j l IH]; simpl; [done|]. by rewrite IH.
Qed.

Lemma vet_slice_wp b r (Q : option (Z * string) -> record -> Prop) :
  tallies (bk_run b) r -> sane r -> Q (verdict r) b ->
  wp ks (vet_slice (k_run ks) argv ls (nerrors n) (Z.of_nat (size (errors_of (r_accepted r))))) Q b.
Proof.
  intros Hty Hw HQ. unfold vet_slice. wp_step. apply (new_kinds_wp b r); [done|].
  pose proof (kinds_small r Hw). assert (new_kinds (errors_of (r_accepted r)) x <= 64).
  { unfold new_kinds. destruct (rc_errors _ (nm_contract _ _ _ Hn)) as [? _].
    pose proof (length_filter (fun e => errors_of (r_accepted r) !! error_kind e = None) (res_error_breakdown x)). lia. }
  rewrite lua_add_exact by (unfold new_kinds in *; lia). unfold verdict in HQ. cbn [il_max_kinds locals_of].
  destruct (rs_max_error_kinds self <? _); [by wp_steps|]. unfold overflow in HQ. wp_step.
  destruct (wf_totals _ Hw) as (? & ? & ?). destruct (nm_totals _ _ _ Hn) as (? & ? & ?).
  set (tot := [("total", sum_of res_total (r_accepted r), res_total x);
                ("success", sum_of res_success (r_accepted r), res_success x);
                ("failure", sum_of res_failure (r_accepted r), res_failure x)]).
  eapply (all_exact_wp ks b tot (fun '(f, _, a) => (Some f, Some a)) (fun t => t.1.1) (fun t => t.1.2) (fun t => t.2)).
  { intros t Ht. unfold tot in Ht. rewrite !elem_of_cons in Ht.
    destruct Ht as [-> | [-> | [-> |Ht]]]; [..|by apply elem_of_nil in Ht]; simpl; split_and!; try done; apply Hty. }
  simpl. rewrite !andb_true_r, <- !negb_orb, orb_assoc.
  destruct (over_limit _ _ || _ || _); simpl negb; cbv iota; [by wp_steps|]. wp_step.
  apply (exact_buckets_wp b r); [done..|]. destruct (existsb _ (seq 0 _)); simpl negb; cbv iota; [by wp_steps|]. wp_step.
  apply (exact_errors_wp b r); [done..|]. destruct (existsb _ _); by wp_steps.
Qed.

(** *** The run after the merge *)

Lemma add_pairs_hit m es k c :
  NoDup (map fst es) -> (k, c) ∈ es -> add_pairs m es !! k = Some (default 0 (m !! k) + c).
Proof.
  revert m. induction es as [|p es IH]; intros m Hd Hin; [by apply elem_of_nil in Hin|].
  apply NoDup_cons in Hd as [Hp Hd]. change (add_pairs m (p :: es)) with (add_pairs (add_count m p.1 p.2) es).
  apply elem_of_cons in Hin as [<-|Hin].
  - rewrite add_pairs_other by done. apply lookup_insert_eq.
  - rewrite IH by done. unfold add_count. rewrite lookup_insert_ne; [done|].
    intros E. apply Hp. rewrite E. by apply elem_of_map; exists (k, c).
Qed.

Lemma errors_exact_after r k c :
  joins r -> errors_of (r_accepted r ++ [x]) !! k = Some c -> exact_count c.
Proof.
  intros Hj. rewrite errors_of_snoc, add_errors_pairs.
  destruct (decide (k ∈ map fst (error_pairs x))) as [Hk|Hk].
  - apply elem_of_map in Hk as ([k' c'] & -> & Hin). simpl.
    rewrite (add_pairs_hit _ _ k' c'); [|rewrite <- (nm_errors _ _ _ Hn); apply kinds_distinct|done].
    intros [= <-]. apply elem_of_map in Hin as (e & [= -> ->] & He). by apply (jn_errors _ Hj).
  - rewrite add_pairs_other by done. apply (wf_errors _ (jn_sane _ Hj)).
Qed.

Lemma NoDup_snoc {A} (l : list A) a : NoDup l -> a ∉ l -> NoDup (l ++ [a]).
Proof. intros Hl Ha. apply NoDup_app. split; [done|]. split; [set_solver|apply NoDup_singleton]. Qed.

Lemma accept_times r now :
  sane r -> 0 <= now -> lua_exact now ->
  Forall (fun t => 0 <= t /\ lua_exact t)
    [if r_first r =? 0 then now else r_first r; Z.max (r_last r) now; r_deadline r; r_finalized r].
Proof.
  intros Hw H0' Hnow. pose proof (wf_times _ Hw) as Ht. rewrite !Forall_cons in Ht. unfold lua_exact in *.
  rewrite !Forall_cons, Forall_nil. destruct (r_first r =? 0); lia.
Qed.

(** The accounts stay well-formed; the life cycle is given. *)
Lemma wf_joined r st now fin rev :
  joins r -> 0 <= now -> lua_exact now -> 0 <= fin -> lua_exact fin ->
  (st = StComplete <-> received r + 1 = r_expected r) -> (st = StOpen <-> rev = 0) ->
  r_acked r <= rev -> rev <= 2 -> (st <> StComplete -> rev <= 1) ->
  wf (mkRun (r_scenario r) (r_id r) (r_schema r) (r_expected r) (r_bounds r) st (r_accepted r ++ [x])
        (if r_first r =? 0 then now else r_first r) (Z.max (r_last r) now) (r_deadline r) fin rev (r_acked r)).
Proof.
  intros Hj Hn0 Hnow Hf0 Hfin Hc Ho Ha Hr2 Hr1. pose proof (jn_sane _ Hj) as Hw. split; [split|]; simpl.
  - apply (wf_expected _ Hw).
  - apply (wf_schema _ Hw).
  - apply (wf_bounds _ Hw).
  - apply Forall_app. split; [eapply Forall_impl; [apply (wf_accepted _ Hw)|]; intros y []; by split|].
    apply Forall_singleton. destruct (jn_belongs _ Hj). by split.
  - rewrite map_app. apply NoDup_snoc; [apply (wf_slices _ Hw)|]. apply owner_of_None, Hj.
  - rewrite map_app. apply NoDup_snoc; [apply (wf_executions _ Hw)|]. apply slice_for_None, Hj.
  - rewrite !sum_of_snoc. split_and!; apply Hj.
  - intros i. rewrite bucket_total_snoc. apply Hj.
  - intros k c. by apply errors_exact_after.
  - unfold received in *. simpl. rewrite length_app. simpl length. rewrite Hc. lia.
  - exact Ho.
  - pose proof (accept_times r now Hw Hn0 Hnow) as Ht. rewrite !Forall_cons in Ht |- *. tauto.
  - destruct (wf_revision _ Hw). split_and!; [lia|lia|lia|done].
  - intros E. by destruct (r_accepted r).
Qed.

Lemma wf_accept r now :
  joins r -> 0 <= now -> lua_exact now -> received r + 1 < r_expected r -> wf (accept x now r).
Proof.
  intros Hj Hn0 Hnow Hlt. pose proof (jn_sane _ Hj) as Hw. pose proof (wf_times _ Hw) as Ht. rewrite !Forall_cons in Ht.
  destruct (wf_revision _ Hw) as (? & ? & ?). unfold accept. apply wf_joined; try done; try tauto; try lia.
  - rewrite (wf_status _ Hw). lia.
  - apply (wf_open _ Hw).
Qed.

Lemma wf_complete r now :
  joins r -> 0 <= now -> lua_exact now -> received r + 1 = r_expected r ->
  wf (finalize StComplete now (accept x now r)).
Proof.
  intros Hj Hn0 Hnow Heq. pose proof (jn_sane _ Hj) as Hw. destruct (wf_revision _ Hw) as (? & ? & Hr).
  assert (r_status r <> StComplete) as Hs by (rewrite (wf_status _ Hw); lia).
  specialize (Hr Hs). unfold finalize, accept. simpl. apply wf_joined; try done; try lia. split; [done|lia].
Qed.

(** *** Acceptance *)

(** A run that holds every slice has an owner for the slice of the result. *)
Lemma joins_incomplete r :
  sane r -> belongs r x -> owner_of (r_accepted r) (slice_of x) = None -> received r < r_expected r.
Proof.
  intros Hw Hb Ho.
  assert (length (slice_of x :: map slice_of (r_accepted r)) <= length (rangeZ (r_expected r)))%nat as Hl.
  { apply NoDup_incl_length.
    - apply NoDup_ListNoDup, NoDup_cons. split; [by apply owner_of_None|apply (wf_slices _ Hw)].
    - intros i Hi%list_elem_of_In. apply list_elem_of_In, elem_of_rangeZ. apply elem_of_cons in Hi as [->|Hi].
      + rewrite <- (bl_expected _ _ Hb). destruct (result_small self x n Hn). done.
      + by apply (accepted_slice_bound r). }
  simpl in Hl. rewrite length_map in Hl. pose proof (wf_expected _ Hw). pose proof (length_rangeZ (r_expected r)).
  unfold received. lia.
Qed.

(** The record and the ledger agree outside the run. *)
Definition agree b (l : ledger) : Prop :=
  bk_expires b = bk_expires l /\ bk_deadlines b = bk_deadlines l /\ bk_outbox b = bk_outbox l
  /\ bk_active b = bk_active l /\ bk_now b = bk_now l.

Lemma agree_shows b l h r : agree b l -> stored h r -> wf r -> shows (set_run h b) (set_run (Some r) l).
Proof. intros Ha Hs Hw. by split. Qed.

Lemma set_run_twice {F G K} (p : book F) (g : G) (k : K) : set_run k (set_run g p) = set_run k p.
Proof. done. Qed.

Lemma enqueue_refreshed {F} (b : book F) (f : book F -> book F) i ms :
  f = persist i \/ f = expire i ms -> enqueue i (f b) = enqueue i b.
Proof.
  intros [-> | ->]; unfold enqueue, persist, expire, drop_deadline; destruct b; cbn; by rewrite insert_insert_eq.
Qed.

Definition is_late (status : run_status) : bool :=
  bool_decide (status = StPartial) || bool_decide (status = StTimedOut).

Lemma late_text status :
  String.eqb (status_text status) "partial" || String.eqb (status_text status) "timed_out" = is_late status.
Proof. by destruct status. Qed.

Lemma accepted_decodable r now : decodable (finalize StComplete now (accept x now r)) = true.
Proof. unfold decodable. simpl. by rewrite bool_decide_false by (by destruct (r_accepted r)). Qed.

(** The last expected slice. *)
Lemma conclude_complete_wp b l r f :
  agree b l -> joins r -> timely b (retention_ms self) -> received r + 1 = r_expected r ->
  stored (bk_run b) (accept x (bk_now b) r) ->
  f = persist (res_run_id x) \/ f = expire (res_run_id x) (retention_ms self) ->
  wp ks (conclude_ingest (k_run ks) (k_deadlines ks) (k_outbox ks) (k_active ks) ls (status_text (r_status r))
           (received r + 1) (bk_now b))
    (yields (ingest_outcome self) (let '(u, l') := admit_result self x r l in (Ok u, l'))) (f b).
Proof.
  intros Ha Hj Ht Heq Hs Hf. pose proof Ht as (Hms & Hn0 & Hnow & Hmax). pose proof (jn_sane _ Hj) as Hw.
  destruct (wf_revision _ Hw) as (Hr & _ & Hr1). specialize (Hr1 ltac:(rewrite (wf_status _ Hw); lia)).
  assert (bk_run (f b) = bk_run b /\ bk_now (f b) = bk_now b) as [Ef1 Ef2] by (by destruct Hf as [-> | ->]).
  pose proof (stored_finalize _ _ StComplete (bk_now b) Hs ltac:(simpl; lia) Hnow) as Hfin.
  pose proof (wf_complete r (bk_now b) Hj Hn0 Hnow Heq) as Hwf.
  unfold conclude_ingest. rewrite late_text. cbn [il_expected il_run il_retention locals_of].
  rewrite (bl_expected _ _ (jn_belongs _ Hj)), Heq, Z.eqb_refl. wp_step.
  apply (wp_hincrby ks ks_distinct _ 1 (r_revision r)); [right; rewrite Ef1; eapply stored_get; [exact Hs|in_fields]|lia|lia|].
  wp_steps. cbn [bk_run set_outbox set_deadlines set_run]. rewrite Ef1.
  eapply refresh_stored_wp; [exact ks_distinct|by cbn|exact Hfin|simpl; lia|simpl; lia|..].
  { unfold timely. cbn. by rewrite Ef2. }
  simpl r_acked. simpl r_revision. rewrite (proj2 (Z.ltb_lt _ _)) by lia. cbv beta. wp_steps.
  unfold admit_result. replace (received (accept x (bk_now l) r)) with (received r + 1)
    by (unfold received; simpl; rewrite length_app; simpl; lia).
  simpl r_expected. rewrite Heq, Z.eqb_refl. destruct Ha as (? & ? & ? & ? & En). rewrite <- En.
  cbn [fst snd]. fold (is_late (r_status r)). split.
  - pose proof (summary_of_snapshot _ _ _ "aggregation_ingest" Hvalues Hfin Hwf) as Hsum.
    unfold summary_result in Hsum. rewrite accepted_decodable in Hsum. simpl summary_status in Hsum. cbv iota in Hsum.
    unfold ingest_outcome. destruct (is_late (r_status r)); simpl Z.eqb; cbv iota; rewrite Hsum; done.
  - match type of Hfin with stored ?h _ =>
      match goal with |- shows ?b0 _ => assert (b0 = enqueue (res_run_id x) (set_run h b)) as -> end end.
    { rewrite <- (enqueue_refreshed _ f (res_run_id x) (retention_ms self)) by done. by destruct b, Hf as [-> | ->]. }
    apply shows_enqueue, agree_shows; done.
Qed.

Lemma admit_wp b l r :
  agree b l -> stored (bk_run b) r -> joins r -> timely b (retention_ms self) ->
  wp ks (received_slices ← merge_slice (k_run ks) argv ls (nerrors n) (bk_now b);
         refresh_retention (k_run ks) (k_active ks) (il_run ls) (il_retention ls) (bk_now b);;
         conclude_ingest (k_run ks) (k_deadlines ks) (k_outbox ks) (k_active ks) ls (status_text (r_status r))
           received_slices (bk_now b))
    (yields (ingest_outcome self) (let '(u, l') := admit_result self x r l in (Ok u, l'))) b.
Proof.
  intros Ha Hs Hj Ht. pose proof Ht as (Hms & Hn0 & Hnow & Hmax). pose proof (jn_sane _ Hj) as Hw.
  destruct (wf_revision _ Hw) as (Hr & Hr2 & _).
  wp_step. apply (merge_slice_wp b r); [done..|]. intros h' Hs'. wp_step.
  eapply refresh_stored_wp; [exact ks_distinct|done|exact Hs'|simpl; lia|simpl; lia|done|].
  cbn [il_run il_retention locals_of].
  assert (agree (set_run h' b) l) as Ha' by done.
  destruct (decide (received r + 1 = r_expected r)) as [Heq|Hne].
  { simpl r_acked. simpl r_revision.
    destruct (r_acked r <? r_revision r); eapply (conclude_complete_wp (set_run h' b) l r); try done; by (left + right). }
  unfold conclude_ingest. rewrite late_text. cbn [il_expected locals_of].
  rewrite (bl_expected _ _ (jn_belongs _ Hj)), (proj2 (Z.eqb_neq _ _)) by done. wp_steps.
  pose proof (joins_incomplete r Hw (jn_belongs _ Hj) (jn_slice _ Hj)) as Hlt.
  pose proof (wf_accept r (bk_now b) Hj Hn0 Hnow ltac:(lia)) as Hwf.
  unfold admit_result. destruct Ha as (Ha1 & Ha2 & Ha3 & Ha4 & En). rewrite <- En.
  replace (received (accept x (bk_now b) r)) with (received r + 1)
    by (unfold received; simpl; rewrite length_app; simpl; lia).
  simpl r_expected. rewrite (proj2 (Z.eqb_neq _ _)) by done. fold (is_late (r_status r)).
  assert (bk_run (if r_acked (accept x (bk_now b) r) <? r_revision (accept x (bk_now b) r)
    then persist (res_run_id x) (set_run h' b) else expire (res_run_id x) (retention_ms self) (set_run h' b)) = h') as Erun
    by (by case_match).
  rewrite Erun in Hvalues. split.
  - pose proof (progress_of_snapshot _ _ _ "aggregation_ingest" Hvalues Hs' Hwf) as Hp.
    unfold ingest_outcome. destruct (is_late (r_status r)); simpl Z.eqb; cbv iota; rewrite Hp; simpl;
      unfold received; simpl; rewrite length_app; simpl; do 3 f_equal; lia.
  - cbn [snd]. unfold refresh, unpublished. cbn [bk_run set_run].
    destruct (_ <? _); [apply shows_persist|apply shows_expire]; by apply agree_shows.
Qed.

Lemma exact_or_over a c : exact_count a -> exact_count c -> over_limit a c = false -> exact_count (a + c).
Proof. unfold exact_count, over_limit. intros ? ? ?%Z.ltb_ge. lia. Qed.

Lemma overflow_none r :
  sane r -> belongs r x -> owner_of (r_accepted r) (slice_of x) = None ->
  slice_for (r_accepted r) (res_execution_key x) = None -> overflow r x = None -> joins r.
Proof.
  intros Hw Hb Ho Hsl Hov. destruct (wf_totals _ Hw) as (? & ? & ?). destruct (nm_totals _ _ _ Hn) as (? & ? & ?).
  unfold overflow in Hov.
  destruct (over_limit _ _ || _ || _) eqn:E1; [done|]. rewrite !orb_false_iff in E1. destruct E1 as [[? ?] ?].
  destruct (existsb _ (seq _ _)) eqn:E2; [done|]. destruct (existsb _ (res_error_breakdown x)) eqn:E3; [done|].
  split; try done; try (by apply exact_or_over).
  - intros i. apply exact_or_over; [apply (wf_buckets _ Hw)| |].
    + unfold bucket_at. destruct (res_latency_histogram x !! i) as [bk|] eqn:Hi; simpl; [|unfold exact_count, max_exact; lia].
      apply (Forall_lookup_1 _ _ _ _ (nm_exact_counts _ _ _ Hn) Hi).
    + destruct (decide (i < length (res_latency_histogram x))%nat) as [Hi|Hi].
      * apply (proj1 (existsb_false_iff _ _) E2). apply elem_of_seq. lia.
      * unfold bucket_at. rewrite (proj2 (lookup_ge_None _ _)) by lia. unfold over_limit. simpl.
        apply Z.ltb_ge. destruct (wf_buckets _ Hw i). lia.
  - intros e He. apply exact_or_over; [by apply error_exact|by apply (proj1 (Forall_forall _ _) (nm_exact_errors _ _ _ Hn))|].
    by apply (proj1 (existsb_false_iff _ _) E3).
Qed.

(** A run that accepted nothing refuses no result for its size. *)
Lemma verdict_first r : r_accepted r = [] -> verdict r = None.
Proof.
  intros E. unfold verdict. rewrite E. unfold errors_of. simpl foldl. rewrite map_size_empty.
  assert (new_kinds ∅ x <= rs_max_error_kinds self) as Hk.
  { etrans; [|apply (nm_kinds _ _ _ Hn)]. unfold new_kinds.
    apply inj_le, length_filter. }
  rewrite (proj2 (Z.ltb_ge _ _)) by lia.
  assert (forall c, exact_count c -> over_limit 0 c = false) as H0c.
  { intros c [? ?]. unfold over_limit. apply Z.ltb_ge. lia. }
  destruct (nm_totals _ _ _ Hn) as (? & ? & ?). unfold overflow. rewrite E. unfold sum_of. simpl sumZ.
  rewrite !H0c by done. simpl orb. cbv iota.
  rewrite (proj2 (existsb_false_iff _ _)).
  2:{ intros i Hi%elem_of_seq. apply H0c. unfold bucket_at.
      destruct (lookup_lt_is_Some_2 (res_latency_histogram x) i ltac:(lia)) as [bk Hbk]. rewrite Hbk. simpl.
      apply (Forall_lookup_1 _ _ _ _ (nm_exact_counts _ _ _ Hn) Hbk). }
  rewrite (proj2 (existsb_false_iff _ _)); [done|]. intros e He. change (errors_of [] !! error_kind e) with ((∅ : gmap string Z) !! error_kind e).
  rewrite lookup_empty. apply H0c.
  by apply (proj1 (Forall_forall _ _) (nm_exact_errors _ _ _ Hn)).
Qed.

Lemma wf_nonempty r : sane r -> r_accepted r <> [] -> wf r.
Proof. intros Hs Ha. split; [done|]. intros E. by destruct Ha. Qed.

(** Acceptance by a run that exists, as the specification has it. *)
Definition vetted r (l : ledger) : result RunAggregationStoreError RunAggregationUpdate * ledger :=
  match verdict r with
  | Some (code, message) =>
      (if code =? 6 then Err (StoreErrorKindCapacity (rs_max_error_kinds self))
       else Err (StoreContract (InvalidResult message)), set_run (Some r) l)
  | None => let '(u, l') := admit_result self x r l in (Ok u, l')
  end.

Lemma accept_existing_wp b l r :
  agree b l -> stored (bk_run b) r -> sane r -> belongs r x ->
  owner_of (r_accepted r) (slice_of x) = None -> slice_for (r_accepted r) (res_execution_key x) = None ->
  timely b (retention_ms self) ->
  wp ks (accept_slice (k_run ks) (k_deadlines ks) (k_outbox ks) (k_active ks) argv ls true
           (status_text (r_status r)) (nerrors n) (bk_now b)) (yields (ingest_outcome self) (vetted r l)) b.
Proof.
  intros Ha Hs Hw Hb Ho Hsl Ht. pose proof (joins_incomplete r Hw Hb Ho) as Hlt.
  pose proof (received_small r Hw). pose proof (kinds_small r Hw).
  unfold accept_slice. do 3 wp_step. rewrite (number_stored _ r _ (received r)) by (done || lia || in_fields). do 2 wp_step.
  rewrite (number_stored _ r _ (Z.of_nat (size (errors_of (r_accepted r))))) by (done || lia || in_fields).
  cbn [il_expected locals_of]. rewrite (bl_expected _ _ Hb).
  rewrite (proj2 (Z.leb_le 0 (received r))), (proj2 (Z.ltb_lt _ _)), (proj2 (Z.leb_le 0 (Z.of_nat _))) by lia.
  simpl andb. cbv iota. do 2 wp_step. apply (vet_slice_wp b r); [|done|].
  { apply tallies_stored; [done|apply (bl_bounds _ _ Hb)]. }
  unfold vetted. destruct (verdict r) as [[code message]|] eqn:Ev.
  - wp_steps. assert (code = 6 \/ code = 9) as Hcode.
    { unfold verdict in Ev. destruct (_ <? _); [naive_solver|]. destruct (overflow r x); naive_solver. }
    split; [by destruct Hcode as [-> | ->]|].
    assert (r_accepted r <> []) as Hne by (intros E; rewrite verdict_first in Ev by done; done).
    pose proof (agree_shows b l (bk_run b) r Ha Hs (wf_nonempty r Hw Hne)) as Hsh. by destruct b.
  - wp_step. apply wp_ret. apply admit_wp; try done. apply overflow_none; try done.
    unfold verdict in Ev. destruct (_ <? _); [done|]. by destruct (overflow r x).
Qed.

(** *** A new run *)

Lemma first_stored now :
  0 <= now -> lua_exact (now + partial_ms self) ->
  stored (hset_fields (new_run_fields ls now) ∅) (first_run x now (partial_ms self)).
Proof.
  intros Hn0 Hx. destruct (result_small self x n Hn) as (_ & ? & _). destruct (so_partial _ Hself) as [? ?].
  unfold lua_exact in Hx. apply stored_fresh; [done|by repeat constructor|].
  unfold new_run_fields, locals_of. cbn [il_scenario il_run il_schema il_expected il_bounds il_partial].
  rewrite lua_add_exact by lia. rewrite !tostring_exact by (unfold lua_exact; lia). plain_lookup; reflexivity.
Qed.

Lemma first_sane now : 0 <= now -> lua_exact (now + partial_ms self) -> sane (first_run x now (partial_ms self)).
Proof.
  intros Hn0 Hx. destruct (result_small self x n Hn) as (_ & ? & _). destruct (so_partial _ Hself) as [? ?].
  unfold lua_exact in Hx. pose proof (nm_contract _ _ _ Hn) as Hc. pose proof (rc_version _ Hc) as Hv. unfold version_ok in Hv.
  split; simpl; try done; try (by repeat constructor).
  - mlia.
  - split; [|apply (nm_wide _ _ _ Hn)]. unfold bounds_of. destruct (rc_histogram _ Hc) as [_ Hh].
    destruct (res_latency_histogram x) as [|bk h]; [constructor|]. apply Sorted_StronglySorted; [|by apply Hh].
    intros a c d. apply Z.lt_trans.
  - unfold received. simpl. split; [done|lia].
  - rewrite !Forall_cons, Forall_nil. unfold lua_exact. lia.
Qed.

Lemma first_belongs now : belongs (first_run x now (partial_ms self)) x.
Proof. split; try done; [apply (nm_wide _ _ _ Hn)|apply (nm_contract _ _ _ Hn)]. Qed.

Lemma accept_first_wp b l :
  agree b l -> bk_run b = ∅ -> timely b (retention_ms self) -> lua_exact (bk_now b + partial_ms self) ->
  wp ks (accept_slice (k_run ks) (k_deadlines ks) (k_outbox ks) (k_active ks) argv ls false "open" (nerrors n) (bk_now b))
    (yields (ingest_outcome self)
       (let '(u, l') := admit_result self x (first_run x (bk_now l) (partial_ms self))
          (set_deadlines (<[res_run_id x := bk_now l + partial_ms self]> (bk_deadlines l)) l) in (Ok u, l'))) b.
Proof.
  intros Ha He Ht Hx. pose proof Ht as (Hms & Hn0 & Hnow & Hmax). destruct (so_partial _ Hself) as [Hp ?].
  set (r := first_run x (bk_now b) (partial_ms self)).
  pose proof (first_sane (bk_now b) Hn0 Hx) as Hw. pose proof (first_belongs (bk_now b)) as Hb. fold r in Hw, Hb.
  unfold accept_slice. do 3 wp_step.
  replace 0 with (Z.of_nat (size (errors_of (r_accepted r)))) by (unfold errors_of; simpl; by rewrite map_size_empty).
  apply (vet_slice_wp b r); [by rewrite He; apply tallies_absent|done|]. rewrite verdict_first by done.
  do 4 wp_step. cbn [bk_run set_run il_partial il_run locals_of]. rewrite He, lua_add_exact by (unfold lua_exact in Hx; lia).
  match goal with |- wp _ _ _ ?b0 => pose proof (admit_wp b0
    (set_deadlines (<[res_run_id x := bk_now l + partial_ms self]> (bk_deadlines l)) l) r) as Hadmit end.
  assert (bk_now b = bk_now l) as En by apply Ha. rewrite <- En in *. apply Hadmit.
  - destruct Ha as (? & ? & ? & ? & ?). unfold agree. cbn. split_and!; congruence.
  - by apply first_stored.
  - apply overflow_none; try done. pose proof (verdict_first r eq_refl) as Hv. unfold verdict in Hv.
    destruct (_ <? _); [done|]. by destruct (overflow r x).
  - done.
Qed.

(** *** An existing run *)

Lemma bounds_text_inj l1 l2 :
  Forall (in_range u64_max) l1 -> Forall (in_range u64_max) l2 -> bounds_text l1 = bounds_text l2 -> l1 = l2.
Proof.
  intros H1' H2' E. destruct (decide (l1 = [])) as [E1|Hne].
  - pose proof (bounds_text_empty l2 H2') as He. rewrite <- E, bounds_text_empty, E1, bool_decide_true in He by done.
    symmetry in He. apply bool_decide_eq_true in He. by rewrite E1, He.
  - assert (l2 <> []) as Hne2.
    { intros E2. pose proof (bounds_text_empty l1 H1') as He. rewrite E, bounds_text_empty, E2, bool_decide_true in He by done.
      symmetry in He; apply bool_decide_eq_true in He. done. }
    pose proof (f_equal (split_char ",") E) as Es. rewrite !bounds_text_split in Es by done.
    by apply (inj (fmap show)) in Es.
Qed.

Lemma bounds_text_nil l : Forall (in_range u64_max) l -> (bounds_text l = EmptyString <-> l = []).
Proof.
  intros Hl. split; [|by intros ->]. intros E. pose proof (bounds_text_empty l Hl) as He. rewrite E in He.
  symmetry in He. by apply bool_decide_eq_true in He.
Qed.

Definition compatible r : Prop :=
  r_scenario r = res_scenario_id x /\ r_id r = res_run_id x /\ r_schema r = res_schema_version x
  /\ r_expected r = total (res_slice x) /\ (r_bounds r = [] \/ r_bounds r = bounds_of x).

Lemma bounds_ok : StronglySorted Z.lt (bounds_of x) /\ Forall (in_range u64_max) (bounds_of x).
Proof.
  split; [|apply (nm_wide _ _ _ Hn)]. unfold bounds_of. destruct (rc_histogram _ (nm_contract _ _ _ Hn)) as [_ Hh].
  destruct (res_latency_histogram x) as [|bk h]; [constructor|]. apply Sorted_StronglySorted; [|by apply Hh].
  intros a c d. apply Z.lt_trans.
Qed.

Lemma set_bounds_same r : r_bounds r = bounds_of x -> set_bounds (bounds_of x) r = r.
Proof. intros <-. by destruct r. Qed.

Lemma set_bounds_sane r :
  sane r -> r_accepted r = [] \/ r_bounds r = bounds_of x -> sane (set_bounds (bounds_of x) r).
Proof.
  intros Hw [E|E]; [|by rewrite set_bounds_same]. destruct Hw. split; simpl; try done; [apply bounds_ok|]. by rewrite E.
Qed.

Lemma set_bounds_belongs r : compatible r -> belongs (set_bounds (bounds_of x) r) x.
Proof. intros (? & ? & ? & ? & _). split; try done; [apply (nm_wide _ _ _ Hn)|apply (nm_contract _ _ _ Hn)]. Qed.

Lemma stored_bounds h r :
  stored h r -> r_accepted r = [] ->
  stored (hset_fields [("histogram_bounds", bounds_text (bounds_of x))] h) (set_bounds (bounds_of x) r).
Proof.
  intros Hs E. eapply stored_rewrite; [exact Hs| |done|by left|].
  - apply same_named_hset. by repeat constructor.
  - plain_lookup; try reflexivity; eapply stored_get; try exact Hs; in_fields.
Qed.

(** What remains to decide once the metadata agrees. *)
Definition placement r : admission :=
  match owner_of (r_accepted r) (slice_of x) with
  | Some key => if String.eqb key (res_execution_key x) then Known
                else Refuse 5 "slice index already belongs to a different execution identity"
  | None =>
      if bool_decide (is_Some (slice_for (r_accepted r) (res_execution_key x)))
      then Refuse 5 "execution identity already belongs to a different slice"
      else if bool_decide (r_status r = StComplete) || bool_decide (r_status r = StCancelled)
      then Refuse 5 "terminal run cannot accept an unrecorded slice"
      else Admit (status_text (r_status r))
  end.

Lemma placement_wp b r (Q : admission -> record -> Prop) :
  stored (bk_run b) r -> sane r -> Q (placement r) b ->
  wp ks (place_slice (k_run ks) ls) Q b.
Proof.
  intros Hs Hw HQ. unfold place_slice. do 2 wp_step. rewrite (status_stored _ r Hs). cbv zeta.
  assert (known_status (status_text (r_status r)) = true) as -> by (by destruct (r_status r)). simpl negb. cbv iota.
  destruct (result_small self x n Hn) as (Hi & He & _). cbn [il_index il_execution locals_of].
  do 2 wp_step. unfold slice_field, execution_field. rewrite tostring_exact by (unfold lua_exact; lia).
  rewrite (st_slice _ _ Hs). unfold placement in HQ. destruct (owner_of _ _) as [key|] eqn:Eo; [by wp_steps|].
  do 2 wp_step. rewrite (st_execution _ _ Hs). destruct (slice_for _ _) as [i|] eqn:Esl; simpl fmap; cbv iota.
  - rewrite bool_decide_true in HQ by eauto. wp_steps.
    assert (i ∈ map slice_of (r_accepted r)) as Hin.
    { destruct (slice_for_Some _ _ _ Esl) as [o Ho].
      destruct (decide (i ∈ map slice_of (r_accepted r))) as [|Hno%owner_of_None]; [done|congruence]. }
    pose proof (accepted_slice_bound r i Hw Hin). pose proof (wf_expected _ Hw).
    rewrite tonumber_show by lia. rewrite bool_decide_false; [done|]. intros [= ->]. by apply owner_of_None in Eo.
  - rewrite bool_decide_false in HQ by (by intros []). wp_steps. by destruct (r_status r).
Qed.

Definition admission_of r : admission :=
  if negb (bool_decide (compatible r)) then Refuse 5 "scenario, schema, expected slices, or histogram bounds changed"
  else if bool_decide (r_bounds r = []) && negb (bool_decide (r_accepted r = []))
  then Refuse 5 "registered run histogram is unset after accepting slices"
  else placement (set_bounds (bounds_of x) r).

(** The run the checks leave behind. *)
Definition admitted r : run :=
  if bool_decide (compatible r) && negb (bool_decide (r_bounds r = []) && negb (bool_decide (r_accepted r = [])))
  then set_bounds (bounds_of x) r else r.

Lemma metadata_test h r :
  stored h r -> sane r ->
  negb (bool_decide (h !! "scenario_id" = Some (il_scenario ls))) || negb (bool_decide (h !! "run_id" = Some (il_run ls)))
  || negb (bool_decide (h !! "schema_version" = Some (il_schema ls)))
  || negb (bool_decide (tonumber (default "-1" (h !! "expected_slices")) = Some (il_expected ls)))
  || (negb (bool_decide (h !! "histogram_bounds" = Some EmptyString))
      && negb (bool_decide (h !! "histogram_bounds" = Some (il_bounds ls))))
  = negb (bool_decide (compatible r)).
Proof.
  intros Hs Hw. pose proof (wf_expected _ Hw). destruct (wf_bounds _ Hw) as [_ Hb]. destruct bounds_ok as [_ Hbx].
  rewrite (stored_get _ r "scenario_id" _ Hs), (stored_get _ r "run_id" _ Hs), (stored_get _ r "schema_version" _ Hs),
    (stored_get _ r "histogram_bounds" _ Hs) by in_fields.
  rewrite (number_stored _ r "expected_slices" (r_expected r)) by (done || lia || in_fields).
  rewrite <- negb_orb, <- !negb_andb. f_equal. rewrite <- bool_decide_or, <- !bool_decide_and. apply bool_decide_ext.
  cbn [il_scenario il_run il_schema il_expected il_bounds locals_of]. unfold compatible. split.
  - intros [[[[? ?] Hsch] ?] Hbs]. simplify_eq. split_and!; try congruence.
    destruct Hbs as [E|E]; injection E as E; [left; by apply bounds_text_nil|right; by apply bounds_text_inj].
  - intros (-> & -> & -> & -> & Hbs). split_and!; try done. destruct Hbs as [-> | ->]; [by left|by right].
Qed.

Lemma admission_wp b r (Q : admission -> record -> Prop) :
  stored (bk_run b) r -> sane r ->
  (forall h', stored h' (admitted r) -> sane (admitted r) -> Q (admission_of r) (set_run h' b)) ->
  wp ks (admit_existing (k_run ks) ls) Q b.
Proof.
  intros Hs Hw HQ. pose proof (received_small r Hw) as Hrec. destruct (wf_bounds _ Hw) as [_ Hb].
  assert (set_run (bk_run b) b = b) as Eb by (by destruct b).
  unfold admit_existing. do 10 wp_step. rewrite (metadata_test _ r) by done.
  unfold admission_of, admitted in HQ. case_bool_decide as Hc; simpl negb in HQ |- *; cbv iota in HQ |- *.
  2:{ wp_steps. rewrite <- Eb. by apply HQ. }
  rewrite (stored_get _ r "histogram_bounds" _ Hs) by in_fields.
  replace (bool_decide (Some (bounds_text (r_bounds r)) = Some EmptyString)) with (bool_decide (r_bounds r = []))
    by (apply bool_decide_ext; rewrite <- (bounds_text_nil _ Hb); split; [by intros ->|by intros [=]]).
  case_bool_decide as Hnil; simpl andb in HQ; cbv iota in HQ; simpl negb in HQ.
  - do 3 wp_step. rewrite (number_stored _ r "received_slices" (received r)) by (done || lia || in_fields).
    replace (bool_decide (Some (received r) = Some 0)) with (bool_decide (r_accepted r = [])).
    2:{ apply bool_decide_ext. unfold received. destruct (r_accepted r); [done|]. split; [done|]. intros [=]. }
    case_bool_decide as Hacc; simpl negb in HQ |- *; cbv iota in HQ |- *.
    + do 3 wp_step. apply placement_wp with (r := set_bounds (bounds_of x) r);
        [by apply stored_bounds|apply set_bounds_sane; tauto|]. apply HQ; [by apply stored_bounds|apply set_bounds_sane; tauto].
    + wp_steps. rewrite <- Eb. by apply HQ.
  - assert (r_bounds r = bounds_of x) as Ebx by (by destruct Hc as (_ & _ & _ & _ & [?|?])).
    rewrite set_bounds_same in HQ by done. do 2 wp_step. apply placement_wp with (r := r); [done..|].
    rewrite <- Eb. by apply HQ.
Qed.

(** *** The whole script *)

Lemma existing_wp b l r :
  shows b l -> bk_run l = Some r -> timely b (retention_ms self) ->
  wp ks (decision ← admit_existing (k_run ks) ls;
         match decision with
         | Refuse code message => response (k_run ks) code message
         | Known =>
             refresh_retention (k_run ks) (k_active ks) (il_run ls) (il_retention ls) (bk_now b);;
             response (k_run ks) 2 EmptyString
         | Admit status =>
             accept_slice (k_run ks) (k_deadlines ks) (k_outbox ks) (k_active ks) argv ls true status (nerrors n) (bk_now b)
         end) (yields (ingest_outcome self) (ingest_into self x r l)) b.
Proof.
  intros Hsh Hr Ht. destruct (shows_some b l r Hsh Hr) as [Hs Hw]. wp_step.
  apply admission_wp with (r := r); [done|apply Hw|]. intros h' Hs' Hw'.
  assert (agree b l) as Ha by apply Hsh.
  assert (set_run (Some r) l = l) as El by (destruct l; simpl in *; by subst).
  unfold admission_of, ingest_into. unfold admitted in Hs', Hw'. fold (compatible r).
  case_bool_decide as Hc; simpl negb in *; cbv iota; cbn [andb] in Hs', Hw'.
  2:{ wp_steps. split; [done|]. cbn [snd]. rewrite <- El. apply agree_shows; done. }
  destruct (bool_decide (r_bounds r = []) && negb (bool_decide (r_accepted r = []))) eqn:Eunset; simpl negb in *; cbv iota in *.
  { wp_steps. split; [done|]. cbn [snd]. rewrite <- El. apply agree_shows; done. }
  set (r' := set_bounds (bounds_of x) r) in *. change (r_accepted r) with (r_accepted r').
  assert (r_accepted r' <> [] \/ r_status r' = StCancelled -> wf r') as Hwf.
  { intros Hcase. split; [done|]. intros E. destruct Hcase; [done|by right]. }
  assert (agree (set_run h' b) l) as Ha' by done.
  assert (r_accepted r' <> [] \/ r_status r' = StCancelled ->
    shows (set_run h' b) (set_run (Some r') l)) as Hkeep by (intros; apply agree_shows; auto).
  unfold placement. destruct (owner_of (r_accepted r') (slice_of x)) as [key|] eqn:Eo.
  - assert (r_accepted r' <> []) as Hne by (intros E; by rewrite E in Eo).
    destruct (String.eqb_spec key (res_execution_key x)) as [->|Hk].
    + rewrite bool_decide_true by done. wp_step. cbn [il_run il_retention locals_of].
      apply refresh_wp with (b := set_run h' b) (l := set_run (Some r') l) (r := r'); [done|by apply Hkeep; left|done|done|].
      intros b' Hb' Eb'. wp_steps. split; [|exact Hb']. rewrite Eb' in Hvalues. unfold ingest_outcome. simpl Z.eqb. cbv iota.
      rewrite (progress_of_snapshot _ _ _ _ Hvalues Hs' (Hwf (or_introl Hne))). unfold mbind, result_bind.
      by rewrite finalized_status_text.
    + rewrite bool_decide_false by done. wp_steps. split; [done|]. by apply Hkeep; left.
  - destruct (bool_decide (is_Some (slice_for (r_accepted r') (res_execution_key x)))) eqn:Esl.
    + wp_steps. split; [done|]. apply Hkeep. left. intros E. rewrite E in Esl. done.
    + destruct (bool_decide (r_status r' = StComplete) || bool_decide (r_status r' = StCancelled)) eqn:Est.
      * wp_steps. split; [done|]. apply Hkeep. apply orb_true_iff in Est as [E|E]; apply bool_decide_eq_true in E; [left|by right].
        intros E'. apply (wf_status _ Hw') in E. pose proof (wf_expected _ Hw'). unfold received in E. rewrite E' in E. simpl in *. lia.
      * pose proof (accept_existing_wp (set_run h' b) l r' Ha' Hs' Hw' (set_bounds_belongs r Hc) Eo) as Hacc.
        eapply wp_mono; [apply Hacc; [|done]|].
        { apply bool_decide_eq_false in Esl. by apply eq_None_not_Some. }
        intros reply b'. unfold yields, vetted, verdict. destruct (_ <? _); [done|]. by destruct (overflow r' x).
Qed.

Lemma exact_arguments :
  forallb (fun i => number_within 0 max_exact (bucket_arg argv i)) (rangeZ (nbuckets x)) = true
  /\ forallb (fun i => number_within 0 max_exact (count_arg argv ls i)) (rangeZ (nerrors n)) = true.
Proof.
  split; apply forallb_forall; intros i Hi%list_elem_of_In%elem_of_rangeZ.
  - unfold nbuckets in Hi.
    destruct (lookup_lt_is_Some_2 (res_latency_histogram x) (Z.to_nat i) ltac:(lia)) as [bk Hbk].
    destruct (bucket_argument self x n Hn _ bk Hbk) as (_ & Ha & [? ?]). rewrite Z2Nat.id in Ha by lia. rewrite Ha.
    unfold number_within. rewrite andb_true_iff, !Z.leb_le. lia.
  - unfold nerrors in Hi.
    destruct (lookup_lt_is_Some_2 (norm_error_counts n) (Z.to_nat i) ltac:(lia)) as [[k c] Hk].
    destruct (error_argument self x n Hn _ k c Hk) as (_ & Hc & _ & [? ?]). rewrite Z2Nat.id in Hc by lia. rewrite Hc.
    unfold number_within. rewrite andb_true_iff, !Z.leb_le. lia.
Qed.

Lemma ingest_wp b l :
  shows b l -> timely b (retention_ms self) -> lua_exact (bk_now b + partial_ms self) ->
  wp ks (ingest_script (k_run ks) (k_deadlines ks) (k_outbox ks) (k_active ks) argv)
    (yields (ingest_outcome self) (ingest_spec self x l)) b.
Proof.
  intros Hsh Ht Hx. pose proof Ht as (Hms & Hn0 & Hnow & Hmax). unfold ingest_script. do 2 wp_step.
  rewrite locals_accepted by (done || unfold lua_exact, max_exact in *; lia).
  rewrite pairs_argument by done. rewrite (proj2 (Z.ltb_ge _ _)) by (unfold nerrors; lia).
  cbn [il_buckets locals_of]. destruct exact_arguments as [-> ->]. simpl negb. cbv iota. do 6 wp_step.
  pose proof (shows_prune b l Hsh) as Hp.
  change (set_active (filter (fun p => bk_now b < p.2) (bk_active b)) b) with (prune b).
  assert (timely (prune b) (retention_ms self)) as Ht' by done.
  unfold ingest_spec. cbn [bk_run prune set_active]. destruct (bk_run l) as [r|] eqn:Hr.
  - rewrite (present_true b l r) by done. simpl andb. cbv iota.
    exact (existing_wp (prune b) (prune l) r Hp Hr Ht').
  - rewrite (present_false b l) by done. simpl negb. simpl andb. cbn [il_max_active locals_of].
    rewrite <- (proj1 (proj2 (proj2 (proj2 (proj2 Hp))))). cbn [bk_active prune set_active].
    destruct (rs_max_active_runs self <=? _); [wp_steps; by split|]. do 2 wp_step.
    assert (bk_now b = bk_now l) as En by (by apply shows_now).
    eapply wp_mono; [apply (accept_first_wp (prune b) (prune l)); try done|].
    + apply Hp.
    + exact (shows_none b l Hsh Hr).
    + intros reply b' Hy. exact Hy.
Qed.
End merging.
