(* ===== verification/RunTheorems.v ===== *)
(** * Correctness of the durable aggregation store

    The refinement theorem for the operations of [RedisRunAggregationStore]
    ([src/src/infrastructure/redis/aggregation.rs]) and [register_run]
    ([src/src/infrastructure/redis/mod.rs]), and what it gives for any history
    of operations with lost replies, duplicates and passing time: results are
    counted once, summaries are not lost before they are acknowledged, and what
    is stored is what is read back. *)

From S2P Require Import Prelude RustStr F64 Contracts Aggregation Lua Redis RedisMem Coordination Dispatch RunStore RunSummary RunLedger RunSpec RunDecode RunRefine RunIngest.

(** ** The keys of the store *)

Definition keys_of (self : RedisRunAggregationStore) (id : string) : keys :=
  mkKeys (key_for_run self id) (deadline_key self) (outbox_key self) (active_key self).

Lemma keys_of_distinct self id : keys_distinct (keys_of self id).
Proof.
  unfold keys_distinct, keys_of, key_for_run, deadline_key, outbox_key, active_key. simpl.
  rewrite !NoDup_cons, !not_elem_of_cons. split_and!; try apply not_elem_of_nil; try apply NoDup_nil_2;
    intros E%str_app_inj_l; discriminate E.
Qed.

Section store.
Context {db : Type} `{RedisLaws db}.
Variable self : RedisRunAggregationStore.
Hypothesis Hself : store_ok self.
Implicit Types (d : db) (l : ledger) (id : string) (link : Link).

(** The database shows the ledger of a run. *)
Definition tracks id d l : Prop := exists b, holds (keys_of self id) d b /\ shows b l.

(** The clock is within the range the scripts compute with exactly. *)
Definition era d : Prop :=
  lua_exact (now_ms d + partial_ms self) /\ lua_exact (now_ms d) /\ now_ms d + retention_ms self <= max_exact.

(** What an operation may do: reply and act as the specification does; or, when
    the network fails, report an error after acting or not. *)
Definition refined {E A} link id d (l : ledger) (spec : result E A * ledger) (out : result E A * db) : Prop :=
  aside (keys_of self id) d out.2
  /\ ((link = LinkUp /\ out.1 = spec.1 /\ tracks id out.2 spec.2)
      \/ (link <> LinkUp /\ (exists e, out.1 = Err e) /\ (tracks id out.2 l \/ tracks id out.2 spec.2))).

Lemma era_timely id d b l : holds (keys_of self id) d b -> shows b l -> era d -> timely b (retention_ms self).
Proof.
  intros Hd Hsh (_ & Hx & Hm). unfold timely. rewrite <- (holds_now _ _ _ Hd).
  pose proof (so_retention _ Hself). split_and!; [lia|apply now_ms_nonneg|done|lia].
Qed.

(** A script that yields what the specification says makes the operation around
    it refine the specification. *)
Lemma refined_script {R A} op link id d b l (s : Script db R) (decode : R -> result RunAggregationStoreError A) spec :
  holds (keys_of self id) d b -> shows b l -> wp (keys_of self id) s (yields decode spec) b ->
  refined link id d l spec
    ((reply ← run_redis_operation op link s; store_lift (decode reply)) d).
Proof.
  intros Hd Hsh Hwp. destruct (Hwp d Hd) as (reply & d' & b' & E & Hd' & Ha & Hdec & Hsh').
  unfold refined, run_redis_operation, redis_operation, mbind, store_bind, store_lift. rewrite E.
  destruct link as [|m| |[] m|[]]; simpl; split; try apply aside_refl; try done;
    try (left; split; [done|]; split; [done|]; by exists b');
    right; (split; [done|]); (split; [by eexists|]); first [left; by exists b|right; by exists b'].
Qed.

Lemma store_lift_run {A B} (v : result RunAggregationStoreError A) (k : A -> StoreOp db B) d a :
  v = Ok a -> (store_lift v ≫= k) d = k a d.
Proof. by intros ->. Qed.

Lemma checked_duration_self op (d0 : duration) : 1 <= as_millis d0 <= max_exact -> checked_duration_ms op d0 = Ok (as_millis d0).
Proof.
  unfold max_exact. intros Hm. unfold checked_duration_ms, duration_is_zero.
  destruct (Z.eqb_spec d0 0) as [->|_]; [change (as_millis 0) with 0 in Hm; lia|].
  by rewrite (proj2 (try_from_Some _ _ (as_millis d0))) by mlia.
Qed.

Lemma ingest_refined link d l x n :
  result_wide x -> normalize_result self x = Ok n -> tracks (res_run_id x) d l -> era d ->
  refined link (res_run_id x) d l (ingest_spec self x l) (store_ingest self link x d).
Proof.
  intros Hx Hn (b & Hd & Hsh) He. unfold store_ingest. rewrite (store_lift_run _ _ _ n) by done.
  rewrite (store_lift_run _ _ _ (retention_ms self)) by (apply checked_duration_self, Hself).
  rewrite (store_lift_run _ _ _ (partial_ms self)) by (apply checked_duration_self, Hself).
  apply refined_script with (b := b); [done..|].
  apply (ingest_wp (keys_of self (res_run_id x)) (keys_of_distinct _ _)); [done|by apply normalize_result_Ok|done| |].
  - by eapply era_timely.
  - rewrite <- (holds_now _ _ _ Hd). apply He.
Qed.

Lemma expire_refined link d l id :
  validate_identity "run_id" id = Ok tt -> tracks id d l -> era d ->
  refined link id d l (expire_spec id l) (store_mark_expired self link id d).
Proof.
  intros Hid (b & Hd & Hsh) He. unfold store_mark_expired. rewrite (store_lift_run _ _ _ tt) by done.
  rewrite (store_lift_run _ _ _ (retention_ms self)) by (apply checked_duration_self, Hself).
  apply refined_script with (b := b); [done..|].
  apply (mark_expired_wp (keys_of self id) (keys_of_distinct _ _)); [done|by eapply era_timely].
Qed.

(** The status a caller may finalize a run with. *)
Definition explicit_status (s : ScenarioRunSummaryStatus) : option run_status :=
  match s with SummaryPartial => Some StPartial | SummaryCancelled => Some StCancelled | _ => None end.

Lemma finalize_refined link d l id s st :
  validate_identity "run_id" id = Ok tt -> explicit_status s = Some st -> tracks id d l -> era d ->
  refined link id d l (finalize_spec id st l) (store_finalize_run self link id s d).
Proof.
  intros Hid Hs (b & Hd & Hsh) He. unfold store_finalize_run. rewrite (store_lift_run _ _ _ tt) by done.
  rewrite (store_lift_run _ _ _ (status_text st)) by (destruct s; simpl in Hs; simplify_eq; done).
  rewrite (store_lift_run _ _ _ (retention_ms self)) by (apply checked_duration_self, Hself).
  apply refined_script with (b := b); [done..|].
  apply (finalize_run_wp (keys_of self id) (keys_of_distinct _ _)); [done|by eapply era_timely|].
  destruct s; simpl in Hs; simplify_eq; tauto.
Qed.

Lemma acknowledge_refined link d l id revision :
  validate_identity "run_id" id = Ok tt -> 1 <= revision <= 2 ^ 53 -> tracks id d l -> era d ->
  refined link id d l (acknowledge_spec self id revision l) (store_acknowledge_summary self link id revision d).
Proof.
  intros Hid Hrev (b & Hd & Hsh) He. unfold store_acknowledge_summary. rewrite (store_lift_run _ _ _ tt) by done.
  rewrite (store_lift_run _ _ _ tt) by (apply reject_if_Ok; rewrite orb_false_iff, Z.eqb_neq, Z.ltb_ge; lia).
  rewrite (store_lift_run _ _ _ (retention_ms self)) by (apply checked_duration_self, Hself).
  apply refined_script with (b := b); [done..|].
  apply (acknowledge_wp (keys_of self id) (keys_of_distinct _ _)); [done|by eapply era_timely|done].
Qed.

Lemma clean_refined link d l id :
  tracks id d l -> refined link id d l (Ok tt, clean_spec id l) (clean_outbox_if_settled self link id d).
Proof.
  intros (b & Hd & Hsh). unfold clean_outbox_if_settled.
  apply (refined_script "aggregation_outbox_cleanup" link id d b l
    (clean_outbox_script (key_for_run self id) (outbox_key self) id) (fun _ => Ok tt)); [done..|].
  eapply wp_mono; [by apply (clean_wp (keys_of self id) (keys_of_distinct _ _))|].
  intros a b' Hb'. by split.
Qed.

(** Reading back. *)
Lemma load_exact link d l id :
  validate_identity "run_id" id = Ok tt -> tracks id d l ->
  (store_load_summary self link id d).2 = d
  /\ (link = LinkUp ->
      (store_load_summary self link id d).1
        = match bk_run l with None => Ok None | Some r => durable_of "aggregation_load_summary" r end).
Proof.
  intros Hid (b & Hd & Hsh). unfold store_load_summary. rewrite (store_lift_run _ _ _ tt) by done.
  destruct (hgetall_law _ _ _ (holds_fields _ _ _ Hd)) as (lst & E & Hl).
  unfold load_snapshot, run_redis_operation, redis_operation, query_res, mbind, store_bind, store_lift. simpl k_run in E. rewrite E.
  split; [by destruct link as [|m| |[] m|[]]|]. intros ->. simpl.
  destruct (bk_run l) as [r|] eqn:Hr.
  - destruct (shows_some b l r Hsh Hr) as [Hs Hw]. apply (durable_of_snapshot (bk_run b)); [by exists lst|done..].
  - rewrite (shows_none b l Hsh Hr), map_to_list_empty in Hl. symmetry in Hl. apply Permutation_nil in Hl as ->. done.
Qed.

(** *** Registration *)

(** The scheduler's store registers runs where the aggregator finds them. *)
Record registers (due : RedisDueStateStore) (config : AggregationRegistrationConfig) (window : DispatchWindow)
    (load : duration) (deadline : Z) : Prop := {
  rg_config : due_aggregation_registration due = Some config;
  rg_prefix : reg_key_prefix config = rs_key_prefix self;
  rg_retention : reg_retention config = rs_retention_ttl self;
  rg_active : 1 <= reg_max_active_runs config <= max_exact;
  rg_deadline : registration_deadline window load (reg_partial_timeout config) = Ok deadline;
  rg_exact : 0 <= deadline /\ lua_exact deadline;
  rg_slices : 1 <= win_total_slices window <= 4096;
  rg_version : in_range u16_max (win_contract_version window);
}.

Lemma register_refined due config window load deadline link d l :
  registers due config window load deadline -> tracks (win_run_id window) d l -> era d ->
  refined link (win_run_id window) d l
    (register_spec (win_run_id window) (win_scenario_id window) (win_contract_version window)
       (win_total_slices window) deadline (retention_ms self) (reg_max_active_runs config) l)
    (register_run due link window load d).
Proof.
  intros [Hc Hp Hr Ha Hdl [Hd0 Hdx] Hsl Hv] (b & Hd & Hsh) He. unfold register_run. rewrite Hc.
  rewrite (op_lift_run _ _ d deadline) by done.
  rewrite (op_lift_run _ _ d (retention_ms self)).
  2:{ rewrite Hr. apply duration_ms_Ok. pose proof (so_retention _ Hself) as [? ?]. unfold retention_ms, max_exact in *.
      split; [done|]. split; [|mlia]. intros E. rewrite E in *. change (as_millis 0) with 0 in *. lia. }
  unfold max_exact in Ha. rewrite (op_lift_run _ _ d (reg_max_active_runs config)).
  2:{ apply ok_or_Ok, try_from_Some. mlia. }
  rewrite (op_lift_run _ _ d tt) by (apply reject_if_Ok, Z.ltb_ge; lia). rewrite Hp.
  pose proof (register_wp (keys_of self (win_run_id window)) (keys_of_distinct _ _) b l (win_run_id window)
    (win_scenario_id window) (win_contract_version window) (win_total_slices window) deadline (retention_ms self)
    (reg_max_active_runs config) Hsh ltac:(by eapply era_timely) Hsl Hv Hd0 Hdx ltac:(lia) d Hd)
    as (reply & d' & b' & E & Hd' & Has & Hrep & Hsh').
  assert (refined link (win_run_id window) d l (register_outcome reply, (register_spec (win_run_id window)
    (win_scenario_id window) (win_contract_version window) (win_total_slices window) deadline (retention_ms self)
    (reg_max_active_runs config) l).2) ((reply ← invoke "aggregation_register_run" link
      (register_script (key_for_run self (win_run_id window)) (deadline_key self) (active_key self) (win_run_id window)
         (win_scenario_id window) (show (win_contract_version window)) (show (win_total_slices window)) (show deadline)
         (show (retention_ms self)) (show (reg_max_active_runs config))); op_lift (register_outcome reply)) d)) as Hout.
  { by_link E as [[-> ->]|(Hl & Herr & Hdb)].
    - split; [done|]. left. split; [done|]. split; [done|]. by exists b'.
    - split; [destruct Hdb as [-> | ->]; [apply aside_refl|done]|]. right. split; [done|]. split; [done|].
      destruct Hdb as [-> | ->]; [left; by exists b|right; by exists b']. }
  rewrite Hrep in Hout. by destruct (register_spec _ _ _ _ _ _ _ l).
Qed.
End store.
