(* ===== verification/RunHistory.v ===== *)
(** * Histories of the aggregation store

    Any interleaving of the store's operations on one run, by any number of
    aggregators and schedulers, with replies lost, results redelivered and the
    clock advancing: what stays true of the run, of its summary and of the
    indexes that lead back to it. *)

From S2P Require Import Prelude RustStr F64 Contracts Aggregation Lua Redis RedisMem Coordination Dispatch RunStore RunSummary RunLedger RunSpec RunDecode RunRefine RunIngest RunTheorems.

(** ** What the specification preserves *)

(** How the life of a run may go on. *)
Definition status_next (s s' : run_status) : Prop :=
  s' = s \/ s = StOpen \/ ((s = StPartial \/ s = StTimedOut) /\ s' = StComplete).

(** A run goes on: it keeps its identity, results are only added, a complete or
    cancelled run gets no more, its histogram bounds stay once it has a result,
    revisions and acknowledgements never decrease, and every change of status is a
    new revision. *)
Record evolves (r r' : run) : Prop := {
  ev_identity : r_scenario r' = r_scenario r /\ r_id r' = r_id r /\ r_schema r' = r_schema r /\ r_expected r' = r_expected r;
  ev_accepted : r_accepted r `prefix_of` r_accepted r';
  ev_bounds : r_accepted r <> [] -> r_bounds r' = r_bounds r;
  ev_first : r_accepted r' = r_accepted r -> r_first r' = r_first r;
  ev_closed : r_status r = StComplete \/ r_status r = StCancelled -> r_accepted r' = r_accepted r;
  ev_status : status_next (r_status r) (r_status r');
  ev_revision : r_revision r <= r_revision r' /\ r_acked r <= r_acked r';
  ev_new_revision : r_status r' <> r_status r -> r_revision r' = r_revision r + 1 /\ r_acked r' = r_acked r;
  ev_same_revision : r_status r' = r_status r -> r_revision r' = r_revision r /\ r_finalized r' = r_finalized r;
}.

Section ledgers.
Implicit Types (l : ledger) (r : run) (x : ScenarioRunResult) (sub : list ScenarioRunResult).
Variable id : string.

Definition goes_on l l' : Prop :=
  forall r, bk_run l = Some r -> exists r', bk_run l' = Some r' /\ evolves r r'.

(** Accepted results were submitted; an unpublished summary is in the outbox and
    does not expire; an open run is among the deadlines, at its own. *)
Record ledger_ok sub l : Prop := {
  lo_accepted r : bk_run l = Some r -> r_accepted r ⊆ sub;
  lo_unpublished : unpublished l = true ->
    is_Some (bk_outbox l !! id) /\ bk_expires l = None /\ bk_active l !! id = Some max_exact;
  lo_open r : bk_run l = Some r -> r_status r = StOpen -> bk_deadlines l !! id = Some (r_deadline r);
}.

Lemma evolves_refl r : evolves r r.
Proof. split; try done; try lia. by left. Qed.

Lemma goes_on_refl l : goes_on l l.
Proof. intros r Hr. exists r. split; [done|apply evolves_refl]. Qed.

(** Changes of the indexes alone. *)
Lemma goes_on_same l l' : bk_run l' = bk_run l -> goes_on l l'.
Proof. intros E r Hr. exists r. rewrite E. split; [done|apply evolves_refl]. Qed.

Lemma ledger_ok_sub sub sub' l : sub ⊆ sub' -> ledger_ok sub l -> ledger_ok sub' l.
Proof. intros Hs [? ? ?]. split; [|done..]. intros r Hr. set_solver. Qed.

Lemma prune_ok sub l : bk_now l < max_exact -> ledger_ok sub l -> ledger_ok sub (prune l).
Proof.
  intros Hn [Ha Hu Ho]. split; [done| |done]. intros E. destruct (Hu E) as (? & ? & Hact). split_and!; [done..|].
  simpl. by apply map_lookup_filter_Some.
Qed.

Lemma refresh_ok sub l ms :
  ledger_ok sub l \/ (unpublished l = false /\ (forall r, bk_run l = Some r -> r_accepted r ⊆ sub)
                      /\ forall r, bk_run l = Some r -> r_status r = StOpen -> bk_deadlines l !! id = Some (r_deadline r)) ->
  ledger_ok sub (refresh id ms l).
Proof.
  intros Hl. unfold refresh. destruct (unpublished l) eqn:Eu.
  - destruct Hl as [[Ha Hu Ho]|[? _]]; [|done]. destruct (Hu Eu) as (? & ? & ?).
    split; [done| |done]. intros _. simpl. by rewrite lookup_insert_eq.
  - assert (unpublished (expire id ms l) = false) as Eu' by exact Eu.
    destruct Hl as [[Ha _ Ho]|(_ & Ha & Ho)]; (split; [done|by rewrite Eu'|done]).
Qed.

Lemma keep_ok sub l r :
  bk_run l = Some r -> r_status r <> StOpen -> ledger_ok sub l -> ledger_ok sub (keep id l).
Proof.
  intros Hr Hs [Ha Hu Ho]. unfold keep.
  assert (unpublished (drop_deadline id l) = unpublished l) as E by done. rewrite E.
  destruct (unpublished l) eqn:Eu; split; simpl; try done.
  - intros _. destruct (Hu eq_refl) as (? & _ & _). by rewrite lookup_insert_eq.
  - intros r'. rewrite Hr. intros [= <-]. done.
  - rewrite E. congruence.
  - intros r'. rewrite Hr. intros [= <-]. done.
Qed.

Lemma publish_ok sub l r :
  r_accepted r ⊆ sub -> r_status r <> StOpen -> ledger_ok sub (publish id r l).
Proof.
  intros Ha Hs. split; simpl.
  - intros r' [= <-]. done.
  - intros _. rewrite !lookup_insert_eq. by split_and!.
  - intros r' [= <-]. done.
Qed.

Lemma forget_ok sub l : bk_run l = None -> ledger_ok sub (forget id l).
Proof. intros E. split; simpl; rewrite ?E; try done. unfold unpublished. simpl. by rewrite E. Qed.

(** *** Operation by operation *)

(** The ledger shows a well-formed run. *)
Definition ledger_wf l : Prop := forall r, bk_run l = Some r -> wf r.

Lemma finalize_evolves r st now :
  r_status r = StOpen -> st <> StOpen -> evolves r (finalize st now r).
Proof.
  intros Ho Hst. split; simpl; try done; try lia.
  - right. by left.
  - congruence.
Qed.

Lemma expire_kept sub l :
  ledger_wf l -> ledger_ok sub l -> ledger_ok sub (expire_spec id l).2 /\ goes_on l (expire_spec id l).2.
Proof.
  intros Hw Hl. unfold expire_spec. destruct (bk_run l) as [r|] eqn:Hr; cbn [snd].
  2:{ split; [by apply forget_ok|]. intros r. congruence. }
  case_bool_decide as Ho; simpl negb; cbv iota.
  - destruct (_ <? _); cbn [snd]; [split; [done|apply goes_on_refl]|]. split.
    + apply publish_ok; [|done]. exact (lo_accepted _ _ Hl r Hr).
    + intros r0. rewrite Hr. intros [= <-]. eexists. split; [done|]. by apply finalize_evolves.
  - cbn [snd]. split; [by apply (keep_ok sub l r)|]. apply goes_on_same. unfold keep. by destruct (unpublished _).
Qed.

Lemma finalize_kept sub l st :
  st <> StOpen -> ledger_wf l -> ledger_ok sub l ->
  ledger_ok sub (finalize_spec id st l).2 /\ goes_on l (finalize_spec id st l).2.
Proof.
  intros Hst Hw Hl. unfold finalize_spec. destruct (bk_run l) as [r|] eqn:Hr; cbn [snd].
  2:{ split; [by apply forget_ok|]. intros r. congruence. }
  case_bool_decide as Ho; simpl negb; cbv iota; cbn [snd].
  - split; [apply publish_ok; [exact (lo_accepted _ _ Hl r Hr)|done]|].
    intros r0. rewrite Hr. intros [= <-]. eexists. split; [done|]. by apply finalize_evolves.
  - split; [by apply (keep_ok sub l r)|]. apply goes_on_same. unfold keep. by destruct (unpublished _).
Qed.

Lemma acked_evolves r n : r_acked r <= n -> evolves r (acked n r).
Proof. intros. split; simpl; try done; try lia. by left. Qed.

Lemma settled_ok sub l r ms :
  r_revision r <= r_acked r -> r_accepted r ⊆ sub ->
  (r_status r = StOpen -> bk_deadlines l !! id = Some (r_deadline r)) -> ledger_ok sub (settle id ms (set_run (Some r) l)).
Proof.
  intros Hr Ha Ho. split; simpl.
  - intros r' [= <-]. done.
  - unfold unpublished. simpl. intros E%Z.ltb_lt. lia.
  - intros r' [= <-]. done.
Qed.

Lemma acknowledge_kept self sub l revision :
  1 <= revision -> ledger_wf l -> ledger_ok sub l ->
  ledger_ok sub (acknowledge_spec self id revision l).2 /\ goes_on l (acknowledge_spec self id revision l).2.
Proof.
  intros Hrev Hw Hl. unfold acknowledge_spec. destruct (bk_run l) as [r|] eqn:Hr; cbn [snd].
  2:{ split; [|intros r; congruence]. split; simpl; rewrite ?Hr; try done. unfold unpublished. simpl. by rewrite Hr. }
  destruct (wf_revision _ (Hw r Hr)) as (Ha & _). destruct (Z.ltb_spec (r_revision r) 1); [split; [done|apply goes_on_refl]|].
  destruct (Z.ltb_spec (r_revision r) revision); [split; [done|apply goes_on_refl]|].
  pose proof (lo_accepted _ _ Hl r Hr) as Hacc. pose proof (lo_open _ _ Hl r Hr) as Hopen.
  assert (forall l' n, bk_run l' = Some (acked n r) -> r_acked r <= n -> goes_on l l') as Hgo.
  { intros l' n E Hn r0. rewrite Hr. intros [= <-]. eexists. split; [done|]. by apply acked_evolves. }
  destruct (Z.ltb_spec revision (r_revision r)); [|destruct (Z.leb_spec revision (r_acked r))]; cbn [snd].
  - split; [|eapply Hgo; [done|lia]]. split; simpl.
    + intros r' [= <-]. done.
    + unfold unpublished. simpl. intros E%Z.ltb_lt. apply (lo_unpublished _ _ Hl). unfold unpublished. rewrite Hr.
      apply Z.ltb_lt. lia.
    + intros r' [= <-]. done.
  - assert (set_run (Some r) l = l) as El by (destruct l; simpl in *; by subst).
    split; [rewrite <- El; by apply settled_ok; [lia|..]|by apply goes_on_same].
  - split; [apply (settled_ok sub l (acked revision r)); simpl; [lia|done..]|eapply Hgo; [done|lia]].
Qed.

Lemma clean_kept sub l : ledger_ok sub l -> ledger_ok sub (clean_spec id l) /\ goes_on l (clean_spec id l).
Proof.
  intros Hl. unfold clean_spec. destruct (unpublished l) eqn:Eu; [split; [done|apply goes_on_refl]|].
  split; [|by apply goes_on_same]. destruct Hl as [Ha Hu Ho]. split; simpl; [done| |done].
  assert (unpublished (drop_outbox id l) = unpublished l) as -> by done. congruence.
Qed.

Lemma register_kept sub l scenario schema expected deadline ms max_active :
  bk_now l < max_exact -> ledger_ok sub l ->
  ledger_ok sub (register_spec id scenario schema expected deadline ms max_active l).2
  /\ goes_on l (register_spec id scenario schema expected deadline ms max_active l).2.
Proof.
  intros Hn Hl. pose proof (prune_ok sub l Hn Hl) as Hp. unfold register_spec. cbn [bk_run prune set_active].
  destruct (bk_run l) as [r|] eqn:Hr.
  - destruct (negb _); cbn [snd]; [split; [done|by apply goes_on_same]|].
    split; [apply refresh_ok; by left|]. apply goes_on_same. unfold refresh. by destruct (unpublished _).
  - destruct (_ <=? _); cbn [snd]; (split; [|intros r; congruence]); [done|].
    split; simpl.
    + intros r [= <-]. apply list_subseteq_nil.
    + done.
    + intros r [= <-] _. by rewrite lookup_insert_eq.
Qed.

Lemma accept_evolves x now r :
  r_status r <> StComplete -> r_status r <> StCancelled -> evolves r (accept x now r).
Proof.
  intros H1' H2'. split; simpl; try lia; try done.
  - by apply prefix_app_r.
  - intros E%(f_equal length). rewrite length_app in E. simpl in E. lia.
  - by intros [?|?].
  - by left.
Qed.

Lemma complete_evolves x now r :
  r_status r <> StComplete -> r_status r <> StCancelled -> evolves r (finalize StComplete now (accept x now r)).
Proof.
  intros H1' H2'. split; simpl; try lia.
  - done.
  - by apply prefix_app_r.
  - done.
  - intros E%(f_equal length). rewrite length_app in E. simpl in E. lia.
  - by intros [?|?].
  - unfold status_next. destruct (r_status r); naive_solver.
  - congruence.
Qed.

(** A result that joins a run. *)
Lemma admit_kept self sub x r l :
  res_run_id x = id -> r_status r <> StComplete -> r_status r <> StCancelled -> r_accepted r ⊆ sub ->
  (r_status r = StOpen -> bk_deadlines l !! id = Some (r_deadline r)) ->
  (r_acked r < r_revision r -> is_Some (bk_outbox l !! id) /\ bk_expires l = None /\ bk_active l !! id = Some max_exact) ->
  ledger_ok (x :: sub) (admit_result self x r l).2
  /\ exists r', bk_run (admit_result self x r l).2 = Some r' /\ evolves r r'.
Proof.
  intros Hid Hc Hca Ha Ho Hu. unfold admit_result. rewrite Hid.
  assert (r_accepted r ++ [x] ⊆ x :: sub) as Ha' by set_solver.
  destruct (_ =? _); cbn [snd].
  - split; [by apply publish_ok|]. eexists. split; [done|]. by apply complete_evolves.
  - split.
    + apply refresh_ok. destruct (unpublished (set_run (Some (accept x (bk_now l) r)) l)) eqn:Eu; [left|right].
      * split; simpl; [by intros r' [= <-]| |by intros r' [= <-]]. intros _. apply Hu.
        unfold unpublished in Eu. simpl in Eu. by apply Z.ltb_lt in Eu.
      * split; [done|]. split; simpl; by intros r' [= <-].
    + exists (accept x (bk_now l) r). split; [unfold refresh; by destruct (unpublished _)|]. by apply accept_evolves.
Qed.

Lemma set_bounds_evolves bounds r : r_accepted r = [] \/ bounds = r_bounds r -> evolves r (set_bounds bounds r).
Proof. intros Hb. split; simpl; try done; try lia; [tauto|by left]. Qed.

(** A refusal may leave new bounds behind. *)
Lemma rebound_kept sub l r bounds :
  bk_run l = Some r -> r_accepted r = [] \/ bounds = r_bounds r -> ledger_ok sub l ->
  ledger_ok sub (set_run (Some (set_bounds bounds r)) l) /\ goes_on l (set_run (Some (set_bounds bounds r)) l).
Proof.
  intros Hr Hb Hl. split.
  - split; simpl.
    + intros r' [= <-]. exact (lo_accepted _ _ Hl r Hr).
    + unfold unpublished. simpl. intros E. apply (lo_unpublished _ _ Hl). unfold unpublished. by rewrite Hr.
    + intros r' [= <-]. exact (lo_open _ _ Hl r Hr).
  - intros r0. rewrite Hr. intros [= <-]. eexists. split; [done|by apply set_bounds_evolves].
Qed.

(** The bounds are written first. *)
Lemma evolves_rebound bounds r r' :
  r_accepted r = [] \/ bounds = r_bounds r -> evolves (set_bounds bounds r) r' -> evolves r r'.
Proof.
  intros Hb [A B C D E F G I J]. simpl in *. split; try done. intros Ha. destruct Hb as [?| ->]; [done|]. by apply C.
Qed.

Lemma ingest_kept self sub x l :
  res_run_id x = id -> bk_now l < max_exact -> ledger_ok sub l ->
  ledger_ok (x :: sub) (ingest_spec self x l).2 /\ goes_on l (ingest_spec self x l).2.
Proof.
  intros Hid Hn Hl. pose proof (prune_ok sub l Hn Hl) as Hp.
  assert (forall l', ledger_ok sub l' -> ledger_ok (x :: sub) l') as Hmore by (intros l'; apply ledger_ok_sub; set_solver).
  unfold ingest_spec. cbn [bk_run prune set_active]. destruct (bk_run l) as [r|] eqn:Hr.
  2:{ destruct (_ <=? _); cbn [snd]; (split; [|intros r; congruence]); [by apply Hmore|].
      destruct (admit_result _ _ _ _) as [u l'] eqn:E. cbn [snd].
      change l' with (snd (u, l')). rewrite <- E. apply admit_kept; simpl; try done.
      - intros ? ?%elem_of_nil. done.
      - intros _. rewrite Hid. by rewrite lookup_insert_eq. }
  assert (forall l', goes_on (prune l) l' -> goes_on l l') as Hgo by (intros l' Hg; exact Hg).
  assert (bk_run (prune l) = Some r) as Hr' by done.
  unfold ingest_into. destruct (negb _) eqn:Esame; [split; [by apply Hmore|by apply goes_on_same]|].
  destruct (_ && negb _) eqn:Eunset; [split; [by apply Hmore|by apply goes_on_same]|].
  assert (r_accepted r = [] \/ bounds_of x = r_bounds r) as Hx.
  { apply negb_false_iff, bool_decide_eq_true in Esame as (_ & _ & _ & _ & [E|E]); [|by right].
    rewrite bool_decide_true in Eunset by done. apply negb_false_iff, bool_decide_eq_true in Eunset. by left. }
  clear Esame Eunset.
  destruct (rebound_kept sub (prune l) r (bounds_of x) Hr' Hx Hp) as [Hb Hbgo].
  destruct (owner_of _ _) as [key|].
  { destruct (bool_decide _); cbn [snd]; [|split; [by apply Hmore|by apply Hgo]].
    rewrite Hid. split; [apply refresh_ok; left; by apply Hmore|]. intros r0 Hr0. destruct (Hgo _ Hbgo r0 Hr0) as (r' & E' & Hev).
    exists r'. split; [|done]. unfold refresh. by destruct (unpublished _). }
  destruct (bool_decide (is_Some _)); [split; [by apply Hmore|by apply Hgo]|].
  destruct (_ || _) eqn:Est; [split; [by apply Hmore|by apply Hgo]|]. apply orb_false_iff in Est as [E1 E2].
  apply bool_decide_eq_false in E1, E2. simpl in E1, E2.
  destruct (_ <? _); [split; [by apply Hmore|by apply Hgo]|].
  destruct (overflow _ _); [split; [by apply Hmore|by apply Hgo]|].
  destruct (admit_result _ _ _ _) as [u l'] eqn:E. cbn [snd]. change l' with (snd (u, l')). rewrite <- E.
  destruct (admit_kept self sub x (set_bounds (bounds_of x) r) (set_run (Some (set_bounds (bounds_of x) r)) (prune l)))
    as [Hok (r' & Er' & Hev)]; simpl; try done.
  - exact (lo_accepted _ _ Hp r Hr').
  - exact (lo_open _ _ Hp r Hr').
  - intros Hlt. apply (lo_unpublished _ _ Hp). unfold unpublished. rewrite Hr'. by apply Z.ltb_lt.
  - split; [exact Hok|]. intros r0. rewrite Hr. intros [= <-]. exists r'. split; [exact Er'|].
    by apply (evolves_rebound (bounds_of x)).
Qed.
End ledgers.

(** ** Histories *)

Section system.
Context {db : Type} `{RedisLaws db}.
Variable self : RedisRunAggregationStore.
Variable id : string.
Implicit Types (d : db) (l : ledger) (sub : list ScenarioRunResult).

(** The member [id] of a sorted set is left alone. *)
Definition member_kept (k : string) d d' : Prop :=
  exists z z', zset d k = Some z /\ zset d' k = Some z' /\ z' !! id = z !! id.

(** Time passes and other runs are processed: the keys of this run stay, but for
    the expiry of the run and the pruning of its entry among the active runs. *)
Record passes d d' : Prop := {
  ps_time : now_ms d <= now_ms d';
  ps_deadlines : member_kept (deadline_key self) d d';
  ps_outbox : member_kept (outbox_key self) d d';
  ps_active : member_kept (active_key self) d d'
    \/ exists z z' s, zset d (active_key self) = Some z /\ zset d' (active_key self) = Some z'
         /\ z !! id = Some s /\ s <= now_ms d' /\ z' !! id = None;
  ps_run : hash d' (key_for_run self id) = hash d (key_for_run self id)
           /\ expiry d' (key_for_run self id) = expiry d (key_for_run self id)
    \/ exists t, expiry d (key_for_run self id) = Some t /\ t < now_ms d'
         /\ hash d' (key_for_run self id) = Some ∅;
}.

(** One operation on the run, by any node and over any link. [sub] lists the
    results submitted so far. *)
Inductive operates sub d : list ScenarioRunResult -> db -> Prop :=
| op_ingest link x :
    result_wide x -> res_run_id x = id -> operates sub d (x :: sub) (store_ingest self link x d).2
| op_expire link : operates sub d sub (store_mark_expired self link id d).2
| op_finalize link s : operates sub d sub (store_finalize_run self link id s d).2
| op_acknowledge link revision :
    1 <= revision <= 2 ^ 53 -> operates sub d sub (store_acknowledge_summary self link id revision d).2
| op_clean link : operates sub d sub (clean_outbox_if_settled self link id d).2
| op_register due config window load deadline link :
    registers self due config window load deadline -> win_run_id window = id ->
    operates sub d sub (register_run due link window load d).2.

(** A history starts without a trace of the run, and is a sequence of operations
    and of time passing. *)
Inductive history : list ScenarioRunResult -> db -> Prop :=
| history_start d l : tracks self id d l -> bk_run l = None -> history [] d
| history_step sub d sub' d' : history sub d -> era self d -> operates sub d sub' d' -> history sub' d'
| history_time sub d d' : history sub d -> era self d' -> passes d d' -> history sub d'.

Hypothesis Hself : store_ok self.
Hypothesis Hid : validate_identity "run_id" id = Ok tt.

Lemma tracks_wf d l : tracks self id d l -> ledger_wf l.
Proof. intros (b & _ & Hsh) r Hr. by destruct (shows_some b l r Hsh Hr). Qed.

Lemma tracks_now d l : tracks self id d l -> now_ms d = bk_now l.
Proof. intros (b & Hd & Hsh). rewrite (holds_now _ _ _ Hd). by apply shows_now. Qed.

Lemma era_now d l : tracks self id d l -> era self d -> bk_now l < max_exact.
Proof. intros Ht (_ & _ & Hm). rewrite <- (tracks_now d l Ht). destruct (so_retention _ Hself). lia. Qed.

(** After an operation the database shows a ledger that goes on from before. *)
Definition kept sub' l d' : Prop := exists l', tracks self id d' l' /\ ledger_ok id sub' l' /\ goes_on l l'.

Lemma refined_kept {E A} sub sub' link d l (spec : result E A * ledger) (out : result E A * db) :
  refined self link id d l spec out -> tracks self id d l -> sub ⊆ sub' -> ledger_ok id sub l ->
  ledger_ok id sub' spec.2 /\ goes_on l spec.2 -> kept sub' l out.2.
Proof.
  intros [_ Hr] Ht Hsub Hl [Hok Hgo]. destruct Hr as [(_ & _ & Ht')|(_ & _ & [Ht'|Ht'])].
  - by exists spec.2.
  - exists l. split; [done|]. split; [by eapply ledger_ok_sub|apply goes_on_refl].
  - by exists spec.2.
Qed.

Lemma unchanged_kept sub sub' d l : tracks self id d l -> sub ⊆ sub' -> ledger_ok id sub l -> kept sub' l d.
Proof. intros. exists l. split; [done|]. split; [by eapply ledger_ok_sub|apply goes_on_refl]. Qed.

Lemma operates_kept sub d l sub' d' :
  tracks self id d l -> ledger_ok id sub l -> era self d -> operates sub d sub' d' -> kept sub' l d'.
Proof.
  intros Ht Hl He Hop. pose proof (tracks_wf d l Ht) as Hw. pose proof (era_now d l Ht He) as Hn.
  destruct Hop as [link x Hx Hrun|link|link s|link revision Hrev|link|due config window load deadline link Hreg Hwin].
  - destruct (normalize_result self x) as [n|e] eqn:En.
    + eapply (refined_kept sub); [rewrite <- Hrun; eapply ingest_refined; by rewrite ?Hrun|done|set_solver|done|by apply ingest_kept].
    + assert ((store_ingest self link x d).2 = d) as -> by (unfold store_ingest; by rewrite En).
      eapply (unchanged_kept sub); [done|set_solver|done].
  - eapply (refined_kept sub); [by apply expire_refined|done..|by apply expire_kept].
  - destruct (explicit_status s) as [st|] eqn:Es.
    + eapply (refined_kept sub); [by eapply finalize_refined|done..|apply finalize_kept; try done]. by destruct s; simplify_eq/=.
    + assert ((store_finalize_run self link id s d).2 = d) as ->.
      { unfold store_finalize_run. rewrite (store_lift_run _ _ _ tt) by done. by destruct s. }
      by eapply (unchanged_kept sub).
  - eapply (refined_kept sub); [by apply acknowledge_refined|done..|apply acknowledge_kept; [lia|done..]].
  - eapply (refined_kept sub); [by apply clean_refined|done..|by apply clean_kept].
  - eapply (refined_kept sub); [rewrite <- Hwin; eapply register_refined; by rewrite ?Hwin|done..|].
    rewrite Hwin. by apply register_kept.
Qed.
(** The indexes of the run after time passed. *)
Lemma passes_indexes d l d' :
  tracks self id d l -> passes d d' ->
  exists zd zo za, zset d' (deadline_key self) = Some zd /\ zset d' (outbox_key self) = Some zo
    /\ zset d' (active_key self) = Some za
    /\ zd !! id = bk_deadlines l !! id /\ zo !! id = bk_outbox l !! id
    /\ (bk_active l !! id = Some max_exact -> now_ms d' < max_exact -> za !! id = Some max_exact).
Proof.
  intros (b & [Hf He Hzd Hzo Hza Hnow] & (_ & Se & Sd & So & Sa & Sn)) [_ Hdl Hob Hact _]. cbn in *.
  destruct Hdl as (zd & zd' & Ed & Ed' & Kd). destruct Hob as (zo & zo' & Eo & Eo' & Ko).
  destruct Hact as [(za & za' & Ea & Ea' & Ka)|(za & za' & s & Ea & Ea' & K & Hs & _)];
    exists zd', zo', za'; simplify_eq/=; split_and!; rewrite <- ?Sd, <- ?So, <- ?Sa; try done.
  - intros. congruence.
  - intros. simplify_eq. lia.
Qed.

(** Time passing loses nothing but a run without an unpublished summary. *)
Lemma passes_kept sub d l d' :
  tracks self id d l -> ledger_ok id sub l -> now_ms d' < max_exact -> passes d d' ->
  exists l', tracks self id d' l' /\ ledger_ok id sub l'
    /\ (bk_run l' = bk_run l \/ (bk_run l' = None /\ unpublished l = false)).
Proof.
  intros Ht Hl Hn Hp. destruct (passes_indexes d l d' Ht Hp) as (zd & zo & za & Ed & Eo & Ea & Kd & Ko & Ka).
  destruct Ht as (b & [Hf He _ _ _ _] & (Hr & Se & _)). destruct Hp as [_ _ _ _ Hrun]. cbn in Hf, He.
  destruct Hrun as [[Eh Ex]|(t & Ex & Hlt & Eh)].
  - exists (mkBook (bk_run l) (bk_expires l) zd zo za (now_ms d')). split_and!; [|split|by left]; simpl.
    + exists (mkBook (bk_run b) (bk_expires l) zd zo za (now_ms d')). split; [split; cbn; congruence|by unfold shows].
    + apply Hl.
    + intros Hu. destruct (lo_unpublished _ _ _ Hl Hu) as (? & ? & ?). rewrite Ko. auto.
    + rewrite Kd. apply Hl.
  - exists (mkBook None (expiry d' (key_for_run self id)) zd zo za (now_ms d')). split_and!; [|by split|right; split; [done|]]; simpl.
    + exists (mkBook ∅ (expiry d' (key_for_run self id)) zd zo za (now_ms d')). split; [by split|by unfold shows].
    + destruct (unpublished l) eqn:Hu; [|done]. destruct (lo_unpublished _ _ _ Hl Hu) as (_ & ? & _). congruence.
Qed.

Lemma history_ok sub d : history sub d -> exists l, tracks self id d l /\ ledger_ok id sub l.
Proof.
  induction 1 as [d l Ht Hr|sub d sub' d' _ (l & Ht & Hl) He Hop|sub d d' _ (l & Ht & Hl) He Hp].
  - exists l. split; [done|]. split; rewrite ?Hr; try done. unfold unpublished. by rewrite Hr.
  - destruct (operates_kept sub d l sub' d' Ht Hl He Hop) as (l' & ? & ? & _). eauto.
  - assert (now_ms d' < max_exact) as Hn.
    { destruct He as (_ & _ & Hm), (so_retention _ Hself). lia. }
    destruct (passes_kept sub d l d' Ht Hl Hn Hp) as (l' & ? & ? & _). eauto.
Qed.
End system.
