(* ===== verification/RunProperties.v ===== *)
(** * Properties of the run aggregation

    What the aggregation store promises to the aggregation service and to the
    consumers of summaries: refinement of the ledger of runs, exactness of every
    summary it loads, no summary lost, monotone revisions, expiry of open runs;
    and two behaviours that differ from what the documents promise. *)

From S2P Require Import Prelude RustStr F64 Contracts Aggregation Lua Redis RedisMem Coordination Dispatch RunStore RunSummary RunLedger RunSpec RunDecode RunRefine RunIngest RunTheorems RunHistory.

Section properties.
Context {db : Type} `{RedisLaws db}.
Variable self : RedisRunAggregationStore.
Variable id : string.
Implicit Types (d : db) (l : ledger) (sub : list ScenarioRunResult) (s : DurableRunSummary).
Hypothesis Hself : store_ok self.
Hypothesis Hid : validate_identity "run_id" id = Ok tt.

(** C4: every operation of the Redis aggregation store on a run (ingest of a
    valid result, expiry, explicit finalization, acknowledgement, outbox cleanup,
    registration by the scheduler) does to the keys of the run exactly what the
    corresponding operation of the abstract ledger does, replies with exactly its
    outcome when the link is up, leaves every other key of the database alone,
    and when the reply is lost has happened wholly or not at all. *)
Theorem aggregation_store_refines d l :
  tracks self id d l -> era self d ->
  (forall link x n, result_wide x -> res_run_id x = id -> normalize_result self x = Ok n ->
     refined self link id d l (ingest_spec self x l) (store_ingest self link x d))
  /\ (forall link, refined self link id d l (expire_spec id l) (store_mark_expired self link id d))
  /\ (forall link status st, explicit_status status = Some st ->
        refined self link id d l (finalize_spec id st l) (store_finalize_run self link id status d))
  /\ (forall link revision, 1 <= revision <= 2 ^ 53 ->
        refined self link id d l (acknowledge_spec self id revision l) (store_acknowledge_summary self link id revision d))
  /\ (forall link, refined self link id d l (Ok tt, clean_spec id l) (clean_outbox_if_settled self link id d))
  /\ (forall due config window load deadline link,
        registers self due config window load deadline -> win_run_id window = id ->
        refined self link id d l
          (register_spec id (win_scenario_id window) (win_contract_version window) (win_total_slices window)
             deadline (retention_ms self) (reg_max_active_runs config) l)
          (register_run due link window load d)).
Proof.
  intros Ht He. split_and!.
  - intros link x n Hx <- En. by eapply ingest_refined.
  - intros link. by apply expire_refined.
  - intros link status st Es. by eapply finalize_refined.
  - intros link revision Hr. apply acknowledge_refined; try done; lia.
  - intros link. by apply clean_refined.
  - intros due config window load deadline link Hr <-. by apply register_refined.
Qed.

(** What a loaded summary says of the run. *)
Lemma load_run d l s :
  tracks self id d l -> (store_load_summary self LinkUp id d).1 = Ok (Some s) ->
  exists r status, bk_run l = Some r /\ wf r /\ summary_status (r_status r) = Some status /\ decodable r = true
    /\ s = mkDurable (r_revision r) (r_id r +:+ ":summary:r" +:+ show (r_revision r) +:+ ":" +:+ summary_label status)
            (r_acked r <? r_revision r) (summary_of r status).
Proof.
  intros Ht Hload. pose proof (tracks_wf self id d l Ht) as Hwf.
  destruct (load_exact self LinkUp d l id Hid Ht) as [_ Hl]. rewrite (Hl eq_refl) in Hload.
  destruct (bk_run l) as [r|] eqn:Hr; [|done]. unfold durable_of in Hload.
  case_bool_decide as Ho; [done|]. unfold summary_result in Hload.
  destruct (summary_status (r_status r)) as [status|] eqn:Es; [|done]. destruct (decodable r) eqn:Ed; [|done].
  simpl in Hload. simplify_eq. exists r, status. split_and!; try done. by apply Hwf.
Qed.

(** What is added to a list of results. *)
Section added.
Variables acc more : list ScenarioRunResult.
Hypothesis Hmore : Forall result_wide more.




End added.






(** C5: whatever interleaving of ingests (with results redelivered and replies
    lost), expiries, finalizations, acknowledgements, registrations and time led
    here, a summary that loads is the exact aggregate of a set of submitted
    results of this run, one per slice and one per execution identity: its
    counters, histogram and errors are their sums, its missing slices are exactly
    those without a result, and it is complete exactly if none is missing. *)
Theorem summary_counts_each_slice_once sub d s :
  history self id sub d -> (store_load_summary self LinkUp id d).1 = Ok (Some s) ->
  exists acc bounds, let sm := dur_summary s in
    acc ⊆ sub /\ NoDup (map slice_of acc) /\ NoDup (map res_execution_key acc)
    /\ Forall (fun x => res_run_id x = sum_run_id sm /\ res_scenario_id x = sum_scenario_id sm
                        /\ total (res_slice x) = sum_expected_slices sm) acc
    /\ sum_received_slices sm = Z.of_nat (length acc)
    /\ (forall i, i ∈ sum_missing_slices sm <-> 0 <= i < sum_expected_slices sm /\ i ∉ map slice_of acc)
    /\ sum_total sm = sum_of res_total acc /\ sum_success sm = sum_of res_success acc
    /\ sum_failure sm = sum_of res_failure acc
    /\ sum_latency_histogram sm = histogram_of bounds acc
    /\ sum_error_breakdown sm = error_entries (errors_of acc)
    /\ (sum_status sm = SummaryComplete <-> sum_received_slices sm = sum_expected_slices sm).
Proof.
  intros Hh Hload. destruct (history_ok self id Hself Hid sub d Hh) as (l & Ht & Hl).
  destruct (load_run d l s Ht Hload) as (r & status & Hr & [Hw _] & Es & _ & ->).
  exists (r_accepted r), (r_bounds r). cbn. split_and!; try done.
  - exact (lo_accepted _ _ _ Hl r Hr).
  - apply Hw.
  - apply Hw.
  - eapply Forall_impl; [apply Hw|]. intros x Hx. split_and!; apply Hx.
  - intros i. unfold missing. rewrite list_elem_of_filter, elem_of_rangeZ. tauto.
  - rewrite <- (wf_status _ Hw). destruct (r_status r); naive_solver.
Qed.

(** C19: in every history, a summary that awaits publication is listed in the
    outbox, and the run it comes from has no expiry: it cannot be lost before it
    is acknowledged. *)
Theorem pending_summary_never_lost sub d s :
  history self id sub d -> (store_load_summary self LinkUp id d).1 = Ok (Some s) ->
  dur_pending_publication s = true ->
  expiry d (key_for_run self id) = None
  /\ exists outbox, zset d (outbox_key self) = Some outbox /\ is_Some (outbox !! id).
Proof.
  intros Hh Hload Hp. destruct (history_ok self id Hself Hid sub d Hh) as (l & Ht & Hl).
  destruct (load_run d l s Ht Hload) as (r & status & Hr & _ & _ & _ & ->).
  destruct (lo_unpublished _ _ _ Hl) as (Hob & Hex & _); [unfold unpublished; by rewrite Hr|].
  destruct Ht as (b & [_ He _ Ho _ _] & (_ & Se & _ & So & _)). cbn in *. split; [congruence|].
  exists (bk_outbox b). split; [done|]. by rewrite So.
Qed.

Lemma expire_overdue l r :
  bk_run l = Some r -> wf r -> r_status r = StOpen -> r_deadline r <= bk_now l ->
  let r' := finalize StTimedOut (bk_now l) r in
  expire_spec id l = (Ok (ExpMarkedTimedOut (summary_of r' SummaryTimedOut)), publish id r' l)
  /\ decodable r' = true.
Proof.
  intros Hr Hw Ho Hd r'. assert (decodable r' = true) as Hdec.
  { unfold decodable. subst r'. simpl. destruct (decide (r_accepted r = [])) as [E|E].
    - destruct (wf_histogram _ Hw E) as [-> | ?]; [by rewrite orb_true_r|congruence].
    - by rewrite (bool_decide_false (r_accepted r = [])). }
  split; [|done]. unfold expire_spec. rewrite Hr, bool_decide_true by done. simpl negb. cbv iota.
  rewrite (proj2 (Z.ltb_ge _ _)) by done. fold r'. unfold summary_result. simpl summary_status. by rewrite Hdec.
Qed.

(** The fields of an open run. *)
Lemma open_run d l h t :
  tracks self id d l -> hash d (key_for_run self id) = Some h -> h !! "status" = Some "open" ->
  h !! "deadline_at" = Some (show t) ->
  exists r, bk_run l = Some r /\ wf r /\ r_status r = StOpen /\ r_deadline r = t.
Proof.
  intros (b & [Hf _ _ _ _ _] & Hsh) Hhash Hst Hdl. cbn in Hf. simplify_eq.
  destruct (bk_run l) as [r|] eqn:Hr; [|by rewrite (shows_none b l Hsh Hr) in Hst].
  destruct (shows_some b l r Hsh Hr) as [Hs Hw]. exists r. split_and!; try done.
  - rewrite (stored_get _ _ "status" (status_text (r_status r)) Hs) in Hst by (simpl; tauto). by destruct (r_status r).
  - rewrite (stored_get _ _ "deadline_at" (show (r_deadline r)) Hs) in Hdl by (simpl; tauto). injection Hdl as E. by apply show_inj.
Qed.

(** A scan of the deadlines lists runs that are due, and all of them unless it is
    full. *)
Lemma due_runs_listed d z limit :
  zset d (deadline_key self) = Some z -> era self d -> 1 <= limit <= rs_max_scan_limit self -> limit <= 2 ^ 53 ->
  exists due, store_due_runs self LinkUp limit d = (Ok due, d)
    /\ (forall m, m ∈ due -> exists t, z !! m = Some t /\ t <= now_ms d)
    /\ (forall m t, z !! m = Some t -> t <= now_ms d -> m ∈ due \/ Z.of_nat (length due) = limit).
Proof.
  intros Hz (_ & Hx & _) Hlim Hmax.
  destruct (zrangebyscore_law d (deadline_key self) (now_ms d) limit z Hz ltac:(lia)) as (all & (_ & Hin & _) & Hq).
  assert (forall m, m ∈ all <-> exists t, z !! m = Some t /\ t <= now_ms d) as Hall.
  { intros m. rewrite Hin. unfold is_Some. by setoid_rewrite map_lookup_filter_Some. }
  exists (take (Z.to_nat limit) all). split_and!.
  - unfold store_due_runs. rewrite (store_lift_run _ _ _ limit).
    + unfold run_redis_operation, redis_operation, due_runs_script. rewrite tonumber_show by lia.
      destruct (Z.ltb_spec limit 1); [lia|]. rewrite (bind_run _ _ _ _ _ (time_ms_run d Hx)). unfold query_res. by rewrite Hq.
    + unfold validate_scan_limit. rewrite (proj2 (Z.eqb_neq _ _)) by lia. rewrite (proj2 (Z.ltb_ge _ _)) by lia. simpl.
      rewrite (proj2 (try_from_Some i64_max limit limit)); [done|]. split; [done|mlia].
  - intros m Hm. apply Hall. by eapply elem_of_take in Hm as (i & Hm & _); eapply list_elem_of_lookup_2.
  - intros m t Hm Ht. destruct (decide (length all <= Z.to_nat limit)%nat) as [Hle|Hgt].
    + left. rewrite take_ge by done. apply Hall. by exists t.
    + right. rewrite length_take. lia.
Qed.

(** C21: in every history, a run that is still open is listed among the deadlines
    at the deadline it stores, so once that has passed a scan for overdue runs
    lists it, unless the scan is full of other overdue runs; and an expiry over a
    live link then finalizes it: it replies with the timed-out summary of what
    arrived, and that summary is stored as revision 1 and awaits publication. *)
Theorem overdue_run_is_finalized sub d h t :
  history self id sub d -> era self d ->
  hash d (key_for_run self id) = Some h -> h !! "status" = Some "open" -> h !! "deadline_at" = Some (show t) ->
  (exists deadlines, zset d (deadline_key self) = Some deadlines /\ deadlines !! id = Some t)
  /\ (t <= now_ms d ->
      (forall limit, 1 <= limit <= rs_max_scan_limit self -> limit <= 2 ^ 53 ->
         exists due, store_due_runs self LinkUp limit d = (Ok due, d) /\ (id ∈ due \/ Z.of_nat (length due) = limit))
      /\ exists sm d' event, store_mark_expired self LinkUp id d = (Ok (ExpMarkedTimedOut sm), d')
           /\ sum_status sm = SummaryTimedOut
           /\ (store_load_summary self LinkUp id d').1 = Ok (Some (mkDurable 1 event true sm))).
Proof.
  intros Hh He Hhash Hst Hdl. destruct (history_ok self id Hself Hid sub d Hh) as (l & Htr & Hl).
  destruct (open_run d l h t Htr Hhash Hst Hdl) as (r & Hr & Hw & Ho & <-).
  assert (exists z, zset d (deadline_key self) = Some z /\ z !! id = Some (r_deadline r)) as (z & Hz & Hzid).
  { destruct Htr as (b & [_ _ Hz _ _ _] & (_ & _ & Sd & _)). exists (bk_deadlines b). split; [done|].
    rewrite Sd. exact (lo_open _ _ _ Hl r Hr Ho). }
  split; [by exists z|]. intros Ht. split.
  { intros limit Hlim Hmax. destruct (due_runs_listed d z limit Hz He Hlim Hmax) as (due & Hdue & _ & Hlist).
    exists due. split; [done|]. by apply (Hlist id (r_deadline r)). }
  rewrite (tracks_now self id d l Htr) in Ht.
  destruct (expire_overdue l r Hr Hw Ho Ht) as [Hspec Hdec].
  destruct (expire_refined self Hself LinkUp d l id Hid Htr He) as [_ Hout]. rewrite Hspec in Hout.
  destruct Hout as [(_ & Hreply & Htr')|[? _]]; [|done]. cbn [fst snd] in *.
  destruct (store_mark_expired self LinkUp id d) as [reply d'] eqn:E. cbn [fst snd] in *. subst reply.
  eexists _, d', _. split; [done|]. split; [done|]. destruct (load_exact self LinkUp d' _ id Hid Htr') as [_ Hload].
  rewrite (Hload eq_refl). unfold durable_of, summary_result. simpl bk_run. cbv iota.
  rewrite bool_decide_false by done. simpl summary_status. cbv iota. rewrite Hdec. simpl.
  pose proof (proj1 (wf_open _ Hw) Ho) as Hrev. destruct (wf_revision _ Hw). rewrite Hrev.
  assert (r_acked r = 0) as -> by lia. done.
Qed.
End properties.

(** ** A run in the in-memory Redis *)

Definition sample_store : RedisRunAggregationStore :=
  mkRunStore "pulse:aggregation" (from_secs 30) (from_secs 3600) DEFAULT_OPERATION_TIMEOUT 64 10000 1024.

(** A second slice of the run of [sample_result]. *)
Definition sample_result_2 : ScenarioRunResult := {|
  res_schema_version := 2; res_scenario_id := "checkout"; res_run_id := "run";
  res_execution_key := "key2"; res_event_id := "key2:attempt-1:result"; res_attempt := 1;
  res_slice := mkSlice 2 4; res_started_at_unix_ms := 10; res_finished_at_unix_ms := 20;
  res_status := RunSuccess; res_total := 7; res_success := 7; res_failure := 0;
  res_latency_p50_ms := 1; res_latency_p95_ms := 2; res_latency_p99_ms := 2;
  res_latency_histogram := [mkBucket 1 4; mkBucket 2 3; mkBucket u64_max 0];
  res_error_breakdown := [] |}.

(** A result arrives, a minute passes, the run times out, another result arrives. *)
Definition run_0 : mem := mem_empty 1700000000000000.
Definition run_1 : mem := (store_ingest sample_store LinkUp sample_result run_0).2.
Definition run_2 : mem := mem_tick 60000000 run_1.
Definition run_3 : mem := (store_mark_expired sample_store LinkUp "run" run_2).2.
Definition run_4 : mem := (store_ingest sample_store LinkUp sample_result_2 run_3).2.

Lemma sample_store_ok : store_ok sample_store.
Proof. split; by vm_compute. Qed.

Lemma sample_run_id : validate_identity "run_id" "run" = Ok tt.
Proof. by vm_compute. Qed.

Lemma sample_wide : result_wide sample_result.
Proof. split; [apply sample_result_typed|]. repeat constructor; by vm_compute. Qed.

Lemma run_0_tracks : tracks sample_store "run" run_0 (mkBook None None ∅ ∅ ∅ 1700000000000).
Proof.
  exists (mkBook ∅ None ∅ ∅ ∅ 1700000000000). split; [split; by vm_compute|]. by unfold shows.
Qed.

Lemma run_0_era : era sample_store run_0.
Proof. split; by vm_compute. Qed.

Lemma member_kept_by (d d' : mem) k m (v : option Z) :
  (lookup m <$> zset d k) = Some v -> (lookup m <$> zset d' k) = Some v -> member_kept m k d d'.
Proof.
  destruct (zset d k) as [z|] eqn:E, (zset d' k) as [z'|] eqn:E'; try done. simpl. intros [= Hz] [= Hz'].
  exists z, z'. split; [exact E|]. split; [exact E'|]. congruence.
Qed.

Lemma live_tick us (d : mem) k t :
  expiry d k = Some t -> mem_now (mem_tick us d) <= t -> live (mem_tick us d) k = live d k.
Proof.
  unfold expiry. cbn [mem_view]. unfold live. simpl m_keys. destruct (m_keys d !! k) as [[v e]|]; [|done]. simpl.
  destruct (rvalue_absent v); [done|]. destruct e as [t'|]; [|done].
  destruct (mem_now d <=? t') eqn:Hle; [|done]. simpl. intros [= ->] Ht. by rewrite (proj2 (Z.leb_le _ _) Ht).
Qed.

Lemma tick_keeps us (d : mem) k t :
  expiry d k = Some t -> mem_now (mem_tick us d) <= t ->
  hash (mem_tick us d) k = hash d k /\ expiry (mem_tick us d) k = expiry d k.
Proof. intros He Ht. pose proof (live_tick us d k t He Ht) as E. unfold hash, expiry. cbn [mem_view]. by rewrite E. Qed.

Lemma run_1_passes : passes sample_store "run" run_1 run_2.
Proof.
  split.
  - by vm_compute.
  - apply (member_kept_by _ _ _ _ (Some 1700000030000)); by vm_compute.
  - apply (member_kept_by _ _ _ _ None); by vm_compute.
  - left. apply (member_kept_by _ _ _ _ (Some 1700003600000)); by vm_compute.
  - left. unfold run_2. apply (tick_keeps 60000000 run_1 (key_for_run sample_store "run") 1700003600000);
      vm_compute; reflexivity || discriminate.
Qed.

Lemma run_2_history : history sample_store "run" [sample_result] run_2.
Proof.
  apply (history_time _ _ _ run_1); [|split; by vm_compute|apply run_1_passes].
  eapply (history_step _ _ [] run_0); [by eapply history_start; [apply run_0_tracks|]|split; by vm_compute|].
  apply (op_ingest _ _ [] run_0 LinkUp sample_result); [apply sample_wide|done].
Qed.

Lemma run_3_history : history sample_store "run" [sample_result] run_3.
Proof.
  eapply (history_step _ _ [sample_result] run_2); [apply run_2_history|split; by vm_compute|].
  apply (op_expire _ _ [sample_result] run_2 LinkUp).
Qed.

Definition summary_3 : DurableRunSummary := mkDurable 1 "run:summary:r1:timed-out" true
  (mkSummary 2 "checkout" "run" SummaryTimedOut 4 1 [0; 2; 3] 5 3 2 2 2 2
     [mkBucket 1 2; mkBucket 2 3; mkBucket u64_max 0] [mkErrorCount "target_timeout" 2] 1700000000000 1700000060000).

Lemma run_3_loads : (store_load_summary sample_store LinkUp "run" run_3).1 = Ok (Some summary_3).
Proof. vm_compute. reflexivity. Qed.

Lemma aggregation_store_refines_witness :
  (store_ingest sample_store LinkUp sample_result run_0).1 = Ok (UpdAccepted 1 4).
Proof.
  destruct (normalize_result sample_store sample_result) as [n|e] eqn:En; [|vm_compute in En; discriminate En].
  pose proof (proj1 (aggregation_store_refines sample_store "run" sample_store_ok sample_run_id run_0 _
    run_0_tracks run_0_era) LinkUp sample_result n sample_wide eq_refl En) as [_ Hr].
  assert ((ingest_spec sample_store sample_result (mkBook None None ∅ ∅ ∅ 1700000000000)).1 = Ok (UpdAccepted 1 4)) as E
    by (vm_compute; reflexivity).
  rewrite E in Hr. destruct Hr as [(_ & Hgood & _)|(Hbad & _)]; [exact Hgood|destruct (Hbad eq_refl)].
Defined.

Lemma summary_counts_each_slice_once_witness :
  exists acc, acc ⊆ [sample_result] /\ sum_of res_total acc = 5.
Proof.
  destruct (summary_counts_each_slice_once sample_store "run" sample_store_ok sample_run_id [sample_result] run_3
    summary_3 run_3_history run_3_loads) as (acc & bounds & Hsub & _ & _ & _ & _ & _ & Htotal & _).
  exists acc. split; [exact Hsub|]. symmetry. exact Htotal.
Defined.

Lemma pending_summary_never_lost_witness : expiry run_3 (key_for_run sample_store "run") = None.
Proof.
  exact (proj1 (pending_summary_never_lost sample_store "run" sample_store_ok sample_run_id [sample_result] run_3
    summary_3 run_3_history run_3_loads eq_refl)).
Defined.




Lemma run_2_era : era sample_store run_2.
Proof. split; by vm_compute. Qed.

Lemma run_2_overdue : 1700000030000 <= now_ms run_2.
Proof. by vm_compute. Qed.

Lemma overdue_run_is_finalized_witness :
  exists sm d', store_mark_expired sample_store LinkUp "run" run_2 = (Ok (ExpMarkedTimedOut sm), d')
    /\ sum_status sm = SummaryTimedOut.
Proof.
  assert ((hash run_2 (key_for_run sample_store "run") ≫= lookup "status") = Some "open") as Hs
    by (vm_compute; reflexivity).
  assert ((hash run_2 (key_for_run sample_store "run") ≫= lookup "deadline_at") = Some (show 1700000030000)) as Hd
    by (vm_compute; reflexivity).
  destruct (hash run_2 (key_for_run sample_store "run")) as [h|] eqn:Hh; [|discriminate Hs].
  destruct (overdue_run_is_finalized sample_store "run" sample_store_ok sample_run_id [sample_result] run_2 h
    1700000030000 run_2_history run_2_era Hh Hs Hd) as [_ Hover].
  destruct (Hover run_2_overdue) as [_ (sm & d' & event & E & Hst & _)].
  exists sm, d'. split; [exact E|exact Hst].
Defined.

(** A result that arrives after the run timed out, and does not complete it,
    changes the stored aggregate but neither its revision nor its event id: the
    two publications, before and after it, carry the same identity and different
    counts. *)
Example late_slice_changes_a_published_revision :
  exists s s',
    (store_load_summary sample_store LinkUp "run" run_3).1 = Ok (Some s)
    /\ (store_load_summary sample_store LinkUp "run" run_4).1 = Ok (Some s')
    /\ dur_event_id s' = dur_event_id s /\ dur_revision s' = dur_revision s
    /\ sum_total (dur_summary s) = 5 /\ sum_total (dur_summary s') = 12.
Proof.
  exists summary_3.
  assert ((fun o => match o with Ok (Some s') => (dur_event_id s', dur_revision s', sum_total (dur_summary s')) | _ => (EmptyString, 0, 0) end)
    (store_load_summary sample_store LinkUp "run" run_4).1 = ("run:summary:r1:timed-out", 1, 12)) as E by (vm_compute; reflexivity).
  destruct (store_load_summary sample_store LinkUp "run" run_4).1 as [[s'|]|]; try discriminate E.
  exists s'. split; [exact run_3_loads|]. injection E as E1 E2 E3. by rewrite E1, E2, E3.
Qed.

(** A run is registered by the scheduler, cancelled before any result, and a
    result arrives after that. *)
Definition registering_due : RedisDueStateStore :=
  mkDueStore "pulse:schedule" (Some (mkRegistration "pulse:aggregation" (from_secs 30) (from_secs 3600) 10000)).
Definition registered_window : DispatchWindow := mkWindow "checkout" "run" "run" 1700000000000 2 4 "plan-1" [0; 1; 2; 3].
Definition cancel_1 : mem := (register_run registering_due LinkUp registered_window (from_secs 10) run_0).2.
Definition cancel_2 : mem := (store_finalize_run sample_store LinkUp "run" SummaryCancelled cancel_1).2.
Definition cancel_3 : mem := (store_ingest sample_store LinkUp sample_result cancel_2).2.

Definition pending_now (d : mem) : result RunAggregationStoreError Z :=
  ds ← (store_pending_summaries sample_store LinkUp LinkUp (fun _ => LinkUp) 16 d).1; Ok (Z.of_nat (length ds)).

(** A result refused because its run was cancelled still leaves its histogram
    bounds on the run; the summary of the cancelled run, which could be read
    before, can then not be decoded, and listing the pending summaries fails. *)
Example refused_result_blocks_the_outbox :
  pending_now cancel_2 = Ok 1
  /\ (store_ingest sample_store LinkUp sample_result cancel_2).1
     = Err (StoreInconsistentResult "terminal run cannot accept an unrecorded slice")
  /\ pending_now cancel_3
     = Err (StoreInvalidState "aggregation_pending_summaries" "latency bucket count is missing").
Proof. vm_compute. done. Qed.
