(* ===== verification/Metrics.v ===== *)
(** * Measurements of a run

    [src/src/application/metrics.rs]: the counters and latency histogram of a
    scenario or step, the metrics each concurrent worker keeps, and the summary
    they are merged into. The histogram itself is the hdrhistogram crate: a
    class with what its documentation says of it. *)

From S2P Require Import Prelude RustStr F64 Contracts.

(** ** The histogram *)

(** [hdrhistogram::Histogram<u64>]; [None] is an error result. *)
Class LatencyHistogram (H : Type) := {
  hist_new_with_bounds : Z -> Z -> Z -> option H;
  hist_record : Z -> H -> option H;
  hist_add : H -> H -> option H;
  hist_count_between : Z -> Z -> H -> Z;
  hist_value_at_quantile : f64 -> H -> Z;
}.

(** The number of elements with a property. *)
Definition tally {A} (p : A -> bool) (l : list A) : Z := sumZ (map (fun x => if p x then 1 else 0) l).

(** The documented behaviour of a histogram over [1, high] with three
    significant digits: it counts recorded
    values, and a range query is inclusive to within the histogram's resolution,
    that is from the lowest value equivalent to the lower end to the highest
    value equivalent to the upper end. *)
Class LatencyHistogramLaws (H : Type) `{LatencyHistogram H} := {
  hist_values : H -> list Z;
  hist_high : H -> Z;
  lowest_equivalent : Z -> Z;
  highest_equivalent : Z -> Z;
  hist_new_law high : 2 <= high ->
    exists h, hist_new_with_bounds 1 high 3 = Some h /\ hist_values h = [] /\ hist_high h = high;
  hist_record_law v h : 0 <= v <= hist_high h ->
    exists h', hist_record v h = Some h' /\ hist_values h' ≡ₚ v :: hist_values h /\ hist_high h' = hist_high h;
  hist_add_law h1 h2 : hist_high h2 = hist_high h1 ->
    exists h', hist_add h1 h2 = Some h' /\ hist_values h' ≡ₚ hist_values h1 ++ hist_values h2
      /\ hist_high h' = hist_high h1;
  hist_count_law lo hi h : lo <= hi ->
    hist_count_between lo hi h
    = tally (fun v => (lowest_equivalent lo <=? v) && (v <=? highest_equivalent hi)) (hist_values h);
  equivalent_law x : lowest_equivalent x <= x <= highest_equivalent x;
}.

(** ** Metrics *)

Section metrics.
Context {H : Type} `{LatencyHistogram H}.

Record MetricsBucket := mkMetrics {
  mb_total : Z;
  mb_success : Z;
  mb_failure : Z;
  mb_latency_ms : H;
  mb_latency_overflow : Z;
}.

Definition HISTOGRAM_HIGH : Z := 120000.

(** [None] is a panic. *)
Definition MetricsBucket_new : option MetricsBucket :=
  h ← hist_new_with_bounds 1 HISTOGRAM_HIGH 3;
  Some (mkMetrics 0 0 0 h 0).

Definition latency_millis (d : duration) : Z :=
  Z.max (default u64_max (try_from u64_max (as_millis d))) 1.

Definition bump (z : Z) : Z := wrapping u64_max (z + 1).

Definition bucket_record (d : duration) (ok : bool) (self : MetricsBucket) : option MetricsBucket :=
  let total := bump (mb_total self) in
  let success := if ok then bump (mb_success self) else mb_success self in
  let failure := if ok then mb_failure self else bump (mb_failure self) in
  let ms := latency_millis d in
  if HISTOGRAM_HIGH <? ms
  then Some (mkMetrics total success failure (mb_latency_ms self)
               (saturating_add u64_max (mb_latency_overflow self) 1))
  else h ← hist_record ms (mb_latency_ms self);
       Some (mkMetrics total success failure h (mb_latency_overflow self)).

Definition merge_from (self other : MetricsBucket) : MetricsBucket :=
  mkMetrics (wrapping u64_max (mb_total self + mb_total other))
    (wrapping u64_max (mb_success self + mb_success other))
    (wrapping u64_max (mb_failure self + mb_failure other))
    (default (mb_latency_ms self) (hist_add (mb_latency_ms self) (mb_latency_ms other)))
    (saturating_add u64_max (mb_latency_overflow self) (mb_latency_overflow other)).

(** The loop over the contract's bounds. *)
Fixpoint latency_buckets_from (h : H) (lower_bound : Z) (bounds : list Z) : list LatencyBucket :=
  match bounds with
  | [] => []
  | upper :: bounds' =>
      mkBucket upper (if upper <? lower_bound then 0 else hist_count_between lower_bound upper h)
      :: latency_buckets_from h (saturating_add u64_max upper 1) bounds'
  end.

Definition mergeable_latency_buckets (self : MetricsBucket) : list LatencyBucket :=
  latency_buckets_from (mb_latency_ms self) 1 LATENCY_BUCKET_BOUNDS_MS
  ++ [mkBucket u64_max (mb_latency_overflow self)].

(** *** Per worker and per run *)

Record WorkerMetrics := mkWorkerMetrics {
  wm_scenario_metrics : gmap string MetricsBucket;
  wm_step_metrics : gmap string MetricsBucket;
  wm_error_counts : gmap string Z;
}.

Definition WorkerMetrics_new : WorkerMetrics := mkWorkerMetrics ∅ ∅ ∅.

(** [entry(name).or_default().record(..)]. *)
Definition record_entry (name : string) (d : duration) (ok : bool) (m : gmap string MetricsBucket)
    : option (gmap string MetricsBucket) :=
  b ← match m !! name with Some b => Some b | None => MetricsBucket_new end;
  b' ← bucket_record d ok b;
  Some (<[name := b']> m).

Definition record_step (name : string) (d : duration) (ok : bool) (self : WorkerMetrics) : option WorkerMetrics :=
  m ← record_entry name d ok (wm_step_metrics self);
  Some (mkWorkerMetrics (wm_scenario_metrics self) m (wm_error_counts self)).

Definition record_scenario (name : string) (d : duration) (ok : bool) (self : WorkerMetrics) : option WorkerMetrics :=
  m ← record_entry name d ok (wm_scenario_metrics self);
  Some (mkWorkerMetrics m (wm_step_metrics self) (wm_error_counts self)).

Definition add_entry (kind : string) (n : Z) (m : gmap string Z) : gmap string Z :=
  <[kind := wrapping u64_max (default 0 (m !! kind) + n)]> m.

Definition record_error_kind (kind : string) (self : WorkerMetrics) : WorkerMetrics :=
  mkWorkerMetrics (wm_scenario_metrics self) (wm_step_metrics self) (add_entry kind 1 (wm_error_counts self)).

(** A [GlobalSummary] has the fields of [WorkerMetrics]; the maps are iterated in
    an order of their own. *)
Definition merge_entry (acc : option (gmap string MetricsBucket)) (entry : string * MetricsBucket)
    : option (gmap string MetricsBucket) :=
  m ← acc;
  b ← match m !! entry.1 with Some b => Some b | None => MetricsBucket_new end;
  Some (<[entry.1 := merge_from b entry.2]> m).

Definition merge_buckets (m other : gmap string MetricsBucket) : option (gmap string MetricsBucket) :=
  foldl merge_entry (Some m) (map_to_list other).

Definition add_entries (errors : gmap string Z) (entries : list (string * Z)) : gmap string Z :=
  foldl (fun acc e => add_entry e.1 e.2 acc) errors entries.

Definition merge_worker (worker self : WorkerMetrics) : option WorkerMetrics :=
  scenarios ← merge_buckets (wm_scenario_metrics self) (wm_scenario_metrics worker);
  steps ← merge_buckets (wm_step_metrics self) (wm_step_metrics worker);
  Some (mkWorkerMetrics scenarios steps
          (add_entries (wm_error_counts self) (map_to_list (wm_error_counts worker)))).
End metrics.
#[global] Arguments MetricsBucket : clear implicits.
#[global] Arguments WorkerMetrics : clear implicits.

(** ** What is measured *)

Section tallies.
Context {A : Type}.
Implicit Types (p q r : A -> bool) (l : list A).

Lemma tally_perm p l l' : l ≡ₚ l' -> tally p l = tally p l'.
Proof. intros E. apply sumZ_perm. by rewrite E. Qed.

Lemma tally_app p l l' : tally p (l ++ l') = tally p l + tally p l'.
Proof. unfold tally. by rewrite map_app, sumZ_app. Qed.

Lemma tally_ext p q l : Forall (fun x => p x = q x) l -> tally p l = tally q l.
Proof. induction 1 as [|x l Hx _ IH]; [done|]. unfold tally in *. simpl. by rewrite Hx, IH. Qed.

Lemma tally_split p q r l :
  Forall (fun x => (if p x then 1 else 0) = (if q x then 1 else 0) + (if r x then 1 else 0)) l ->
  tally p l = tally q l + tally r l.
Proof. induction 1 as [|x l Hx _ IH]; [done|]. unfold tally in *. simpl. lia. Qed.

Lemma tally_all p l : Forall (fun x => p x = true) l -> tally p l = Z.of_nat (length l).
Proof. induction 1 as [|x l Hx _ IH]; [done|]. unfold tally in *. simpl. rewrite Hx, IH. lia. Qed.

Lemma tally_bounds p l : 0 <= tally p l <= Z.of_nat (length l).
Proof. induction l as [|x l IH]; [done|]. unfold tally in *. simpl. destruct (p x); lia. Qed.

Lemma tally_filter p q l : tally p (filter q l) = tally (fun x => q x && p x) l.
Proof.
  induction l as [|x l IH]; [done|]. rewrite filter_cons. unfold tally in *. simpl.
  destruct (q x); simpl; rewrite IH; done.
Qed.

Lemma tally_map {B} (p : B -> bool) (f : A -> B) l : tally p (map f l) = tally (fun x => p (f x)) l.
Proof. unfold tally. by rewrite map_map. Qed.

Lemma tally_cons p x l : tally p (x :: l) = (if p x then 1 else 0) + tally p l.
Proof. done. Qed.
End tallies.

Section measures.
Context {H : Type} `{LatencyHistogramLaws H}.
Implicit Types (b : MetricsBucket H) (obs : list (duration * bool)).

Definition overflows (o : duration * bool) : bool := HISTOGRAM_HIGH <? latency_millis o.1.
Definition count (obs : list (duration * bool)) : Z := Z.of_nat (length obs).

(** The bucket measures exactly these executions: how long each took and whether
    it succeeded. *)
Record measures b obs : Prop := {
  ms_total : mb_total b = count obs;
  ms_success : mb_success b = tally snd obs;
  ms_failure : mb_failure b = tally (fun o => negb o.2) obs;
  ms_values : hist_values (mb_latency_ms b)
              ≡ₚ map (fun o => latency_millis o.1) (filter (fun o => negb (overflows o)) obs);
  ms_high : hist_high (mb_latency_ms b) = HISTOGRAM_HIGH;
  ms_overflow : mb_latency_overflow b = tally overflows obs;
}.

Lemma latency_millis_pos d : 1 <= latency_millis d.
Proof. unfold latency_millis. lia. Qed.

Lemma new_measures : exists b, MetricsBucket_new = Some b /\ measures b [].
Proof.
  destruct (hist_new_law HISTOGRAM_HIGH) as (h & E & Hv & Hh); [done|]. exists (mkMetrics 0 0 0 h 0).
  unfold MetricsBucket_new. rewrite E. split; [done|]. split; try done. simpl. by rewrite Hv.
Qed.

Lemma bump_count p obs (z : Z) :
  z = tally p obs -> count obs < u64_max -> bump z = z + 1.
Proof.
  intros -> Hn. apply wrapping_small. pose proof (tally_bounds p obs). unfold count in *. split; lia.
Qed.

Lemma tally_snoc (p : duration * bool -> bool) obs o : tally p (obs ++ [o]) = tally p obs + (if p o then 1 else 0).
Proof. rewrite tally_app, tally_cons. unfold tally. simpl. lia. Qed.

Lemma kept_snoc obs o :
  map (fun o => latency_millis o.1) (filter (fun o => negb (overflows o)) (obs ++ [o]))
  = map (fun o => latency_millis o.1) (filter (fun o => negb (overflows o)) obs)
    ++ (if overflows o then [] else [latency_millis o.1]).
Proof. rewrite filter_app, map_app. f_equal. rewrite filter_cons. by destruct (overflows o). Qed.

Lemma record_measures d ok b obs :
  measures b obs -> count obs < u64_max ->
  exists b', bucket_record d ok b = Some b' /\ measures b' (obs ++ [(d, ok)]).
Proof.
  intros [Ht Hs Hf Hv Hh Ho] Hn. unfold bucket_record.
  assert (bump (mb_total b) = count obs + 1) as Et.
  { rewrite Ht. apply wrapping_small. unfold count in *. split; lia. }
  assert (count (obs ++ [(d, ok)]) = count obs + 1) as El by (unfold count; rewrite length_app; simpl; lia).
  assert ((if ok then bump (mb_success b) else mb_success b) = tally snd (obs ++ [(d, ok)])) as Es.
  { rewrite tally_snoc, (bump_count snd obs) by done. simpl. destruct ok; lia. }
  assert ((if ok then mb_failure b else bump (mb_failure b)) = tally (fun o => negb o.2) (obs ++ [(d, ok)])) as Ef.
  { rewrite tally_snoc, (bump_count (fun o => negb o.2) obs) by done. simpl. destruct ok; simpl; lia. }
  rewrite Et, Es, Ef. assert (overflows (d, ok) = (HISTOGRAM_HIGH <? latency_millis d)) as Eo by done.
  destruct (HISTOGRAM_HIGH <? latency_millis d) eqn:Hlt.
  - eexists. split; [done|]. split; simpl; try done.
    + rewrite kept_snoc, Eo. by rewrite app_nil_r.
    + rewrite tally_snoc, Eo, <- Ho. unfold saturating_add. pose proof (tally_bounds overflows obs). unfold count in *. lia.
  - apply Z.ltb_ge in Hlt. pose proof (latency_millis_pos d).
    destruct (hist_record_law (latency_millis d) (mb_latency_ms b)) as (h' & E & Hv' & Hh'); [lia|]. rewrite E.
    eexists. split; [done|]. split; simpl; try done.
    + rewrite Hv', kept_snoc, Eo, Hv. apply Permutation_cons_append.
    + congruence.
    + rewrite tally_snoc, Eo, <- Ho. lia.
Qed.

Lemma merge_measures b b' obs obs' :
  measures b obs -> measures b' obs' -> count (obs ++ obs') <= u64_max -> measures (merge_from b b') (obs ++ obs').
Proof.
  intros [Ht Hs Hf Hv Hh Ho] [Ht' Hs' Hf' Hv' Hh' Ho'] Hn.
  assert (forall p : duration * bool -> bool, wrapping u64_max (tally p obs + tally p obs') = tally p (obs ++ obs')) as Hw.
  { intros p. rewrite <- tally_app. apply wrapping_small. pose proof (tally_bounds p (obs ++ obs')). unfold count in *. split; lia. }
  destruct (hist_add_law (mb_latency_ms b) (mb_latency_ms b')) as (h & E & Hvh & Hhh); [congruence|].
  split; unfold merge_from; simpl.
  - rewrite Ht, Ht'. unfold count in *. rewrite length_app in *. rewrite wrapping_small by (split; lia). lia.
  - by rewrite Hs, Hs'.
  - by rewrite Hf, Hf'.
  - rewrite E. simpl. by rewrite Hvh, Hv, Hv', filter_app, map_app.
  - rewrite E. simpl. congruence.
  - rewrite Ho, Ho'. unfold saturating_add. rewrite <- tally_app.
    pose proof (tally_bounds overflows (obs ++ obs')). unfold count in *. lia.
Qed.
(** *** Per name *)

Lemma filter_none {A} (P : A -> Prop) `{!forall x, Decision (P x)} (l : list A) :
  (forall x, x ∈ l -> ~ P x) -> filter P l = [].
Proof.
  induction l as [|x l IH]; [done|]. intros Hl. rewrite filter_cons, decide_False by (apply Hl; constructor).
  apply IH. intros. apply Hl. by constructor.
Qed.

Implicit Types (m : gmap string (MetricsBucket H)) (log : list (string * (duration * bool))).

Definition of_name (name : string) log : list (duration * bool) := map snd (filter (fun e => e.1 = name) log).

Definition tallied m log : Prop :=
  forall name, match m !! name with Some b => measures b (of_name name log) | None => of_name name log = [] end.

Lemma of_name_app name log log' : of_name name (log ++ log') = of_name name log ++ of_name name log'.
Proof. unfold of_name. by rewrite filter_app, map_app. Qed.

Lemma of_name_length name log : count (of_name name log) <= Z.of_nat (length log).
Proof. unfold count, of_name. rewrite length_map. pose proof (length_filter (fun e => e.1 = name) log). lia. Qed.

(** The bucket of a name, or a new one. *)
Lemma entry_measures m log name :
  tallied m log ->
  exists b, match m !! name with Some b => Some b | None => MetricsBucket_new end = Some b /\ measures b (of_name name log).
Proof.
  intros Hm. specialize (Hm name). destruct (m !! name) as [b|]; [eauto|].
  destruct new_measures as (b & Eb & Hb). exists b. by rewrite Hm.
Qed.

Lemma tallied_insert m log log' name b :
  tallied m log -> measures b (of_name name log') -> (forall n, n <> name -> of_name n log' = of_name n log) ->
  tallied (<[name := b]> m) log'.
Proof.
  intros Hm Hb Hother n. destruct (decide (n = name)) as [->|Hne].
  - by rewrite lookup_insert_eq.
  - rewrite lookup_insert_ne by done. rewrite (Hother n Hne). apply Hm.
Qed.

Lemma record_entry_tallied name d ok m log :
  tallied m log -> Z.of_nat (length log) < u64_max ->
  exists m', record_entry name d ok m = Some m' /\ tallied m' (log ++ [(name, (d, ok))]).
Proof.
  intros Hm Hn. destruct (entry_measures m log name Hm) as (b & Eb & Hb).
  destruct (record_measures d ok b (of_name name log)) as (b' & Eb' & Hb'); [done|pose proof (of_name_length name log); lia|].
  exists (<[name := b']> m). unfold record_entry. rewrite Eb. simpl. rewrite Eb'. split; [done|].
  apply (tallied_insert m log); [done| |].
  - rewrite of_name_app. unfold of_name at 2. by rewrite filter_cons_True.
  - intros n Hne. rewrite of_name_app. unfold of_name at 2. rewrite filter_cons_False by done. by rewrite app_nil_r.
Qed.

(** The log of the names still to be merged is withheld. *)
Lemma merge_entries_tallied l m log log' :
  NoDup l.*1 -> (forall name b, (name, b) ∈ l -> measures b (of_name name log')) ->
  tallied m (log ++ filter (fun e => e.1 ∉ l.*1) log') -> Z.of_nat (length (log ++ log')) <= u64_max ->
  exists m', foldl merge_entry (Some m) l = Some m' /\ tallied m' (log ++ log').
Proof.
  revert m. induction l as [|[name b] l IH]; intros m Hnd Hl Hm Hn.
  { exists m. split; [done|]. rewrite filter_all in Hm; [done|]. intros e _. apply not_elem_of_nil. }
  apply NoDup_cons in Hnd as [Hname Hnd]. simpl in Hname.
  destruct (entry_measures m _ name Hm) as (b0 & Eb & Hb).
  simpl foldl. cbn [merge_entry fst snd mbind option_bind]. rewrite Eb. cbn [mbind option_bind].
  apply IH; [done|intros n b' Hin; apply Hl; by right| |done].
  assert (of_name name (log ++ filter (fun e => e.1 ∉ ((name, b) :: l).*1) log') = of_name name log) as E1.
  { rewrite of_name_app. replace (of_name name (filter _ log')) with (@nil (duration * bool)); [by rewrite app_nil_r|].
    unfold of_name. rewrite list_filter_filter, filter_none; [done|].
    intros e _ [<- Hc]. apply Hc. simpl. set_solver. }
  assert (of_name name (filter (fun e => e.1 ∉ l.*1) log') = of_name name log') as E2.
  { unfold of_name. rewrite list_filter_filter. f_equal. apply list_filter_iff. naive_solver. }
  apply (tallied_insert m _ _ name _ Hm).
  - rewrite of_name_app, E2. rewrite E1 in Hb. apply merge_measures; [done|apply Hl; by left|].
    rewrite <- of_name_app. pose proof (of_name_length name (log ++ log')). lia.
  - intros n Hne. rewrite !of_name_app. f_equal. unfold of_name. rewrite !list_filter_filter. f_equal.
    apply list_filter_iff. intros e. simpl. set_solver.
Qed.

Lemma merge_buckets_tallied m m' log log' :
  tallied m log -> tallied m' log' -> Z.of_nat (length (log ++ log')) <= u64_max ->
  exists m2, merge_buckets m m' = Some m2 /\ tallied m2 (log ++ log').
Proof.
  intros Hm Hm' Hn. apply merge_entries_tallied; [apply NoDup_fst_map_to_list| | |done].
  - intros name b Hin%elem_of_map_to_list. specialize (Hm' name). by rewrite Hin in Hm'.
  - rewrite filter_none; [by rewrite app_nil_r|]. intros [name o] Hin Hnot. apply Hnot. simpl.
    specialize (Hm' name). destruct (m' !! name) as [b|] eqn:E.
    + apply list_elem_of_fmap. exists (name, b). split; [done|]. by apply elem_of_map_to_list.
    + exfalso. unfold of_name in Hm'. apply map_eq_nil in Hm'.
      assert ((name, o) ∈ filter (fun e => e.1 = name) log') as Hf by by apply list_elem_of_filter. rewrite Hm' in Hf. by apply elem_of_nil in Hf.
Qed.
(** *** Error kinds *)

(** A map that counts: absent is zero. *)
Definition counts (errors : gmap string Z) (f : string -> Z) : Prop :=
  forall kind, errors !! kind = if f kind =? 0 then None else Some (f kind).

Lemma add_entry_counts kind n errors f :
  counts errors f -> 0 <= f kind -> 1 <= n -> f kind + n <= u64_max ->
  counts (add_entry kind n errors) (fun k => if decide (k = kind) then f kind + n else f k).
Proof.
  intros He Hf Hn Hm k. unfold add_entry. destruct (decide (k = kind)) as [->|Hne].
  - rewrite lookup_insert_eq, He. assert (default 0 (if f kind =? 0 then None else Some (f kind)) = f kind) as ->.
    { destruct (Z.eqb_spec (f kind) 0); simpl; lia. }
    rewrite wrapping_small by (split; lia). by destruct (Z.eqb_spec (f kind + n) 0); [lia|].
  - by rewrite lookup_insert_ne.
Qed.

Lemma add_entries_counts (l : list (string * Z)) errors f :
  NoDup l.*1 -> (forall k, 0 <= f k) -> (forall k n, (k, n) ∈ l -> 1 <= n /\ f k + n <= u64_max) -> counts errors f ->
  counts (add_entries errors l)
    (fun k => f k + default 0 ((list_to_map l : gmap string Z) !! k)).
Proof.
  revert errors f. induction l as [|[kind n] l IH]; intros errors f Hnd Hf Hl He; simpl.
  { intros k. rewrite lookup_empty, He. simpl. by rewrite Z.add_0_r. }
  apply NoDup_cons in Hnd as [Hk Hnd]. simpl in Hk. destruct (Hl kind n) as [Hn Hm]; [by left|].
  pose proof (add_entry_counts kind n errors f He (Hf kind) Hn Hm) as Hstep.
  apply IH in Hstep; [|done|intros k; case_decide; [specialize (Hf kind); lia|apply Hf]|].
  - intros k. rewrite Hstep. destruct (decide (k = kind)) as [->|Hne].
    + rewrite lookup_insert_eq, (not_elem_of_list_to_map_1 l) by done. simpl. by rewrite Z.add_0_r.
    + by rewrite lookup_insert_ne.
  - intros k n' Hin. assert (k <> kind) as Hne by (intros ->; apply Hk, list_elem_of_fmap; by exists (kind, n')).
    rewrite decide_False by done. apply Hl. by right.
Qed.

Definition occurrences (kinds : list string) (kind : string) : Z := tally (fun k => bool_decide (k = kind)) kinds.

Lemma occurrences_bounds kinds kind : 0 <= occurrences kinds kind <= Z.of_nat (length kinds).
Proof. apply tally_bounds. Qed.

Lemma occurrences_snoc kinds kind k :
  occurrences (kinds ++ [kind]) k = occurrences kinds k + (if decide (k = kind) then 1 else 0).
Proof.
  unfold occurrences. rewrite tally_app, tally_cons. unfold tally at 2. simpl.
  destruct (decide (k = kind)); [rewrite bool_decide_true by done|rewrite bool_decide_false by congruence]; lia.
Qed.

Lemma merge_errors_counts errors errors' kinds kinds' :
  counts errors (occurrences kinds) -> counts errors' (occurrences kinds') ->
  Z.of_nat (length (kinds ++ kinds')) <= u64_max ->
  counts (add_entries errors (map_to_list errors')) (occurrences (kinds ++ kinds')).
Proof.
  intros He He' Hn. rewrite length_app in Hn.
  assert (forall k, occurrences (kinds ++ kinds') k = occurrences kinds k + default 0 (errors' !! k)) as Hocc.
  { intros k. unfold occurrences at 1. rewrite tally_app, He'. fold (occurrences kinds k) (occurrences kinds' k).
    destruct (Z.eqb_spec (occurrences kinds' k) 0) as [-> |]; done. }
  intros k. rewrite Hocc, (add_entries_counts _ _ (occurrences kinds)), list_to_map_to_list; try done.
  - apply NoDup_fst_map_to_list.
  - apply occurrences_bounds.
  - intros j n Hin%elem_of_map_to_list. rewrite He' in Hin. pose proof (occurrences_bounds kinds j).
    pose proof (occurrences_bounds kinds' j). destruct (Z.eqb_spec (occurrences kinds' j) 0); [done|]. injection Hin as <-. lia.
Qed.
(** *** A worker's log *)

Inductive measurement :=
| MeasuredScenario (name : string) (d : duration) (ok : bool)
| MeasuredStep (name : string) (d : duration) (ok : bool)
| MeasuredError (kind : string).

Definition note_measurement (w : option (WorkerMetrics H)) (x : measurement) : option (WorkerMetrics H) :=
  w ← w;
  match x with
  | MeasuredScenario name d ok => record_scenario name d ok w
  | MeasuredStep name d ok => record_step name d ok w
  | MeasuredError kind => Some (record_error_kind kind w)
  end.

Definition scenarios_of (xs : list measurement) : list (string * (duration * bool)) :=
  omap (fun x => match x with MeasuredScenario name d ok => Some (name, (d, ok)) | _ => None end) xs.
Definition steps_of (xs : list measurement) : list (string * (duration * bool)) :=
  omap (fun x => match x with MeasuredStep name d ok => Some (name, (d, ok)) | _ => None end) xs.
Definition kinds_of (xs : list measurement) : list string :=
  omap (fun x => match x with MeasuredError kind => Some kind | _ => None end) xs.

Record accounts_for (w : WorkerMetrics H) (xs : list measurement) : Prop := {
  af_scenarios : tallied (wm_scenario_metrics w) (scenarios_of xs);
  af_steps : tallied (wm_step_metrics w) (steps_of xs);
  af_errors : counts (wm_error_counts w) (occurrences (kinds_of xs));
}.

Lemma omap_length {A B} (f : A -> option B) (xs : list A) : (length (omap f xs) <= length xs)%nat.
Proof. induction xs as [|x xs IH]; [done|]. change (length (match f x with Some y => y :: omap f xs | None => omap f xs end) <= S (length xs))%nat. destruct (f x); simpl length; lia. Qed.

Lemma empty_accounts : accounts_for WorkerMetrics_new [].
Proof. split; intros name; cbn; by rewrite lookup_empty. Qed.

Lemma note_accounts w xs x :
  accounts_for w xs -> Z.of_nat (length xs) < u64_max ->
  exists w', note_measurement (Some w) x = Some w' /\ accounts_for w' (xs ++ [x]).
Proof.
  intros [Hs Ht He] Hn.
  assert (length (scenarios_of xs) <= length xs)%nat by apply omap_length.
  assert (length (steps_of xs) <= length xs)%nat by apply omap_length.
  assert (length (kinds_of xs) <= length xs)%nat by apply omap_length.
  assert (scenarios_of (xs ++ [x]) = scenarios_of xs ++ scenarios_of [x]) as Es by apply omap_app.
  assert (steps_of (xs ++ [x]) = steps_of xs ++ steps_of [x]) as Et by apply omap_app.
  assert (kinds_of (xs ++ [x]) = kinds_of xs ++ kinds_of [x]) as Ek by apply omap_app.
  destruct x as [name d ok|name d ok|kind]; cbn in Es, Et, Ek.
  - destruct (record_entry_tallied name d ok _ _ Hs) as (m' & E & Hm'); [lia|]. eexists. split.
    + simpl. unfold record_scenario. by rewrite E.
    + split; simpl; by rewrite ?Es, ?Et, ?Ek, ?app_nil_r.
  - destruct (record_entry_tallied name d ok _ _ Ht) as (m' & E & Hm'); [lia|]. eexists. split.
    + simpl. unfold record_step. by rewrite E.
    + split; simpl; by rewrite ?Es, ?Et, ?Ek, ?app_nil_r.
  - eexists. split; [done|]. split; simpl; [by rewrite Es, app_nil_r|by rewrite Et, app_nil_r|]. rewrite Ek. intros k.
    rewrite (add_entry_counts kind 1 _ (occurrences (kinds_of xs))); [|done|apply occurrences_bounds|lia|].
    + rewrite occurrences_snoc. destruct (decide (k = kind)) as [->|Hne]; [done|by rewrite Z.add_0_r].
    + pose proof (occurrences_bounds (kinds_of xs) kind). lia.
Qed.
(** The metrics of a worker that measured these in order. *)
Definition worker_metrics (xs : list measurement) : option (WorkerMetrics H) :=
  foldl note_measurement (Some WorkerMetrics_new) xs.

(** The summary of a run: the workers are merged one after the other. *)
Definition merge_workers (workers : list (WorkerMetrics H)) : option (WorkerMetrics H) :=
  foldl (fun acc w => acc ≫= merge_worker w) (Some WorkerMetrics_new) workers.

Lemma worker_metrics_accounts xs :
  Z.of_nat (length xs) <= u64_max -> exists w, worker_metrics xs = Some w /\ accounts_for w xs.
Proof.
  induction xs as [|x xs IH] using rev_ind; intros Hn; [exists WorkerMetrics_new; split; [done|apply empty_accounts]|].
  rewrite length_app in Hn. simpl in Hn. destruct IH as (w & E & Hw); [lia|]. unfold worker_metrics in *.
  rewrite foldl_app, E. simpl foldl. apply note_accounts; [done|lia].
Qed.

Lemma merge_worker_accounts w w' xs xs' :
  accounts_for w xs -> accounts_for w' xs' -> Z.of_nat (length (xs ++ xs')) <= u64_max ->
  exists w2, merge_worker w' w = Some w2 /\ accounts_for w2 (xs ++ xs').
Proof.
  intros [Hs Ht He] [Hs' Ht' He'] Hn.
  assert (scenarios_of (xs ++ xs') = scenarios_of xs ++ scenarios_of xs') as Es by apply omap_app.
  assert (steps_of (xs ++ xs') = steps_of xs ++ steps_of xs') as Et by apply omap_app.
  assert (kinds_of (xs ++ xs') = kinds_of xs ++ kinds_of xs') as Ek by apply omap_app.
  assert (length (scenarios_of (xs ++ xs')) <= length (xs ++ xs'))%nat by apply omap_length.
  assert (length (steps_of (xs ++ xs')) <= length (xs ++ xs'))%nat by apply omap_length.
  assert (length (kinds_of (xs ++ xs')) <= length (xs ++ xs'))%nat by apply omap_length.
  rewrite Es in *. rewrite Et in *. rewrite Ek in *.
  destruct (merge_buckets_tallied _ _ _ _ Hs Hs') as (ms & Em & Hms); [lia|].
  destruct (merge_buckets_tallied _ _ _ _ Ht Ht') as (mt & Emt & Hmt); [lia|].
  eexists. unfold merge_worker. rewrite Em. simpl. rewrite Emt. split; [done|]. split; simpl.
  - by rewrite Es.
  - by rewrite Et.
  - rewrite Ek. apply merge_errors_counts; [done..|lia].
Qed.

Lemma merge_workers_from workers logs w0 xs0 :
  Forall2 accounts_for workers logs -> accounts_for w0 xs0 -> Z.of_nat (length (xs0 ++ concat logs)) <= u64_max ->
  exists w, foldl (fun acc w => acc ≫= merge_worker w) (Some w0) workers = Some w /\ accounts_for w (xs0 ++ concat logs).
Proof.
  intros Hall. revert w0 xs0. induction Hall as [|w xs workers logs Hw Hall IH]; intros w0 xs0 H0' Hn; simpl in *.
  { exists w0. by rewrite app_nil_r. }
  rewrite (app_assoc xs0) in *. destruct (merge_worker_accounts w0 w xs0 xs) as (w2 & E & Hw2); [done..| |].
  { rewrite length_app in Hn. lia. }
  rewrite E. by apply IH.
Qed.

(** C27: the summary of a run accounts for every measurement of every concurrent
    worker, however the executions were spread over them: for each scenario and
    step it has the number of executions, successes and failures, the recorded
    latencies and the number beyond the histogram, and for each error kind the
    number of failures of that kind. *)
Theorem summary_accounts_for_all_workers (logs : list (list measurement)) :
  Z.of_nat (length (concat logs)) <= u64_max ->
  exists workers summary, mapM worker_metrics logs = Some workers
    /\ merge_workers workers = Some summary /\ accounts_for summary (concat logs).
Proof.
  intros Hn. assert (exists workers, mapM worker_metrics logs = Some workers /\ Forall2 accounts_for workers logs) as (workers & E & Hall).
  { induction logs as [|xs logs IH]; [by exists []|]. simpl in Hn. rewrite length_app in Hn.
    destruct IH as (workers & E & Hall); [lia|]. destruct (worker_metrics_accounts xs) as (w & Ew & Hw); [lia|].
    exists (w :: workers). simpl. rewrite Ew. simpl. rewrite E. by split; [|constructor]. }
  destruct (merge_workers_from workers logs WorkerMetrics_new [] Hall empty_accounts Hn) as (w & Ew & Hw). eauto.
Qed.

(** *** Latency buckets *)

(** The value is not confused with one on the other side of a bound. *)
Definition resolved (bounds : list Z) (v : Z) : Prop :=
  Forall (fun u => (v <=? highest_equivalent u) = (v <=? u) /\ (lowest_equivalent (u + 1) <=? v) = (u + 1 <=? v)) bounds.

(** The buckets one would count by hand: for each bound, the values above the
    previous bound and up to it. *)
Fixpoint exact_buckets (values : list Z) (lower : Z) (bounds : list Z) : list LatencyBucket :=
  match bounds with
  | [] => []
  | u :: bounds' => mkBucket u (tally (fun v => (lower <=? v) && (v <=? u)) values) :: exact_buckets values (u + 1) bounds'
  end.

Lemma latency_buckets_exact (h : H) lower bounds :
  StronglySorted Z.lt (lower - 1 :: bounds) -> Forall (fun u => u < u64_max) bounds ->
  Forall (fun v => resolved bounds v /\ (lowest_equivalent lower <=? v) = (lower <=? v)) (hist_values h) ->
  latency_buckets_from h lower bounds = exact_buckets (hist_values h) lower bounds.
Proof.
  revert lower. induction bounds as [|u bounds IH]; intros lower Hsort Hmax Hv; [done|]. simpl.
  apply StronglySorted_inv in Hsort as [Hsort Hlt]. apply Forall_cons in Hmax as [Hu Hmax].
  apply Forall_cons in Hlt as [Hlu _]. f_equal; [f_equal|].
  - rewrite (proj2 (Z.ltb_ge _ _)) by lia. rewrite hist_count_law by lia. apply tally_ext.
    eapply Forall_impl; [exact Hv|]. intros v [Hres ->]. apply Forall_cons in Hres as [[-> _] _]. done.
  - unfold saturating_add. rewrite Z.min_r by lia. apply IH; [by replace (u + 1 - 1) with u by lia|done|].
    eapply Forall_impl; [exact Hv|]. intros v [Hres _]. apply Forall_cons in Hres as [[_ Hlow] Hres]. done.
Qed.

Lemma last_cons (l : list Z) u d : List.last (u :: l) d = List.last l u.
Proof.
  revert u d. induction l as [|w l IH]; [done|]. intros u d.
  change (List.last (w :: l) d = List.last (w :: l) u). by rewrite !IH.
Qed.

Lemma exact_buckets_sum values lower bounds :
  StronglySorted Z.lt (lower - 1 :: bounds) ->
  sumZ (map bucket_count (exact_buckets values lower bounds))
  = tally (fun v => (lower <=? v) && (v <=? List.last bounds (lower - 1))) values.
Proof.
  revert lower. induction bounds as [|u bounds IH]; intros lower Hsort.
  - simpl. induction values as [|v values IHv]; [done|]. rewrite tally_cons, <- IHv.
    destruct (Z.leb_spec lower v), (Z.leb_spec v (lower - 1)); simpl; lia.
  - apply StronglySorted_inv in Hsort as [Hsort Hlt]. apply Forall_cons in Hlt as [Hlu _].
    simpl exact_buckets. simpl map. simpl sumZ. rewrite IH by (by replace (u + 1 - 1) with u by lia).
    replace (u + 1 - 1) with u by lia.
    rewrite last_cons.
    assert (u <= List.last bounds u) as Hlast.
    { clear - Hsort. revert u Hsort. induction bounds as [|w bounds IH]; intros u Hs; [done|].
      apply StronglySorted_inv in Hs as [Hs Hl]. apply Forall_cons in Hl as [Hw _].
      specialize (IH w Hs). rewrite last_cons. lia. }
    symmetry. apply tally_split. apply Forall_true. intros v.
    destruct (Z.leb_spec lower v), (Z.leb_spec v u), (Z.leb_spec v (List.last bounds u)), (Z.leb_spec (u + 1) v); simpl; lia.
Qed.
Lemma bounds_sorted : StronglySorted Z.lt (1 - 1 :: LATENCY_BUCKET_BOUNDS_MS).
Proof. repeat constructor. Qed.

Lemma recorded_range b obs :
  measures b obs -> Forall (fun v => 1 <= v <= HISTOGRAM_HIGH) (hist_values (mb_latency_ms b)).
Proof.
  intros Hb. rewrite (ms_values _ _ Hb). apply Forall_map, Forall_forall.
  intros o [Ho _]%list_elem_of_filter. unfold overflows in Ho. pose proof (latency_millis_pos o.1).
  destruct (Z.ltb_spec HISTOGRAM_HIGH (latency_millis o.1)); [done|lia].
Qed.

Lemma recorded_count b obs :
  measures b obs -> Z.of_nat (length (hist_values (mb_latency_ms b))) + mb_latency_overflow b = mb_total b.
Proof.
  intros Hb. rewrite (ms_values _ _ Hb), (ms_overflow _ _ Hb), (ms_total _ _ Hb), length_map. unfold count. clear.
  induction obs as [|o obs IH]; [done|]. rewrite tally_cons, filter_cons. destruct (overflows o); simpl; lia.
Qed.

Lemma exact_total b obs :
  measures b obs ->
  sumZ (map bucket_count (exact_buckets (hist_values (mb_latency_ms b)) 1 LATENCY_BUCKET_BOUNDS_MS))
  + mb_latency_overflow b = mb_total b.
Proof.
  intros Hb. rewrite exact_buckets_sum by apply bounds_sorted. rewrite <- (recorded_count b obs Hb). f_equal.
  apply tally_all. eapply Forall_impl; [by eapply recorded_range|]. intros v Hv. simpl List.last. unfold HISTOGRAM_HIGH in Hv.
  by rewrite (proj2 (Z.leb_le _ _)), (proj2 (Z.leb_le _ _)) by lia.
Qed.

(** If no recorded latency shares its histogram class with a latency on the
    other side of a bucket bound, the published buckets count every execution
    once, each in the bucket of its latency. *)
Theorem latency_buckets_partition b obs :
  measures b obs ->
  Forall (fun o => overflows o = false -> resolved LATENCY_BUCKET_BOUNDS_MS (latency_millis o.1)) obs ->
  mergeable_latency_buckets b
  = exact_buckets (hist_values (mb_latency_ms b)) 1 LATENCY_BUCKET_BOUNDS_MS ++ [mkBucket u64_max (tally overflows obs)]
  /\ sumZ (map bucket_count (mergeable_latency_buckets b)) = count obs.
Proof.
  intros Hb Hres. assert (mergeable_latency_buckets b
    = exact_buckets (hist_values (mb_latency_ms b)) 1 LATENCY_BUCKET_BOUNDS_MS ++ [mkBucket u64_max (tally overflows obs)]) as E.
  { unfold mergeable_latency_buckets. rewrite (ms_overflow _ _ Hb). f_equal. apply latency_buckets_exact; [apply bounds_sorted| |].
    - repeat constructor.
    - rewrite (ms_values _ _ Hb). apply Forall_map, Forall_forall. intros o [Ho Hin]%list_elem_of_filter. split.
      + rewrite Forall_forall in Hres. apply (Hres o Hin). by destruct (overflows o).
      + pose proof (latency_millis_pos o.1). pose proof (equivalent_law 1). by rewrite !(proj2 (Z.leb_le _ _)) by lia. }
  split; [exact E|]. rewrite E, map_app, sumZ_app. simpl (sumZ (map _ [_])). rewrite Z.add_0_r, <- (ms_overflow _ _ Hb), (exact_total b obs Hb).
  apply (ms_total _ _ Hb).
Qed.
Lemma tally_le {A} (p q : A -> bool) (l : list A) : (forall x, p x = true -> q x = true) -> tally p l <= tally q l.
Proof.
  intros Hpq. induction l as [|x l IH]; [done|]. rewrite !tally_cons. specialize (Hpq x).
  destruct (p x), (q x); lia || by discriminate (Hpq eq_refl).
Qed.

Lemma latency_buckets_at_least (h : H) lower bounds :
  StronglySorted Z.lt (lower - 1 :: bounds) -> Forall (fun u => u < u64_max) bounds ->
  sumZ (map bucket_count (exact_buckets (hist_values h) lower bounds))
  <= sumZ (map bucket_count (latency_buckets_from h lower bounds)).
Proof.
  revert lower. induction bounds as [|u bounds IH]; intros lower Hsort Hmax; [done|]. simpl.
  apply StronglySorted_inv in Hsort as [Hsort Hlt]. apply Forall_cons in Hmax as [Hu Hmax].
  apply Forall_cons in Hlt as [Hlu _]. rewrite (proj2 (Z.ltb_ge _ _)) by lia. rewrite hist_count_law by lia.
  unfold saturating_add. rewrite Z.min_r by lia. apply Z.add_le_mono; [|apply IH; [by replace (u + 1 - 1) with u by lia|done]].
  apply tally_le. intros v [Hl Hh]%andb_true_iff. rewrite Z.leb_le in Hl, Hh.
  pose proof (equivalent_law lower). pose proof (equivalent_law u). rewrite !(proj2 (Z.leb_le _ _)) by lia. done.
Qed.

(** A value just below a lower end it is equivalent to is counted again. *)
Lemma latency_buckets_twice (h : H) lower bounds u :
  StronglySorted Z.lt (lower - 1 :: bounds) -> Forall (fun u => u < u64_max) bounds ->
  u ∈ removelast (lower - 1 :: bounds) -> lowest_equivalent (u + 1) <= u ->
  sumZ (map bucket_count (exact_buckets (hist_values h) lower bounds)) + tally (Z.eqb u) (hist_values h)
  <= sumZ (map bucket_count (latency_buckets_from h lower bounds)).
Proof.
  revert lower. induction bounds as [|w bounds IH]; intros lower Hsort Hmax Hin Hlow; [by apply elem_of_nil in Hin|].
  pose proof Hsort as [Hsort' Hlt]%StronglySorted_inv. pose proof Hmax as [Hw Hmax']%Forall_cons.
  apply Forall_cons in Hlt as [Hlu _]. simpl. rewrite (proj2 (Z.ltb_ge _ _)) by lia. rewrite hist_count_law by lia.
  unfold saturating_add. rewrite Z.min_r by lia.
  assert (StronglySorted Z.lt (w + 1 - 1 :: bounds)) as Hs by (by replace (w + 1 - 1) with w by lia).
  change (removelast (lower - 1 :: w :: bounds)) with (lower - 1 :: removelast (w :: bounds)) in Hin.
  apply elem_of_cons in Hin as [-> | Hin].
  - pose proof (latency_buckets_at_least h (w + 1) bounds Hs Hmax') as Hrest.
    assert (tally (fun v => (lower <=? v) && (v <=? w)) (hist_values h) + tally (Z.eqb (lower - 1)) (hist_values h)
      <= tally (fun v => (lowest_equivalent lower <=? v) && (v <=? highest_equivalent w)) (hist_values h)); [|lia].
    rewrite <- (tally_split (fun v => (lower - 1 <=? v) && (v <=? w))).
    + apply tally_le. intros v [Hl Hh]%andb_true_iff. rewrite Z.leb_le in Hl, Hh.
      replace (lower - 1 + 1) with lower in Hlow by lia. pose proof (equivalent_law w).
      rewrite !(proj2 (Z.leb_le _ _)) by lia. done.
    + apply Forall_true. intros v.
      destruct (Z.leb_spec (lower - 1) v), (Z.leb_spec v w), (Z.leb_spec lower v), (Z.eqb_spec (lower - 1) v); simpl; lia.
  - pose proof (IH (w + 1) Hs Hmax') as Hrest. replace (w + 1 - 1) with w in Hrest by lia. specialize (Hrest Hin Hlow).
    assert (tally (fun v => (lower <=? v) && (v <=? w)) (hist_values h)
      <= tally (fun v => (lowest_equivalent lower <=? v) && (v <=? highest_equivalent w)) (hist_values h)); [|lia].
    apply tally_le. intros v [Hl Hh]%andb_true_iff. rewrite Z.leb_le in Hl, Hh.
    pose proof (equivalent_law lower). pose proof (equivalent_law w). rewrite !(proj2 (Z.leb_le _ _)) by lia. done.
Qed.
Lemma bucket_counts_in_range b obs :
  measures b obs -> count obs <= u64_max ->
  Forall (fun x => in_range u64_max (bucket_count x)) (mergeable_latency_buckets b).
Proof.
  intros Hb Hn. pose proof (recorded_count b obs Hb) as Hrec. rewrite (ms_total _ _ Hb) in Hrec.
  pose proof (tally_bounds overflows obs) as Hov. rewrite <- (ms_overflow _ _ Hb) in Hov.
  unfold mergeable_latency_buckets. apply Forall_app. split; [|apply Forall_singleton; simpl; unfold count in *; split; lia].
  generalize 1 as lower. generalize LATENCY_BUCKET_BOUNDS_MS as bounds.
  induction bounds as [|u bounds IH]; intros lower; simpl; [constructor|]. constructor; [|apply IH].
  simpl. destruct (Z.ltb_spec u lower); [done|]. rewrite hist_count_law by lia.
  match goal with |- in_range _ (tally ?p ?l) => pose proof (tally_bounds p l) end. unfold count in *. split; lia.
Qed.

Lemma latency_bound u : u ∈ removelast LATENCY_BUCKET_BOUNDS_MS -> latency_millis (from_millis u) = u.
Proof.
  intros Hu. unfold latency_millis. rewrite as_millis_from_millis.
  assert (1 <= u <= 120000) by (clear - Hu; simpl in Hu; set_unfold; lia).
  rewrite (proj2 (try_from_Some u64_max u u)) by mlia. simpl. lia.
Qed.

Lemma tally_elem {A} (p : A -> bool) x (l : list A) : x ∈ l -> p x = true -> 1 <= tally p l.
Proof.
  intros Hin Hp. induction Hin as [|x y l Hin IH]; rewrite tally_cons.
  - rewrite Hp. pose proof (tally_bounds p l). lia.
  - specialize (IH Hp). destruct (p y); lia.
Qed.

(** Whenever a bucket bound (other than the last) shares its histogram class
    with the next latency, an execution that took exactly as long as the bound is
    counted in two buckets: the histogram of a run with such an execution counts
    more than its total and does not satisfy the contract of results. *)
Theorem latency_at_a_bound_is_counted_twice b obs u ok :
  measures b obs -> count obs <= u64_max ->
  u ∈ removelast LATENCY_BUCKET_BOUNDS_MS -> lowest_equivalent (u + 1) <= u -> (from_millis u, ok) ∈ obs ->
  count obs < sumZ (map bucket_count (mergeable_latency_buckets b))
  /\ validate_latency_buckets (mergeable_latency_buckets b) (mb_total b) <> Ok tt.
Proof.
  intros Hb Hn Hu Hlow Hin. assert (count obs < sumZ (map bucket_count (mergeable_latency_buckets b))) as Hlt.
  { unfold mergeable_latency_buckets. rewrite map_app, sumZ_app. simpl (sumZ (map _ [_])).
    pose proof (latency_buckets_twice (mb_latency_ms b) 1 LATENCY_BUCKET_BOUNDS_MS u bounds_sorted ltac:(repeat constructor)) as Htw.
    pose proof (exact_total b obs Hb). rewrite <- (ms_total _ _ Hb).
    assert (1 <= tally (Z.eqb u) (hist_values (mb_latency_ms b))) as Hone.
    { apply (tally_elem _ u); [|apply Z.eqb_refl]. rewrite (ms_values _ _ Hb). apply elem_of_map. exists (from_millis u, ok).
      simpl fst. rewrite latency_bound by done. split; [done|]. apply list_elem_of_filter. split; [|done].
      unfold overflows. simpl. rewrite latency_bound by done. rewrite (proj2 (Z.ltb_ge _ _)); [done|].
      clear - Hu. unfold HISTOGRAM_HIGH. simpl in Hu. set_unfold. lia. }
    assert (u ∈ removelast (1 - 1 :: LATENCY_BUCKET_BOUNDS_MS)) as Hu' by (right; exact Hu).
    specialize (Htw Hu' Hlow). lia. }
  split; [done|]. rewrite validate_latency_buckets_Ok; [|by eapply bucket_counts_in_range|rewrite (ms_total _ _ Hb); unfold count in *; split; lia].
  intros [_ Hsum]. destruct Hsum as [_ Hsum].
  { unfold mergeable_latency_buckets. by intros [_ ?]%app_eq_nil. }
  rewrite Hsum, (ms_total _ _ Hb) in Hlt. lia.
Qed.
End measures.

(** ** An instance *)

(** A histogram that keeps its values. Up to 2,047 the classes are single values;
    from there each power of two doubles their width, which is what three
    significant digits ask for. *)
Record kept_histogram := mkKept { kh_high : Z; kh_values : list Z }.

Definition class_width (x : Z) : Z := 2 ^ Z.max 0 (Z.log2 x - 10).

#[global] Instance kept_hist : LatencyHistogram kept_histogram := {
  hist_new_with_bounds low high digits := Some (mkKept high []);
  hist_record v h := if v <=? kh_high h then Some (mkKept (kh_high h) (v :: kh_values h)) else None;
  hist_add h1 h2 := Some (mkKept (kh_high h1) (kh_values h1 ++ kh_values h2));
  hist_count_between lo hi h :=
    tally (fun v => (lo - lo mod class_width lo <=? v) && (v <=? hi - hi mod class_width hi + class_width hi - 1))
      (kh_values h);
  hist_value_at_quantile q h := foldr Z.max 0 (kh_values h);
}.

#[global] Instance kept_hist_laws : LatencyHistogramLaws kept_histogram.
Proof.
  refine {| hist_values := kh_values; hist_high := kh_high;
            lowest_equivalent x := x - x mod class_width x;
            highest_equivalent x := x - x mod class_width x + class_width x - 1 |}.
  - intros high _. by eexists.
  - intros v h Hv. exists (mkKept (kh_high h) (v :: kh_values h)). simpl. by rewrite (proj2 (Z.leb_le _ _)) by lia.
  - intros h1 h2 Hh. by eexists.
  - done.
  - intros x. assert (0 < class_width x) by (apply Z.pow_pos_nonneg; lia).
    pose proof (Z.mod_pos_bound x (class_width x)). lia.
Defined.

Definition sample_log : list measurement :=
  [MeasuredStep "login" (from_millis 7) true; MeasuredScenario "checkout" (from_millis 20) true;
   MeasuredError "target_timeout"; MeasuredScenario "checkout" (from_millis 2500) false].

Lemma summary_accounts_for_all_workers_witness :
  exists summary, merge_workers (H := kept_histogram) (default [] (mapM worker_metrics [sample_log; sample_log])) = Some summary
    /\ wm_error_counts summary !! "target_timeout" = Some 2.
Proof.
  destruct (summary_accounts_for_all_workers (H := kept_histogram) [sample_log; sample_log] ltac:(by vm_compute))
    as (workers & summary & E & Em & Ha).
  exists summary. rewrite E. split; [exact Em|]. exact (af_errors _ _ Ha "target_timeout").
Defined.

(** A bucket with one execution of 20 ms, and one with one of 2,500 ms. *)
Definition brief_bucket : MetricsBucket kept_histogram := mkMetrics 1 1 0 (mkKept 120000 [20]) 0.
Definition slow_bucket : MetricsBucket kept_histogram := mkMetrics 1 0 1 (mkKept 120000 [2500]) 0.

Lemma brief_measures : measures brief_bucket [(from_millis 20, true)].
Proof. split; by vm_compute. Qed.

Lemma slow_measures : measures slow_bucket [(from_millis 2500, false)].
Proof. split; by vm_compute. Qed.

Lemma latency_buckets_partition_witness : sumZ (map bucket_count (mergeable_latency_buckets brief_bucket)) = 1.
Proof.
  refine (proj2 (latency_buckets_partition brief_bucket [(from_millis 20, true)] brief_measures _)).
  repeat constructor.
Defined.

Lemma latency_at_a_bound_is_counted_twice_witness :
  1 < sumZ (map bucket_count (mergeable_latency_buckets slow_bucket)).
Proof.
  refine (proj1 (latency_at_a_bound_is_counted_twice slow_bucket [(from_millis 2500, false)] 2500 false slow_measures _ _ _ _)).
  - by vm_compute.
  - apply (bool_decide_unpack _). by vm_compute.
  - by vm_compute.
  - by left.
Defined.
