(* ===== verification/Effects.v ===== *)
(** * Programs with effects

    The asynchronous tasks of a node (worker, scheduler, aggregator) as programs
    that call out: to Redis, to Kafka, to the target, to the clock. A program is
    run by an environment that answers each call as it likes, late or never: any
    task may be dropped at any call, by a timeout, by a lost race or by the death
    of the process. [Race] is [tokio::select!]: both sides proceed, in any
    interleaving, until one returns; the other is dropped where it is. [Both] is a
    [JoinSet] of two: both sides proceed, in any interleaving, until both have
    returned.

    A monitor watches the calls of a program and their answers and fails on the
    first one that breaks a protocol. [safe] is the logic for showing that no run
    of a program, whatever the environment, fails a monitor. *)

From S2P Require Import Prelude.

Section programs.
Context {call : Type} {answer : call -> Type}.

Inductive prog (A : Type) : Type :=
| Ret (a : A)
| Call (c : call) (k : answer c -> prog A)
| Race {B : Type} (p q : prog B) (k : B -> prog A)
| Both {B C : Type} (p : prog B) (q : prog C) (k : B -> C -> prog A).
Arguments Ret {A}.
Arguments Call {A}.
Arguments Race {A B}.
Arguments Both {A B C}.

Fixpoint prog_bind {A B} (f : A -> prog B) (m : prog A) : prog B :=
  match m with
  | Ret a => f a
  | Call c k => Call c (fun r => prog_bind f (k r))
  | Race p q k => Race p q (fun b => prog_bind f (k b))
  | Both p q k => Both p q (fun b c => prog_bind f (k b c))
  end.

#[global] Instance prog_mret : MRet prog := @Ret.
#[global] Instance prog_mbind : MBind prog := fun _ _ f m => prog_bind f m.

(** [tokio::select!] of two tasks with the same result. *)
Definition select {A} (p q : prog A) : prog A := Race p q Ret.

(** Tasks that run beside each other until all have returned. *)
Fixpoint join_all {A} (tasks : list (prog A)) : prog (list A) :=
  match tasks with
  | [] => Ret []
  | task :: tasks => Both task (join_all tasks) (fun a l => Ret (a :: l))
  end.

(** ** Runs *)

(** What is seen of a call: its answer, or that the caller was dropped while it
    was in flight, in which case it may or may not have taken effect. *)
Inductive obs :=
| Answered (c : call) (r : answer c)
| Dropped (c : call).

Inductive interleaves : list obs -> list obs -> list obs -> Prop :=
| interleaves_nil : interleaves [] [] []
| interleaves_l x t1 t2 t : interleaves t1 t2 t -> interleaves (x :: t1) t2 (x :: t)
| interleaves_r x t1 t2 t : interleaves t1 t2 t -> interleaves t1 (x :: t2) (x :: t).

(** [runs p tr o]: the calls seen are [tr]; [o] is the result, or [None] when
    the program was dropped before it returned: before it was polled again, or
    with a call in flight. *)
Fixpoint runs {A} (p : prog A) (tr : list obs) (o : option A) : Prop :=
  match p with
  | Ret a => tr = [] /\ o = Some a
  | Call c k =>
      (tr = [] /\ o = None) \/ (tr = [Dropped c] /\ o = None)
      \/ exists r tr', tr = Answered c r :: tr' /\ runs (k r) tr' o
  | Race p q k =>
      exists t1 t2 t, interleaves t1 t2 t
        /\ ((runs p t1 None /\ runs q t2 None /\ tr = t /\ o = None)
            \/ exists b tr', runs (k b) tr' o /\ tr = t ++ tr'
                 /\ ((runs p t1 (Some b) /\ runs q t2 None) \/ (runs p t1 None /\ runs q t2 (Some b))))
  | Both p q k =>
      exists t1 t2 t, interleaves t1 t2 t
        /\ ((exists ob oc, runs p t1 ob /\ runs q t2 oc /\ tr = t /\ o = None)
            \/ exists b c tr', runs p t1 (Some b) /\ runs q t2 (Some c) /\ runs (k b c) tr' o /\ tr = t ++ tr')
  end.

(** A call is answered. *)
Lemma runs_answer {A} c (k : answer c -> prog A) r tr o : runs (k r) tr o -> runs (Call c k) (Answered c r :: tr) o.
Proof. intros Hr. right. right. by exists r, tr. Qed.

(** The left side of a race returns before the right side has done anything. *)
Lemma runs_first {A B} (p q : prog B) (k : B -> prog A) b t1 tr o :
  runs p t1 (Some b) -> runs q [] None -> runs (k b) tr o -> runs (Race p q k) (t1 ++ tr) o.
Proof.
  intros Hp Hq Hk. exists t1, [], t1. split; [|right; exists b, tr; auto].
  clear Hp. induction t1 as [|x t1 IH]; by constructor.
Qed.

(** The right side of a race returns before the left side has done anything. *)
Lemma runs_second {A B} (p q : prog B) (k : B -> prog A) b t2 tr o :
  runs p [] None -> runs q t2 (Some b) -> runs (k b) tr o -> runs (Race p q k) (t2 ++ tr) o.
Proof.
  intros Hp Hq Hk. exists [], t2, t2. split; [|right; exists b, tr; auto].
  clear Hq. induction t2 as [|x t2 IH]; by constructor.
Qed.

(** Two tasks beside each other, dropped when the first and then the second has done its part. *)
Lemma interleaves_app t1 t2 : interleaves t1 t2 (t1 ++ t2).
Proof. induction t1 as [|x t1 IH]; simpl; [|by constructor]. induction t2 as [|x t2 IH]; by constructor. Qed.

Lemma runs_both_cut {A B C} (p : prog B) (q : prog C) (k : B -> C -> prog A) t1 t2 ob oc :
  runs p t1 ob -> runs q t2 oc -> runs (Both p q k) (t1 ++ t2) None.
Proof. intros Hp Hq. exists t1, t2, (t1 ++ t2). split; [apply interleaves_app|]. left. by exists ob, oc. Qed.

(** A race that is dropped while its first side runs. *)
Lemma runs_race_cut {A B} (p q : prog B) (k : B -> prog A) tr : runs p tr None -> runs q [] None -> runs (Race p q k) tr None.
Proof.
  intros Hp Hq. exists tr, [], tr. split; [|by left]. pose proof (interleaves_app tr []) as Hi. by rewrite app_nil_r in Hi.
Qed.

(** ** Playing a program

    One run of a program, in an environment that answers a call always the same or
    never. A race is left to its first side; the second side takes over when the
    first one waits for good. *)

(** Whether a program starts with a call. *)
Fixpoint idle {A} (p : prog A) : bool :=
  match p with
  | Ret _ => false
  | Call _ _ => true
  | Race p q _ => idle p && idle q
  | Both p q _ => idle p && idle q
  end.

Fixpoint play {A} (reply : forall c, option (answer c)) (p : prog A) : option (list obs * option A) :=
  match p with
  | Ret a => Some ([], Some a)
  | Call c k =>
      match reply c with
      | Some r => '(t, o) ← play reply (k r); Some (Answered c r :: t, o)
      | None => Some ([], None)
      end
  | Race p q k =>
      '(t1, ob) ← play reply p;
      match ob with
      | Some b => if idle q then '(t, o) ← play reply (k b); Some (t1 ++ t, o) else None
      | None =>
          '(t2, oc) ← play reply q;
          match oc with
          | Some b => '(t, o) ← play reply (k b); Some ((t1 ++ t2) ++ t, o)
          | None => Some (t1 ++ t2, None)
          end
      end
  | Both p q k =>
      '(t1, ob) ← play reply p;
      '(t2, oc) ← play reply q;
      match ob, oc with
      | Some b, Some c => '(t, o) ← play reply (k b c); Some ((t1 ++ t2) ++ t, o)
      | _, _ => Some (t1 ++ t2, None)
      end
  end.

Lemma runs_idle {A} (p : prog A) : idle p = true -> runs p [] None.
Proof.
  induction p as [A a|A c k _|A B p IHp q IHq k _|A B C p IHp q IHq k _]; simpl; [done|by left|..];
    intros [Hp Hq]%andb_true_iff; exists [], [], []; (split; [constructor|left]); naive_solver.
Qed.

Lemma play_runs {A} reply (p : prog A) tr o : play reply p = Some (tr, o) -> runs p tr o.
Proof.
  revert tr o. induction p as [A a|A c k IH|A B p IHp q IHq k IH|A B C p IHp q IHq k IH]; intros tr o Hplay; cbn [play] in Hplay.
  - by injection Hplay as <- <-.
  - destruct (reply c) as [r|].
    + apply bind_Some in Hplay as ([t o'] & Ht & [= <- <-]). by eapply runs_answer, IH.
    + injection Hplay as <- <-. by left.
  - apply bind_Some in Hplay as ([t1 [b|]] & Hp%IHp & Hplay).
    + destruct (idle q) eqn:Hq; [|done].
      apply bind_Some in Hplay as ([t o'] & Ht%IH & [= <- <-]). eapply runs_first; [done|by apply runs_idle|done].
    + apply bind_Some in Hplay as ([t2 [b|]] & Hq%IHq & Hplay); exists t1, t2, (t1 ++ t2); (split; [apply interleaves_app|]).
      * apply bind_Some in Hplay as ([t o'] & Ht%IH & [= <- <-]). right. exists b, t. auto.
      * injection Hplay as <- <-. by left.
  - apply bind_Some in Hplay as ([t1 ob] & Hp%IHp & Hplay). apply bind_Some in Hplay as ([t2 oc] & Hq%IHq & Hplay).
    destruct ob as [b|]; [destruct oc as [c|]|]; [|by injection Hplay as <- <-; eapply runs_both_cut..].
    apply bind_Some in Hplay as ([t o'] & Ht%IH & [= <- <-]). exists t1, t2, (t1 ++ t2). split; [apply interleaves_app|].
    right. by exists b, c, t.
Qed.

(** One program after another. *)
Lemma runs_then {A B} (m : prog A) (f : A -> prog B) a t1 t2 o :
  runs m t1 (Some a) -> runs (f a) t2 o -> runs (m ≫= f) (t1 ++ t2) o.
Proof.
  unfold mbind, prog_mbind. revert a f t1. induction m as [A a'|A c k IH|A C p _ q _ k IH|A C D p _ q _ k IH]; intros a f t1 Hm Hf.
  - destruct Hm as [-> [= ->]]. done.
  - destruct Hm as [[_ [=]]|[[_ [=]]|(r & tr' & -> & Hr)]]. right. right. exists r, (tr' ++ t2). split; [done|by eapply IH].
  - destruct Hm as (u1 & u2 & u & Hi & [(_ & _ & _ & [=])|(b & tr' & Hk & -> & Hpq)]).
    exists u1, u2, u. split; [done|]. right. exists b, (tr' ++ t2). split; [by eapply IH|]. by rewrite <- app_assoc.
  - destruct Hm as (u1 & u2 & u & Hi & [(ob & oc & _ & _ & _ & [=])|(b & c & tr' & Hp & Hq & Hk & ->)]).
    exists u1, u2, u. split; [done|]. right. exists b, c, (tr' ++ t2). split_and!; [done..|by eapply IH|]. by rewrite <- app_assoc.
Qed.

(** A program that is dropped before it hands over to the next. *)
Lemma runs_cut {A B} (m : prog A) (f : A -> prog B) tr : runs m tr None -> runs (m ≫= f) tr None.
Proof.
  unfold mbind, prog_mbind. revert f tr. induction m as [A a|A c k IH|A C p _ q _ k IH|A C D p _ q _ k IH]; intros f tr Hr.
  - by destruct Hr.
  - destruct Hr as [[-> _]|[[-> _]|(r & tr' & -> & Hr)]]; [by left|by right; left|]. right. right. exists r, tr'. split; [done|by apply IH].
  - destruct Hr as (t1 & t2 & t & Hi & [(H1 & H2 & -> & _)|(b & tr' & Hk & Hr)]); exists t1, t2, t; (split; [done|]); [by left|].
    right. exists b, tr'. split; [by apply IH|done].
  - destruct Hr as (t1 & t2 & t & Hi & [(ob & oc & H1 & H2 & -> & _)|(b & c & tr' & H1 & H2 & Hk & Hr)]); exists t1, t2, t; (split; [done|]).
    + left. by exists ob, oc.
    + right. exists b, c, tr'. split_and!; [done..|by apply IH|done].
Qed.

(** ** Interleavings and parts of runs *)

Lemma interleaves_sym t1 t2 t : interleaves t1 t2 t -> interleaves t2 t1 t.
Proof. induction 1; by constructor. Qed.

Lemma interleaves_Forall (P : obs -> Prop) t1 t2 t : interleaves t1 t2 t -> Forall P t1 -> Forall P t2 -> Forall P t.
Proof.
  induction 1 as [|x t1 t2 t _ IH|x t1 t2 t _ IH]; intros Hp Hq; [done| |].
  - apply Forall_cons in Hp as [??]. constructor; [done|by apply IH].
  - apply Forall_cons in Hq as [??]. constructor; [done|by apply IH].
Qed.

Lemma runs_bind {A B} (m : prog A) (f : A -> prog B) tr o :
  runs (m ≫= f) tr o ->
  (runs m tr None /\ o = None) \/ exists a t1 t2, runs m t1 (Some a) /\ runs (f a) t2 o /\ tr = t1 ++ t2.
Proof.
  unfold mbind, prog_mbind. revert tr o. induction m as [A a|A c k IH|A C p _ q _ k IH|A C D p _ q _ k IH]; intros tr o Hr.
  - right. exists a, [], tr. done.
  - destruct Hr as [[-> ->]|[[-> ->]|(r & tr' & -> & Hr)]]; [left; split; [by left|done]|left; split; [by right; left|done]|].
    destruct (IH r f tr' o Hr) as [[Hm ->]|(a & t1 & t2 & Hm & Hf & ->)].
    + left. split; [|done]. right. right. eauto.
    + right. exists a, (Answered c r :: t1), t2. split; [|done]. right. right. eauto.
  - destruct Hr as (t1 & t2 & t & Hint & [(H1 & H2 & -> & ->)|(b & tr' & Hr & -> & H12)]).
    + left. split; [|done]. exists t1, t2, t. split; [done|]. by left.
    + destruct (IH b f tr' o Hr) as [[Hm ->]|(a & u1 & u2 & Hm & Hf & ->)].
      * left. split; [|done]. exists t1, t2, t. split; [done|]. right. by exists b, tr'.
      * right. exists a, (t ++ u1), u2. split; [|split; [done|by rewrite app_assoc]].
        exists t1, t2, t. split; [done|]. right. by exists b, u1.
  - destruct Hr as (t1 & t2 & t & Hint & [(ob & oc & H1 & H2 & -> & ->)|(b & c & tr' & H1 & H2 & Hr & ->)]).
    + left. split; [|done]. exists t1, t2, t. split; [done|]. left. by exists ob, oc.
    + destruct (IH b c f tr' o Hr) as [[Hm ->]|(a & u1 & u2 & Hm & Hf & ->)].
      * left. split; [|done]. exists t1, t2, t. split; [done|]. right. by exists b, c, tr'.
      * right. exists a, (t ++ u1), u2. split; [|split; [done|by rewrite app_assoc]].
        exists t1, t2, t. split; [done|]. right. by exists b, c, u1.
Qed.

(** A program that returned went through all its parts. *)
Lemma runs_bind_done {A B} (m : prog A) (f : A -> prog B) tr b :
  runs (m ≫= f) tr (Some b) -> exists a t1 t2, tr = t1 ++ t2 /\ runs m t1 (Some a) /\ runs (f a) t2 (Some b).
Proof.
  intros [[_ [=]]|(a & t1 & t2 & Hm & Hf & ->)]%runs_bind. by exists a, t1, t2.
Qed.

(** ** What a program calls *)

Section makes.
Variable P : obs -> Prop.

(** Every call a program makes, answered or not, satisfies [P]. *)
Definition makes {A} (p : prog A) : Prop := forall tr o, runs p tr o -> Forall P tr.

Lemma makes_ret {A} (a : A) : makes (Ret a).
Proof. by intros tr o [-> ->]. Qed.

Lemma makes_call {A} c (k : answer c -> prog A) :
  P (Dropped c) -> (forall r, P (Answered c r) /\ makes (k r)) -> makes (Call c k).
Proof.
  intros Hd Hk tr o [[-> ->]|[[-> ->]|(r & tr' & -> & Hr)]]; [done|by constructor|].
  destruct (Hk r) as [Hp Hm]. constructor; [done|by eapply Hm].
Qed.

Lemma makes_race {A B} (p q : prog B) (k : B -> prog A) : makes p -> makes q -> (forall b, makes (k b)) -> makes (Race p q k).
Proof.
  intros Hp Hq Hk tr o (t1 & t2 & t & Hint & [(H1 & H2 & -> & ->)|(b & tr' & Hr & -> & H12)]).
  - apply (interleaves_Forall _ _ _ _ Hint); [by eapply Hp|by eapply Hq].
  - apply Forall_app. split; [|by eapply Hk].
    destruct H12 as [[H1 H2]|[H1 H2]]; (apply (interleaves_Forall _ _ _ _ Hint); [by eapply Hp|by eapply Hq]).
Qed.

Lemma makes_both {A B C} (p : prog B) (q : prog C) (k : B -> C -> prog A) :
  makes p -> makes q -> (forall b c, makes (k b c)) -> makes (Both p q k).
Proof.
  intros Hp Hq Hk tr o (t1 & t2 & t & Hint & [(ob & oc & H1 & H2 & -> & ->)|(b & c & tr' & H1 & H2 & Hr & ->)]).
  - apply (interleaves_Forall _ _ _ _ Hint); [by eapply Hp|by eapply Hq].
  - apply Forall_app. split; [|by eapply Hk]. apply (interleaves_Forall _ _ _ _ Hint); [by eapply Hp|by eapply Hq].
Qed.

Lemma makes_bind {A B} (m : prog A) (f : A -> prog B) : makes m -> (forall a, makes (f a)) -> makes (m ≫= f).
Proof.
  intros Hm Hf tr o Hr. destruct (runs_bind m f tr o Hr) as [[H1 ->]|(a & t1 & t2 & H1 & H2 & ->)]; [by eapply Hm|].
  apply Forall_app. split; [by eapply Hm|by eapply Hf].
Qed.
End makes.

(** ** Monitors *)

Section monitor.
Context {S : Type} (step : S -> obs -> option S).
Implicit Types (s : S) (tr : list obs).

Fixpoint watch s tr : option S :=
  match tr with
  | [] => Some s
  | x :: tr' => step s x ≫= fun s' => watch s' tr'
  end.

(** Started in [s], no run fails the monitor; a run that returns [a] leaves it in
    a state of [Q a], one that is dropped in a state of [I]. *)
Definition safe {A} (p : prog A) s (I : S -> Prop) (Q : A -> S -> Prop) : Prop :=
  forall tr o, runs p tr o ->
    exists s', watch s tr = Some s' /\ match o with Some a => Q a s' | None => I s' end.

(** The monitor does not mind. *)
Definition ignored (x : obs) : Prop := forall s, step s x = Some s.
Definition quiet {A} (p : prog A) : Prop := makes ignored p.

Lemma watch_app s tr tr' : watch s (tr ++ tr') = watch s tr ≫= fun s' => watch s' tr'.
Proof. revert s. induction tr as [|x tr IH]; intros s; [done|]. simpl. destruct (step s x); simpl; [apply IH|done]. Qed.

(** A monitor that accepts what was seen accepted what was seen before. *)
Lemma watch_prefix s a x b : is_Some (watch s (a ++ x :: b)) -> is_Some (watch s (a ++ [x])).
Proof.
  rewrite !watch_app. destruct (watch s a) as [s1|]; simpl; [|done]. by destruct (step s1 x); intros []; simplify_eq/=.
Qed.

Lemma watch_quiet t1 t2 t s : interleaves t1 t2 t -> Forall ignored t2 -> watch s t = watch s t1.
Proof.
  intros Hi. revert s. induction Hi as [|x t1 t2 t _ IH|x t1 t2 t _ IH]; intros s Hq; [done| |].
  - simpl. destruct (step s x); simpl; [by apply IH|done].
  - apply Forall_cons in Hq as [Hx Hq]. simpl. rewrite Hx. by apply IH.
Qed.

(** *** The logic *)

Section rules.
Context {A : Type}.
Implicit Types (I : S -> Prop) (Q : A -> S -> Prop).

Lemma safe_ret a s I Q : Q a s -> safe (Ret a) s I Q.
Proof. intros Hq tr o [-> ->]. by exists s. Qed.

Lemma safe_call c (k : answer c -> prog A) s I Q :
  I s -> (exists s', step s (Dropped c) = Some s' /\ I s') ->
  (forall r, exists s', step s (Answered c r) = Some s' /\ safe (k r) s' I Q) ->
  safe (Call c k) s I Q.
Proof.
  intros Hi (sd & Ed & Hd) Hk tr o [[-> ->]|[[-> ->]|(r & tr' & -> & Hr)]].
  - by exists s.
  - exists sd. simpl. by rewrite Ed.
  - destruct (Hk r) as (s' & Es & Hs). simpl. rewrite Es. by apply Hs.
Qed.

Lemma safe_mono (p : prog A) s I I' Q Q' :
  safe p s I Q -> (forall s', I s' -> I' s') -> (forall a s', Q a s' -> Q' a s') -> safe p s I' Q'.
Proof. intros Hp Hi Hq tr o Hr. destruct (Hp tr o Hr) as (s' & E & H). exists s'. split; [done|]. destruct o; auto. Qed.

Lemma safe_race {B} (p q : prog B) (k : B -> prog A) s I Q :
  quiet q -> safe p s (fun s' => I s' /\ forall b, (exists tr, runs q tr (Some b)) -> safe (k b) s' I Q)
                     (fun b s' => safe (k b) s' I Q) ->
  safe (Race p q k) s I Q.
Proof.
  intros Hq Hp tr o (t1 & t2 & t & Hint & [(H1 & H2 & -> & ->)|(b & tr' & Hk & -> & [[H1 H2]|[H1 H2]])]).
  - destruct (Hp _ _ H1) as (s' & E & [Hs' _]). exists s'. by rewrite (watch_quiet _ _ _ _ Hint (Hq _ _ H2)).
  - destruct (Hp _ _ H1) as (s' & E & Hs'). rewrite watch_app, (watch_quiet _ _ _ _ Hint (Hq _ _ H2)), E. by apply Hs'.
  - destruct (Hp _ _ H1) as (s' & E & [_ Hs']). rewrite watch_app, (watch_quiet _ _ _ _ Hint (Hq _ _ H2)), E.
    apply (Hs' b); [by eexists|done].
Qed.

Lemma safe_race_r {B} (p q : prog B) (k : B -> prog A) s I Q :
  quiet p -> safe q s (fun s' => I s' /\ forall b, (exists tr, runs p tr (Some b)) -> safe (k b) s' I Q)
                     (fun b s' => safe (k b) s' I Q) ->
  safe (Race p q k) s I Q.
Proof.
  intros Hp Hq tr o (t1 & t2 & t & Hint & Hr). apply interleaves_sym in Hint.
  apply (safe_race q p k s I Q Hp Hq). exists t2, t1, t. split; [done|]. naive_solver.
Qed.

Lemma quiet_ret (a : A) : quiet (Ret a).
Proof. apply makes_ret. Qed.

Lemma quiet_call c (k : answer c -> prog A) :
  ignored (Dropped c) -> (forall r, ignored (Answered c r) /\ quiet (k r)) -> quiet (Call c k).
Proof. apply makes_call. Qed.

Lemma quiet_race {B} (p q : prog B) (k : B -> prog A) : quiet p -> quiet q -> (forall b, quiet (k b)) -> quiet (Race p q k).
Proof. apply makes_race. Qed.

Lemma quiet_both {B C} (p : prog B) (q : prog C) (k : B -> C -> prog A) :
  quiet p -> quiet q -> (forall b c, quiet (k b c)) -> quiet (Both p q k).
Proof. apply makes_both. Qed.
End rules.

Lemma quiet_join_all {A} (tasks : list (prog A)) : Forall quiet tasks -> quiet (join_all tasks).
Proof.
  induction 1 as [|task tasks Ht _ IH]; [apply quiet_ret|]. apply quiet_both; [done..|]. intros. apply quiet_ret.
Qed.

Lemma safe_bind {A B} (m : prog A) (f : A -> prog B) s I Q :
  safe m s I (fun a s' => safe (f a) s' I Q) -> safe (m ≫= f) s I Q.
Proof.
  intros Hm tr o Hr. destruct (runs_bind m f tr o Hr) as [[H1 ->]|(a & t1 & t2 & H1 & H2 & ->)].
  - by apply Hm in H1.
  - apply Hm in H1 as (s1 & E1 & Hs1). apply Hs1 in H2 as (s2 & E2 & Hs2). exists s2. by rewrite watch_app, E1.
Qed.

Lemma quiet_bind {A B} (m : prog A) (f : A -> prog B) : quiet m -> (forall a, quiet (f a)) -> quiet (m ≫= f).
Proof. apply makes_bind. Qed.

(** A program whose calls leave the monitor where it is. *)
Lemma safe_steady {A} (p : prog A) s I (Q : A -> S -> Prop) :
  makes (fun x => step s x = Some s) p -> I s -> (forall a, Q a s) -> safe p s I Q.
Proof.
  intros Hp Hi HQ tr o Hr. exists s. split; [|by destruct o].
  pose proof (Hp _ _ Hr) as Hall. clear Hr. induction Hall as [|x tr Hx _ IH]; [done|]. simpl. by rewrite Hx.
Qed.

Lemma safe_quiet {A} (p : prog A) s I (Q : A -> S -> Prop) : quiet p -> I s -> (forall a, Q a s) -> safe p s I Q.
Proof. intros Hq. apply safe_steady. intros tr o Hr. apply (Forall_impl _ _ _ (Hq tr o Hr)). intros x Hx. apply Hx. Qed.
End monitor.

Lemma interleaves_subseteq t1 t2 t : interleaves t1 t2 t -> t1 ⊆ t /\ t2 ⊆ t.
Proof. induction 1; set_solver. Qed.

(** ** What comes before a call *)

Section causes.
Context (needs : obs -> Prop) (cause : obs -> obs -> Prop).
Implicit Types past tr : list obs.

(** After what is past, every observation that needs a cause has one before it. *)
Definition preceded past tr : Prop :=
  forall a x b, tr = a ++ x :: b -> needs x -> exists y, y ∈ past ++ a /\ cause y x.

(** In every run of the program. *)
Definition causal past {A} (p : prog A) : Prop := forall tr o, runs p tr o -> preceded past tr.

Lemma preceded_mono past past' tr : past ⊆ past' -> preceded past tr -> preceded past' tr.
Proof. intros Hp Ht a x b E Hx. destruct (Ht a x b E Hx) as (y & Hy & Hc). exists y. split; [set_solver|done]. Qed.

Lemma causal_mono past past' {A} (p : prog A) : past ⊆ past' -> causal past p -> causal past' p.
Proof. intros Hp Hc tr o Hr. eapply preceded_mono; [done|by eapply Hc]. Qed.

Lemma preceded_nil past : preceded past [].
Proof. by intros [] x b E. Qed.

Lemma preceded_cons past x tr :
  (needs x -> exists y, y ∈ past /\ cause y x) -> preceded (past ++ [x]) tr -> preceded past (x :: tr).
Proof.
  intros Hx Ht [|z a] x' b E Hn; injection E as Ez Et.
  - rewrite app_nil_r. subst x'. by apply Hx.
  - destruct (Ht a x' b Et Hn) as (y & Hy & Hc). exists y. split; [|done]. set_solver.
Qed.

Lemma preceded_app past t1 t2 : preceded past t1 -> preceded (past ++ t1) t2 -> preceded past (t1 ++ t2).
Proof.
  intros H1 H2 a x b E Hx. apply app_eq_app in E as (l & [[-> E]|[-> E]]).
  - destruct l as [|y l]; [|injection E as E _; subst y; by eapply (H1 a x l)].
    destruct (H2 [] x b) as (y & Hy & Hc); [by rewrite E|done|]. exists y. split; [set_solver|done].
  - destruct (H2 l x b) as (y & Hy & Hc); [done..|]. exists y. split; [set_solver|done].
Qed.

Lemma interleaves_split t1 t2 t a x b :
  interleaves t1 t2 t -> t = a ++ x :: b ->
  exists a1 a2, interleaves a1 a2 a /\ ((exists b1, t1 = a1 ++ x :: b1) \/ (exists b2, t2 = a2 ++ x :: b2)).
Proof.
  intros Hi. revert a. induction Hi as [|y t1 t2 t Hi IH|y t1 t2 t Hi IH]; intros a E.
  - by destruct a.
  - destruct a as [|z a]; simpl in E; injection E as Ey Et; subst y.
    + exists [], []. split; [constructor|]. left. by exists t1.
    + destruct (IH a Et) as (a1 & a2 & Ha & [[b1 ->]|[b2 ->]]); exists (z :: a1), a2; (split; [by constructor|]);
        [left; by exists b1|right; by exists b2].
  - destruct a as [|z a]; simpl in E; injection E as Ey Et; subst y.
    + exists [], []. split; [constructor|]. right. by exists t2.
    + destruct (IH a Et) as (a1 & a2 & Ha & [[b1 ->]|[b2 ->]]); exists a1, (z :: a2); (split; [by constructor|]);
        [left; by exists b1|right; by exists b2].
Qed.

Lemma preceded_interleaves past t1 t2 t : interleaves t1 t2 t -> preceded past t1 -> preceded past t2 -> preceded past t.
Proof.
  intros Hi H1 H2 a x b E Hx. destruct (interleaves_split _ _ _ _ _ _ Hi E) as (a1 & a2 & Ha & Hs).
  apply interleaves_subseteq in Ha as [Ha1 Ha2]. destruct Hs as [[b1 ->]|[b2 ->]].
  - destruct (H1 a1 x b1 eq_refl Hx) as (y & Hy & Hc). exists y. split; [set_solver|done].
  - destruct (H2 a2 x b2 eq_refl Hx) as (y & Hy & Hc). exists y. split; [set_solver|done].
Qed.

Lemma causal_ret past {A} (a : A) : causal past (Ret a).
Proof. intros tr o [-> _]. apply preceded_nil. Qed.

Lemma causal_call past {A} c (k : answer c -> prog A) :
  (needs (Dropped c) -> exists y, y ∈ past /\ cause y (Dropped c)) ->
  (forall r, (needs (Answered c r) -> exists y, y ∈ past /\ cause y (Answered c r)) /\ causal (past ++ [Answered c r]) (k r)) ->
  causal past (Call c k).
Proof.
  intros Hd Hk tr o [[-> _]|[[-> _]|(r & tr' & -> & Hr)]]; [apply preceded_nil|by apply preceded_cons; [|apply preceded_nil]|].
  destruct (Hk r) as [Hn Hc]. apply preceded_cons; [done|by eapply Hc].
Qed.

Lemma causal_bind past {A B} (m : prog A) (f : A -> prog B) :
  causal past m -> (forall a t, runs m t (Some a) -> causal (past ++ t) (f a)) -> causal past (m ≫= f).
Proof.
  intros Hm Hf tr o Hr. destruct (runs_bind m f tr o Hr) as [[H1 _]|(a & t1 & t2 & H1 & H2 & ->)]; [by eapply Hm|].
  apply preceded_app; [by eapply Hm|by eapply Hf].
Qed.

Lemma causal_race past {A B} (p q : prog B) (k : B -> prog A) :
  causal past p -> causal past q -> (forall b, causal past (k b)) -> causal past (Race p q k).
Proof.
  intros Hp Hq Hk tr o (t1 & t2 & t & Hi & [(H1 & H2 & -> & _)|(b & tr' & Hr & -> & H12)]).
  - by eapply preceded_interleaves; [done|eapply Hp|eapply Hq].
  - apply preceded_app; [|eapply preceded_mono; [|by eapply Hk]; set_solver].
    destruct H12 as [[H1 H2]|[H1 H2]]; (by eapply preceded_interleaves; [done|eapply Hp|eapply Hq]).
Qed.

Lemma causal_both past {A B C} (p : prog B) (q : prog C) (k : B -> C -> prog A) :
  causal past p -> causal past q -> (forall b c, causal past (k b c)) -> causal past (Both p q k).
Proof.
  intros Hp Hq Hk tr o (t1 & t2 & t & Hi & [(ob & oc & H1 & H2 & -> & _)|(b & c & tr' & H1 & H2 & Hr & ->)]).
  - by eapply preceded_interleaves; [done|eapply Hp|eapply Hq].
  - apply preceded_app; [|eapply preceded_mono; [|by eapply Hk]; set_solver].
    by eapply preceded_interleaves; [done|eapply Hp|eapply Hq].
Qed.

Lemma causal_join_all past {A} (tasks : list (prog A)) : Forall (causal past) tasks -> causal past (join_all tasks).
Proof. induction 1; [apply causal_ret|]. apply causal_both; [done..|]. intros. apply causal_ret. Qed.
End causes.
End programs.
#[global] Arguments prog {call} answer A.
#[global] Arguments Ret {call answer A}.
#[global] Arguments Call {call answer A}.
#[global] Arguments Race {call answer A B}.
#[global] Arguments Both {call answer A B C}.
#[global] Arguments obs {call} answer.

(** ** Calls answered by programs *)

Section interp.
Context {call1 call2 : Type} {answer1 : call1 -> Type} {answer2 : call2 -> Type}.
Variable handler : forall c : call1, prog answer2 (answer1 c).

(** Each call of the program is carried out by its handler. *)
Fixpoint interp {A} (p : prog answer1 A) : prog answer2 A :=
  match p with
  | Ret a => Ret a
  | Call c k => handler c ≫= fun r => interp (k r)
  | Race p q k => Race (interp p) (interp q) (fun b => interp (k b))
  | Both p q k => Both (interp p) (interp q) (fun b c => interp (k b c))
  end.
End interp.

(** ** A program as one part of another *)

Section parts.
Context {call1 call2 : Type} {answer1 : call1 -> Type} {answer2 : call2 -> Type}.
Variable view : obs answer2 -> option (obs answer1).

(** Nothing the program does is seen; what is seen of it is a run of [p]. *)
Definition unseen {A} (q : prog answer2 A) : Prop := forall tr o, runs q tr o -> omap view tr = [].
Definition shows {A B} (p : prog answer1 A) (q : prog answer2 B) : Prop :=
  forall tr o, runs q tr o -> exists o', runs p (omap view tr) o'.

Lemma interleaves_omap t1 t2 t : interleaves t1 t2 t -> interleaves (omap view t1) (omap view t2) (omap view t).
Proof. induction 1; simpl; [constructor|case_match; [by constructor|done]..]. Qed.

Lemma interleaves_nil_r {call : Type} {answer : call -> Type} (t1 t : list (obs answer)) : interleaves t1 [] t -> t = t1.
Proof. intros Hi. remember [] as t2 eqn:E. induction Hi; [done|by rewrite IHHi|done]. Qed.

Lemma omap_interleaves_l t1 t2 t : interleaves t1 t2 t -> omap view t2 = [] -> omap view t = omap view t1.
Proof. intros Hi E. apply interleaves_omap in Hi. rewrite E in Hi. by apply interleaves_nil_r in Hi. Qed.

Lemma omap_interleaves_r t1 t2 t : interleaves t1 t2 t -> omap view t1 = [] -> omap view t = omap view t2.
Proof. intros Hi%interleaves_sym. by apply omap_interleaves_l. Qed.

Lemma unseen_ret {A} (a : A) : unseen (Ret a).
Proof. by intros tr o [-> _]. Qed.

Lemma unseen_call {A} c (k : answer2 c -> prog answer2 A) :
  view (Dropped c) = None -> (forall r, view (Answered c r) = None /\ unseen (k r)) -> unseen (Call c k).
Proof.
  intros Hd Hk tr o [[-> _]|[[-> _]|(r & tr' & -> & Hr)]]; [done|simpl; by rewrite Hd|].
  destruct (Hk r) as [Hv Hu]. simpl. rewrite Hv. by eapply Hu.
Qed.

Lemma unseen_bind {A B} (m : prog answer2 A) (f : A -> prog answer2 B) :
  unseen m -> (forall a, unseen (f a)) -> unseen (m ≫= f).
Proof.
  intros Hm Hf tr o Hr. destruct (runs_bind m f tr o Hr) as [[H1 _]|(a & t1 & t2 & H1 & H2 & ->)]; [by eapply Hm|].
  by rewrite omap_app, (Hm _ _ H1), (Hf a _ _ H2).
Qed.

Lemma unseen_race {A B} (p q : prog answer2 B) (k : B -> prog answer2 A) :
  unseen p -> unseen q -> (forall b, unseen (k b)) -> unseen (Race p q k).
Proof.
  intros Hp Hq Hk tr o (t1 & t2 & t & Hi & Hr). assert (omap view t2 = []) as E2 by (destruct Hr as [?|?]; naive_solver).
  assert (omap view t1 = []) as E1 by (destruct Hr as [?|?]; naive_solver).
  pose proof (omap_interleaves_l _ _ _ Hi E2) as Et. rewrite E1 in Et.
  destruct Hr as [(_ & _ & -> & _)|(b & tr' & Hr & -> & _)]; [done|]. by rewrite omap_app, Et, (Hk b _ _ Hr).
Qed.

Lemma unseen_both {A B C} (p : prog answer2 B) (q : prog answer2 C) (k : B -> C -> prog answer2 A) :
  unseen p -> unseen q -> (forall b c, unseen (k b c)) -> unseen (Both p q k).
Proof.
  intros Hp Hq Hk tr o (t1 & t2 & t & Hi & Hr). assert (omap view t2 = []) as E2 by (destruct Hr as [?|?]; naive_solver).
  assert (omap view t1 = []) as E1 by (destruct Hr as [?|?]; naive_solver).
  pose proof (omap_interleaves_l _ _ _ Hi E2) as Et. rewrite E1 in Et.
  destruct Hr as [(ob & oc & _ & _ & -> & _)|(b & c & tr' & _ & _ & Hr & ->)]; [done|]. by rewrite omap_app, Et, (Hk b c _ _ Hr).
Qed.

Lemma unseen_interp {call0 : Type} {answer0 : call0 -> Type} (h : forall c, prog answer2 (answer0 c)) {A} (p : prog answer0 A) :
  (forall c, unseen (h c)) -> unseen (interp h p).
Proof.
  intros Hh. induction p as [A a|A c k IH|A B p IHp q IHq k IH|A B C p IHp q IHq k IH]; simpl.
  - apply unseen_ret.
  - by apply unseen_bind.
  - by apply unseen_race.
  - by apply unseen_both.
Qed.

Lemma unseen_join_all {A} (tasks : list (prog answer2 A)) : Forall unseen tasks -> unseen (join_all tasks).
Proof. induction 1; [apply unseen_ret|]. apply unseen_both; [done..|]. intros. apply unseen_ret. Qed.

(** The calls of a program, passed on one for one. *)
Section pass.
Variable wrap : call1 -> call2.
Variable unwrap : forall c, answer2 (wrap c) -> answer1 c.
Hypothesis view_answered : forall c r, view (Answered (wrap c) r) = Some (Answered c (unwrap c r)).
Hypothesis view_dropped : forall c, view (Dropped (wrap c)) = Some (Dropped c).

Definition pass (c : call1) : prog answer2 (answer1 c) := Call (wrap c) (fun r => Ret (unwrap c r)).

Lemma runs_interp_pass {A} (p : prog answer1 A) tr o : runs (interp pass p) tr o -> runs p (omap view tr) o.
Proof.
  revert tr o. induction p as [A a|A c k IH|A B p IHp q IHq k IH|A B C p IHp q IHq k IH]; intros tr o Hr; simpl in Hr.
  - by destruct Hr as [-> ->].
  - destruct Hr as [[-> ->]|[[-> ->]|(r & tr' & -> & Hr)]]; [by left|right; left; simpl; by rewrite view_dropped|].
    right. right. exists (unwrap c r), (omap view tr'). simpl. rewrite view_answered. split; [done|by apply IH].
  - destruct Hr as (t1 & t2 & t & Hi & [(H1 & H2 & -> & ->)|(b & tr' & Hk & -> & H12)]);
      exists (omap view t1), (omap view t2), (omap view t); (split; [by apply interleaves_omap|]); [left; auto|].
    right. exists b, (omap view tr'). rewrite omap_app. split; [by apply IH|]. split; [done|].
    destruct H12 as [[H1 H2]|[H1 H2]]; [left|right]; auto.
  - destruct Hr as (t1 & t2 & t & Hi & [(ob & oc & H1 & H2 & -> & ->)|(b & c & tr' & H1 & H2 & Hk & ->)]);
      exists (omap view t1), (omap view t2), (omap view t); (split; [by apply interleaves_omap|]); [left; exists ob, oc; auto|].
    right. exists b, c, (omap view tr'). rewrite omap_app. split_and!; [auto..|by apply IH|done].
Qed.

(** A run of the program is one of it passed on. *)
Variable lift : obs answer1 -> obs answer2.
Hypothesis lift_answered : forall c r, exists r', lift (Answered c r) = Answered (wrap c) r' /\ unwrap c r' = r.
Hypothesis lift_dropped : forall c, lift (Dropped c) = Dropped (wrap c).

Lemma interleaves_map t1 t2 t : interleaves t1 t2 t -> interleaves (map lift t1) (map lift t2) (map lift t).
Proof. induction 1; by constructor. Qed.

Lemma runs_pass {A} (p : prog answer1 A) tr o : runs p tr o -> runs (interp pass p) (map lift tr) o.
Proof.
  revert tr o. induction p as [A a|A c k IH|A B p IHp q IHq k IH|A B C p IHp q IHq k IH]; intros tr o Hr; simpl.
  - by destruct Hr as [-> ->].
  - destruct Hr as [[-> ->]|[[-> ->]|(r & tr' & -> & Hr)]]; [by left|right; left; simpl; by rewrite lift_dropped|].
    destruct (lift_answered c r) as (r' & El & Er). right. right. exists r', (map lift tr'). simpl. rewrite El. split; [done|].
    rewrite Er. by apply IH.
  - destruct Hr as (t1 & t2 & t & Hi & [(H1 & H2 & -> & ->)|(b & tr' & Hk & -> & H12)]);
      exists (map lift t1), (map lift t2), (map lift t); (split; [by apply interleaves_map|]); [left; auto|].
    right. exists b, (map lift tr'). rewrite map_app. split; [by apply IH|]. split; [done|].
    destruct H12 as [[H1 H2]|[H1 H2]]; [left|right]; auto.
  - destruct Hr as (t1 & t2 & t & Hi & [(ob & oc & H1 & H2 & -> & ->)|(b & c & tr' & H1 & H2 & Hk & ->)]);
      exists (map lift t1), (map lift t2), (map lift t); (split; [by apply interleaves_map|]); [left; exists ob, oc; auto|].
    right. exists b, c, (map lift tr'). rewrite map_app. split_and!; [auto..|by apply IH|done].
Qed.
End pass.

(** *** What is seen of a program is a run of its part *)

Section shows.
Context {A1 : Type} (p : prog answer1 A1).
Hypothesis idle : runs p [] None.

Lemma unseen_shows {B} (q : prog answer2 B) : unseen q -> shows p q.
Proof. intros Hq tr o Hr. rewrite (Hq _ _ Hr). by exists None. Qed.

Lemma shows_bind {A B} (m : prog answer2 A) (f : A -> prog answer2 B) :
  shows p m -> (forall a, unseen (f a)) -> shows p (m ≫= f).
Proof.
  intros Hm Hf tr o Hr. destruct (runs_bind m f tr o Hr) as [[H1 _]|(a & t1 & t2 & H1 & H2 & ->)]; [by eapply Hm|].
  rewrite omap_app, (Hf a _ _ H2), app_nil_r. by eapply Hm.
Qed.

Lemma shows_after {A B} (m : prog answer2 A) (f : A -> prog answer2 B) :
  unseen m -> (forall a, shows p (f a)) -> shows p (m ≫= f).
Proof.
  intros Hm Hf tr o Hr. destruct (runs_bind m f tr o Hr) as [[H1 _]|(a & t1 & t2 & H1 & H2 & ->)]; [by eapply unseen_shows|].
  rewrite omap_app, (Hm _ _ H1). by eapply Hf.
Qed.

Lemma shows_call {A} c (k : answer2 c -> prog answer2 A) :
  view (Dropped c) = None -> (forall r, view (Answered c r) = None /\ shows p (k r)) -> shows p (Call c k).
Proof.
  intros Hd Hk tr o [[-> _]|[[-> _]|(r & tr' & -> & Hr)]]; [by exists None|simpl; rewrite Hd; by exists None|].
  destruct (Hk r) as [Hv Hs]. simpl. rewrite Hv. by eapply Hs.
Qed.

Lemma shows_race {A B} (m q : prog answer2 B) (k : B -> prog answer2 A) :
  shows p m -> unseen q -> (forall b, unseen (k b)) -> shows p (Race m q k).
Proof.
  intros Hm Hq Hk tr o (t1 & t2 & t & Hi & Hr). assert (omap view t2 = []) as E2 by (destruct Hr as [?|?]; naive_solver).
  assert (exists o', runs m t1 o') as [o' H1] by (destruct Hr as [?|?]; naive_solver).
  pose proof (omap_interleaves_l _ _ _ Hi E2) as Et.
  destruct Hr as [(_ & _ & -> & _)|(b & tr' & Hr & -> & _)]; [rewrite Et; by eapply Hm|].
  rewrite omap_app, Et, (Hk b _ _ Hr), app_nil_r. by eapply Hm.
Qed.

Lemma shows_both_l {A B C} (m : prog answer2 B) (q : prog answer2 C) (k : B -> C -> prog answer2 A) :
  shows p m -> unseen q -> (forall b c, unseen (k b c)) -> shows p (Both m q k).
Proof.
  intros Hm Hq Hk tr o (t1 & t2 & t & Hi & Hr). assert (omap view t2 = []) as E2 by (destruct Hr as [?|?]; naive_solver).
  assert (exists o', runs m t1 o') as [o' H1] by (destruct Hr as [?|?]; naive_solver).
  pose proof (omap_interleaves_l _ _ _ Hi E2) as Et.
  destruct Hr as [(ob & oc & _ & _ & -> & _)|(b & c & tr' & _ & _ & Hr & ->)]; [rewrite Et; by eapply Hm|].
  rewrite omap_app, Et, (Hk b c _ _ Hr), app_nil_r. by eapply Hm.
Qed.

Lemma shows_both_r {A B C} (m : prog answer2 B) (q : prog answer2 C) (k : B -> C -> prog answer2 A) :
  unseen m -> shows p q -> (forall b c, unseen (k b c)) -> shows p (Both m q k).
Proof.
  intros Hm Hq Hk tr o (t1 & t2 & t & Hi & Hr). assert (omap view t1 = []) as E1 by (destruct Hr as [?|?]; naive_solver).
  assert (exists o', runs q t2 o') as [o' H2] by (destruct Hr as [?|?]; naive_solver).
  pose proof (omap_interleaves_r _ _ _ Hi E1) as Et.
  destruct Hr as [(ob & oc & _ & _ & -> & _)|(b & c & tr' & _ & _ & Hr & ->)]; [rewrite Et; by eapply Hq|].
  rewrite omap_app, Et, (Hk b c _ _ Hr), app_nil_r. by eapply Hq.
Qed.

(** One of the tasks that run beside each other shows it, the others show nothing. *)
Lemma shows_join_all {A} (before : list (prog answer2 A)) task after :
  Forall unseen before -> shows p task -> Forall unseen after -> shows p (join_all (before ++ task :: after)).
Proof.
  intros Hb Ht Ha. induction Hb as [|q before Hq _ IH].
  - apply shows_both_l; [done|by apply unseen_join_all|]. intros. apply unseen_ret.
  - apply shows_both_r; [done..|]. intros. apply unseen_ret.
Qed.
End shows.
End parts.
