(* ===== verification/Runner.v ===== *)
(** * Running a slice of load

    [src/src/application/rate_limiter.rs] and [src/src/application/runner.rs]: the token
    bucket that paces the starts, the execution of one scenario, and the loop that
    launches scenarios until the load window closes and then drains them. The
    tasks the loop spawns, the clock and the target are the environment; the tasks
    are added in [RunnerReport]. *)

From S2P Require Import Prelude RustStr F64 Contracts Domain Planning Metrics Effects.

(** ** The token bucket *)

Record TokenBucket := mkTokens {
  tb_capacity : f64;
  tb_refill_per_sec : f64;
  tb_tokens : f64;
  tb_last_refill : Z;
}.

Definition f64_half : f64 := f64_of_ratio 1 2.

(** [None] is a failed assertion. *)
Definition bucket_build (scenarios_per_sec : f64) (burst_capacity now : Z) : option TokenBucket :=
  if f64_is_finite scenarios_per_sec && f64_ltb f64_zero scenarios_per_sec
  then Some (mkTokens (f64_of_Z burst_capacity) scenarios_per_sec f64_half now) else None.

Definition bucket_new (scenarios_per_sec : f64) (now : Z) : option TokenBucket := bucket_build scenarios_per_sec 1 now.

Definition bucket_with_burst (scenarios_per_sec : f64) (burst_capacity now : Z) : option TokenBucket :=
  if 0 <? burst_capacity
  then b ← bucket_build scenarios_per_sec burst_capacity now;
       Some (mkTokens (tb_capacity b) (tb_refill_per_sec b) (tb_capacity b) (tb_last_refill b))
  else None.

Definition refill (now : Z) (b : TokenBucket) : TokenBucket :=
  let elapsed := as_secs_f64 (saturating_sub now (tb_last_refill b)) in
  mkTokens (tb_capacity b) (tb_refill_per_sec b)
    (f64_min (f64_add (tb_tokens b) (f64_mul elapsed (tb_refill_per_sec b))) (tb_capacity b)) now.

(** [Duration::from_secs_f64]: rounded to the nearest nanosecond, ties to even;
    [None] is its panic on a negative, infinite or too large argument. *)
Definition from_secs_f64 (x : f64) : option duration :=
  match x with
  | S754_zero _ => Some 0
  | S754_finite false m e =>
      let num := Zpos m * nanos_per_sec * 2 ^ Z.max 0 e in
      let den := 2 ^ Z.max 0 (- e) in
      let '(q, r) := Z.div_eucl num den in
      let rounded := if 2 * r <? den then q else if den <? 2 * r then q + 1 else if Z.even q then q else q + 1 in
      if rounded <=? duration_max then Some rounded else None
  | _ => None
  end.

(** The body of the loop of [acquire], up to its sleep: a token is taken, or the
    time to sleep is returned. The bucket keeps what the refill did to it even
    when the sleep is cancelled. *)
Definition acquire_attempt (now : Z) (b : TokenBucket) : option (option duration * TokenBucket) :=
  let b := refill now b in
  if f64_leb f64_one (tb_tokens b)
  then Some (None, mkTokens (tb_capacity b) (tb_refill_per_sec b) (f64_sub (tb_tokens b) f64_one) (tb_last_refill b))
  else let missing := f64_sub f64_one (tb_tokens b) in
       wait ← from_secs_f64 (f64_div missing (tb_refill_per_sec b));
       Some (Some (Z.max wait 1), b).

(** ** Calls of the runner *)

Record RunnerConfig := mkRunnerConfig {
  rc_duration : duration;
  rc_scenarios_per_sec : f64;
  rc_max_concurrency : Z;
  rc_scenario_timeout : option duration;
  rc_startup_burst : Z;
}.

Section runner.
Context {W H : Type} `{LatencyHistogram H}.

Inductive rcall :=
| RNow
| RSleep (d : duration)
| RSleepUntil (t : Z)
| RStep (s : Step W) (ctx : ScenarioContext)
| RRecord (worker : Z) (xs : list measurement)
| RAcquire
| RTryJoin
| RJoinNext
| RSpawn (worker : Z)
| RMetrics (worker : Z)
| RForever.

(** A step is executed in the world of the target; [RRecord] waits for the lock
    of a worker's metrics and records; [RAcquire] is one [acquire_attempt]. A join
    yields whether the task panicked, if there is a task to join. *)
Definition ranswer (c : rcall) : Type :=
  match c with
  | RNow => Z
  | RStep _ _ => (result PulseError unit * ScenarioContext)%type
  | RAcquire => option duration
  | RTryJoin | RJoinNext => option (result unit unit)
  | RMetrics _ => WorkerMetrics H
  | RForever => Empty_set
  | _ => unit
  end.

Notation rprog := (prog ranswer).

Definition rnow : rprog Z := Call RNow Ret.
(** A call that is never answered: what a loop that is out of fuel does. *)
Definition rforever {A} : rprog A := Call RForever (fun r : Empty_set => match r with end).
Definition rsleep (d : duration) : rprog unit := Call (RSleep d) Ret.
Definition rrecord (worker : Z) (xs : list measurement) : rprog unit := Call (RRecord worker xs) Ret.

(** [start.elapsed()]. *)
Definition elapsed_since (start : Z) : rprog duration := now ← rnow; mret (saturating_sub now start).

(** ** One scenario *)

Fixpoint run_steps (name : string) (worker start : Z) (sts : list (Step W)) (ctx : ScenarioContext) : rprog unit :=
  match sts with
  | [] =>
      d ← elapsed_since start;
      rrecord worker [MeasuredScenario name d true]
  | s :: sts' =>
      step_start ← rnow;
      '(r, ctx') ← Call (RStep s ctx) Ret;
      step_duration ← elapsed_since step_start;
      rrecord worker [MeasuredStep (step_name s) step_duration (is_ok r)];;
      match r with
      | Err e =>
          d ← elapsed_since start;
          rrecord worker [MeasuredError (kind_label e); MeasuredScenario name d false]
      | Ok _ => run_steps name worker start sts' ctx'
      end
  end.

Definition execute_scenario_inner (scenario : Scenario W) (worker start : Z) : rprog unit :=
  run_steps (scenario_name scenario) worker start (steps scenario) context_default.

Definition execute_scenario (scenario : Scenario W) (worker : Z) (timeout : option duration) : rprog unit :=
  start ← rnow;
  match timeout with
  | None => execute_scenario_inner scenario worker start
  | Some deadline =>
      in_time ← select (execute_scenario_inner scenario worker start;; mret true) (rsleep deadline;; mret false);
      if in_time : bool then mret tt
      else d ← elapsed_since start;
           rrecord worker [MeasuredError "scenario_timeout"; MeasuredScenario (scenario_name scenario) d false]
  end.

(** ** The launch loop *)

Definition record_join_result (r : result unit unit) : Z := match r with Ok _ => 0 | Err _ => 1 end.

(** The joined tasks are counted by [len], the length of the join set, and
    [failures], those that panicked. *)
Definition joined (r : option (result unit unit)) (len failures : Z) : Z * Z :=
  match r with
  | Some r => (len - 1, saturating_add u64_max failures (record_join_result r))
  | None => (len, failures)
  end.

Fixpoint reap_completed (fuel : nat) (len failures : Z) : rprog (Z * Z) :=
  match fuel with
  | O => rforever
  | S fuel' =>
      r ← Call RTryJoin Ret;
      match r with
      | Some _ => let '(len, failures) := joined r len failures in reap_completed fuel' len failures
      | None => mret (len, failures)
      end
  end.

(** [while join_set.len() >= concurrency]; [None] is [break 'launch]. *)
Fixpoint await_capacity (fuel : nat) (concurrency deadline len failures : Z) : rprog (option (Z * Z) * (Z * Z)) :=
  match fuel with
  | O => rforever
  | S fuel' =>
      if concurrency <=? len
      then r ← select (r ← Call RJoinNext Ret; mret (Some r)) (Call (RSleepUntil deadline) Ret;; mret None);
           match r with
           | Some r => let '(len, failures) := joined r len failures in
                       await_capacity fuel' concurrency deadline len failures
           | None => mret (None, (len, failures))
           end
      else mret (Some (len, failures), (len, failures))
  end.

(** [bucket.acquire()]. *)
Fixpoint acquire (fuel : nat) : rprog unit :=
  match fuel with
  | O => rforever
  | S fuel' =>
      r ← Call RAcquire Ret;
      match r with
      | None => mret tt
      | Some wait => rsleep wait;; acquire fuel'
      end
  end.

Inductive rate_event := Acquired | Joined (r : option (result unit unit)) | Deadline.

Fixpoint acquire_rate (fuel : nat) (deadline len failures : Z) : rprog (bool * (Z * Z)) :=
  match fuel with
  | O => rforever
  | S fuel' =>
      let other :=
        if 0 <? len
        then select (r ← Call RJoinNext Ret; mret (Joined r)) (Call (RSleepUntil deadline) Ret;; mret Deadline)
        else Call (RSleepUntil deadline) Ret;; mret Deadline in
      e ← select (acquire fuel';; mret Acquired) other;
      match e with
      | Acquired => mret (true, (len, failures))
      | Joined r => let '(len, failures) := joined r len failures in acquire_rate fuel' deadline len failures
      | Deadline => mret (false, (len, failures))
      end
  end.

Record launch_state := mkLaunch { ls_launched : Z; ls_peak : Z; ls_len : Z; ls_failures : Z }.

Fixpoint launch_loop (fuel : nat) (concurrency deadline : Z) (st : launch_state) : rprog launch_state :=
  match fuel with
  | O => rforever
  | S fuel' =>
      '(len, failures) ← reap_completed fuel' (ls_len st) (ls_failures st);
      '(capacity, (len, failures)) ← await_capacity fuel' concurrency deadline len failures;
      let stopped := mkLaunch (ls_launched st) (ls_peak st) len failures in
      match capacity with
      | None => mret stopped
      | Some _ =>
          now ← rnow;
          if deadline <=? now then mret stopped else
          '(rate_acquired, (len, failures)) ← acquire_rate fuel' deadline len failures;
          let stopped := mkLaunch (ls_launched st) (ls_peak st) len failures in
          if negb rate_acquired then mret stopped else
          now ← rnow;
          if deadline <=? now then mret stopped else
          Call (RSpawn (ls_launched st mod concurrency)) Ret;;
          launch_loop fuel' concurrency deadline
            (mkLaunch (ls_launched st + 1) (Z.max (ls_peak st) (len + 1)) (len + 1) failures)
      end
  end.

(** [while let Some(result) = join_set.join_next().await]. *)
Fixpoint drain (fuel : nat) (len failures : Z) : rprog Z :=
  match fuel with
  | O => rforever
  | S fuel' =>
      r ← Call RJoinNext Ret;
      match r with
      | Some _ => let '(len, failures) := joined r len failures in drain fuel' len failures
      | None => mret failures
      end
  end.
(** ** A run *)

Record RunReport := mkReport {
  rep_summary : WorkerMetrics H;
  rep_started : Z;
  rep_finished : Z;
  rep_configured_scenarios_per_sec : f64;
  rep_actual_started_per_sec : f64;
  rep_peak_pending_tasks : Z;
}.

(** The workers' metrics are merged one after the other; [None] is a panic. *)
Fixpoint collect (workers : list Z) (summary : WorkerMetrics H) : rprog (option (WorkerMetrics H)) :=
  match workers with
  | [] => mret (Some summary)
  | w :: workers' =>
      metrics ← Call (RMetrics w) Ret;
      match merge_worker metrics summary with
      | Some summary => collect workers' summary
      | None => mret None
      end
  end.

Definition add_task_failures (failures : Z) (summary : WorkerMetrics H) : WorkerMetrics H :=
  if 0 <? failures
  then mkWorkerMetrics (wm_scenario_metrics summary) (wm_step_metrics summary)
         (add_entry "invariant_violation" failures (wm_error_counts summary))
  else summary.

Definition run_concurrency (config : RunnerConfig) : Z := Z.max (rc_max_concurrency config) 1.

(** The run from its launch instant on. *)
Definition run_from (fuel : nat) (scenario : Scenario W) (config : RunnerConfig) (launch_start : Z)
    : rprog (option RunReport) :=
  let concurrency := run_concurrency config in
  st ← launch_loop fuel concurrency (launch_start + rc_duration config) (mkLaunch 0 0 0 0);
  task_failures ← drain fuel (ls_len st) (ls_failures st);
  summary ← collect (rangeZ concurrency) WorkerMetrics_new;
  match summary with
  | None => mret None
  | Some summary =>
      let summary := add_task_failures task_failures summary in
      let finished := default 0 (mb_total <$> wm_scenario_metrics summary !! scenario_name scenario) in
      d ← elapsed_since launch_start;
      let elapsed_secs := f64_max (as_secs_f64 d) (f64_of_ratio 1 1000) in
      mret (Some (mkReport summary (ls_launched st) finished (rc_scenarios_per_sec config)
                    (f64_div (f64_of_Z (ls_launched st)) elapsed_secs) (ls_peak st)))
  end.

Definition run_once (fuel : nat) (scenario : Scenario W) (config : RunnerConfig) : rprog (option RunReport) :=
  launch_start ← rnow;
  run_from fuel scenario config launch_start.
End runner.

(** ** One scenario is measured once *)

Section scenario_runs.
Context {W H : Type} `{LatencyHistogram H}.
Notation rprog := (prog (ranswer (W := W) (H := H))).
Notation robs := (obs (ranswer (W := W) (H := H))).

(** The monitor that collects what was recorded. *)
Definition note_record (log : list measurement) (x : robs) : option (list measurement) :=
  match x with
  | Answered (RRecord _ xs) _ => Some (log ++ xs)
  | _ => Some log
  end.

Definition recorded (tr : list robs) : list measurement := default [] (watch note_record [] tr).

Definition unconcluded (log : list measurement) : Prop := scenarios_of log = [] /\ kinds_of log = [].

Definition concluded (name : string) (log : list measurement) : Prop :=
  (exists d, scenarios_of log = [(name, (d, true))] /\ kinds_of log = [])
  \/ exists d kind, scenarios_of log = [(name, (d, false))] /\ kinds_of log = [kind].

Lemma unconcluded_app log xs : unconcluded log ->
  scenarios_of (log ++ xs) = scenarios_of xs /\ kinds_of (log ++ xs) = kinds_of xs.
Proof.
  intros [Hs Hk]. unfold scenarios_of, kinds_of in *. by rewrite !omap_app, Hs, Hk.
Qed.

(** Calls that record nothing. *)
Lemma safe_unrecorded {A} (c : rcall) (k : ranswer c -> rprog A) log (I : list measurement -> Prop) Q :
  (forall w xs, c <> RRecord w xs) -> I log -> (forall r, safe note_record (k r) log I Q) ->
  safe note_record (Call c k) log I Q.
Proof.
  intros Hc Hi Hk. apply safe_call; [done|exists log; by split|]. intros r. exists log. split; [|apply Hk].
  destruct c; try done. by edestruct Hc.
Qed.

Lemma safe_recorded {A} w xs (k : unit -> rprog A) log (I : list measurement -> Prop) Q :
  I log -> safe note_record (k tt) (log ++ xs) I Q -> safe note_record (Call (RRecord w xs) k) log I Q.
Proof. intros Hi Hk. apply safe_call; [done|exists log; by split|]. intros []. by exists (log ++ xs). Qed.

Lemma run_steps_safe name worker start sts ctx log :
  unconcluded log ->
  safe note_record (run_steps name worker start sts ctx) log unconcluded (fun _ log' => concluded name log').
Proof.
  revert ctx log. induction sts as [|s sts IH]; intros ctx log Hlog; cbn.
  - apply safe_unrecorded; [done..|]. intros now. apply safe_recorded; [done|]. apply safe_ret. left.
    destruct (unconcluded_app log [MeasuredScenario name (saturating_sub now start) true] Hlog) as [-> ->]. by eexists.
  - apply safe_unrecorded; [done..|]. intros t0. apply safe_unrecorded; [done..|]. intros [r ctx']. cbn.
    apply safe_unrecorded; [done..|]. intros t1. apply safe_recorded; [done|].
    assert (unconcluded (log ++ [MeasuredStep (step_name s) (saturating_sub t1 t0) (is_ok r)])) as Hlog'.
    { unfold unconcluded. destruct (unconcluded_app log [MeasuredStep (step_name s) (saturating_sub t1 t0) (is_ok r)] Hlog) as [-> ->]. done. }
    destruct r as [u|e]; cbn in Hlog' |- *; [by apply IH|].
    apply safe_unrecorded; [done..|]. intros t2. apply safe_recorded; [done|]. apply safe_ret. right.
    destruct (unconcluded_app _ [MeasuredError (kind_label e); MeasuredScenario name (saturating_sub t2 start) false] Hlog')
      as [-> ->]. by eexists _, _.
Qed.

Lemma execute_scenario_safe (scenario : Scenario W) worker timeout :
  safe note_record (execute_scenario scenario worker timeout) [] unconcluded (fun _ log => concluded (scenario_name scenario) log).
Proof.
  unfold execute_scenario. cbn. apply safe_unrecorded; [done..|]. intros start.
  destruct timeout as [deadline|]; [|by apply run_steps_safe]. apply safe_race.
  - apply quiet_call; [done|]. intros []. split; [done|]. apply quiet_ret.
  - apply safe_bind. eapply safe_mono; [by apply run_steps_safe| |].
    + intros log Hlog. split; [done|]. intros b Hb. cbn.
      assert (b = false) as ->.
      { destruct Hb as (tr & [[_ ?]|[[_ ?]|([] & tr' & _ & [_ [= ->]])]]); done. }
      cbn. apply safe_unrecorded; [done..|]. intros now. apply safe_recorded; [done|]. apply safe_ret. right.
      destruct (unconcluded_app log [MeasuredError "scenario_timeout"; MeasuredScenario (scenario_name scenario) (saturating_sub now start) false] Hlog)
        as [-> ->]. by eexists _, _.
    + intros [] log Hlog. apply safe_ret. cbn. by apply safe_ret.
Qed.

Lemma watch_note_record tr log : exists log', watch note_record log tr = Some log'.
Proof.
  revert log. induction tr as [|x tr IH]; intros log; [by eexists|]. simpl. destruct x as [[] r|c]; simpl; apply IH.
Qed.

(** Whatever the steps answer, however long they take and whether or not the
    scenario has a deadline, an execution of a scenario that ends has recorded
    exactly one measurement of the scenario, together with exactly one error kind
    if it failed and none if it succeeded; one that was cancelled before its end
    has recorded neither. *)
Theorem scenario_is_measured_once (scenario : Scenario W) worker timeout tr o :
  runs (execute_scenario scenario worker timeout) tr o ->
  match o with
  | Some _ => concluded (scenario_name scenario) (recorded tr)
  | None => unconcluded (recorded tr)
  end.
Proof.
  intros Hr. destruct (execute_scenario_safe scenario worker timeout tr o Hr) as (log & E & Hlog).
  unfold recorded. rewrite E. by destruct o.
Qed.
End scenario_runs.

(** ** Launches are bounded and inside the window *)

Section launches.
Context {W H : Type} `{LatencyHistogram H}.
Notation rprog := (prog (ranswer (W := W) (H := H))).
Notation robs := (obs (ranswer (W := W) (H := H))).

(** The first monitor counts the tasks in the join set and those launched, and
    fails on a launch beyond the configured concurrency. A join set that yields
    a task it does not hold is not one: from there on anything goes ([None]). *)
Definition gate_state : Type := option (Z * Z).

Definition gate (concurrency : Z) (s : gate_state) (x : robs) : option gate_state :=
  match s with
  | None => Some None
  | Some (pending, launched) =>
      match x with
      | Answered (RSpawn _) _ =>
          if pending <? concurrency then Some (Some (pending + 1, launched + 1)) else None
      | Answered RTryJoin r =>
          match r : option (result unit unit) with
          | Some _ => Some (if 0 <? pending then Some (pending - 1, launched) else None)
          | None => Some s
          end
      | Answered RJoinNext r =>
          match r : option (result unit unit) with
          | Some _ => Some (if 0 <? pending then Some (pending - 1, launched) else None)
          | None => Some s
          end
      | _ => Some s
      end
  end.

(** The second fails on a launch that does not directly follow, after the token
    was acquired, a reading of the clock before the deadline. *)
Definition window (deadline : Z) (fresh : bool) (x : robs) : option bool :=
  match x with
  | Answered RNow t => Some (t <? deadline)
  | Answered RAcquire _ => Some false
  | Answered (RSpawn _) _ => if fresh then Some false else None
  | _ => Some fresh
  end.

Lemma safe_void {A} concurrency (p : rprog A) (I : gate_state -> Prop) (Q : A -> gate_state -> Prop) :
  I None -> (forall a, Q a None) -> safe (gate concurrency) p None I Q.
Proof.
  intros Hi HQ tr o Hr. exists None. split; [|by destruct o]. clear Hr. induction tr as [|x tr IH]; [done|exact IH].
Qed.

(** The monitor agrees with the loop's own counts. *)
Definition fits (len launched : Z) (s : gate_state) : Prop := s = None \/ (s = Some (len, launched) /\ 0 <= len).

Definition any_state {S} (s : S) : Prop := True.

(** A call the gate does not mind. *)
Lemma safe_gate_call {A} concurrency (c : rcall) (k : ranswer c -> rprog A) s Q :
  (forall r, gate concurrency s (Answered c r) = Some s) ->
  (forall r, safe (gate concurrency) (k r) s any_state Q) -> safe (gate concurrency) (Call c k) s any_state Q.
Proof.
  intros Hc Hk. apply safe_call; [done| |].
  - exists s. split; [|done]. by destruct s as [[]|].
  - intros r. exists s. by split.
Qed.

Lemma safe_gate_join {A} concurrency (c : rcall) (f : ranswer c -> option (result unit unit)) (k : ranswer c -> rprog A)
    len launched failures s Q :
  (forall p n r, gate concurrency (Some (p, n)) (Answered c r)
     = Some (match f r with Some _ => if 0 <? p then Some (p - 1, n) else None | None => Some (p, n) end)) ->
  fits len launched s ->
  (forall r s', fits (joined (f r) len failures).1 launched s' -> safe (gate concurrency) (k r) s' any_state Q) ->
  safe (gate concurrency) (Call c k) s any_state Q.
Proof.
  intros Hc Hs Hk. apply safe_call; [done|exists s; split; [by destruct s as [[]|]|done]|]. intros r.
  destruct Hs as [-> | [-> Hlen]].
  - exists None. split; [done|]. apply Hk. by left.
  - rewrite Hc. eexists. split; [done|]. apply Hk. destruct (f r) as [x|]; simpl; [|by right].
    destruct (Z.ltb_spec 0 len); [right; split; [done|lia]|by left].
Qed.

Lemma safe_forever {A S} (step : S -> robs -> option S) s Q :
  step s (Dropped RForever) = Some s -> safe step (rforever (A := A)) s any_state Q.
Proof. intros Hd. apply safe_call; [done|by exists s|]. intros []. Qed.

Lemma gate_forever {A} concurrency s Q : safe (gate concurrency) (rforever (A := A)) s any_state Q.
Proof. apply safe_forever. by destruct s as [[]|]. Qed.

Lemma reap_gated concurrency fuel len failures launched s :
  fits len launched s ->
  safe (gate concurrency) (reap_completed fuel len failures) s any_state (fun r s' => fits r.1 launched s').
Proof.
  revert len failures s. induction fuel as [|fuel IH]; intros len failures s Hs; [apply gate_forever|]. cbn.
  apply (safe_gate_join concurrency RTryJoin id _ len launched failures); [by intros p n [r|]|done|].
  intros [r|] s' Hs'; cbn in *; [by apply IH|by apply safe_ret].
Qed.

Lemma drain_gated concurrency fuel len failures launched s :
  fits len launched s ->
  safe (gate concurrency) (drain fuel len failures) s any_state (fun _ s' => exists len', fits len' launched s').
Proof.
  revert len failures s. induction fuel as [|fuel IH]; intros len failures s Hs; [apply gate_forever|]. cbn.
  apply (safe_gate_join concurrency RJoinNext id _ len launched failures); [by intros p n [r|]|done|].
  intros [r|] s' Hs'; cbn in *; [by apply IH|apply safe_ret; eauto].
Qed.
(** Joining a task, or a deadline. *)
Definition join_or {A} (deadline : Z) (f : option (result unit unit) -> A) (late : A) : rprog A :=
  select (r ← Call RJoinNext Ret; mret (f r)) (Call (RSleepUntil deadline) Ret;; mret late).

Lemma sleep_until_result deadline {A} (late b : A) tr :
  runs (Call (RSleepUntil deadline) Ret;; mret late : rprog A) tr (Some b) -> b = late.
Proof. intros [[_ ?]|[[_ ?]|(r & tr' & _ & [_ [= ->]])]]; done. Qed.

Lemma sleep_until_quiet {S} (step : S -> robs -> option S) deadline {A} (late : A) :
  (forall x, (exists t, x = Dropped (RSleepUntil t)) \/ (exists t r, x = Answered (RSleepUntil t) r) -> ignored step x) ->
  quiet step (Call (RSleepUntil deadline) Ret;; mret late : rprog A).
Proof.
  intros Hi. apply quiet_call; [apply Hi; eauto|]. intros r. split; [apply Hi; eauto|]. apply quiet_ret.
Qed.

Lemma gate_sleep_ignored concurrency x :
  (exists t, x = Dropped (RSleepUntil t)) \/ (exists t r, x = Answered (RSleepUntil t) r) -> ignored (gate concurrency) x.
Proof. by intros [[t ->]|(t & r & ->)] [[]|]. Qed.

Lemma join_or_gated {A} concurrency deadline (f : option (result unit unit) -> A) late len launched failures s
    (I : gate_state -> Prop) Q :
  fits len launched s ->
  (forall r s', fits (joined r len failures).1 launched s' -> Q (f r) s') ->
  (forall s', fits len launched s' -> I s' /\ Q late s') ->
  safe (gate concurrency) (join_or deadline f late) s I Q.
Proof.
  intros Hs Hr Hl. unfold join_or, select. apply safe_race.
  - apply sleep_until_quiet, gate_sleep_ignored.
  - assert (I s /\ forall b, (exists tr, runs (Call (RSleepUntil deadline) Ret;; mret late : rprog A) tr (Some b)) ->
      safe (gate concurrency) (Ret b) s I Q) as Hdrop.
    { split; [by apply Hl|]. intros b [tr Hb]. apply sleep_until_result in Hb as ->. apply safe_ret. by apply Hl. }
    apply safe_call; [done|exists s; split; [by destruct s as [[]|]|done]|]. intros r.
    destruct Hs as [-> | [-> Hlen]].
    + exists None. split; [done|]. do 2 apply safe_ret. apply Hr. by left.
    + destruct r as [r|].
      * exists (if 0 <? len then Some (len - 1, launched) else None). split; [done|]. do 2 apply safe_ret. apply Hr. simpl.
        destruct (Z.ltb_spec 0 len); [right; split; [done|lia]|by left].
      * exists (Some (len, launched)). split; [done|]. do 2 apply safe_ret. apply Hr. by right.
Qed.

Lemma await_capacity_gated concurrency fuel deadline len failures launched s :
  fits len launched s ->
  safe (gate concurrency) (await_capacity fuel concurrency deadline len failures) s any_state
    (fun r s' => fits r.2.1 launched s' /\ (is_Some r.1 -> r.2.1 < concurrency)).
Proof.
  revert len failures s. induction fuel as [|fuel IH]; intros len failures s Hs; [apply gate_forever|].
  cbn [await_capacity]. destruct (Z.leb_spec concurrency len); [|apply safe_ret; by split].
  apply safe_bind, (join_or_gated concurrency deadline Some None len launched failures); [done| |].
  - intros r s' Hs'. cbv beta iota. destruct (joined r len failures) as [len' failures']. by apply IH.
  - intros s' Hs'. split; [done|]. apply safe_ret. split; [done|]. by intros [? ?].
Qed.

Lemma acquire_quiet concurrency fuel {A} (a : A) : quiet (gate concurrency) (acquire fuel;; mret a : rprog A).
Proof.
  apply quiet_bind; [|intros; apply quiet_ret]. induction fuel as [|fuel IH]; cbn.
  { apply quiet_call; [by intros [[]|]|]. intros []. }
  apply quiet_call; [by intros [[]|]|]. intros r. split; [by intros [[]|]|]. destruct r as [wait|]; [|apply quiet_ret].
  apply quiet_call; [by intros [[]|]|]. intros []. split; [by intros [[]|]|]. exact IH.
Qed.

Lemma acquire_result fuel {A} (a b : A) tr : runs (acquire fuel;; mret a : rprog A) tr (Some b) -> b = a.
Proof.
  intros Hr. apply runs_bind in Hr as [[_ ?]|(u & t1 & t2 & _ & [_ [= ->]] & _)]; done.
Qed.

Lemma acquire_rate_gated concurrency fuel deadline len failures launched s :
  len < concurrency -> fits len launched s ->
  safe (gate concurrency) (acquire_rate fuel deadline len failures) s any_state
    (fun r s' => fits r.2.1 launched s' /\ r.2.1 < concurrency).
Proof.
  revert len failures s. induction fuel as [|fuel IH]; intros len failures s Hlen Hs; [apply gate_forever|].
  cbn [acquire_rate]. apply safe_bind. apply safe_race_r; [apply acquire_quiet|].
  match goal with |- safe _ _ _ ?I ?Q =>
    assert (forall s', fits len launched s' -> I s') as Hdrop; [|assert (forall s', fits len launched s' -> Q Deadline s') as Hlate] end.
  { intros s' Hs'. split; [done|]. intros b [tr Hb]. apply acquire_result in Hb as ->. by do 2 apply safe_ret. }
  { intros s' Hs'. by do 2 apply safe_ret. }
  destruct (0 <? len).
  - apply (join_or_gated concurrency deadline Joined Deadline len launched failures); [done| |auto].
    intros r s' Hs'. apply safe_ret. cbv beta iota. destruct (joined r len failures) as [len' failures'] eqn:E.
    apply IH; [|done]. destruct r as [r|]; simplify_eq/=; lia.
  - apply safe_call; [auto|exists s; split; [by destruct s as [[]|]|auto]|]. intros [].
    exists s. split; [by destruct s as [[]|]|]. apply safe_ret. auto.
Qed.

Lemma launch_loop_gated concurrency fuel deadline st s :
  fits (ls_len st) (ls_launched st) s -> ls_peak st <= concurrency ->
  safe (gate concurrency) (launch_loop fuel concurrency deadline st) s any_state
    (fun st' s' => fits (ls_len st') (ls_launched st') s' /\ ls_peak st' <= concurrency).
Proof.
  revert st s. induction fuel as [|fuel IH]; intros st s Hs Hpeak; [apply gate_forever|]. cbn [launch_loop].
  apply safe_bind. eapply safe_mono; [by apply reap_gated|done|]. intros [len failures] s1 Hs1. cbn [fst] in Hs1.
  apply safe_bind. eapply safe_mono; [by apply await_capacity_gated|done|].
  intros [capacity [len1 failures1]] s2 [Hs2 Hcap]. cbn [fst snd] in Hs2, Hcap.
  destruct capacity as [?|]; [|by apply safe_ret]. specialize (Hcap ltac:(by eexists)).
  apply safe_gate_call; [by destruct s2 as [[]|]|]. intros now1. cbn. destruct (deadline <=? now1); [by apply safe_ret|].
  apply safe_bind. eapply safe_mono; [by apply acquire_rate_gated|done|].
  intros [acquired [len2 failures2]] s3 [Hs3 Hlen2]. cbn [fst snd] in Hs3, Hlen2.
  destruct acquired; [|by apply safe_ret]. cbn. apply safe_gate_call; [by destruct s3 as [[]|]|]. intros now2.
  destruct (deadline <=? now2); [by apply safe_ret|].
  apply safe_call; [done|exists s3; split; [by destruct s3 as [[]|]|done]|]. intros [].
  destruct Hs3 as [-> | [-> Hl]].
  - exists None. split; [done|]. apply IH; [by left|]. simpl. lia.
  - exists (Some (len2 + 1, ls_launched st + 1)). split; [simpl; by rewrite (proj2 (Z.ltb_lt _ _)) by lia|].
    apply IH; [right; split; [done|]; simpl; lia|]. simpl. lia.
Qed.

Lemma collect_quiet {S} (step : S -> robs -> option S) workers summary :
  (forall w x, x = Dropped (RMetrics w) \/ (exists r, x = Answered (RMetrics w) r) -> ignored step x) ->
  quiet step (collect workers summary : rprog _).
Proof.
  intros Hi. revert summary. induction workers as [|w workers IH]; intros summary; [apply quiet_ret|]. cbn.
  apply quiet_call; [apply (Hi w); by left|]. intros r. split; [apply (Hi w); eauto|].
  destruct (merge_worker r summary); [apply IH|apply quiet_ret].
Qed.

Lemma run_once_gated fuel (scenario : Scenario W) config t0 tr o :
  runs (run_once fuel scenario config) (Answered RNow t0 :: tr) o ->
  exists s, watch (gate (run_concurrency config)) (Some (0, 0)) tr = Some s
    /\ forall rep, o = Some (Some rep) ->
         rep_peak_pending_tasks rep <= run_concurrency config
         /\ (s = None \/ exists pending, s = Some (pending, rep_started rep)).
Proof.
  intros Hr.
  assert (safe (gate (run_concurrency config)) (run_once fuel scenario config) (Some (0, 0)) any_state
    (fun r s => forall rep, r = Some rep -> rep_peak_pending_tasks rep <= run_concurrency config
       /\ (s = None \/ exists pending, s = Some (pending, rep_started rep)))) as Hsafe.
  { unfold run_once. apply safe_gate_call; [done|]. intros start. cbn. unfold run_from. apply safe_bind.
    eapply safe_mono; [apply launch_loop_gated; [by right|simpl; unfold run_concurrency; lia]|done|]. intros st s [Hs Hpeak].
    apply safe_bind. eapply safe_mono; [by eapply drain_gated|done|]. intros failures s1 [len1 Hs1].
    apply safe_bind, safe_quiet; [|done|].
    { apply collect_quiet. intros w x [-> | [r ->]]; by intros [[]|]. }
    intros [summary|]; [|by apply safe_ret]. apply safe_gate_call; [by destruct s1 as [[]|]|]. intros now. apply safe_ret.
    intros rep [= <-]. simpl. split; [done|]. destruct Hs1 as [-> | [-> _]]; eauto. }
  destruct (Hsafe _ _ Hr) as (s & E & Hs). simpl in E. exists s. split; [done|]. intros rep ->. by apply Hs.
Qed.
(** *** The window *)

(** Calls the second monitor looks at. *)
Definition timed (c : rcall (W := W)) : bool := match c with RNow | RAcquire | RSpawn _ => true | _ => false end.

Lemma untimed_quiet {A} deadline (c : rcall) (k : ranswer c -> rprog A) :
  timed c = false -> (forall r, quiet (window deadline) (k r)) -> quiet (window deadline) (Call c k).
Proof.
  intros Hc Hk. apply quiet_call; [by intros s|]. intros r. split; [|apply Hk]. intros s. by destruct c.
Qed.

(** Nothing but a launch can fail it. *)
Lemma window_call {A} deadline (c : rcall) (k : ranswer c -> rprog A) s Q :
  (forall w, c <> RSpawn w) -> (forall r s', safe (window deadline) (k r) s' any_state Q) ->
  safe (window deadline) (Call c k) s any_state Q.
Proof.
  intros Hc Hk. apply safe_call; [done|by exists s|]. intros r.
  destruct c; try (eexists; split; [reflexivity|apply Hk]). by edestruct Hc.
Qed.

Lemma reap_untimed deadline fuel len failures : quiet (window deadline) (reap_completed fuel len failures : rprog _).
Proof.
  revert len failures. induction fuel as [|fuel IH]; intros len failures; cbn; [by apply untimed_quiet|].
  apply untimed_quiet; [done|]. intros [r|]; [apply IH|apply quiet_ret].
Qed.

Lemma drain_untimed deadline fuel len failures : quiet (window deadline) (drain fuel len failures : rprog _).
Proof.
  revert len failures. induction fuel as [|fuel IH]; intros len failures; cbn; [by apply untimed_quiet|].
  apply untimed_quiet; [done|]. intros [r|]; [apply IH|apply quiet_ret].
Qed.

Lemma join_or_untimed {A} deadline t (f : option (result unit unit) -> A) late : quiet (window deadline) (join_or t f late).
Proof.
  apply quiet_race; [| |intros; apply quiet_ret]; (apply untimed_quiet; [done|]; intros; apply quiet_ret).
Qed.

Lemma await_untimed deadline fuel concurrency t len failures :
  quiet (window deadline) (await_capacity fuel concurrency t len failures : rprog _).
Proof.
  revert len failures. induction fuel as [|fuel IH]; intros len failures; [by apply untimed_quiet|]. cbn [await_capacity].
  destruct (concurrency <=? len); [|apply quiet_ret]. apply quiet_bind; [apply join_or_untimed|].
  intros [r|]; [|apply quiet_ret]. destruct (joined r len failures). apply IH.
Qed.

Lemma acquire_windowed deadline fuel s : safe (window deadline) (acquire fuel : rprog unit) s any_state (fun _ => any_state).
Proof.
  revert s. induction fuel as [|fuel IH]; intros s; [by apply safe_forever|]. cbn. apply window_call; [done|].
  intros [wait|] s'; [|by apply safe_ret]. apply window_call; [done|]. intros [] s2. apply IH.
Qed.

Lemma acquire_rate_windowed deadline fuel t len failures s :
  safe (window deadline) (acquire_rate fuel t len failures : rprog _) s any_state (fun _ => any_state).
Proof.
  revert len failures s. induction fuel as [|fuel IH]; intros len failures s; [by apply safe_forever|].
  cbn [acquire_rate]. apply safe_bind. apply safe_race.
  - destruct (0 <? len); [apply join_or_untimed|]. apply untimed_quiet; [done|]. intros; apply quiet_ret.
  - assert (forall e s', safe (window deadline) (match e with Acquired => mret (true, (len, failures))
      | Joined r => let '(len, failures) := joined r len failures in acquire_rate fuel t len failures
      | Deadline => mret (false, (len, failures)) end : rprog _) s' any_state (fun _ => any_state)) as Hk.
    { intros [|r|] s'; [by apply safe_ret| |by apply safe_ret]. destruct (joined r len failures). apply IH. }
    apply safe_bind. eapply safe_mono; [apply acquire_windowed| |].
    + intros s' _. split; [done|]. intros b _. apply safe_ret, Hk.
    + intros [] s' _. do 2 apply safe_ret. apply (Hk Acquired).
Qed.

Lemma launch_loop_windowed fuel concurrency deadline st s :
  safe (window deadline) (launch_loop fuel concurrency deadline st : rprog _) s any_state (fun _ => any_state).
Proof.
  revert st s. induction fuel as [|fuel IH]; intros st s; [by apply safe_forever|]. cbn [launch_loop].
  apply safe_bind, safe_quiet; [apply reap_untimed|done|]. intros [len failures].
  apply safe_bind, safe_quiet; [apply await_untimed|done|]. intros [[?|] [len1 failures1]]; [|by apply safe_ret].
  apply window_call; [done|]. intros now1 s1. cbn. destruct (deadline <=? now1); [by apply safe_ret|].
  apply safe_bind. eapply safe_mono; [apply acquire_rate_windowed|done|]. intros [[] [len2 failures2]] s2 _; [|by apply safe_ret].
  cbn. apply safe_call; [done|by exists s2|]. intros now2. exists (now2 <? deadline). split; [done|].
  destruct (Z.leb_spec deadline now2); [by apply safe_ret|]. rewrite (proj2 (Z.ltb_lt _ _)) by lia.
  apply safe_call; [done|by exists true|]. intros []. exists false. split; [done|]. apply IH.
Qed.

(** C26: while a run launches scenarios, the number of tasks it holds, finished
    but not yet joined ones included, never exceeds the configured concurrency;
    every launch directly follows a reading of the clock before the end of the
    load window, made after its token was acquired; and the report counts exactly
    the launches and a peak within the concurrency. This holds whatever the tasks,
    the timers and the pacing do. *)
Theorem launches_are_bounded fuel (scenario : Scenario W) config t0 tr o :
  runs (run_once fuel scenario config) (Answered RNow t0 :: tr) o ->
  is_Some (watch (window (t0 + rc_duration config)) false tr)
  /\ exists s, watch (gate (run_concurrency config)) (Some (0, 0)) tr = Some s
     /\ forall rep, o = Some (Some rep) ->
          rep_peak_pending_tasks rep <= run_concurrency config
          /\ (s = None \/ exists pending, s = Some (pending, rep_started rep)).
Proof.
  intros Hr. split; [|by eapply run_once_gated].
  destruct Hr as [[? _]|[[? _]|(r & tr' & E & Hr)]]; [done..|].
  assert (r = t0) as -> by (by apply (f_equal (fun l => match l with Answered RNow t :: _ => t | _ => 0 end)) in E).
  assert (tr' = tr) as -> by (by apply (f_equal tail) in E).
  assert (safe (window (t0 + rc_duration config)) (run_from fuel scenario config t0) false any_state (fun _ => any_state)) as Hsafe.
  2:{ destruct (Hsafe tr o Hr) as (s & Es & _). by rewrite Es. }
  unfold run_from.
  apply safe_bind. eapply safe_mono; [apply launch_loop_windowed|done|]. intros st s _.
  apply safe_bind, safe_quiet; [apply drain_untimed|done|]. intros failures.
  apply safe_bind, safe_quiet; [|done|].
  { apply collect_quiet. intros w x [-> | [? ->]]; by intros s'. }
  intros [summary|]; [|by apply safe_ret]. apply window_call; [done|]. intros now s'. by apply safe_ret.
Qed.
End launches.

(** ** A sample run *)

Section sample.
Notation robs := (obs (ranswer (W := unit) (H := kept_histogram))).

Definition quick_log : list measurement := [MeasuredScenario "checkout" 4 true].
Definition quick_metrics : WorkerMetrics kept_histogram := default WorkerMetrics_new (worker_metrics quick_log).

Definition quick_scenario : list robs := [Answered RNow 5; Answered RNow 9; Answered (RRecord 0 quick_log) tt].

Lemma quick_scenario_runs : runs (execute_scenario sample_scenario 0 None) quick_scenario (Some tt).
Proof. repeat apply runs_answer. by split. Qed.

Lemma scenario_is_measured_once_witness : concluded "checkout" quick_log.
Proof. exact (scenario_is_measured_once sample_scenario 0 None quick_scenario (Some tt) quick_scenario_runs). Defined.

(** One scenario is launched, joined, and the window closes. *)
Definition sample_config : RunnerConfig := mkRunnerConfig 10 (f64_of_Z 1) 1 None 1.

Definition quick_calls : list robs :=
  [Answered RTryJoin None; Answered RNow 1; Answered RAcquire None; Answered RNow 2; Answered (RSpawn 0) tt;
   Answered RTryJoin None; Answered RJoinNext (Some (Ok tt)); Answered RNow 10;
   Answered RJoinNext None; Answered (RMetrics 0) quick_metrics; Answered RNow 11].

Definition quick_report : RunReport :=
  mkReport quick_metrics 1 1 (f64_of_Z 1) (f64_div f64_one (f64_of_ratio 1 1000)) 1.

Lemma quick_run_runs :
  runs (run_once 5 sample_scenario sample_config) (Answered RNow 0 :: quick_calls) (Some (Some quick_report)).
Proof.
  do 3 apply runs_answer.
  apply (runs_first _ _ _ Acquired [Answered RAcquire None]); [by apply runs_answer|by left|].
  do 3 apply runs_answer.
  apply (runs_first _ _ _ (Some (Some (Ok tt))) [Answered RJoinNext (Some (Ok tt))]); [by apply runs_answer|by left|].
  do 4 apply runs_answer. by vm_compute.
Qed.

Lemma launches_are_bounded_witness : is_Some (watch (window 10) false quick_calls).
Proof.
  exact (proj1 (launches_are_bounded 5 sample_scenario sample_config 0 quick_calls (Some (Some quick_report)) quick_run_runs)).
Defined.

End sample.
