(* ===== verification/RunnerReport.v ===== *)
(** * The report of a run

    What the report of [run_once] says of the scenarios it launched. The tasks run
    beside the launch loop: each executes the scenario and records what it measures
    with its worker, the join set yields each task once, when it has ended or has
    panicked, and the metrics read of a worker are what was recorded with it. *)

From S2P Require Import Prelude RustStr F64 Contracts Domain Planning Metrics Effects Runner.

#[local] Arguments runs : simpl never.

(** ** Accounts do not depend on the order of what they account for *)

Section orders.
Context {H : Type} `{LatencyHistogramLaws H}.

#[global] Instance measures_perm (b : MetricsBucket H) : Proper ((≡ₚ) ==> iff) (measures b).
Proof.
  assert (forall l l', l ≡ₚ l' -> measures b l -> measures b l') as Hone.
  { intros l l' Hl [Ht Hs Hf Hv Hh Ho]. split; try done; try (by rewrite <- (tally_perm _ _ _ Hl)).
    - unfold count in *. by rewrite <- (Permutation_length Hl).
    - by rewrite <- Hl. }
  intros l l' Hl. split; by apply Hone.
Qed.

#[global] Instance tallied_perm (m : gmap string (MetricsBucket H)) : Proper ((≡ₚ) ==> iff) (tallied m).
Proof.
  assert (forall l l', l ≡ₚ l' -> tallied m l -> tallied m l') as Hone.
  { intros l l' Hl Ht name. specialize (Ht name).
    assert (of_name name l ≡ₚ of_name name l') as Hn by (unfold of_name; by apply fmap_Permutation, filter_Permutation).
    destruct (m !! name); [by rewrite <- Hn|]. rewrite Ht in Hn. by apply Permutation_nil in Hn. }
  intros l l' Hl. split; by apply Hone.
Qed.

Lemma omap_perm {A B} (f : A -> option B) l l' : l ≡ₚ l' -> omap f l ≡ₚ omap f l'.
Proof. apply omap_Permutation. Qed.

#[global] Instance accounts_for_perm (w : WorkerMetrics H) : Proper ((≡ₚ) ==> iff) (accounts_for w).
Proof.
  assert (forall l l', l ≡ₚ l' -> accounts_for w l -> accounts_for w l') as Hone.
  { intros l l' Hl [Hs Ht He]. split.
    - eapply tallied_perm; [|exact Hs]. symmetry. by apply omap_perm.
    - eapply tallied_perm; [|exact Ht]. symmetry. by apply omap_perm.
    - intros kind. rewrite He. unfold occurrences. by rewrite (tally_perm _ (kinds_of l) (kinds_of l') (omap_perm _ _ _ Hl)). }
  intros l l' Hl. split; by apply Hone.
Qed.
End orders.

(** ** The tasks beside the launch loop *)

Section crew.
Context {W H : Type} `{LatencyHistogramLaws H}.
Notation ranswer := (ranswer (W := W) (H := H)).
Notation rprog := (prog ranswer).
Notation robs := (obs ranswer).
Variable scenario : Scenario W.
Variable config : RunnerConfig.
Notation concurrency := (run_concurrency config).
Notation execution w := (execute_scenario (H := H) scenario w (rc_scenario_timeout config)).

(** A task: the worker it records with, its calls so far, and how it was joined. *)
Record task := mkTask {
  task_worker : Z;
  task_calls : list robs;
  task_joined : option (result unit unit);
}.

(** The tasks in the order of their launch, and what was recorded with each
    worker, in the order it was. *)
Record crew := mkCrew {
  cw_tasks : list task;
  cw_log : Z -> list measurement;
}.

Definition crew_new : crew := mkCrew [] (fun _ => []).

Definition note_log (x : robs) (log : Z -> list measurement) : Z -> list measurement :=
  match x with
  | Answered (RRecord w xs) _ => fun w' => if decide (w' = w) then log w' ++ xs else log w'
  | _ => log
  end.

(** What a task does is a run of the scenario. *)
Inductive task_moves (cw : crew) : crew -> Prop :=
| task_move i t x o :
    cw_tasks cw !! i = Some t -> task_joined t = None -> runs (execution (task_worker t)) (task_calls t ++ [x]) o ->
    task_moves cw (mkCrew (<[i := mkTask (task_worker t) (task_calls t ++ [x]) None]> (cw_tasks cw)) (note_log x (cw_log cw))).

(** A join yields a task that was not joined before: one that has returned, or one
    that has panicked on its way. *)
Definition joins (cw : crew) (r : result unit unit) (cw' : crew) : Prop :=
  exists i t, cw_tasks cw !! i = Some t /\ task_joined t = None
  /\ runs (execution (task_worker t)) (task_calls t) (match r with Ok _ => Some tt | Err _ => None end)
  /\ cw' = mkCrew (<[i := mkTask (task_worker t) (task_calls t) (Some r)]> (cw_tasks cw)) (cw_log cw).

Definition all_joined (cw : crew) : Prop := Forall (fun t => is_Some (task_joined t)) (cw_tasks cw).

(** What the calls of the launch loop do and say. *)
Definition attends (cw : crew) (x : robs) (cw' : crew) : Prop :=
  match x with
  | Answered (RSpawn w) _ => cw' = mkCrew (cw_tasks cw ++ [mkTask w [] None]) (cw_log cw)
  | Answered RTryJoin r =>
      match r : option (result unit unit) with Some r => joins cw r cw' | None => cw' = cw end
  | Answered RJoinNext r =>
      match r : option (result unit unit) with Some r => joins cw r cw' | None => cw' = cw /\ all_joined cw end
  | Answered (RMetrics w) m => cw' = cw /\ accounts_for (m : WorkerMetrics H) (cw_log cw w)
  | _ => cw' = cw
  end.

Inductive follows : crew -> list robs -> crew -> Prop :=
| follows_nil cw : follows cw [] cw
| follows_task cw cw1 tr cw' : task_moves cw cw1 -> follows cw1 tr cw' -> follows cw tr cw'
| follows_call cw x cw1 tr cw' : attends cw x cw1 -> follows cw1 tr cw' -> follows cw (x :: tr) cw'.

Lemma follows_app cw t1 t2 cw' : follows cw (t1 ++ t2) cw' -> exists cw1, follows cw t1 cw1 /\ follows cw1 t2 cw'.
Proof.
  intros Hf. remember (t1 ++ t2) as tr eqn:Etr. revert t1 t2 Etr.
  induction Hf as [cw|cw cw1 tr cw' Hm _ IH|cw x cw1 tr cw' Ha Hf IH]; intros t1 t2 Etr.
  - symmetry in Etr. apply app_eq_nil in Etr as [-> ->]. exists cw. split; constructor.
  - destruct (IH t1 t2 Etr) as (cw2 & Hf1 & Hf2). exists cw2. split; [|done]. by eapply follows_task.
  - destruct t1 as [|y t1]; simplify_eq/=.
    + exists cw. split; [constructor|]. by eapply follows_call.
    + destruct (IH t1 t2 eq_refl) as (cw2 & Hf1 & Hf2). exists cw2. split; [|done]. by eapply follows_call.
Qed.

(** ** What the launch loop counts *)

(** The monitor of launches: task [n] is launched with worker [n mod concurrency];
    and of the tasks that were joined panicked. *)
Definition roster (s : Z * Z) (x : robs) : option (Z * Z) :=
  let '(launched, panicked) := s in
  let noting (r : option (result unit unit)) := (launched, panicked + match r with Some (Err _) => 1 | _ => 0 end) in
  match x with
  | Answered (RSpawn w) _ => if w =? launched mod concurrency then Some (launched + 1, panicked) else None
  | Answered RTryJoin r => Some (noting r)
  | Answered RJoinNext r => Some (noting r)
  | _ => Some s
  end.

Notation safe := (safe roster).

(** The loop's count of failures is the monitor's, at its width. *)
Definition agrees (launched failures : Z) (s : Z * Z) : Prop := s.1 = launched /\ failures = Z.min u64_max s.2 /\ 0 <= s.2.

Lemma joined_agrees r len launched failures s :
  agrees launched failures s ->
  agrees launched (joined r len failures).2 (s.1, s.2 + match r with Some (Err _) => 1 | _ => 0 end).
Proof.
  destruct s as [n p]. intros (<- & -> & Hp). unfold agrees. simpl in *. destruct r as [[]|]; simpl; unfold saturating_add; mlia.
Qed.

Definition minded (c : rcall (W := W)) : bool := match c with RSpawn _ | RTryJoin | RJoinNext => true | _ => false end.

Lemma unminded {A} (c : rcall) (k : ranswer c -> rprog A) s Q :
  minded c = false -> (forall r, safe (k r) s any_state Q) -> safe (Call c k) s any_state Q.
Proof.
  intros Hc Hk. destruct s as [n p]. apply safe_call; [done|by exists (n, p)|]. intros r. exists (n, p). split; [by destruct c|apply Hk].
Qed.

Lemma unminded_quiet {A} (c : rcall) (k : ranswer c -> rprog A) :
  minded c = false -> (forall r, quiet roster (k r)) -> quiet roster (Call c k).
Proof. intros Hc Hk. apply quiet_call; [by intros []|]. intros r. split; [|apply Hk]. intros []. by destruct c. Qed.

Lemma reap_counted fuel len launched failures s :
  agrees launched failures s -> safe (reap_completed fuel len failures) s any_state (fun r s' => agrees launched r.2 s').
Proof.
  revert len failures s. induction fuel as [|fuel IH]; intros len failures s Hs; cbn; [by apply unminded|].
  destruct s as [n p]. apply safe_call; [done|by exists (n, p)|]. intros r. eexists. split; [done|].
  pose proof (joined_agrees r len _ _ _ Hs) as Hj. destruct r as [r|]; cbn in Hj |- *; [by apply IH|by apply safe_ret].
Qed.

Lemma drain_counted fuel len launched failures s :
  agrees launched failures s -> safe (drain fuel len failures) s any_state (fun r s' => agrees launched r s').
Proof.
  revert len failures s. induction fuel as [|fuel IH]; intros len failures s Hs; cbn; [by apply unminded|].
  destruct s as [n p]. apply safe_call; [done|by exists (n, p)|]. intros r. eexists. split; [done|].
  pose proof (joined_agrees r len _ _ _ Hs) as Hj. destruct r as [r|]; cbn in Hj |- *; [by apply IH|by apply safe_ret].
Qed.

Lemma join_or_counted {A} deadline (f : option (result unit unit) -> A) late len launched failures s (I : Z * Z -> Prop) Q :
  agrees launched failures s ->
  (forall r s', agrees launched (joined r len failures).2 s' -> Q (f r) s') -> I s -> Q late s ->
  safe (join_or deadline f late) s I Q.
Proof.
  intros Hs Hr Hi Hl. destruct s as [n p]. apply safe_race.
  - apply unminded_quiet; [done|]. intros. apply quiet_ret.
  - assert (I (n, p) /\ forall b, (exists tr, runs (Call (RSleepUntil deadline) Ret;; mret late : rprog A) tr (Some b)) ->
      safe (Ret b) (n, p) I Q) as Hdrop.
    { split; [done|]. intros b [tr Hb]. apply sleep_until_result in Hb as ->. by apply safe_ret. }
    apply safe_call; [done|by exists (n, p)|]. intros r. eexists. split; [done|]. do 2 apply safe_ret. apply Hr.
    exact (joined_agrees r len launched failures (n, p) Hs).
Qed.

Lemma await_counted fuel c deadline len launched failures s :
  agrees launched failures s ->
  safe (await_capacity fuel c deadline len failures) s any_state (fun r s' => agrees launched r.2.2 s').
Proof.
  revert len failures s. induction fuel as [|fuel IH]; intros len failures s Hs; [by apply unminded|]. cbn [await_capacity].
  destruct (c <=? len); [|by apply safe_ret].
  apply safe_bind, (join_or_counted deadline Some None len launched failures); [done| |done|by apply safe_ret].
  intros r s' Hs'. cbv beta iota. destruct (joined r len failures) as [len' failures']. by apply IH.
Qed.

Lemma acquire_unminded fuel {A} (a : A) : quiet roster (acquire fuel;; mret a : rprog A).
Proof.
  apply quiet_bind; [|intros; apply quiet_ret]. induction fuel as [|fuel IH]; cbn; [by apply unminded_quiet|].
  apply unminded_quiet; [done|]. intros [wait|]; [|apply quiet_ret]. by apply unminded_quiet.
Qed.

Lemma acquire_rate_counted fuel deadline len launched failures s :
  agrees launched failures s ->
  safe (acquire_rate fuel deadline len failures) s any_state (fun r s' => agrees launched r.2.2 s').
Proof.
  revert len failures s. induction fuel as [|fuel IH]; intros len failures s Hs; [by apply unminded|].
  cbn [acquire_rate]. apply safe_bind. apply safe_race_r; [apply acquire_unminded|].
  match goal with |- Effects.safe _ _ _ ?I ?Q => assert (I s) as Hdrop; [|assert (Q Deadline s) as Hlate] end.
  { split; [done|]. intros b [tr Hb]. apply acquire_result in Hb as ->. by do 2 apply safe_ret. }
  { by do 2 apply safe_ret. }
  destruct (0 <? len).
  - apply (join_or_counted deadline Joined Deadline len launched failures); [done| |done..].
    intros r s' Hs'. apply safe_ret. cbv beta iota. destruct (joined r len failures) as [len' failures']. by apply IH.
  - destruct s as [n p]. apply safe_call; [done|by exists (n, p)|]. intros []. exists (n, p). split; [done|]. by apply safe_ret.
Qed.

Lemma launch_loop_counted fuel deadline st s :
  agrees (ls_launched st) (ls_failures st) s ->
  safe (launch_loop fuel concurrency deadline st) s any_state (fun st' s' => agrees (ls_launched st') (ls_failures st') s').
Proof.
  revert st s. induction fuel as [|fuel IH]; intros st s Hs; [by apply unminded|]. cbn [launch_loop].
  apply safe_bind. eapply safe_mono; [by apply reap_counted|done|]. intros [len failures] s1 Hs1.
  apply safe_bind. eapply safe_mono; [by apply await_counted|done|]. intros [capacity [len1 failures1]] s2 Hs2.
  destruct capacity; [|by apply safe_ret]. apply unminded; [done|]. intros now1. cbn. destruct (deadline <=? now1); [by apply safe_ret|].
  apply safe_bind. eapply safe_mono; [by apply acquire_rate_counted|done|]. intros [acquired [len2 failures2]] s3 Hs3.
  destruct acquired; [|by apply safe_ret]. cbn. apply unminded; [done|]. intros now2. destruct (deadline <=? now2); [by apply safe_ret|].
  destruct s3 as [n q]. apply safe_call; [done|by exists (n, q)|]. intros []. destruct Hs3 as (<- & Hf). cbn [fst] in *.
  exists (n + 1, q). split; [simpl; by rewrite Z.eqb_refl|]. apply IH. by split.
Qed.

(** ** What the tasks record *)

Definition task_log (t : task) : list measurement := recorded (task_calls t).

Definition crew_log (cw : crew) : list measurement := concat (map task_log (cw_tasks cw)).

Definition panicked (t : task) : bool := match task_joined t with Some (Err _) => true | _ => false end.

(** A task records with its own worker. *)
Definition records_with (w : Z) (x : robs) : Prop := match x with Answered (RRecord w' _) _ => w' = w | _ => True end.

Lemma execution_records w : makes (records_with w) (execution w).
Proof.
  assert (forall start sts ctx, makes (records_with w) (run_steps (H := H) (scenario_name scenario) w start sts ctx)) as Hsteps.
  { intros start sts. induction sts as [|s sts IH]; intros ctx; cbn; repeat (apply (makes_call (answer := ranswer)); [done|]; intros; split; [done|]).
    - apply makes_ret.
    - destruct r0 as [r1 ctx']. cbn. repeat (apply (makes_call (answer := ranswer)); [done|]; intros; split; [done|]).
      destruct r1; cbn; [apply IH|]. repeat (apply (makes_call (answer := ranswer)); [done|]; intros; split; [done|]). apply makes_ret. }
  apply (makes_call (answer := ranswer)); [done|]. intros start. split; [done|]. cbn.
  destruct (rc_scenario_timeout config) as [deadline|]; [|apply Hsteps]. apply makes_race.
  - apply makes_bind; [apply Hsteps|]. intros. apply makes_ret.
  - apply (makes_call (answer := ranswer)); [done|]. intros. split; [done|apply makes_ret].
  - intros []; [apply makes_ret|]. cbn. repeat (apply (makes_call (answer := ranswer)); [done|]; intros; split; [done|]). apply makes_ret.
Qed.

Lemma recorded_snoc (tr : list robs) x :
  recorded (tr ++ [x]) = recorded tr ++ match x with Answered (RRecord _ xs) _ => xs | _ => [] end.
Proof.
  unfold recorded. rewrite watch_app. destruct (watch_note_record tr []) as [log ->]. simpl.
  destruct x as [[] r|c]; simpl; by rewrite ?app_nil_r.
Qed.

(** *** The invariant *)

(** The state of the tasks after [n] launches, [p] of them joined panicked. *)
Record crew_ok (cw : crew) (s : Z * Z) : Prop := {
  co_launched : Z.of_nat (length (cw_tasks cw)) = s.1;
  co_panicked : tally panicked (cw_tasks cw) = s.2;
  co_workers : Forall (fun t => task_worker t ∈ rangeZ concurrency) (cw_tasks cw);
  co_joined : Forall (fun t => match task_joined t with
      | Some r => runs (execution (task_worker t)) (task_calls t) (match r with Ok _ => Some tt | Err _ => None end)
      | None => True
      end) (cw_tasks cw);
  co_logs : concat (map (cw_log cw) (rangeZ concurrency)) ≡ₚ crew_log cw;
}.

Lemma concurrency_pos : 1 <= concurrency.
Proof. unfold run_concurrency. lia. Qed.

Lemma crew_new_ok : crew_ok crew_new (0, 0).
Proof.
  split; simpl; [done|done|constructor|constructor|]. unfold crew_log. simpl. induction (rangeZ concurrency); [done|]. done.
Qed.

(** Something recorded with one worker. *)
Lemma logs_noted (log : Z -> list measurement) w xs workers :
  NoDup workers -> w ∈ workers ->
  concat (map (fun w' => if decide (w' = w) then log w' ++ xs else log w') workers) ≡ₚ concat (map log workers) ++ xs.
Proof.
  induction workers as [|v workers IH]; [by intros _ ?%elem_of_nil|]. intros [Hv Hn]%NoDup_cons Hw. simpl.
  destruct (decide (v = w)) as [->|Hne].
  - assert (map (fun w' => if decide (w' = w) then log w' ++ xs else log w') workers = map log workers) as ->.
    { apply map_ext_in. intros v Hin%list_elem_of_In. by rewrite decide_False by congruence. }
    rewrite <- !app_assoc. apply Permutation_app_head, Permutation_app_comm.
  - rewrite IH by set_solver. by rewrite app_assoc.
Qed.

(** One task changes. *)
Lemma tasks_insert cw i t t' :
  cw_tasks cw !! i = Some t ->
  exists before after, cw_tasks cw = before ++ t :: after /\ <[i := t']> (cw_tasks cw) = before ++ t' :: after.
Proof.
  intros Ht. exists (take i (cw_tasks cw)), (drop (S i) (cw_tasks cw)). split; [by rewrite take_drop_middle|].
  apply insert_take_drop. by eapply lookup_lt_Some.
Qed.

Lemma crew_log_insert cw i t t' xs :
  cw_tasks cw !! i = Some t -> task_log t' = task_log t ++ xs ->
  concat (map task_log (<[i := t']> (cw_tasks cw))) ≡ₚ crew_log cw ++ xs.
Proof.
  intros Ht El. unfold crew_log. destruct (tasks_insert cw i t t' Ht) as (before & after & -> & ->).
  rewrite !map_app, !concat_app. simpl. rewrite El, <- !app_assoc. apply Permutation_app_head, Permutation_app_head, Permutation_app_comm.
Qed.

Lemma tally_insert cw i t t' :
  cw_tasks cw !! i = Some t ->
  tally panicked (<[i := t']> (cw_tasks cw)) = tally panicked (cw_tasks cw) - (if panicked t then 1 else 0) + (if panicked t' then 1 else 0).
Proof.
  intros Ht. destruct (tasks_insert cw i t t' Ht) as (before & after & -> & ->). rewrite !tally_app, !tally_cons. lia.
Qed.

Lemma Forall_insert_at {A} (P : A -> Prop) l i x : Forall P l -> P x -> Forall P (<[i := x]> l).
Proof. intros Hl Hx. by apply Forall_insert. Qed.

Lemma task_moves_ok cw cw' s : task_moves cw cw' -> crew_ok cw s -> crew_ok cw' s.
Proof.
  intros [i t x o Ht Hj Hr] [Hl Hp Hw Hjs Hlog].
  assert (task_worker t ∈ rangeZ concurrency) as Hin by (by eapply (proj1 (Forall_lookup _ _) Hw)).
  split; simpl.
  - by rewrite length_insert.
  - rewrite (tally_insert _ _ _ _ Ht). unfold panicked at 2 3. simpl. rewrite Hj. lia.
  - by apply Forall_insert_at.
  - by apply Forall_insert_at.
  - unfold crew_log at 1. simpl. rewrite (crew_log_insert cw i t (mkTask (task_worker t) (task_calls t ++ [x]) None) _ Ht (recorded_snoc (task_calls t) x)).
    apply execution_records in Hr. rewrite Forall_app, Forall_singleton in Hr. destruct Hr as [_ Hx].
    destruct x as [[| | | |w xs| | | | | |] r|c]; simpl in Hx |- *; rewrite ?app_nil_r; try done. subst w.
    rewrite (logs_noted (cw_log cw) (task_worker t) xs _ (NoDup_rangeZ _) Hin). by rewrite Hlog.
Qed.

Lemma joins_ok cw r cw' n p : joins cw r cw' -> crew_ok cw (n, p) -> crew_ok cw' (n, p + match r with Err _ => 1 | Ok _ => 0 end).
Proof.
  intros (i & t & Ht & Hj & Hr & ->) [Hl Hp Hw Hjs Hlog]. simpl in Hl, Hp. split; simpl.
  - by rewrite length_insert.
  - rewrite (tally_insert _ _ _ _ Ht). unfold panicked at 2 3. simpl. rewrite Hj, Hp. destruct r; lia.
  - apply Forall_insert_at; [done|]. exact (proj1 (Forall_lookup _ _) Hw i t Ht).
  - by apply Forall_insert_at.
  - unfold crew_log at 1. simpl. rewrite (crew_log_insert cw i t _ [] Ht); [by rewrite app_nil_r|by rewrite app_nil_r].
Qed.

Lemma attends_ok cw x cw' s s' : attends cw x cw' -> roster s x = Some s' -> crew_ok cw s -> crew_ok cw' s'.
Proof.
  destruct s as [n p]. intros Ha Hs Hok.
  destruct x as [[] r|c]; simpl in Ha, Hs; try (simplify_eq; done).
  - destruct r as [r|]; simplify_eq; [by eapply joins_ok|by rewrite Z.add_0_r].
  - destruct r as [r|]; simplify_eq; [by eapply joins_ok|]. destruct Ha as [-> _]. by rewrite Z.add_0_r.
  - destruct (Z.eqb_spec worker (n mod concurrency)) as [->|]; [|done]. injection Hs as <-. subst cw'.
    destruct Hok as [Hl Hp Hw Hj Hlog]. simpl in Hl, Hp. split; simpl.
    + rewrite length_app. simpl. lia.
    + rewrite tally_app, Hp. unfold tally. simpl. lia.
    + apply Forall_app. split; [done|]. apply Forall_singleton. simpl. apply elem_of_rangeZ, Z.mod_pos_bound.
      pose proof concurrency_pos. lia.
    + apply Forall_app. split; [done|]. by apply Forall_singleton.
    + unfold crew_log. simpl. rewrite map_app, concat_app. simpl. by rewrite !app_nil_r.
  - destruct Ha as [-> _]. by simplify_eq.
Qed.

Lemma follows_ok cw tr cw' s s' : follows cw tr cw' -> watch roster s tr = Some s' -> crew_ok cw s -> crew_ok cw' s'.
Proof.
  intros Hf. revert s. induction Hf as [cw|cw cw1 tr cw' Hm _ IH|cw x cw1 tr cw' Ha _ IH]; intros s Hs Hok.
  - by injection Hs as <-.
  - apply (IH s Hs). by eapply task_moves_ok.
  - apply bind_Some in Hs as (s1 & Hs1 & Hs). apply (IH s1 Hs). by eapply attends_ok.
Qed.

(** When every task is joined, nothing changes any more. *)
Definition launches_none (x : robs) : Prop := match x with Answered (RSpawn _) _ => False | _ => True end.

Lemma settled_follows cw tr cw' :
  follows cw tr cw' -> all_joined cw -> Forall launches_none tr ->
  cw' = cw /\ forall w m, Answered (RMetrics w) m ∈ tr -> accounts_for (m : WorkerMetrics H) (cw_log cw w).
Proof.
  intros Hf Hj. assert (forall i t, cw_tasks cw !! i = Some t -> task_joined t <> None) as Hnone.
  { intros i t Ht E. eapply (proj1 (Forall_lookup _ _) Hj) in Ht. rewrite E in Ht. by destruct Ht. }
  assert (forall r cw1, ~ joins cw r cw1) as Hno by (intros r cw1 (i & t & Ht & E & _); by eapply Hnone).
  induction Hf as [cw|cw cw1 tr cw' Hm _ IH|cw x cw1 tr cw' Ha _ IH]; intros Hl.
  - split; [done|]. by intros w m ?%elem_of_nil.
  - destruct Hm as [i t x o Ht E _]. by edestruct Hnone.
  - apply Forall_cons in Hl as [Hx Hl].
    assert (cw1 = cw) as ->.
    { destruct x as [[] r|c]; simpl in Ha, Hx; try done; try (destruct r as [r|]; [by edestruct Hno|]); naive_solver. }
    destruct (IH Hj Hnone Hno Hl) as [-> Hm]. split; [done|]. intros w m [E|Hin]%elem_of_cons; [|by apply Hm].
    subst x. by destruct Ha.
Qed.

(** A join set that is empty stays so. *)
Lemma follows_empty_join cw cw' : follows cw [Answered RJoinNext None] cw' -> all_joined cw'.
Proof.
  intros Hf. remember [Answered RJoinNext None] as tr eqn:Etr.
  induction Hf as [cw|cw cw1 tr cw' _ _ IH|cw x cw1 tr cw' Ha Hf _]; [done|by apply IH|].
  simplify_eq. destruct Ha as [-> Hj]. by destruct (settled_follows cw [] cw' Hf Hj (Forall_nil_2 _)) as [-> _].
Qed.

(** ** The report *)

Lemma runs_drain fuel len failures tr f :
  runs (drain fuel len failures : rprog Z) tr (Some f) -> exists before, tr = before ++ [Answered RJoinNext None].
Proof.
  revert len failures tr. induction fuel as [|fuel IH]; intros len failures tr Hr; [by destruct Hr as [[_ [=]]|[[_ [=]]|([] & _)]]|].
  destruct Hr as [[_ [=]]|[[_ [=]]|(r & tr' & -> & Hr)]]. destruct r as [r|]; cbn in Hr.
  - destruct (IH _ _ _ Hr) as [before ->]. by exists (Answered RJoinNext (Some r) :: before).
  - destruct Hr as [-> _]. by exists [].
Qed.

Lemma collect_launches_none workers summary : makes launches_none (collect workers summary : rprog _).
Proof.
  revert summary. induction workers as [|w workers IH]; intros summary; [apply makes_ret|]. cbn.
  apply (makes_call (answer := ranswer)); [done|]. intros r. split; [done|]. destruct (merge_worker r summary); [apply IH|apply makes_ret].
Qed.

Lemma collect_accounts (log : Z -> list measurement) workers summary xs tr r :
  runs (collect workers summary : rprog _) tr (Some r) ->
  (forall w m, Answered (RMetrics w) m ∈ tr -> accounts_for (m : WorkerMetrics H) (log w)) -> accounts_for summary xs ->
  Z.of_nat (length (xs ++ concat (map log workers))) <= u64_max ->
  exists s, r = Some s /\ accounts_for s (xs ++ concat (map log workers)).
Proof.
  revert summary xs tr. induction workers as [|w workers IH]; intros summary xs tr Hr Hm Hs Hn; simpl in *.
  { destruct Hr as [_ [= ->]]. exists summary. by rewrite app_nil_r. }
  destruct Hr as [[_ ?]|[[_ ?]|(m & tr' & -> & Hr)]]; [done..|]. simpl in Hr.
  rewrite (app_assoc xs) in *. destruct (merge_worker_accounts summary m xs (log w)) as (s2 & E & Hs2); [done| | |].
  { apply (Hm w). by left. }
  { rewrite length_app in Hn. lia. }
  rewrite E in Hr. eapply IH; [done| |done..]. intros w' m' Hin. apply Hm. by right.
Qed.

(** A task as it ended. *)
Definition ended (t : task) : Prop :=
  exists r, task_joined t = Some r
  /\ runs (execution (task_worker t)) (task_calls t) (match r with Ok _ => Some tt | Err _ => None end).

Definition returned (t : task) : bool := negb (panicked t).

Lemma crew_ended cw s : crew_ok cw s -> all_joined cw -> Forall ended (cw_tasks cw).
Proof.
  intros [_ _ _ Hj _] Ha. apply Forall_forall. intros t Ht. pose proof (proj1 (Forall_forall _ _) Ha t Ht) as [r E].
  pose proof (proj1 (Forall_forall _ _) Hj t Ht) as Hr. simpl in Hr. rewrite E in Hr. by exists r.
Qed.

(** Each execution that returned was measured once, one that panicked was not. *)
Lemma executions_measured tasks :
  Forall ended tasks -> count (of_name (scenario_name scenario) (scenarios_of (concat (map task_log tasks)))) = tally returned tasks.
Proof.
  induction 1 as [|t tasks (r & E & Hr) _ IH]; [done|]. cbn [map concat]. unfold scenarios_of in *. rewrite omap_app, of_name_app.
  unfold count in *. rewrite length_app, Nat2Z.inj_add, IH, tally_cons. f_equal.
  fold (scenarios_of (task_log t)). unfold returned, panicked. rewrite E.
  apply scenario_is_measured_once in Hr. fold (task_log t) in Hr. destruct r as [u|u]; cbn [negb].
  - destruct Hr as [(d & -> & _)|(d & kind & -> & _)]; unfold of_name; cbn; by rewrite decide_True.
  - destruct Hr as [-> _]. done.
Qed.

Lemma tally_negb {A} (p : A -> bool) l : tally (fun x => negb (p x)) l + tally p l = Z.of_nat (length l).
Proof. induction l as [|x l IH]; [done|]. rewrite !tally_cons. simpl length. destruct (p x); simpl; lia. Qed.

Lemma counts_failures errors kinds failures :
  counts errors (occurrences kinds) -> 0 <= failures -> Z.of_nat (length kinds) + failures <= u64_max ->
  counts (if 0 <? failures then add_entry "invariant_violation" failures errors else errors)
    (fun kind => occurrences kinds kind + if decide (kind = "invariant_violation") then failures else 0).
Proof.
  intros He Hf Hn. pose proof (occurrences_bounds kinds "invariant_violation") as Hb. destruct (Z.ltb_spec 0 failures).
  - intros kind. rewrite (add_entry_counts _ _ _ _ He) by lia. case_decide as E; [by subst|by rewrite Z.add_0_r].
  - assert (failures = 0) as -> by lia. intros kind. rewrite He. case_decide; by rewrite Z.add_0_r.
Qed.

(** When the run returns, every task is joined and the workers' metrics are those
    of all that was recorded. *)
Lemma run_settles fuel tr rep cw :
  runs (run_once fuel scenario config) tr (Some (Some rep)) -> follows crew_new tr cw ->
  Z.of_nat (length (crew_log cw)) <= u64_max ->
  exists s summary, crew_ok cw s /\ all_joined cw /\ accounts_for summary (crew_log cw)
  /\ 0 <= s.2 /\ rep_summary rep = add_task_failures (Z.min u64_max s.2) summary /\ rep_started rep = s.1
  /\ rep_finished rep = default 0 (mb_total <$> wm_scenario_metrics (rep_summary rep) !! scenario_name scenario).
Proof.
  intros Hrun Hcrew Hwidth. apply runs_bind_done in Hrun as (t0 & u0 & u1 & -> & Hnow & Hr). unfold run_from in Hr.
  apply runs_bind_done in Hr as (st & u2 & u3 & -> & Hlaunch & Hr).
  apply runs_bind_done in Hr as (failures & u4 & u5 & -> & Hdrain & Hr).
  apply runs_bind_done in Hr as (summary & u6 & u7 & -> & Hcollect & Hr).
  destruct Hnow as [[_ [=]]|[[_ [=]]|(r & u & -> & [-> [= ->]])]]. assert (agrees 0 0 (0, 0)) as Hs0 by done.
  destruct (launch_loop_counted _ _ (mkLaunch 0 0 0 0) (0, 0) Hs0 _ _ Hlaunch) as (s1 & Hw1 & Hs1).
  destruct (drain_counted _ _ _ _ s1 Hs1 _ _ Hdrain) as (s2 & Hw2 & Hlaunched & -> & Hp0).
  rewrite app_assoc, app_assoc in Hcrew. apply follows_app in Hcrew as (cw2 & Hf & Hrest).
  assert (crew_ok cw2 s2) as Hok.
  { eapply follows_ok; [exact Hf| |apply crew_new_ok]. rewrite !watch_app. simpl. by rewrite Hw1. }
  assert (all_joined cw2) as Hall.
  { destruct (runs_drain _ _ _ _ _ Hdrain) as [before ->]. rewrite app_assoc in Hf.
    apply follows_app in Hf as (cw1 & _ & Hf). by eapply follows_empty_join. }
  assert (Forall launches_none u6) as Hnone by (by eapply collect_launches_none).
  assert (Forall launches_none u7) as Hnone7.
  { destruct summary; [|by destruct Hr as [-> _]]. destruct Hr as [[_ [=]]|[[_ [=]]|(now & u & -> & [-> _])]]. by repeat constructor. }
  apply follows_app in Hrest as (cw3 & Hf3 & Hrest). destruct (settled_follows _ _ _ Hf3 Hall Hnone) as [-> Hmetrics].
  destruct (settled_follows _ _ _ Hrest Hall Hnone7) as [-> _]. pose proof (co_logs _ _ Hok) as Hlogs.
  destruct (collect_accounts (cw_log cw2) _ _ [] _ _ Hcollect Hmetrics empty_accounts) as (s & -> & Hacc).
  { simpl. by rewrite (Permutation_length Hlogs). }
  simpl in Hacc. rewrite Hlogs in Hacc. destruct Hr as [[_ [=]]|[[_ [=]]|(now & u & -> & [_ [= ->]])]].
  exists s2, s. by rewrite <- Hlaunched.
Qed.

(** C25: the report of a run is exact. However the tasks and the launch loop
    interleave, when the run returns its report every task it launched has ended;
    the report counts as started the tasks that were launched and as finished
    those that returned, so the two differ by those that panicked; its summary
    accounts for exactly what all the executions recorded, each scenario and step
    with its latency and its outcome, and its error kinds are those recorded and
    one invariant violation per panicked task. *)
Theorem run_report_is_exact fuel tr rep cw
    (Hrun : runs (run_once fuel scenario config) tr (Some (Some rep))) (Hcrew : follows crew_new tr cw)
    (Hwidth : Z.of_nat (length (crew_log cw) + length (cw_tasks cw)) <= u64_max) :
  Forall ended (cw_tasks cw)
  /\ rep_started rep = Z.of_nat (length (cw_tasks cw))
  /\ rep_finished rep = tally returned (cw_tasks cw)
  /\ rep_started rep = rep_finished rep + tally panicked (cw_tasks cw)
  /\ tallied (wm_scenario_metrics (rep_summary rep)) (scenarios_of (crew_log cw))
  /\ tallied (wm_step_metrics (rep_summary rep)) (steps_of (crew_log cw))
  /\ counts (wm_error_counts (rep_summary rep))
       (fun kind => occurrences (kinds_of (crew_log cw)) kind
                    + if decide (kind = "invariant_violation") then tally panicked (cw_tasks cw) else 0).
Proof.
  destruct (run_settles fuel tr rep cw Hrun Hcrew ltac:(lia)) as (s & summary & Hok & Hall & [Hsc Hst Her] & Hp0 & Hsum & Hstart & Hfin).
  pose proof (crew_ended cw s Hok Hall) as Hended. destruct Hok as [Hlen Hpan _ _ _].
  pose proof (tally_bounds panicked (cw_tasks cw)) as Hpb. rewrite Hsum in *. rewrite (Z.min_r u64_max) in * by lia.
  assert (wm_scenario_metrics (add_task_failures s.2 summary) = wm_scenario_metrics summary
    /\ wm_step_metrics (add_task_failures s.2 summary) = wm_step_metrics summary) as [Es Et]
    by (unfold add_task_failures; by destruct (0 <? s.2)).
  rewrite Es, Et in *. assert (rep_finished rep = tally returned (cw_tasks cw)) as Hret.
  { rewrite Hfin, <- (executions_measured _ Hended). specialize (Hsc (scenario_name scenario)). unfold crew_log in Hsc.
    destruct (_ !! scenario_name scenario) as [b|]; simpl; [apply Hsc|]. simpl in Hsc. by rewrite Hsc. }
  split_and!; [done|congruence|done| |done|done|].
  - rewrite Hret, Hstart, <- Hlen. symmetry. apply (tally_negb panicked).
  - pose proof (omap_length (fun x => match x with MeasuredError kind => Some kind | _ => None end) (crew_log cw)) as Hk.
    fold (kinds_of (crew_log cw)) in Hk. rewrite Hpan.
    pose proof (counts_failures (wm_error_counts summary) (kinds_of (crew_log cw)) s.2 Her Hp0 ltac:(lia)) as Hc.
    unfold add_task_failures. by destruct (0 <? s.2).
Qed.
End crew.

(** ** A sample run *)

(** The one task of [quick_calls] runs while the launch loop waits for it. *)
Lemma quick_follows : exists cw,
  follows sample_scenario sample_config crew_new (Answered RNow 0 :: quick_calls) cw
  /\ length (cw_tasks cw) = 1%nat /\ length (crew_log cw) = 1%nat.
Proof.
  eexists. split.
  - do 7 (eapply follows_call; [reflexivity|]).
    eapply follows_task; [apply (task_move _ _ _ 0 (mkTask 0 [] None) (Answered RNow 5) None); [done..|]|].
    { apply runs_answer. by left. }
    eapply follows_task; [apply (task_move _ _ _ 0 (mkTask 0 [Answered RNow 5] None) (Answered RNow 9) None); [done..|]|].
    { do 2 apply runs_answer. by left. }
    eapply follows_task;
      [apply (task_move _ _ _ 0 (mkTask 0 [Answered RNow 5; Answered RNow 9] None) (Answered (RRecord 0 quick_log) tt) (Some tt)); [done..|]|].
    { exact quick_scenario_runs. }
    eapply follows_call; [exists 0%nat, (mkTask 0 quick_scenario None); split_and!; [done..|exact quick_scenario_runs|reflexivity]|].
    eapply follows_call; [reflexivity|].
    eapply follows_call; [split; [reflexivity|by repeat constructor]|].
    eapply follows_call; [split; [reflexivity|]|eapply follows_call; [reflexivity|apply follows_nil]].
    destruct (worker_metrics_accounts (H := kept_histogram) quick_log) as (w & E & Hw); [by vm_compute|].
    unfold quick_metrics. by rewrite E.
  - by vm_compute.
Qed.

Lemma run_report_is_exact_witness : exists cw : crew (W := unit) (H := kept_histogram),
  length (cw_tasks cw) = 1%nat /\ tallied (wm_scenario_metrics quick_metrics) (scenarios_of (crew_log cw))
  /\ rep_finished quick_report = tally returned (cw_tasks cw).
Proof.
  destruct quick_follows as (cw & Hf & Hn & Hl). exists cw. split; [exact Hn|].
  destruct (run_report_is_exact sample_scenario sample_config 5 (Answered RNow 0 :: quick_calls) quick_report cw quick_run_runs Hf)
    as (_ & _ & Hfin & _ & Hsc & _); [rewrite Hn, Hl; by vm_compute|]. split; [exact Hsc|exact Hfin].
Defined.
