(* ===== verification/Worker.v ===== *)
(** * The worker

    The worker side of [src/src/application/service.rs]: receiving a job record,
    claiming its execution, running the slice under a renewed lease, publishing
    what became of it, recording that in the lease store, and committing the
    source offset. The lease store, the Kafka producers and consumer, the runner,
    the clocks and the shutdown signal are calls ([Effects]); they may answer
    anything, or nothing. Logging and counters are left out. *)

From S2P Require Import Prelude RustStr F64 Contracts Domain Planning Aggregation Coordination Metrics Effects Runner.

(** ** Dispositions and lease budgets *)

Inductive JobDisposition :=
| DispResultPublished
| DispRetryPublished
| DispDeadLetterPublished
| DispDuplicateCompleted
| DispExecutionLeaseBusy (retry_after : duration)
| DispRetryLater.

Definition is_terminal (d : JobDisposition) : bool :=
  match d with DispExecutionLeaseBusy _ | DispRetryLater => false | _ => true end.

(** Instants are nanoseconds of a process-local monotonic clock. *)
Definition instant_max : Z := i64_max * 1000000000 + 999999999.

Definition conservative_lease_deadline (request_started : Z) (ttl reserve : duration) : Z :=
  default request_started (checked_add instant_max request_started (duration_saturating_sub ttl reserve)).

Definition lease_response_has_safe_budget (request_started : Z) (ttl reserve : duration) (now : Z) : bool :=
  now <? conservative_lease_deadline request_started ttl reserve.

(** ** What a received record offers *)

Class CommitableJob (M : Type) := {
  record_job : M -> result ContractError ScenarioJob;
  poison_record : M -> string -> PoisonMessageRecord;
}.

Section worker.
Context {M W H : Type} `{CommitableJob M} `{LatencyHistogram H}.
Variable config : NodeRuntimeConfig.
Variable plans : gmap string (ScenarioExecutionPlan W).

(** Where the lease is renewed: before a publication, or in the background. *)
Inductive renew_site := BeforePublication | Background.

Inductive wcall :=
| WNow
| WUnixMs
| WSleep (d : duration)
| WSleepUntil (t : Z)
| WShutdownRequested
| WShutdownChanged
| WReceive
| WClaim (c : ExecutionClaim)
| WRenew (site : renew_site) (l : ExecutionLease)
| WComplete (l : ExecutionLease) (o : TerminalOutcome)
| WRelease (l : ExecutionLease)
| WPublishJob (key : string) (job : ScenarioJob)
| WPublishResult (r : ScenarioRunResult)
| WPublishFailed (key : string) (f : FailedScenarioJob)
| WPublishPoison (p : PoisonMessageRecord)
| WRun (s : Scenario W) (p : StepPorts W) (c : RunnerConfig)
| WCommit (m : M)
| WPanic (message : string)
| WForever.

(** [WShutdownChanged] answers whether the sender is gone; [WRun] is
    [PulseRunner::run_once]. A panic and an exhausted loop never return. *)
Definition wanswer (c : wcall) : Type :=
  match c with
  | WNow | WUnixMs => Z
  | WSleep _ | WSleepUntil _ => unit
  | WShutdownRequested | WShutdownChanged => bool
  | WReceive => option M
  | WClaim _ => result CoordinationError ClaimOutcome
  | WRenew _ _ => result CoordinationError ExecutionLease
  | WComplete _ _ => result CoordinationError CompletedOutcome
  | WRelease _ => result CoordinationError ReleaseOutcome
  | WPublishJob _ _ | WPublishResult _ | WPublishFailed _ _ | WPublishPoison _ => result string unit
  | WRun _ _ _ => RunReport (H := H)
  | WCommit _ => result string unit
  | WPanic _ | WForever => Empty_set
  end.

Notation wprog := (prog wanswer).

Definition now : wprog Z := Call WNow Ret.
Definition now_unix_ms : wprog Z := Call WUnixMs Ret.
Definition sleep (d : duration) : wprog unit := Call (WSleep d) Ret.
Definition sleep_until (t : Z) : wprog unit := Call (WSleepUntil t) Ret.
Definition shutdown_requested : wprog bool := Call WShutdownRequested Ret.
Definition panic {A} (message : string) : wprog A := Call (WPanic message) (fun r : Empty_set => match r with end).
Definition forever {A} : wprog A := Call WForever (fun r : Empty_set => match r with end).

Definition wait_or_shutdown (d : duration) : wprog bool :=
  select (sleep d;; mret false)
         (gone ← Call WShutdownChanged Ret; if gone : bool then mret true else shutdown_requested).

(** ** Bounded settlement attempts *)

(** The loops [for attempt in 0..limit { body; sleep(retry_delay(..)) }] of the
    publishers: [body] returns from the loop, or [None] to sleep and go on. *)
Fixpoint attempts {A} (fuel : nat) (attempt limit : Z) (entropy : string) (unreached : string)
    (body : Z -> wprog (option A)) : wprog A :=
  match fuel with
  | O => panic unreached
  | S fuel' =>
      r ← body attempt;
      match r with
      | Some a => mret a
      | None =>
          sleep (retry_delay (worker_retry_base_delay config) (worker_retry_max_delay config) attempt entropy);;
          attempts fuel' (attempt + 1) limit entropy unreached body
      end
  end.

Definition settlement_attempts {A} (entropy unreached : string) (body : Z -> Z -> wprog (option A)) : wprog A :=
  let limit := local_settlement_attempt_limit config in
  attempts (Z.to_nat limit) 0 limit entropy unreached (body limit).

(** The last attempt returns its error, an earlier one goes on. *)
Definition give_up_after {A E} (attempt limit : Z) (e : E) : option (result E A) :=
  if limit <=? attempt + 1 then Some (Err e) else None.

Definition verify_publication_lease (lease : ExecutionLease) (renew_interval : duration) : wprog (result string unit) :=
  request_started ← now;
  renewed ← Call (WRenew BeforePublication lease) Ret;
  match renewed : result CoordinationError ExecutionLease with
  | Err e => mret (Err ("execution lease could not be owner-checked immediately before publication: "
                        +:+ show_CoordinationError e))
  | Ok renewed =>
      t ← now;
      if lease_response_has_safe_budget request_started (lease_ttl renewed) renew_interval t then mret (Ok tt)
      else mret (Err "execution lease owner check exhausted its conservative local lease budget")
  end.

Definition bounded_loop : string := "bounded retry loop always publishes or returns its last error".

(** A publication under a lease: the owner is checked before every attempt. *)
Definition publish_checked (lease : option ExecutionLease) (attempt limit : Z) (publish : wprog (result string unit))
    : wprog (option (result string unit)) :=
  checked ← match lease with
            | Some lease => verify_publication_lease lease (execution_renew_interval config)
            | None => mret (Ok tt)
            end;
  match checked : result string unit with
  | Err e => mret (Some (Err e))
  | Ok _ =>
      r ← publish;
      match r : result string unit with
      | Ok _ => mret (Some (Ok tt))
      | Err e => mret (give_up_after attempt limit e)
      end
  end.

Definition publish_retry_with_retry (partition_key : string) (retry_job : ScenarioJob) (lease : ExecutionLease)
    : wprog (result string unit) :=
  settlement_attempts (job_execution_key retry_job) bounded_loop (fun limit attempt =>
    publish_checked (Some lease) attempt limit (Call (WPublishJob partition_key retry_job) Ret)).

Definition publish_result_with_retry (r : ScenarioRunResult) (lease : ExecutionLease) : wprog (result string unit) :=
  settlement_attempts (res_execution_key r) bounded_loop (fun limit attempt =>
    publish_checked (Some lease) attempt limit (Call (WPublishResult r) Ret)).

Definition publish_failed_with_optional_lease (failed : FailedScenarioJob) (lease : option ExecutionLease)
    : wprog (result string unit) :=
  settlement_attempts (fail_execution_key failed) bounded_loop (fun limit attempt =>
    publish_checked lease attempt limit (Call (WPublishFailed (fail_execution_key failed) failed) Ret)).

Definition publish_failed_with_retry (failed : FailedScenarioJob) : wprog (result string unit) :=
  publish_failed_with_optional_lease failed None.

Definition publish_leased_failed_with_retry (failed : FailedScenarioJob) (lease : ExecutionLease)
    : wprog (result string unit) :=
  publish_failed_with_optional_lease failed (Some lease).

Definition publish_poison_with_retry (poison : PoisonMessageRecord) : wprog (result string unit) :=
  settlement_attempts (poi_event_id poison) bounded_loop (fun limit attempt =>
    publish_checked None attempt limit (Call (WPublishPoison poison) Ret)).

Definition complete_until_acknowledged (lease : ExecutionLease) (outcome : TerminalOutcome)
    : wprog (result CoordinationError unit) :=
  settlement_attempts (lease_execution_key lease) "bounded retry loop always completes or returns its last error"
    (fun limit attempt =>
       r ← Call (WComplete lease outcome) Ret;
       match r : result CoordinationError CompletedOutcome with
       | Ok _ => mret (Some (Ok tt))
       | Err (StaleOwner operation) => mret (Some (Err (StaleOwner operation)))
       | Err e => mret (give_up_after attempt limit e)
       end).
(** ** Settling a claimed job *)

(** A terminal record that was published is recorded in the lease store before
    the disposition is reported. *)
Definition complete_as (lease : ExecutionLease) (outcome : TerminalOutcome) (d : JobDisposition) : wprog JobDisposition :=
  r ← complete_until_acknowledged lease outcome;
  match r : result CoordinationError unit with
  | Ok _ => mret d
  | Err _ => mret DispRetryLater
  end.

Definition publish_and_complete_dlq (job : ScenarioJob) (lease : ExecutionLease) (reason : string) : wprog JobDisposition :=
  failed_at ← now_unix_ms;
  r ← publish_leased_failed_with_retry (failed_job job reason failed_at) lease;
  match r : result string unit with
  | Err _ => mret DispRetryLater
  | Ok _ => complete_as lease DeadLetterPublished DispDeadLetterPublished
  end.

(** The job of the next attempt. *)
Definition retry_of (job : ScenarioJob) (delay : duration) (now_ms : Z) : ScenarioJob :=
  mkJob (job_schema_version job) (job_scenario_id job) (job_run_id job) (job_execution_key job)
    (job_plan_fingerprint job) (job_scheduled_at_unix_ms job)
    (saturating_add u128_max now_ms (as_millis delay)) (job_slice job) (job_load job)
    (saturating_add u32_max (job_attempt job) 1) (job_max_retries job).

Definition settle_infrastructure_failure (job : ScenarioJob) (plan : option (ScenarioExecutionPlan W))
    (lease : ExecutionLease) (reason : string) : wprog JobDisposition :=
  if job_max_retries job <=? job_attempt job then
    publish_and_complete_dlq job lease
      ("automatic retry attempts exhausted at attempt " +:+ show (job_attempt job) +:+ "/"
       +:+ show (job_max_retries job) +:+ ": " +:+ reason)
  else
    let delay := retry_delay (worker_retry_base_delay config) (worker_retry_max_delay config)
                   (job_attempt job) (job_execution_key job) in
    t ← now_unix_ms;
    let retry_job := retry_of job delay t in
    let partition_key :=
      match plan with
      | Some plan => key_for (cfg_partition_key_strategy (Domain.config (plan_scenario plan))) retry_job
      | None => job_execution_key retry_job
      end in
    r ← publish_retry_with_retry partition_key retry_job lease;
    match r : result string unit with
    | Err _ => mret DispRetryLater
    | Ok _ => complete_as lease RetryPublished DispRetryPublished
    end.

(** *** The result of a slice *)

Definition errors_of_kind (report : RunReport (H := H)) (kind : string) : Z :=
  default 0 (wm_error_counts (rep_summary report) !! kind).

Definition permanent_failures (report : RunReport (H := H)) : Z :=
  wrapping u64_max (sumZ (map (errors_of_kind report)
    ["permanent_processing"; "invalid_scenario"; "missing_context_var"])).

(** [None] is a panic of the histogram. *)
Definition result_of (job : ScenarioJob) (report : RunReport (H := H)) (started_at finished_at : Z)
    : option ScenarioRunResult :=
  let metrics := wm_scenario_metrics (rep_summary report) !! job_scenario_id job in
  let success := default 0 (mb_success <$> metrics) in
  let failure := default 0 (mb_failure <$> metrics) in
  let status := if (rep_started report =? rep_finished report) && (failure =? 0) && (0 <? rep_finished report)
                then RunSuccess else RunFailed in
  let quantile q := default 0 ((fun m => hist_value_at_quantile q (mb_latency_ms m)) <$> metrics) in
  buckets ← match metrics with
            | Some m => Some (mergeable_latency_buckets m)
            | None => mergeable_latency_buckets <$> MetricsBucket_new
            end;
  Some {| res_schema_version := CURRENT_CONTRACT_VERSION;
          res_scenario_id := job_scenario_id job;
          res_run_id := job_run_id job;
          res_execution_key := job_execution_key job;
          res_event_id := build_terminal_event_id (job_execution_key job) (job_attempt job) "result";
          res_attempt := job_attempt job;
          res_slice := job_slice job;
          res_started_at_unix_ms := started_at;
          res_finished_at_unix_ms := finished_at;
          res_status := status;
          res_total := rep_finished report;
          res_success := success;
          res_failure := failure;
          res_latency_p50_ms := quantile q50;
          res_latency_p95_ms := quantile q95;
          res_latency_p99_ms := quantile q99;
          res_latency_histogram := buckets;
          res_error_breakdown := error_entries (wm_error_counts (rep_summary report)) |}.

(** What is done with the report of the slice. *)
Definition settle_report (job : ScenarioJob) (plan : ScenarioExecutionPlan W) (lease : ExecutionLease)
    (report : RunReport (H := H)) (started_at finished_at : Z) : wprog JobDisposition :=
  if 0 <? errors_of_kind report "invariant_violation" then mret DispRetryLater
  else
    let infrastructure_failures := errors_of_kind report "pulse_infrastructure" in
    if 0 <? infrastructure_failures then
      settle_infrastructure_failure job (Some plan) lease
        ("scenario attempt measured " +:+ show infrastructure_failures +:+ " transient Pulse infrastructure failure(s)")
    else if 0 <? permanent_failures report then
      publish_and_complete_dlq job lease
        ("scenario attempt measured " +:+ show (permanent_failures report) +:+ " permanent Pulse processing failure(s)")
    else
      match result_of job report started_at finished_at with
      | None => panic "valid histogram"
      | Some result =>
          r ← publish_result_with_retry result lease;
          match r : Prelude.result string unit with
          | Err _ => mret DispRetryLater
          | Ok _ => complete_as lease ResultPublished DispResultPublished
          end
      end.

Definition runner_config (job : ScenarioJob) : RunnerConfig :=
  mkRunnerConfig (load_duration (job_load job)) (scenarios_per_sec (job_load job)) (max_concurrency (job_load job))
    (scenario_timeout config) (startup_burst (job_load job)).

Definition execute_and_publish (job : ScenarioJob) (plan : option (ScenarioExecutionPlan W)) (lease : ExecutionLease)
    : wprog JobDisposition :=
  match plan with
  | None => publish_and_complete_dlq job lease "unknown scenario"
  | Some plan =>
      started_at ← now_unix_ms;
      report ← Call (WRun (plan_scenario plan) (plan_ports plan) (runner_config job)) Ret;
      finished_at ← now_unix_ms;
      settle_report job plan lease report started_at finished_at
  end.

(** *** The background renewal *)

Definition local_deadline : CoordinationError := Timeout "execution_lease_local_deadline".

Fixpoint lease_renewal_until_loss (fuel : nat) (lease : ExecutionLease) (interval : duration)
    (next_renewal_at lease_valid_until : Z) : wprog CoordinationError :=
  match fuel with
  | O => forever
  | S fuel' =>
      expired ← select (sleep_until lease_valid_until;; mret true) (sleep_until next_renewal_at;; mret false);
      if expired : bool then mret local_deadline else
      request_started ← now;
      renewal_result ← select (sleep_until lease_valid_until;; mret None)
                              (r ← Call (WRenew Background lease) Ret; mret (Some r));
      match renewal_result : option (result CoordinationError ExecutionLease) with
      | None => mret local_deadline
      | Some (Err e) => mret e
      | Some (Ok renewed) =>
          let renewed_valid_until := conservative_lease_deadline request_started (lease_ttl renewed) interval in
          t ← now;
          if renewed_valid_until <=? t then mret (Timeout "execution_renew_response_budget") else
          lease_renewal_until_loss fuel' renewed interval
            (default request_started (checked_add instant_max request_started interval)) renewed_valid_until
      end
  end.

Definition is_retry_later (d : JobDisposition) : bool := match d with DispRetryLater => true | _ => false end.

Definition execute_with_lease (fuel : nat) (job : ScenarioJob) (plan : option (ScenarioExecutionPlan W))
    (lease : ExecutionLease) (first_renewal_at lease_valid_until : Z) : wprog JobDisposition :=
  disposition ← select (execute_and_publish job plan lease)
    (lease_renewal_until_loss fuel lease (execution_renew_interval config) first_renewal_at lease_valid_until;;
     mret DispRetryLater);
  if is_retry_later disposition then Call (WRelease lease) Ret;; mret disposition else mret disposition.
(** ** Processing a record *)

(** Dead letter of a job that will not be executed. *)
Definition dead_letter (job : ScenarioJob) (reason : string) : wprog JobDisposition :=
  failed_at ← now_unix_ms;
  r ← publish_failed_with_retry (failed_job job reason failed_at);
  match r : result string unit with
  | Ok _ => mret DispDeadLetterPublished
  | Err _ => mret DispRetryLater
  end.

Definition claim_and_execute (fuel : nat) (job : ScenarioJob) : wprog JobDisposition :=
  claim_started ← now;
  r ← Call (WClaim (mkClaim (job_execution_key job) (job_attempt job))) Ret;
  match r : result CoordinationError ClaimOutcome with
  | Ok (ClaimAlreadyCompleted _) => mret DispDuplicateCompleted
  | Ok (ClaimBusy retry_after) => mret (DispExecutionLeaseBusy retry_after)
  | Err _ => mret DispRetryLater
  | Ok (ClaimAcquired lease) =>
      let lease_valid_until := conservative_lease_deadline claim_started (lease_ttl lease) (execution_renew_interval config) in
      t ← now;
      if lease_valid_until <=? t then mret DispRetryLater else
      let first_renewal_at := default claim_started (checked_add instant_max claim_started (execution_renew_interval config)) in
      execute_with_lease fuel job (plans !! job_scenario_id job) lease first_renewal_at lease_valid_until
  end.

(** The reasons for which a job that decodes is refused before it is claimed. *)
Definition starts_nothing (load : JobLoadConfig) : bool :=
  (startup_burst load =? 0)
  && f64_ltb (f64_mul (scenarios_per_sec load) (as_secs_f64 (load_duration load))) f64_one.

Definition process_job (fuel : nat) (job : ScenarioJob) : wprog JobDisposition :=
  match ScenarioJob_validate_limits job (max_job_duration config) (max_scenarios_per_sec config) (node_max_concurrency config) with
  | Err contract_error => dead_letter job ("invalid job contract: " +:+ show_ContractError contract_error)
  | Ok _ =>
  match deterministic_job_plan_error job plans config with
  | Some reason => dead_letter job reason
  | None =>
  t ← now_unix_ms;
  let delay := deferred_job_delay job t in
  if worker_retry_max_delay config <? delay then
    dead_letter job ("invalid retry deferral: remaining not-before delay " +:+ show (as_millis delay)
                     +:+ " ms exceeds configured maximum " +:+ show (as_millis (worker_retry_max_delay config)) +:+ " ms")
  else if starts_nothing (job_load job) then
    dead_letter job "invalid load plan: no paced scenario can start inside this window without an explicit startup burst"
  else claim_and_execute fuel job
  end end.

Definition process_once (fuel : nat) (record : M) : wprog JobDisposition :=
  match record_job record with
  | Err contract_error =>
      r ← publish_poison_with_retry (poison_record record (show_ContractError contract_error));
      match r : result string unit with
      | Ok _ => mret DispDeadLetterPublished
      | Err _ => mret DispRetryLater
      end
  | Ok job => process_job fuel job
  end.

(** Whether the wait for [delay] was ended by a shutdown. *)
Definition interrupted (delay : duration) : wprog bool :=
  stop ← shutdown_requested;
  if stop : bool then mret true else wait_or_shutdown delay.

(** The loop of [process_until_terminal]. *)
Fixpoint settle_loop (fuel : nat) (record : M) : wprog (option JobDisposition) :=
  match fuel with
  | O => forever
  | S fuel' =>
      disposition ← process_once fuel' record;
      match disposition with
      | DispExecutionLeaseBusy retry_after =>
          let delay := if duration_is_zero retry_after then worker_retry_base_delay config
                       else Z.min retry_after (worker_retry_max_delay config) in
          stop ← interrupted delay;
          if stop : bool then mret None else settle_loop fuel' record
      | DispRetryLater => mret None
      | d => mret (Some d)
      end
  end.

Definition process_until_terminal (fuel : nat) (record : M) : wprog (option JobDisposition) :=
  stop ← match record_job record with
         | Ok job =>
             t ← now_unix_ms;
             let delay := deferred_job_delay job t in
             if negb (duration_is_zero delay) && (delay <=? worker_retry_max_delay config)
             then interrupted delay else mret false
         | Err _ => mret false
         end;
  if stop : bool then mret None else settle_loop fuel record.

(** *** The worker loop *)

(** What ends the processing of a record from outside: its Kafka-safe bound, or a
    shutdown and then the drain timeout. *)
Definition processing_expiry : wprog (option JobDisposition) :=
  select (sleep (max_processing_interval config);; mret None)
         (Call WShutdownChanged Ret;;
          stop ← shutdown_requested;
          if stop : bool then sleep (shutdown_drain_timeout config);; mret None else forever).

(** Whether the record was processed and its offset committed. *)
Definition handle_record (fuel : nat) (record : M) : wprog bool :=
  processing_started ← now;
  disposition ← select (process_until_terminal fuel record) processing_expiry;
  match disposition with
  | None => mret false
  | Some _ =>
      t ← now;
      let commit_budget := duration_saturating_sub (max_processing_interval config) (saturating_sub t processing_started) in
      if duration_is_zero commit_budget then mret false else
      committed ← select (r ← Call (WCommit record) Ret; mret (Some r)) (sleep commit_budget;; mret None);
      match committed : option (result string unit) with
      | Some (Ok _) => mret true
      | _ => mret false
      end
  end.

Fixpoint worker_loop (fuel : nat) : wprog unit :=
  match fuel with
  | O => forever
  | S fuel' =>
      stop ← shutdown_requested;
      if stop : bool then mret tt else
      received ← select (r ← Call WReceive Ret; mret (Some r)) (Call WShutdownChanged Ret;; mret None);
      match received : option (option M) with
      | None =>
          stop ← shutdown_requested;
          if stop : bool then mret tt else worker_loop fuel'
      | Some None => mret tt
      | Some (Some record) =>
          stop ← shutdown_requested;
          if stop : bool then mret tt else
          committed ← handle_record fuel' record;
          if negb committed then mret tt else
          stop ← shutdown_requested;
          if stop : bool then mret tt else worker_loop fuel'
      end
  end.
End worker.
#[global] Arguments wcall : clear implicits.
