(* ===== verification/WorkerProtocol.v ===== *)
(** * The settlement protocol

    What every run of the worker obeys, whatever the lease store, the brokers,
    the clocks and the shutdown do: a monitor of its calls, the proof that no run
    fails it, and what follows for a committed source offset. *)

From S2P Require Import Prelude RustStr F64 Contracts Domain Planning Aggregation Coordination Metrics Effects Runner Worker.

Section protocol.
Context {M W H : Type} `{EqDecision M} `{CommitableJob M} `{LatencyHistogramLaws H}.
Variable config : NodeRuntimeConfig.
Variable plans : gmap string (ScenarioExecutionPlan W).
Notation wanswer := (wanswer (M := M) (W := W) (H := H)).
Notation wprog := (prog wanswer).
Notation wobs := (obs wanswer).
Implicit Types (m : M) (l : ExecutionLease).

(** ** The monitor *)

(** Of the record in hand: the lease it was claimed under, whether its slice was
    executed, whether the owner was checked since the last publication attempt,
    the publication attempts, the terminal record that was acknowledged, and
    whether the disposition is durable. *)
Inductive phase :=
| Idle
| Working (m : M) (lease : option ExecutionLease) (ran checked : bool) (tries : Z)
    (published : option TerminalOutcome) (settled : bool)
| Stopped.

Definition same_execution (job : ScenarioJob) (key : string) (attempt : Z) : bool :=
  bool_decide (key = job_execution_key job) && bool_decide (attempt = job_attempt job).

(** Publications carry the identity of the job in hand; a retry is its next
    attempt and one it still has. *)
Definition retry_follows (job j : ScenarioJob) : bool :=
  same_execution job (job_execution_key j) (job_attempt j - 1)
  && (job_attempt job <? job_max_retries job) && bool_decide (job_max_retries j = job_max_retries job).

Definition publishes (m : M) (ran leased : bool) (c : wcall M W) : option TerminalOutcome :=
  match record_job m, c with
  | Ok job, WPublishResult r =>
      if ran && leased && same_execution job (res_execution_key r) (res_attempt r) then Some ResultPublished else None
  | Ok job, WPublishJob _ j => if ran && leased && retry_follows job j then Some RetryPublished else None
  | Ok job, WPublishFailed _ f =>
      if same_execution job (fail_execution_key f) (fail_attempt f) then Some DeadLetterPublished else None
  | Err _, WPublishPoison _ => if leased then None else Some DeadLetterPublished
  | _, _ => None
  end.

Definition publication (c : wcall M W) : bool :=
  match c with WPublishResult _ | WPublishJob _ _ | WPublishFailed _ _ | WPublishPoison _ => true | _ => false end.

Definition claims (m : M) (c : ExecutionClaim) : bool :=
  match record_job m with
  | Ok job => same_execution job (claim_execution_key c) (claim_attempt c)
  | Err _ => false
  end.

(** A publication attempt, with its answer if there was one. Without a lease it
    settles the record; under a lease the owner must just have been checked. *)
Definition note_publication (s : phase) (c : wcall M W) (r : option (result string unit)) : option phase :=
  match s with
  | Working m lease ran checked tries None false =>
      let leased := bool_decide (is_Some lease) in
      outcome ← publishes m ran leased c;
      if (implb leased checked) && (tries <? local_settlement_attempt_limit config)
      then Some (match r with
                 | Some (Ok _) => Working m lease ran false (tries + 1) (Some outcome) (negb leased)
                 | _ => Working m lease ran false (tries + 1) None false
                 end)
      else None
  | _ => None
  end.

Definition note_claim (s : phase) (c : ExecutionClaim) (r : option (result CoordinationError ClaimOutcome)) : option phase :=
  match s with
  | Working m None false checked 0 None false =>
      if claims m c
      then Some (match r with
                 | Some (Ok (ClaimAcquired l)) => Working m (Some l) false false 0 None false
                 | Some (Ok (ClaimAlreadyCompleted _)) => Working m None false checked 0 None true
                 | _ => s
                 end)
      else None
  | _ => None
  end.

Definition note_run (s : phase) : option phase :=
  match s with
  | Working m (Some l) false checked 0 None false => Some (Working m (Some l) true checked 0 None false)
  | _ => None
  end.

Definition note_check (s : phase) (l : ExecutionLease) (ok : bool) : option phase :=
  match s with
  | Working m (Some l') ran checked tries published settled =>
      if bool_decide (l' = l) then Some (Working m (Some l') ran ok tries published settled) else None
  | _ => None
  end.

Definition note_complete (s : phase) (l : ExecutionLease) (o : TerminalOutcome) (ok : bool) : option phase :=
  match s with
  | Working m (Some l') ran checked tries (Some o') false =>
      if bool_decide (l' = l) && bool_decide (o' = o)
      then Some (Working m (Some l') ran checked tries (Some o') ok) else None
  | _ => None
  end.

Definition note_release (s : phase) (l : ExecutionLease) : option phase :=
  match s with
  | Working m (Some l') _ _ _ _ false => if bool_decide (l' = l) then Some s else None
  | _ => None
  end.

Definition note_commit (s : phase) (m : M) (ok : bool) : option phase :=
  match s with
  | Working m' _ _ _ _ _ true => if bool_decide (m' = m) then Some (if ok then Idle else Stopped) else None
  | _ => None
  end.

Definition protocol (s : phase) (x : wobs) : option phase :=
  match x with
  | Answered WReceive r =>
      match r : option M, s with
      | Some m, Idle => Some (Working m None false false 0 None false)
      | Some _, _ => None
      | None, _ => Some s
      end
  | Answered (WClaim c) r => note_claim s c (Some r)
  | Dropped (WClaim c) => note_claim s c None
  | Answered (WRun _ _ _) _ | Dropped (WRun _ _ _) => note_run s
  | Answered (WRenew BeforePublication l) r => note_check s l (is_ok (r : result CoordinationError ExecutionLease))
  | Dropped (WRenew BeforePublication l) => note_check s l false
  | Answered (WComplete l o) r => note_complete s l o (is_ok (r : result CoordinationError CompletedOutcome))
  | Dropped (WComplete l o) => note_complete s l o false
  | Answered (WRelease l) _ | Dropped (WRelease l) => note_release s l
  | Answered (WCommit m) r => note_commit s m (is_ok (r : result string unit))
  | Dropped (WCommit m) => note_commit s m false
  | Answered (WPublishResult r) a => note_publication s (WPublishResult r) (Some a)
  | Answered (WPublishJob k j) a => note_publication s (WPublishJob k j) (Some a)
  | Answered (WPublishFailed k f) a => note_publication s (WPublishFailed k f) (Some a)
  | Answered (WPublishPoison p) a => note_publication s (WPublishPoison p) (Some a)
  | Dropped c =>
      if publication c then note_publication s c None
      else match c with WPanic _ => None | _ => Some s end
  | Answered (WPanic _) _ => None
  | _ => Some s
  end.
(** ** The worker obeys it *)

Notation safe := (safe protocol).
Notation limit := (local_settlement_attempt_limit config).

(** Calls the monitor does not look at. *)
Definition plain (c : wcall M W) : bool :=
  match c with
  | WNow | WUnixMs | WSleep _ | WSleepUntil _ | WShutdownRequested | WShutdownChanged | WForever
  | WRenew Background _ => true
  | _ => false
  end.

Lemma plain_ignored c : plain c = true -> ignored protocol (Dropped c) /\ forall r, ignored protocol (Answered c r).
Proof. intros Hc. split; [intros s|intros r s]; destruct c as [| | | | | | | |[]| | | | | | | | | |]; done. Qed.

Lemma safe_plain {A} c (k : wanswer c -> wprog A) s (I : phase -> Prop) Q :
  plain c = true -> I s -> (forall r, safe (k r) s I Q) -> safe (Call c k) s I Q.
Proof.
  intros Hc Hi Hk. destruct (plain_ignored c Hc) as [Hd Ha].
  apply safe_call; [done|exists s; split; [apply Hd|done]|]. intros r. exists s. split; [apply Ha|apply Hk].
Qed.

Lemma quiet_plain {A} c (k : wanswer c -> wprog A) :
  plain c = true -> (forall r, quiet protocol (k r)) -> quiet protocol (Call c k).
Proof. intros Hc Hk. destruct (plain_ignored c Hc) as [Hd Ha]. apply quiet_call; [done|]. intros r. by split. Qed.

Lemma safe_panic_free {A} (s : phase) (I : phase -> Prop) (Q : A -> phase -> Prop) : I s -> safe (forever : wprog A) s I Q.
Proof. intros Hi. apply safe_plain; [done..|]. intros []. Qed.

Lemma limit_pos : 1 <= limit.
Proof. unfold local_settlement_attempt_limit. lia. Qed.

(** A loop that goes on from [J attempt] to [J (attempt + 1)], and not beyond the
    limit, returns before its fuel is spent. *)
Lemma attempts_safe {A} (body : Z -> wprog (option A)) (J : Z -> phase -> Prop) fuel attempt entropy unreached s
    (I : phase -> Prop) Q :
  (forall n s', 0 <= n < limit -> J n s' ->
     I s' /\ safe (body n) s' I (fun r s2 => match r with Some a => Q a s2 | None => n + 1 < limit /\ J (n + 1) s2 end)) ->
  0 <= attempt -> Z.of_nat fuel = limit - attempt -> (0 < fuel)%nat -> J attempt s ->
  safe (attempts config fuel attempt limit entropy unreached body) s I Q.
Proof.
  intros Hbody. revert attempt s. induction fuel as [|fuel IH]; intros attempt s Ha Hf Hpos HJ; [lia|]. cbn [attempts].
  destruct (Hbody attempt s) as [_ Hb]; [lia|done|]. apply safe_bind. eapply safe_mono; [exact Hb|done|].
  intros [a|] s2 Hs2; [by apply safe_ret|]. destruct Hs2 as [Hlt HJ2].
  destruct (Hbody (attempt + 1) s2) as [Hi _]; [lia|done|].
  apply safe_plain; [done..|]. intros []. apply IH; [lia..|done].
Qed.

Lemma settlement_safe {A} (body : Z -> Z -> wprog (option A)) (J : Z -> phase -> Prop) entropy unreached s (I : phase -> Prop) Q :
  (forall n s', 0 <= n < limit -> J n s' ->
     I s' /\ safe (body limit n) s' I (fun r s2 => match r with Some a => Q a s2 | None => n + 1 < limit /\ J (n + 1) s2 end)) ->
  J 0 s -> safe (settlement_attempts config entropy unreached body) s I Q.
Proof.
  intros Hbody HJ. pose proof limit_pos. unfold settlement_attempts.
  apply (attempts_safe _ J); [exact Hbody|lia|lia|lia|done].
Qed.
(** *** Publications *)

(** [p] is the publication [c]. *)
Definition announces (c : wcall M W) (p : wprog (result string unit)) : Prop :=
  forall s (I : phase -> Prop) Q,
    I s -> (exists s', note_publication s c None = Some s' /\ I s') ->
    (forall r, exists s', note_publication s c (Some r) = Some s' /\ Q r s') -> safe p s I Q.

Ltac announce :=
  intros s I Q Hi Hd Ha; apply safe_call; [done|exact Hd|];
  let a := fresh in intros a; destruct (Ha a) as (s' & E & Hq); exists s'; split; [exact E|by apply safe_ret].

Lemma announces_result r : announces (WPublishResult r) (Call (WPublishResult r) Ret).
Proof. announce. Qed.
Lemma announces_job k j : announces (WPublishJob k j) (Call (WPublishJob k j) Ret).
Proof. announce. Qed.
Lemma announces_failed k f : announces (WPublishFailed k f) (Call (WPublishFailed k f) Ret).
Proof. announce. Qed.
Lemma announces_poison p : announces (WPublishPoison p) (Call (WPublishPoison p) Ret).
Proof. announce. Qed.

(** The record is in hand, under the lease or without one, and nothing was
    acknowledged; its settlement is not recorded; the attempts made. *)
Definition leased m l (s : phase) : Prop := exists ran ck n pub, s = Working m (Some l) ran ck n pub false.
Definition pending m (lease : option ExecutionLease) ran n (s : phase) : Prop :=
  exists ck, s = Working m lease ran ck n None false.

Lemma pending_leased m l ran n s : pending m (Some l) ran n s -> leased m l s.
Proof. intros [ck ->]. by eexists _, _, _, _. Qed.

Lemma verify_safe m l interval ran n s (I : phase -> Prop) :
  (forall s', pending m (Some l) ran n s' -> I s') -> pending m (Some l) ran n s ->
  safe (verify_publication_lease l interval) s I (fun r s' =>
    match r with Ok _ => s' = Working m (Some l) ran true n None false | Err _ => pending m (Some l) ran n s' end).
Proof.
  intros HI [ck ->]. unfold verify_publication_lease.
  apply safe_plain; [done|apply HI; by eexists|]. intros request_started.
  apply safe_call; [apply HI; by eexists| |].
  - exists (Working m (Some l) ran false n None false). split; [cbn; by rewrite bool_decide_true|]. apply HI. by eexists.
  - intros [renewed|e].
    + exists (Working m (Some l) ran true n None false). split; [cbn; by rewrite bool_decide_true|].
      apply safe_plain; [done|apply HI; by eexists|]. intros t. cbn.
      destruct (lease_response_has_safe_budget _ _ _ _); apply safe_ret; [done|by eexists].
    + exists (Working m (Some l) ran false n None false). split; [cbn; by rewrite bool_decide_true|]. apply safe_ret. by eexists.
Qed.

(** One attempt to publish. *)
Definition attempted m lease ran o n (r : option (result string unit)) (s : phase) : Prop :=
  match r with
  | Some (Ok _) => exists n', s = Working m lease ran false n' (Some o) (negb (bool_decide (is_Some lease)))
  | Some (Err _) => exists n', pending m lease ran n' s
  | None => n + 1 < limit /\ pending m lease ran (n + 1) s
  end.

Lemma publish_safe c p m lease ran ck n o (I : phase -> Prop) :
  announces c p -> publishes m ran (bool_decide (is_Some lease)) c = Some o -> 0 <= n < limit ->
  implb (bool_decide (is_Some lease)) ck = true -> (forall n' s', pending m lease ran n' s' -> I s') ->
  safe (r ← p; match r with Ok _ => mret (Some (Ok tt)) | Err e => mret (give_up_after n limit e) end)
    (Working m lease ran ck n None false) I (attempted m lease ran o n).
Proof.
  intros Hp Ho Hn Hck HI. apply safe_bind, Hp.
  - apply (HI n). by eexists.
  - exists (Working m lease ran false (n + 1) None false). split; [|apply (HI (n + 1)); by eexists].
    simpl. rewrite Ho. simpl. by rewrite Hck, (proj2 (Z.ltb_lt n limit)) by lia.
  - intros r. eexists. split; [simpl; rewrite Ho; simpl; by rewrite Hck, (proj2 (Z.ltb_lt n limit)) by lia|].
    destruct r as [u|e]; apply safe_ret; [by eexists|]. unfold give_up_after.
    destruct (Z.leb_spec limit (n + 1)); simpl; [eexists; by eexists|]. split; [done|by eexists].
Qed.

Lemma publish_checked_safe c p m lease ran n o s (I : phase -> Prop) :
  announces c p -> publishes m ran (bool_decide (is_Some lease)) c = Some o -> 0 <= n < limit ->
  (forall n' s', pending m lease ran n' s' -> I s') -> pending m lease ran n s ->
  safe (publish_checked config lease n limit p) s I (attempted m lease ran o n).
Proof.
  intros Hp Ho Hn HI Hs. unfold publish_checked. apply safe_bind. destruct lease as [l|].
  - eapply safe_mono; [apply (verify_safe m l); [apply HI|exact Hs]|done|].
    intros [u|e] s' Hs'; cbv beta iota.
    + subst s'. by apply (publish_safe c p).
    + apply safe_ret. by eexists.
  - apply safe_ret. destruct Hs as [ck ->]. cbv beta iota. by apply (publish_safe c p).
Qed.

(** A settlement publication: acknowledged, or given up. *)
Definition concluded m lease ran o (r : result string unit) (s : phase) : Prop :=
  match r with
  | Ok _ => exists n, s = Working m lease ran false n (Some o) (negb (bool_decide (is_Some lease)))
  | Err _ => exists n, pending m lease ran n s
  end.

Lemma publish_loop_safe c p m lease ran o entropy s (I : phase -> Prop) :
  announces c p -> publishes m ran (bool_decide (is_Some lease)) c = Some o ->
  (forall n' s', pending m lease ran n' s' -> I s') -> pending m lease ran 0 s ->
  safe (settlement_attempts config entropy bounded_loop (fun lim n => publish_checked config lease n lim p)) s I
    (concluded m lease ran o).
Proof.
  intros Hp Ho HI Hs. apply (settlement_safe _ (fun n s' => pending m lease ran n s')); [|done].
  intros n s' Hn Hs'. split; [by eapply HI|]. eapply safe_mono; [by apply (publish_checked_safe c p)|done|].
  intros [[u|e]|] s2 Hs2; exact Hs2.
Qed.
(** *** Under a lease *)

Definition durable m (s : phase) : Prop := exists lease ran ck n pub, s = Working m lease ran ck n pub true.

(** A disposition reported of a leased record. *)
Definition disposed m l (d : JobDisposition) (s : phase) : Prop :=
  (is_terminal d = true /\ durable m s) \/ (d = DispRetryLater /\ leased m l s).

Lemma complete_step_safe m l ran n o d s :
  is_terminal d = true -> s = Working m (Some l) ran false n (Some o) false ->
  safe (complete_as config l o d) s (leased m l) (disposed m l).
Proof.
  intros Hd ->. set (J := fun (_ : Z) s => s = Working m (Some l) ran false n (Some o) false).
  assert (forall k s', J k s' -> leased m l s') as HJ by (intros k s' ->; by eexists _, _, _, _).
  unfold complete_as, complete_until_acknowledged. apply safe_bind. apply (settlement_safe _ J); [|done].
  intros k s' Hk Hs'. split; [by eapply HJ|]. apply safe_call; [by eapply HJ| |]; rewrite Hs'.
  - eexists. split; [cbn; by rewrite !bool_decide_true|]. by apply (HJ 0).
  - intros [c|e].
    + exists (Working m (Some l) ran false n (Some o) true). split; [cbn; by rewrite !bool_decide_true|].
      do 2 apply safe_ret. left. split; [done|]. by eexists _, _, _, _, _.
    + exists (Working m (Some l) ran false n (Some o) false). split; [cbn; by rewrite !bool_decide_true|].
      assert (safe (mret DispRetryLater : wprog JobDisposition) (Working m (Some l) ran false n (Some o) false)
        (leased m l) (disposed m l)) as Hlater by (apply safe_ret; right; split; [done|by apply (HJ 0)]).
      destruct e; cbn; apply safe_ret; try exact Hlater; unfold give_up_after;
        (destruct (Z.leb_spec limit (k + 1)); [exact Hlater|by split]).
Qed.

(** A leased publication followed by the completion it calls for. *)
Lemma publish_complete_safe c p m l ran o d entropy s :
  announces c p -> publishes m ran true c = Some o -> is_terminal d = true -> pending m (Some l) ran 0 s ->
  safe (r ← settlement_attempts config entropy bounded_loop (fun lim n => publish_checked config (Some l) n lim p);
        match r : result string unit with
        | Err _ => mret DispRetryLater
        | Ok _ => complete_as config l o d
        end) s (leased m l) (disposed m l).
Proof.
  intros Hp Ho Hd Hs. apply safe_bind. eapply safe_mono.
  { apply (publish_loop_safe c p m (Some l) ran o entropy s (leased m l)); [done|done| |done]. intros n' s'. apply pending_leased. }
  { done. }
  intros [u|e] s' Hs'.
  - destruct Hs' as [n ->]. by eapply complete_step_safe.
  - destruct Hs' as [n Hs']. apply safe_ret. right. split; [done|]. by eapply pending_leased.
Qed.

Section job.
Variable m0 : M.
Variable job : ScenarioJob.
Hypothesis Hjob : record_job m0 = Ok job.

Lemma same_execution_refl : same_execution job (job_execution_key job) (job_attempt job) = true.
Proof. unfold same_execution. by rewrite !bool_decide_true. Qed.

Lemma dlq_safe l ran reason s :
  pending m0 (Some l) ran 0 s ->
  safe (publish_and_complete_dlq config job l reason) s (leased m0 l) (disposed m0 l).
Proof.
  intros Hs. unfold publish_and_complete_dlq. apply safe_plain; [done|by eapply pending_leased|]. intros t.
  apply (publish_complete_safe _ _ m0 l ran DeadLetterPublished DispDeadLetterPublished _ s (announces_failed _ _)); [|done..].
  unfold publishes. rewrite Hjob. simpl. by rewrite same_execution_refl.
Qed.

Lemma retry_of_follows delay t :
  in_range u32_max (job_attempt job) -> in_range u32_max (job_max_retries job) ->
  (job_max_retries job <=? job_attempt job) = false -> retry_follows job (retry_of job delay t) = true.
Proof.
  intros Ha Hm Hlt. apply Z.leb_gt in Hlt. unfold retry_follows, same_execution. simpl.
  rewrite (bool_decide_true (job_execution_key job = _)), (bool_decide_true (job_max_retries job = _)) by done.
  unfold saturating_add. rewrite (bool_decide_true (_ - 1 = _)) by mlia. by rewrite (proj2 (Z.ltb_lt _ _)) by lia.
Qed.

(** The attempts of a job are machine integers. *)
Hypothesis Hattempt : in_range u32_max (job_attempt job).
Hypothesis Hretries : in_range u32_max (job_max_retries job).

Lemma infrastructure_safe plan l reason s :
  pending m0 (Some l) true 0 s ->
  safe (settle_infrastructure_failure config job plan l reason) s (leased m0 l) (disposed m0 l).
Proof.
  intros Hs. unfold settle_infrastructure_failure. destruct (job_max_retries job <=? job_attempt job) eqn:Hle; [by eapply dlq_safe|].
  apply safe_plain; [done|by eapply pending_leased|]. intros t.
  apply (publish_complete_safe _ _ m0 l true RetryPublished DispRetryPublished _ s (announces_job _ _)); [|done..].
  unfold publishes. rewrite Hjob. cbn [andb]. by rewrite retry_of_follows.
Qed.
Lemma result_of_some report t0 t1 :
  exists r, result_of job report t0 t1 = Some r
    /\ res_execution_key r = job_execution_key job /\ res_attempt r = job_attempt job.
Proof.
  unfold result_of. destruct (wm_scenario_metrics (rep_summary report) !! job_scenario_id job) as [b|]; simpl; [by eexists|].
  destruct new_measures as (b & E & _). rewrite E. by eexists.
Qed.

Lemma report_safe plan l report t0 t1 s :
  pending m0 (Some l) true 0 s -> safe (settle_report config job plan l report t0 t1) s (leased m0 l) (disposed m0 l).
Proof.
  intros Hs. unfold settle_report. destruct (0 <? errors_of_kind report "invariant_violation").
  { apply safe_ret. right. split; [done|]. by eapply pending_leased. }
  destruct (0 <? errors_of_kind report "pulse_infrastructure"); [by apply infrastructure_safe|].
  destruct (0 <? permanent_failures report); [by eapply dlq_safe|].
  destruct (result_of_some report t0 t1) as (r & -> & Hk & Ha).
  apply (publish_complete_safe _ _ m0 l true ResultPublished DispResultPublished _ s (announces_result _)); [|done..].
  unfold publishes. rewrite Hjob. cbn [andb]. by rewrite Hk, Ha, same_execution_refl.
Qed.

Lemma execute_and_publish_safe plan l s :
  pending m0 (Some l) false 0 s -> safe (execute_and_publish config job plan l) s (leased m0 l) (disposed m0 l).
Proof.
  intros Hs. pose proof (pending_leased _ _ _ _ _ Hs) as Hl. unfold execute_and_publish.
  destruct plan as [plan|]; [|by eapply dlq_safe]. apply safe_plain; [done..|]. intros t0. destruct Hs as [ck ->].
  apply safe_call; [done| |].
  - exists (Working m0 (Some l) true ck 0 None false). split; [done|]. by eexists _, _, _, _.
  - intros report. exists (Working m0 (Some l) true ck 0 None false). split; [done|].
    apply safe_plain; [done|by eexists _, _, _, _|]. intros t1. apply report_safe. by eexists.
Qed.

Lemma renewal_quiet fuel l interval next until : quiet protocol (lease_renewal_until_loss fuel l interval next until : wprog _).
Proof.
  revert l next until. induction fuel as [|fuel IH]; intros l next until; [apply quiet_plain; [done|by intros []]|].
  cbn [lease_renewal_until_loss]. apply quiet_bind.
  { apply quiet_race; [| |intros; apply quiet_ret]; (apply quiet_plain; [done|]; intros; apply quiet_ret). }
  intros []; [apply quiet_ret|]. apply quiet_plain; [done|]. intros t0. apply quiet_bind.
  { apply quiet_race; [| |intros; apply quiet_ret]; (apply quiet_plain; [done|]; intros; apply quiet_ret). }
  intros [[renewed|e]|]; [|apply quiet_ret..]. apply quiet_plain; [done|]. intros t1.
  cbn. destruct (_ <=? t1); [apply quiet_ret|apply IH].
Qed.

Lemma renewal_result fuel l interval next until tr d :
  runs (lease_renewal_until_loss fuel l interval next until;; mret DispRetryLater : wprog _) tr (Some d) -> d = DispRetryLater.
Proof. intros Hr. by apply runs_bind in Hr as [[_ ?]|(e & t1 & t2 & _ & [_ [= ->]] & _)]. Qed.

(** What comes back from the execution: nothing is held back, and a disposition
    that is not durable leaves the record unsettled. *)
Definition processed m (d : JobDisposition) (s : phase) : Prop :=
  (is_terminal d = true /\ durable m s) \/ d = DispRetryLater
  \/ (exists retry_after, d = DispExecutionLeaseBusy retry_after /\ pending m None false 0 s).

Lemma execute_with_lease_safe fuel plan l first until s :
  pending m0 (Some l) false 0 s ->
  safe (execute_with_lease config fuel job plan l first until) s any_state (processed m0).
Proof.
  intros Hs. unfold execute_with_lease. apply safe_bind. apply safe_race.
  - apply quiet_bind; [apply renewal_quiet|intros; apply quiet_ret].
  - assert (forall d s', disposed m0 l d s' -> safe (Ret d : wprog _) s' any_state (fun d s'' =>
      safe (if is_retry_later d then Call (WRelease l) Ret;; mret d else mret d : wprog _) s'' any_state (processed m0))) as Hend.
    { intros d s' [[Hd Hdur]|[-> (ran & ck & n & pub & ->)]]; apply safe_ret.
      - destruct d; try done; apply safe_ret; by left.
      - apply safe_call; [done| |].
        + eexists. split; [cbn; by rewrite bool_decide_true|done].
        + intros r. eexists. split; [cbn; by rewrite bool_decide_true|]. apply safe_ret. right. by left. }
    eapply safe_mono; [by apply execute_and_publish_safe| |exact Hend].
    intros s' Hs'. split; [done|]. intros d [tr Hd]. apply renewal_result in Hd as ->. apply Hend. by right.
Qed.
(** *** Before the claim *)

Lemma dead_letter_safe reason s :
  pending m0 None false 0 s -> safe (dead_letter config job reason) s any_state (processed m0).
Proof.
  intros Hs. unfold dead_letter. apply safe_plain; [done..|]. intros t. apply safe_bind. eapply safe_mono.
  { apply (publish_loop_safe _ _ m0 None false DeadLetterPublished _ s any_state (announces_failed _ _)); [|done..].
    unfold publishes. rewrite Hjob. simpl. by rewrite same_execution_refl. }
  { done. }
  intros [u|e] s' Hs'; apply safe_ret; [left|right; by left]. destruct Hs' as [n ->]. split; [done|]. by eexists _, _, _, _, _.
Qed.

Lemma claim_step_safe fuel s : pending m0 None false 0 s -> safe (claim_and_execute config plans fuel job) s any_state (processed m0).
Proof.
  intros [ck ->]. unfold claim_and_execute. apply safe_plain; [done..|]. intros t0.
  assert (claims m0 (mkClaim (job_execution_key job) (job_attempt job)) = true) as Hc
    by (unfold claims; rewrite Hjob; apply same_execution_refl).
  apply safe_call; [done| |].
  - eexists. split; [cbn; by rewrite Hc|done].
  - intros [[l|c|retry_after]|e]; (eexists; split; [cbn; by rewrite Hc|]).
    + apply safe_plain; [done..|]. intros t1. cbn. destruct (_ <=? t1); [apply safe_ret; right; by left|].
      apply execute_with_lease_safe. by eexists.
    + apply safe_ret. left. split; [done|]. by eexists _, _, _, _, _.
    + apply safe_ret. right. right. eexists. split; [done|]. by eexists.
    + apply safe_ret. right. by left.
Qed.

Lemma process_job_safe fuel s : pending m0 None false 0 s -> safe (process_job config plans fuel job) s any_state (processed m0).
Proof.
  intros Hs. unfold process_job. destruct (ScenarioJob_validate_limits _ _ _ _); [|by apply dead_letter_safe].
  destruct (deterministic_job_plan_error _ _ _); [by apply dead_letter_safe|].
  apply safe_plain; [done..|]. intros t. cbn. destruct (_ <? _); [by apply dead_letter_safe|].
  destruct (starts_nothing _); [by apply dead_letter_safe|by apply claim_step_safe].
Qed.
End job.

(** *** The loops *)

(** The attempts of a decoded job are machine integers. *)
Hypothesis Htyped : forall m job, record_job m = Ok job ->
  in_range u32_max (job_attempt job) /\ in_range u32_max (job_max_retries job).

Lemma process_once_safe fuel m s : pending m None false 0 s -> safe (process_once config plans fuel m) s any_state (processed m).
Proof.
  intros Hs. unfold process_once. destruct (record_job m) as [job|e] eqn:E.
  - destruct (Htyped m job E). by apply process_job_safe.
  - apply safe_bind. eapply safe_mono.
    { apply (publish_loop_safe _ _ m None false DeadLetterPublished _ s any_state (announces_poison _)); [|done..].
      unfold publishes. by rewrite E. }
    { done. }
    intros [u|e'] s' Hs'; apply safe_ret; [left|right; by left]. destruct Hs' as [n ->]. split; [done|]. by eexists _, _, _, _, _.
Qed.

Lemma interrupted_quiet delay : quiet protocol (interrupted delay : wprog bool).
Proof.
  apply quiet_plain; [done|]. intros []; [apply quiet_ret|]. apply quiet_race; [| |intros; apply quiet_ret].
  - apply quiet_plain; [done|]. intros; apply quiet_ret.
  - apply quiet_plain; [done|]. intros []; [apply quiet_ret|]. apply quiet_plain; [done|]. intros; apply quiet_ret.
Qed.

Definition handled m (r : option JobDisposition) (s : phase) : Prop := is_Some r -> durable m s.

Lemma settle_loop_safe fuel m s : pending m None false 0 s -> safe (settle_loop config plans fuel m) s any_state (handled m).
Proof.
  revert s. induction fuel as [|fuel IH]; intros s Hs; [by apply safe_panic_free|]. cbn [settle_loop].
  apply safe_bind. eapply safe_mono; [by apply process_once_safe|done|].
  assert (forall s', handled m None s') as Hnone by (by intros s' [? ?]).
  intros d s' [[Hd Hdur]|[-> | (retry_after & -> & Hs')]].
  - destruct d; try done; apply safe_ret; by intros _.
  - by apply safe_ret.
  - apply safe_bind, safe_quiet; [apply interrupted_quiet|done|]. intros []; [by apply safe_ret|by apply IH].
Qed.

Lemma process_safe fuel m s : pending m None false 0 s -> safe (process_until_terminal config plans fuel m) s any_state (handled m).
Proof.
  intros Hs. unfold process_until_terminal. apply safe_bind, safe_quiet; [|done|].
  - destruct (record_job m); [|apply quiet_ret]. apply quiet_plain; [done|]. intros t. cbn.
    destruct (_ && _); [apply interrupted_quiet|apply quiet_ret].
  - intros []; [apply safe_ret; by intros [? ?]|by apply settle_loop_safe].
Qed.

Lemma expiry_quiet : quiet protocol (processing_expiry config : wprog _).
Proof.
  apply quiet_race; [| |intros; apply quiet_ret].
  - apply quiet_plain; [done|]. intros; apply quiet_ret.
  - apply quiet_plain; [done|]. intros b. apply quiet_plain; [done|]. intros [].
    + apply quiet_plain; [done|]. intros; apply quiet_ret.
    + apply quiet_plain; [done|]. intros [].
Qed.

Lemma expiry_result tr r : runs (processing_expiry config : wprog _) tr (Some r) -> r = None.
Proof.
  intros (t1 & t2 & t & _ & [(_ & _ & _ & ?)|(b & tr' & [_ [= ->]] & _ & [[Hr _]|[_ Hr]])]); [done| |].
  - by destruct Hr as [[_ ?]|[[_ ?]|(? & ? & _ & [_ [= ->]])]].
  - destruct Hr as [[_ ?]|[[_ ?]|(? & ? & _ & Hr)]]; [done..|]. destruct Hr as [[_ ?]|[[_ ?]|([] & ? & _ & Hr)]]; [done..| |].
    + by destruct Hr as [[_ ?]|[[_ ?]|(? & ? & _ & [_ [= ->]])]].
    + by destruct Hr as [[_ ?]|[[_ ?]|([] & ? & _ & _)]].
Qed.

Lemma handle_record_safe fuel m s :
  pending m None false 0 s ->
  safe (handle_record config plans fuel m) s any_state (fun committed s' => committed = true -> s' = Idle).
Proof.
  intros Hs. unfold handle_record. apply safe_plain; [done..|]. intros t0. apply safe_bind. apply safe_race; [apply expiry_quiet|].
  eapply safe_mono; [by apply process_safe| |].
  - intros s' _. split; [done|]. intros r [tr Hr]. apply expiry_result in Hr as ->. do 2 apply safe_ret. done.
  - intros [d|] s' Hs'; do 1 apply safe_ret; [|by apply safe_ret]. destruct Hs' as (lease & ran & ck & n & pub & ->); [by eexists|].
    apply safe_plain; [done..|]. intros t1. cbn. destruct (duration_is_zero _); [by apply safe_ret|].
    apply safe_race.
    + apply quiet_plain; [done|]. intros; apply quiet_ret.
    + assert (forall s', any_state s' /\ forall r, (exists tr, runs (sleep (duration_saturating_sub (max_processing_interval config)
          (saturating_sub t1 t0));; mret None : wprog _) tr (Some r)) -> safe (match r : option (result string unit) with
          | Some (Ok _) => mret true | _ => mret false end : wprog bool) s' any_state (fun committed s' => committed = true -> s' = Idle)) as Hdrop.
      { intros s'. split; [done|]. intros r [tr Hr]. destruct Hr as [[_ ?]|[[_ ?]|(? & ? & _ & [_ [= ->]])]]; [done..|]. by apply safe_ret. }
      apply safe_call; [apply Hdrop| |].
      * eexists. split; [cbn; by rewrite bool_decide_true|apply Hdrop].
      * intros [u|e]; (eexists; split; [cbn; by rewrite bool_decide_true|]); by do 2 apply safe_ret.
Qed.

Lemma worker_loop_safe fuel : safe (worker_loop config plans fuel) Idle any_state (fun _ => any_state).
Proof.
  induction fuel as [|fuel IH]; [by apply safe_panic_free|]. cbn [worker_loop].
  apply safe_plain; [done..|]. intros []; [by apply safe_ret|]. apply safe_bind. apply safe_race.
  - apply quiet_plain; [done|]. intros; apply quiet_ret.
  - match goal with |- safe _ _ ?I ?Q => assert (Q None Idle) as Hshut end.
    { apply safe_ret. apply safe_plain; [done..|]. intros []; [by apply safe_ret|exact IH]. }
    assert (any_state Idle /\ forall b, (exists tr, runs (Call WShutdownChanged Ret;; mret None : wprog (option (option M))) tr (Some b)) ->
      b = None) as [_ Hb].
    { split; [done|]. intros b [tr Hr]. by destruct Hr as [[_ ?]|[[_ ?]|(? & ? & _ & [_ [= ->]])]]. }
    apply safe_call.
    + split; [done|]. intros b Hb'. rewrite (Hb b Hb'). exact Hshut.
    + exists Idle. split; [done|]. split; [done|]. intros b Hb'. rewrite (Hb b Hb'). exact Hshut.
    + intros [m|].
      * exists (Working m None false false 0 None false). split; [done|]. do 2 apply safe_ret.
        apply safe_plain; [done..|]. intros []; [by apply safe_ret|]. apply safe_bind.
        eapply safe_mono; [apply handle_record_safe; by eexists|done|]. intros [] s' Hs'; [|by apply safe_ret].
        rewrite (Hs' eq_refl). apply safe_plain; [done..|]. intros []; [by apply safe_ret|exact IH].
      * exists Idle. split; [done|]. by do 3 apply safe_ret.
Qed.
(** ** What a run that obeys it has done *)

(** The trace since the last record was received. *)
Definition since_receipt (tr : list wobs) : list wobs :=
  foldl (fun acc x => match x with Answered WReceive r => match r : option M with Some _ => [] | None => acc ++ [x] end
                      | _ => acc ++ [x] end) [] tr.

Definition execution (x : wobs) : bool :=
  match x with Answered (WRun _ _ _) _ | Dropped (WRun _ _ _) => true | _ => false end.

Definition publication_attempt (x : wobs) : bool :=
  match x with Answered c _ | Dropped c => publication c end.

(** A publication for [m] that was acknowledged. *)
Definition acknowledged (m : M) (o : TerminalOutcome) (x : wobs) : Prop :=
  exists ran leased,
  match x with
  | Answered (WPublishResult r) a => is_ok (a : result string unit) = true /\ publishes m ran leased (WPublishResult r) = Some o
  | Answered (WPublishJob k j) a => is_ok (a : result string unit) = true /\ publishes m ran leased (WPublishJob k j) = Some o
  | Answered (WPublishFailed k f) a => is_ok (a : result string unit) = true /\ publishes m ran leased (WPublishFailed k f) = Some o
  | Answered (WPublishPoison p) a => is_ok (a : result string unit) = true /\ publishes m ran leased (WPublishPoison p) = Some o
  | _ => False
  end.

(** The execution of [m] was granted under the lease. *)
Definition granted m l (x : wobs) : Prop :=
  match x with
  | Answered (WClaim c) r => claims m c = true /\ r = Ok (ClaimAcquired l) :> result CoordinationError ClaimOutcome
  | _ => False
  end.

(** The store said that the execution of [m] is over. *)
Definition known_complete m (x : wobs) : Prop :=
  match x with
  | Answered (WClaim c) r =>
      claims m c = true /\ exists o, r = Ok (ClaimAlreadyCompleted o) :> result CoordinationError ClaimOutcome
  | _ => False
  end.

(** The store acknowledged the outcome. *)
Definition completed l o (x : wobs) : Prop :=
  match x with
  | Answered (WComplete l' o') r => l' = l /\ o' = o /\ is_ok (r : result CoordinationError CompletedOutcome) = true
  | _ => False
  end.

(** The disposition of [m] is durable: the store has it as completed, or its
    dead letter was acknowledged without it ever being claimed, or it was
    granted, its terminal record acknowledged and the outcome recorded. *)
Definition settled_by m (tr : list wobs) : Prop :=
  Exists (known_complete m) tr
  \/ (Exists (acknowledged m DeadLetterPublished) tr /\ Forall (fun x => execution x = false) tr)
  \/ exists l o, Exists (granted m l) tr /\ Exists (acknowledged m o) tr /\ Exists (completed l o) tr.

(** What the state of the monitor says of the trace. *)
Definition story (s : phase) (tr : list wobs) : Prop :=
  let since := since_receipt tr in
  tally execution since <= 1 /\ tally publication_attempt since <= limit
  /\ match s with
     | Idle | Stopped => True
     | Working m lease ran ck n pub settled =>
         (exists t0, tr = t0 ++ Answered WReceive (Some m) :: since)
         /\ (forall l, lease = Some l -> Exists (granted m l) since)
         /\ (ran = false -> tally execution since = 0) /\ (ran = true -> is_Some lease)
         /\ tally publication_attempt since = n
         /\ (forall o, pub = Some o -> Exists (acknowledged m o) since)
         /\ (settled = true -> settled_by m since)
     end.
Definition receipt (x : wobs) : bool :=
  match x with Answered WReceive r => bool_decide (is_Some (r : option M)) | _ => false end.

Lemma since_snoc tr x : since_receipt (tr ++ [x]) = if receipt x then [] else since_receipt tr ++ [x].
Proof.
  unfold since_receipt. rewrite foldl_app. simpl. destruct x as [c r|c]; [|done]. destruct c; try done. by destruct r.
Qed.

Lemma tally_snoc_obs (p : wobs -> bool) tr x : tally p (tr ++ [x]) = tally p tr + (if p x then 1 else 0).
Proof. rewrite tally_app, tally_cons. unfold tally. simpl. lia. Qed.

Lemma tally_zero (p : wobs -> bool) tr : tally p tr = 0 -> Forall (fun x => p x = false) tr.
Proof.
  induction tr as [|x tr IH]; [constructor|]. rewrite tally_cons. pose proof (tally_bounds p tr).
  destruct (p x) eqn:E; intros; [lia|]. constructor; [done|apply IH; lia].
Qed.

Lemma settled_snoc m tr x : execution x = false -> settled_by m tr -> settled_by m (tr ++ [x]).
Proof.
  intros Hx [Hs|[[Hs Hf]|(l & o & H1' & H2' & H3')]].
  - left. apply Exists_app. by left.
  - right. left. split; [apply Exists_app; by left|]. apply Forall_app. split; [done|]. by constructor.
  - right. right. exists l, o. rewrite !Exists_app. auto.
Qed.

Lemma story_working m lease ran ck n pub settled tr x lease' ck' n' pub' settled' :
  story (Working m lease ran ck n pub settled) tr -> receipt x = false ->
  (execution x = true -> ran = false /\ is_Some lease) ->
  n' = n + (if publication_attempt x then 1 else 0) -> n' <= limit ->
  (is_Some lease -> is_Some lease') -> (forall l, lease' = Some l -> lease = Some l \/ granted m l x) ->
  (forall o, pub' = Some o -> pub = Some o \/ acknowledged m o x) ->
  (settled' = true -> (settled = true /\ execution x = false) \/ settled_by m (since_receipt tr ++ [x])) ->
  story (Working m lease' (ran || execution x) ck' n' pub' settled') (tr ++ [x]).
Proof.
  intros (Hex & Hpub & [t0 Ht0] & Hl & Hr0 & Hr1 & Hn & Ho & Hset) Hrec Hexec -> Hlim Hsome Hl' Ho' Hset'.
  unfold story. rewrite since_snoc, Hrec, !tally_snoc_obs. split_and!.
  - destruct (execution x) eqn:E; [|lia]. destruct (Hexec eq_refl) as [-> _]. rewrite (Hr0 eq_refl). lia.
  - lia.
  - exists t0. by rewrite Ht0 at 1; rewrite <- app_assoc.
  - intros l E. apply Exists_app. destruct (Hl' l E) as [E'|Hg]; [left; by apply Hl|right; by constructor].
  - intros [-> Ex]%orb_false_iff. rewrite Ex, (Hr0 eq_refl). done.
  - intros [-> | Ex]%orb_true_iff; [by apply Hsome, Hr1|]. destruct (Hexec Ex). auto.
  - lia.
  - intros o E. apply Exists_app. destruct (Ho' o E) as [E'|Hg]; [left; by apply Ho|right; by constructor].
  - intros E. destruct (Hset' E) as [[E' Ex]|Hs]; [|done]. apply settled_snoc; auto.
Qed.

(** A call that is neither an execution nor a publication. *)
Lemma story_same m lease ran ck n pub settled tr x ck' :
  story (Working m lease ran ck n pub settled) tr -> receipt x = false -> execution x = false ->
  publication_attempt x = false -> story (Working m lease ran ck' n pub settled) (tr ++ [x]).
Proof.
  intros Hs Hr He Hp. pose proof Hs as (_ & Hlim & _ & _ & _ & _ & Hn & _). rewrite <- (orb_false_r ran), <- He.
  eapply story_working; [exact Hs|done|congruence|rewrite Hp; lia|lia|done|by left|by left|by left].
Qed.

Lemma story_over s tr x :
  story s tr -> receipt x = false -> execution x = false -> publication_attempt x = false ->
  story Idle (tr ++ [x]) /\ story Stopped (tr ++ [x]).
Proof.
  intros (? & ? & _) Hr He Hp. unfold story. rewrite since_snoc, Hr, !tally_snoc_obs, He, Hp, !Z.add_0_r. done.
Qed.

Lemma story_ignored s tr x :
  story s tr -> receipt x = false -> execution x = false -> publication_attempt x = false -> story s (tr ++ [x]).
Proof.
  intros Hs Hr He Hp. destruct s as [|m lease ran ck n pub settled|]; [by eapply story_over|by eapply story_same|by eapply story_over].
Qed.
Lemma publishes_unleased m ran c o : publishes m ran false c = Some o -> o = DeadLetterPublished.
Proof.
  unfold publishes. rewrite andb_false_r. destruct (record_job m), c; simpl; try done; try (by intros [= <-]).
  destruct (same_execution _ _ _); [by intros [= <-]|done].
Qed.

Lemma story_publication s tr x c r s' :
  story s tr -> note_publication s c r = Some s' ->
  receipt x = false -> execution x = false -> publication_attempt x = true ->
  (forall m ran leased o u, r = Some (Ok u) -> publishes m ran leased c = Some o -> acknowledged m o x) ->
  story s' (tr ++ [x]).
Proof.
  intros Hs Hnote Hrec Hex Hpub Hack. destruct s as [|m lease ran ck n [o'|] []|]; try done. simpl in Hnote.
  destruct (publishes m ran (bool_decide (is_Some lease)) c) as [o|] eqn:Eo; [|done]. simpl in Hnote.
  destruct (implb _ ck); [|done]. destruct (Z.ltb_spec n limit); [|done]. simpl in Hnote.
  assert (ran = ran || execution x) as Hran by (by rewrite Hex, orb_false_r).
  destruct r as [[u|e]|]; injection Hnote as <-; rewrite Hran;
    (eapply story_working; [exact Hs|done|congruence|by rewrite Hpub|lia|done|by left| |]); try done.
  - intros o1 [= <-]. right. by eapply Hack.
  - intros Hun. right. right. left. apply negb_true_iff in Hun. rewrite Hun in Eo.
    apply publishes_unleased in Eo as Edl. subst o. split.
    + apply Exists_app. right. constructor. by eapply Hack.
    + apply bool_decide_eq_false in Hun. destruct Hs as (_ & _ & _ & _ & Hr0 & Hr1 & _).
      apply Forall_app. split; [|by constructor]. apply tally_zero, Hr0. destruct ran; [|done]. by destruct Hun; apply Hr1.
Qed.

(** Neither a receipt nor an execution nor a publication. *)
Definition minor (x : wobs) : bool := negb (receipt x || execution x || publication_attempt x).

Lemma minor_false x : minor x = true -> receipt x = false /\ execution x = false /\ publication_attempt x = false.
Proof. unfold minor. rewrite negb_true_iff, !orb_false_iff. tauto. Qed.

Lemma story_claim s tr x c r s' :
  story s tr -> note_claim s c r = Some s' -> minor x = true ->
  (forall m l, claims m c = true -> r = Some (Ok (ClaimAcquired l)) -> granted m l x) ->
  (forall m o, claims m c = true -> r = Some (Ok (ClaimAlreadyCompleted o)) -> known_complete m x) ->
  story s' (tr ++ [x]).
Proof.
  intros Hs Hnote (Hrec & Hex & Hpub)%minor_false Hg Hk. destruct s as [|m [l'|] [] ck [|n|n] [o'|] []|]; try done. simpl in Hnote.
  destruct (claims m c) eqn:Ec; [|done].
  assert (forall lease settled, (forall l, lease = Some l -> granted m l x) ->
    (settled = true -> settled_by m (since_receipt tr ++ [x])) -> forall ck', story (Working m lease false ck' 0 None settled) (tr ++ [x])) as Hgo.
  { intros lease settled Hl Hst ck'. assert (false = false || execution x) as -> by (by rewrite Hex).
    eapply story_working; [exact Hs|done|congruence|by rewrite Hpub|pose proof limit_pos; lia|by intros [? ?]| | |]; [by right; apply Hl|done|by right; apply Hst]. }
  destruct r as [[[l|o|d]|e]|]; injection Hnote as <-; apply Hgo; try done.
  - intros l1 [= <-]. by apply Hg.
  - intros _. left. apply Exists_app. right. constructor. by eapply Hk.
Qed.

Lemma story_check s tr x l ok s' :
  story s tr -> note_check s l ok = Some s' -> minor x = true -> story s' (tr ++ [x]).
Proof.
  intros Hs Hnote (Hrec & Hex & Hpub)%minor_false. destruct s as [|m [l'|] ran ck n pub settled|]; try done. simpl in Hnote.
  case_bool_decide; [|done]. injection Hnote as <-. by eapply story_same.
Qed.

Lemma story_complete s tr x l o ok s' :
  story s tr -> note_complete s l o ok = Some s' -> minor x = true -> (ok = true -> completed l o x) -> story s' (tr ++ [x]).
Proof.
  intros Hs Hnote (Hrec & Hex & Hpub)%minor_false Hc. destruct s as [|m [l'|] ran ck n [o'|] []|]; try done. simpl in Hnote.
  destruct (bool_decide (l' = l)) eqn:El; [|done]. destruct (bool_decide (o' = o)) eqn:Eo; [|done].
  apply bool_decide_eq_true in El, Eo. subst. injection Hnote as <-.
  pose proof Hs as (_ & Hlim & _ & Hl & _ & _ & Hn & Ho & _). rewrite <- (orb_false_r ran), <- Hex.
  eapply story_working; [exact Hs|done|congruence|rewrite Hpub; lia|lia|done|by left|by left|].
  intros ->. right. right. right. exists l, o. rewrite !Exists_app. split_and!; [left; by apply Hl|left; by apply Ho|right; constructor; by apply Hc].
Qed.

Lemma story_run s tr x s' :
  story s tr -> note_run s = Some s' -> receipt x = false -> execution x = true -> publication_attempt x = false -> story s' (tr ++ [x]).
Proof.
  intros Hs Hnote Hrec Hex Hpub. destruct s as [|m [l|] [] ck [|n|n] [o'|] []|]; try done. injection Hnote as <-.
  rewrite <- Hex. change (execution x) with (false || execution x).
  eapply story_working; [exact Hs|done|by intros _|by rewrite Hpub|pose proof limit_pos; lia|done|by left|by left|done].
Qed.

Lemma story_step s tr x s' : story s tr -> protocol s x = Some s' -> story s' (tr ++ [x]).
Proof.
  intros Hs Hp. destruct x as [c r|c].
  - destruct c as [| | | | | | |c|[] l|l o|l|k j|rs|k f|p|sc p cf|m|msg|]; try (simplify_eq/=; by apply story_ignored).
    + destruct r as [m|]; [|simplify_eq/=; by apply story_ignored]. destruct s; try done. injection Hp as <-.
      unfold story. rewrite since_snoc. simpl. pose proof limit_pos. unfold tally. simpl. split_and!; try done; [lia|by exists tr].
    + eapply story_claim; [exact Hs|exact Hp|done| |]; intros m ? Hc [= ->]; split; eauto.
    + by eapply story_check.
    + by eapply story_complete.
    + destruct s as [|m [l'|] ran ck n pub []|]; try done. simpl in Hp. case_bool_decide; [|done]. injection Hp as <-. by apply story_ignored.
    + eapply story_publication; [exact Hs|exact Hp|done..|]. intros m ran leased o u [= ->] Ho. by exists ran, leased.
    + eapply story_publication; [exact Hs|exact Hp|done..|]. intros m ran leased o u [= ->] Ho. by exists ran, leased.
    + eapply story_publication; [exact Hs|exact Hp|done..|]. intros m ran leased o u [= ->] Ho. by exists ran, leased.
    + eapply story_publication; [exact Hs|exact Hp|done..|]. intros m ran leased o u [= ->] Ho. by exists ran, leased.
    + by eapply story_run.
    + destruct s as [|m' lease ran ck n pub []|]; try done. simpl in Hp. case_bool_decide; [|done].
      injection Hp as <-. destruct (is_ok r); by eapply story_over.
  - destruct c as [| | | | | | |c|[] l|l o|l|k j|rs|k f|p|sc p cf|m|msg|]; try (simplify_eq/=; by apply story_ignored).
    + by eapply story_claim.
    + by eapply story_check.
    + by eapply story_complete.
    + destruct s as [|m [l'|] ran ck n pub []|]; try done. simpl in Hp. case_bool_decide; [|done]. injection Hp as <-. by apply story_ignored.
    + eapply story_publication; [exact Hs|exact Hp|done..].
    + eapply story_publication; [exact Hs|exact Hp|done..].
    + eapply story_publication; [exact Hs|exact Hp|done..].
    + eapply story_publication; [exact Hs|exact Hp|done..].
    + by eapply story_run.
    + destruct s as [|m' lease ran ck n pub []|]; try done. simpl in Hp. case_bool_decide; [|done].
      injection Hp as <-. by eapply story_over.
Qed.

Lemma watch_story tr s : watch protocol Idle tr = Some s -> story s tr.
Proof.
  revert s. induction tr as [|x tr IH] using rev_ind; intros s Hw.
  - injection Hw as <-. unfold story. cbn. pose proof limit_pos. unfold tally. simpl. split; [lia|]. split; [lia|done].
  - rewrite watch_app in Hw. destruct (watch protocol Idle tr) as [s1|] eqn:E; [|done]. simpl in Hw.
    destruct (protocol s1 x) as [s2|] eqn:Ex; [|done]. injection Hw as <-. eapply story_step; [by apply IH|done].
Qed.
(** *** Order *)

Definition receipt_of (x : wobs) : option M :=
  match x with Answered WReceive r => r : option M | _ => None end.
Definition commit_of (x : wobs) : option M :=
  match x with
  | Answered (WCommit m) r => match r : result string unit with Ok _ => Some m | Err _ => None end
  | _ => None
  end.

Definition received (tr : list wobs) : list M := omap receipt_of tr.
Definition committed (tr : list wobs) : list M := omap commit_of tr.

(** The record in hand, if any. *)
Definition in_hand (s : phase) : option M := match s with Working m _ _ _ _ _ _ => Some m | _ => None end.

Definition in_order (s : phase) (tr : list wobs) : Prop :=
  match s with
  | Idle => received tr = committed tr
  | Working m _ _ _ _ _ _ => received tr = committed tr ++ [m]
  | Stopped => exists m, received tr = committed tr ++ [m]
  end.

Lemma note_publication_hand s c r s' : note_publication s c r = Some s' -> in_hand s' = in_hand s /\ is_Some (in_hand s).
Proof.
  destruct s as [|m lease ran ck n [o'|] []|]; try done. simpl. destruct (publishes _ _ _ _) as [o|]; [|done]. simpl.
  destruct (_ && _); [|done]. destruct r as [[]|]; intros [= <-]; split; simpl; eauto.
Qed.

Lemma note_claim_hand s c r s' : note_claim s c r = Some s' -> in_hand s' = in_hand s /\ is_Some (in_hand s).
Proof.
  destruct s as [|m [l'|] [] ck [|n|n] [o'|] []|]; try done. simpl. destruct (claims m c); [|done].
  destruct r as [[[]|]|]; intros [= <-]; split; simpl; eauto.
Qed.

(** A step of another kind keeps the record in hand. *)
Lemma protocol_hand s x s' :
  protocol s x = Some s' -> receipt x = false -> (forall m, x <> Dropped (WCommit m)) ->
  (forall m r, x <> Answered (WCommit m) r) -> s' = s \/ (in_hand s' = in_hand s /\ is_Some (in_hand s)).
Proof.
  intros Hp Hr Hd Ha. destruct x as [c r|c]; destruct c as [| | | | | | |c|[] l|l o|l|k j|rs|k f|p|sc p cf|m|msg|];
    try (left; by simplify_eq/=); try (right; by eapply note_publication_hand); try (right; by eapply note_claim_hand);
    try (by edestruct Hd); try (by edestruct Ha).
  all: try (destruct r as [m|]; [done|left; by simplify_eq/=]).
  all: right; cbn in Hp; unfold note_check, note_run, note_complete, note_release in Hp; repeat case_match; simplify_eq/=; eauto.
  all: by eapply note_publication_hand.
Qed.

Lemma in_order_step s tr x s' : in_order s tr -> protocol s x = Some s' -> in_order s' (tr ++ [x]).
Proof.
  intros Ho Hp. assert (received (tr ++ [x]) = received tr ++ omap receipt_of [x]) as Er by apply omap_app.
  assert (committed (tr ++ [x]) = committed tr ++ omap commit_of [x]) as Ec by apply omap_app.
  destruct (decide (receipt x = false)) as [Hr|Hr].
  2:{ destruct x as [c r|c]; [|done]. destruct c; try done. destruct r as [m|]; [|done]. destruct s; try done.
      injection Hp as <-. unfold in_order in *. rewrite Er, Ec, Ho. cbn. by rewrite app_nil_r. }
  assert (omap receipt_of [x] = []) as Er'.
  { destruct x as [c r|c]; [|done]. destruct c; try done. by destruct r. }
  assert ((exists m, x = Dropped (WCommit m)) \/ (exists m r, x = Answered (WCommit m) r)
    \/ ((forall m, x <> Dropped (WCommit m)) /\ forall m r, x <> Answered (WCommit m) r)) as [[m ->]|[(m & r & ->)|[Hd Ha]]].
  { destruct x as [c r|c]; destruct c; eauto; right; right; by split. }
  - destruct s as [|m' lease ran ck n pub []|]; try done. cbn in Hp. case_bool_decide; [|done]. injection Hp as <-.
    exists m'. by rewrite Er, Ec, Ho, Er', !app_nil_r.
  - destruct s as [|m' lease ran ck n pub []|]; try done. cbn in Hp. case_bool_decide; [|done]. injection Hp as <-. subst m'.
    destruct r as [u|e]; cbn; rewrite Er, Ec, Ho, Er', ?app_nil_r; [done|by exists m].
  - assert (omap commit_of [x] = []) as Ec'.
    { destruct x as [c r|c]; [|done]. destruct c; try done. by edestruct Ha. }
    rewrite Er', app_nil_r in Er. rewrite Ec', app_nil_r in Ec.
    destruct (protocol_hand s x s' Hp Hr Hd Ha) as [-> | [Eh [m Em]]].
    + unfold in_order in *. destruct s; by rewrite Er, Ec.
    + destruct s; try done. rewrite Em in Eh. destruct s'; try done. simplify_eq/=. unfold in_order in *. by rewrite Er, Ec.
Qed.

Lemma watch_in_order tr s : watch protocol Idle tr = Some s -> in_order s tr.
Proof.
  revert s. induction tr as [|x tr IH] using rev_ind; intros s Hw; [by injection Hw as <-|].
  rewrite watch_app in Hw. destruct (watch protocol Idle tr) as [s1|] eqn:E; [|done]. simpl in Hw.
  destruct (protocol s1 x) as [s2|] eqn:Ex; [|done]. injection Hw as <-. eapply in_order_step; [by apply IH|done].
Qed.

(** ** The properties *)

(** C3: whatever its environment does, every run of the worker follows the
    settlement protocol: a slice is executed at most once per delivery, and only
    under a lease granted for that very attempt; nothing is published under a
    lease without a successful owner check since the previous attempt; after an
    acknowledged publication there is no other; the outcome is recorded under the
    same lease and matches what was published; a lease is released only while its
    record is unsettled; no more publication attempts than the limit are made; no
    bounded loop falls through; and the next record is received only after the
    previous one was committed. *)
Theorem worker_follows_settlement_protocol fuel tr o :
  runs (worker_loop config plans fuel) tr o -> is_Some (watch protocol Idle tr).
Proof. intros Hr. destruct (worker_loop_safe fuel tr o Hr) as (s & E & _). by rewrite E. Qed.

(** C10: a source offset is committed only after the disposition of that very
    record became durable since it was received: the store reported the execution
    as completed, or its dead letter was acknowledged and it was never executed,
    or its lease was granted, its terminal record acknowledged by the broker and
    the outcome acknowledged by the store. *)
Theorem commit_follows_durable_disposition fuel tr1 x tr2 o m :
  runs (worker_loop config plans fuel) (tr1 ++ x :: tr2) o ->
  x = Dropped (WCommit m) \/ (exists r, x = Answered (WCommit m) r) ->
  (exists tr0, tr1 = tr0 ++ Answered WReceive (Some m) :: since_receipt tr1) /\ settled_by m (since_receipt tr1).
Proof.
  intros Hr Hx. destruct (worker_loop_safe fuel _ o Hr) as (s & E & _). rewrite watch_app in E.
  destruct (watch protocol Idle tr1) as [s1|] eqn:E1; [|done]. simpl in E.
  assert (exists ok s2, note_commit s1 m ok = Some s2) as (ok & s2 & Hc).
  { destruct Hx as [-> | [r ->]]; cbn in E; (destruct (note_commit s1 m _) as [s2|] eqn:E2; [by eexists _, _|done]). }
  destruct s1 as [|m' lease ran ck n pub []|]; try done. simpl in Hc. case_bool_decide; [subst m'|done].
  destruct (watch_story tr1 _ E1) as (_ & _ & Ht0 & _ & _ & _ & _ & _ & Hs). by split; [|apply Hs].
Qed.

(** Per delivery of a record the slice is executed at most once and at most
    [worker_max_retries + 1] publication attempts are made; and records are
    committed in the order they were received, each before the next is received,
    so that a cumulative commit never covers an unsettled record. *)
Theorem deliveries_settle_in_order fuel tr1 tr2 o :
  runs (worker_loop config plans fuel) (tr1 ++ tr2) o ->
  tally execution (since_receipt tr1) <= 1 /\ tally publication_attempt (since_receipt tr1) <= limit
  /\ exists pending, received tr1 = committed tr1 ++ pending /\ (length pending <= 1)%nat.
Proof.
  intros Hr. destruct (worker_loop_safe fuel _ o Hr) as (s & E & _). rewrite watch_app in E.
  destruct (watch protocol Idle tr1) as [s1|] eqn:E1; [|done].
  destruct (watch_story tr1 _ E1) as (Hex & Hpub & _). split; [done|]. split; [done|].
  pose proof (watch_in_order tr1 s1 E1) as Ho. destruct s1 as [|m lease ran ck n pub settled|]; simpl in Ho.
  - exists []. rewrite app_nil_r. split; [done|simpl; lia].
  - exists [m]. split; [done|simpl; lia].
  - destruct Ho as [m Ho]. exists [m]. split; [done|simpl; lia].
Qed.
End protocol.

(** ** A sample delivery *)

Section sample.
(** A record that does not decode is published as poison and committed. *)
#[local] Instance undecodable_record : CommitableJob Z := {
  record_job _ := Err (Malformed "not JSON");
  poison_record offset reason :=
    mkPoison 2 ("poison:jobs:0:" +:+ show offset) 0 "jobs" 0 offset None None false None None false reason;
}.

Notation wobs := (obs (wanswer (M := Z) (W := unit) (H := kept_histogram))).

Lemma undecodable_typed (offset : Z) job : record_job offset = Ok job ->
  in_range u32_max (job_attempt job) /\ in_range u32_max (job_max_retries job).
Proof. done. Qed.

Definition poison_published : wobs :=
  Answered (WPublishPoison (poison_record 7 (show_ContractError (Malformed "not JSON")))) (Ok tt : result string unit).

Definition poison_calls : list wobs :=
  [Answered WShutdownRequested false; Answered WReceive (Some 7); Answered WShutdownRequested false; Answered WNow 0;
   poison_published; Answered WNow 5].

Definition poison_committed : list wobs :=
  [Answered (WCommit 7) (Ok tt : result string unit); Answered WShutdownRequested true].

(** The steps of the run, for any configuration that allows them. *)
Section run.
Variable config : NodeRuntimeConfig.
Variable plans : gmap string (ScenarioExecutionPlan unit).

Lemma poison_settles fuel :
  0 < local_settlement_attempt_limit config ->
  runs (process_until_terminal config plans (S fuel) 7) [poison_published] (Some (Some DispDeadLetterPublished)).
Proof.
  intros Hl. unfold process_until_terminal. cbn -[Z.to_nat local_settlement_attempt_limit]. unfold publish_poison_with_retry, settlement_attempts.
  destruct (Z.to_nat _) as [|n] eqn:E; [lia|]. by apply runs_answer.
Qed.

Lemma poison_handled fuel :
  0 < local_settlement_attempt_limit config -> 5 < max_processing_interval config ->
  runs (handle_record config plans (S fuel) 7)
    [Answered WNow 0; poison_published; Answered WNow 5; Answered (WCommit 7) (Ok tt : result string unit)] (Some true).
Proof.
  intros Hl Hm. apply runs_answer.
  apply (runs_first _ _ _ (Some DispDeadLetterPublished) [poison_published]); [by apply poison_settles| |].
  { exists [], [], []. split; [constructor|]. left. split_and!; try done; by left. }
  apply runs_answer. unfold handle_record. cbn beta iota. case_match eqn:Ez.
  - exfalso. revert Ez. unfold duration_is_zero, duration_saturating_sub, saturating_sub. lia.
  - by apply (runs_first _ _ _ (Some (Ok tt)) [Answered (WCommit 7) (Ok tt : result string unit)]); [apply runs_answer|left|].
Qed.

Lemma poison_runs_with :
  0 < local_settlement_attempt_limit config -> 5 < max_processing_interval config ->
  runs (worker_loop config plans 3) (poison_calls ++ poison_committed) (Some tt).
Proof.
  intros Hl Hm. apply runs_answer.
  apply (runs_first _ _ _ (Some (Some 7)) [Answered WReceive (Some 7)]); [by apply runs_answer|by left|].
  apply runs_answer.
  apply (runs_then _ _ _ _ _ _ (poison_handled 1 Hl Hm)). by apply runs_answer.
Qed.
End run.

Lemma poison_runs : runs (worker_loop NodeRuntimeConfig_default ∅ 3) (poison_calls ++ poison_committed) (Some tt).
Proof. by apply poison_runs_with; vm_compute. Qed.

Lemma worker_follows_settlement_protocol_witness :
  is_Some (watch (protocol NodeRuntimeConfig_default) Idle (poison_calls ++ poison_committed)).
Proof.
  exact (worker_follows_settlement_protocol NodeRuntimeConfig_default ∅ undecodable_typed 3 _ _ poison_runs).
Defined.

Lemma commit_follows_durable_disposition_witness : settled_by 7 (since_receipt poison_calls).
Proof.
  exact (proj2 (commit_follows_durable_disposition NodeRuntimeConfig_default ∅ undecodable_typed 3 poison_calls _ _ _ 7
    poison_runs (or_intror (ex_intro _ _ eq_refl)))).
Defined.

Lemma deliveries_settle_in_order_witness : tally publication_attempt (since_receipt poison_calls) <= 3.
Proof.
  exact (proj1 (proj2 (deliveries_settle_in_order NodeRuntimeConfig_default ∅ undecodable_typed 3 poison_calls
    poison_committed _ poison_runs))).
Defined.
End sample.
