(* ===== verification/Wire.v ===== *)
(** * The Protocol Buffers wire format

    The codec of [src/src/infrastructure/grpc/dynamic_gateway.rs]: JSON values to
    bytes and back under a message schema. Bytes are integers below 256, an
    [f64] or [f32] on the wire is its bit pattern. The base64 engine and the text
    form of a JSON value belong to other crates and are interfaces. *)

From S2P Require Import Prelude RustStr F64 Contracts Domain.

(** ** Interfaces to other crates *)

(** [base64::engine::general_purpose::STANDARD]; an error is its text. *)
Class Base64 := {
  b64_encode : list Z -> string;
  b64_decode : string -> result string (list Z);
}.

(** The text of [serde_json] values and numbers. *)
Class JsonText := {
  show_value : Value -> string;
  show_number : Number -> string;
}.

(** [serde_json::Number]. *)
Definition number_as_i64 (n : Number) : option Z :=
  match n with
  | PosInt z => if z <=? i64_max then Some z else None
  | NegInt z => Some z
  | Float _ => None
  end.

Definition number_as_u64 (n : Number) : option Z := match n with PosInt z => Some z | _ => None end.

Definition number_as_f64 (n : Number) : f64 :=
  match n with PosInt z | NegInt z => f64_of_Z z | Float x => x end.

Definition number_of_int (z : Z) : Number := if z <? 0 then NegInt z else PosInt z.

Definition number_of_f64 (x : f64) : option Number := if f64_is_finite x then Some (Float x) else None.

(** ** Machine integers and floats as bits *)

Definition i32_min : Z := - 2 ^ 31.
Definition i64_min : Z := - 2 ^ 63.

(** [z as i32] and [z as i64]. *)
Definition as_i32 (z : Z) : Z := let w := wrapping u32_max z in if w <=? i32_max then w else w - 2 ^ 32.
Definition as_i64 (z : Z) : Z := let w := wrapping u64_max z in if w <=? i64_max then w else w - 2 ^ 64.

Fixpoint le_bytes (n : nat) (z : Z) : list Z :=
  match n with O => [] | S n' => z mod 256 :: le_bytes n' (z / 256) end.

Definition of_le_bytes (l : list Z) : Z := foldr (fun b acc => b + 256 * acc) 0 l.

(** A binary float format with [mw] mantissa bits and [ew] exponent bits. *)
Definition float_bias (ew : Z) : Z := 2 ^ (ew - 1) - 1.

Definition float_to_bits (mw ew : Z) (x : spec_float) : Z :=
  let sign (s : bool) := if s then 2 ^ (mw + ew) else 0 in
  match x with
  | S754_zero s => sign s
  | S754_infinity s => sign s + (2 ^ ew - 1) * 2 ^ mw
  | S754_nan => (2 ^ ew - 1) * 2 ^ mw + 2 ^ (mw - 1)
  | S754_finite s m e =>
      sign s + if 2 ^ mw <=? Zpos m then (e + float_bias ew + mw) * 2 ^ mw + (Zpos m - 2 ^ mw) else Zpos m
  end.

Definition float_of_bits (mw ew : Z) (bits : Z) : spec_float :=
  let s := 0 <? bits / 2 ^ (mw + ew) in
  let ex := (bits / 2 ^ mw) mod 2 ^ ew in
  let frac := bits mod 2 ^ mw in
  if ex =? 2 ^ ew - 1 then (if frac =? 0 then S754_infinity s else S754_nan)
  else if ex =? 0 then
    match frac with
    | Zpos m => S754_finite s m (1 - float_bias ew - mw)
    | _ => S754_zero s
    end
  else match frac + 2 ^ mw with
       | Zpos m => S754_finite s m (ex - float_bias ew - mw)
       | _ => S754_nan
       end.

Definition f64_of_bits : Z -> f64 := float_of_bits 52 11.
Definition f32_to_bits : spec_float -> Z := float_to_bits 23 8.
Definition f32_of_bits : Z -> spec_float := float_of_bits 23 8.

(** [x as f32] and [x as f64]: round to nearest, ties to even. *)
Definition convert_float (prec emax : Z) (x : spec_float) : spec_float :=
  match x with
  | S754_finite s m e => binary_normalize prec emax (if s then Zneg m else Zpos m) e s
  | _ => x
  end.

Definition f32_of_f64 : f64 -> spec_float := convert_float 24 128.
Definition f64_of_f32 : spec_float -> f64 := convert_float f64_prec f64_emax.

(** ** [str::parse] into floats *)

(** The longest prefix of digits: its value, its length and what follows. *)
Fixpoint take_digits (acc n : Z) (s : string) : Z * Z * string :=
  match s with
  | String c r =>
      match digit_val c with
      | Some d => take_digits (acc * 10 + d) (n + 1) r
      | None => (acc, n, s)
      end
  | EmptyString => (acc, n, s)
  end.

Definition parse_exponent (s : string) : option Z :=
  match s with
  | EmptyString => Some 0
  | String c r =>
      if Ascii.eqb c "e" || Ascii.eqb c "E" then
        match r with
        | String "-" r' => z ← parse_nat r'; Some (- z)
        | String "+" r' => parse_nat r'
        | _ => parse_nat r
        end
      else None
  end.

(** An unsigned decimal as mantissa and decimal exponent. *)
Definition parse_decimal (s : string) : option (Z * Z) :=
  let '(m, n, r) := take_digits 0 0 s in
  let '(m, n, f, r) :=
    match r with
    | String "." r' => let '(m', k, r'') := take_digits m 0 r' in (m', n + k, k, r'')
    | _ => (m, n, 0, r)
    end in
  if n =? 0 then None else e ← parse_exponent r; Some (m, e - f).

(** The float of the given format nearest to [m * 10^q]. *)
Definition float_of_decimal (prec emax m q : Z) : spec_float :=
  match m with
  | Zpos p =>
      let '(num, den) := pow10_ratio q in
      let '(mz, ez, l) := SFdiv_core_binary prec emax (Zpos (p * num)) 0 (Zpos den) 0 in
      binary_round_aux prec emax false mz ez l
  | _ => S754_zero false
  end.

Definition parse_unsigned_float (mw ew : Z) (s : string) : option Z :=
  let word := to_ascii_lowercase s in
  if bool_decide (word = "nan") then Some (float_to_bits mw ew S754_nan)
  else if bool_decide (word = "inf") || bool_decide (word = "infinity") then Some (float_to_bits mw ew (S754_infinity false))
  else '(m, q) ← parse_decimal s; Some (float_to_bits mw ew (float_of_decimal (mw + 1) (2 ^ (ew - 1)) m q)).

(** The bit pattern of the parsed float. *)
Definition parse_float (mw ew : Z) (s : string) : option Z :=
  match s with
  | String "-" r => b ← parse_unsigned_float mw ew r; Some (b + 2 ^ (mw + ew))
  | String "+" r => parse_unsigned_float mw ew r
  | _ => parse_unsigned_float mw ew s
  end.

(** ** [String::from_utf8] *)

Definition in_span (lo hi b : Z) : bool := (lo <=? b) && (b <=? hi).
Definition is_continuation (b : Z) : bool := in_span 128 191 b.

(** The continuation bytes after an accepted second byte: [None] when they are
    all there, else the length of the invalid sequence, if it did not just end. *)
Fixpoint continuations (n : nat) (seen : Z) (l : list Z) : option (option Z) :=
  match n with
  | O => None
  | S n' =>
      match l with
      | [] => Some None
      | b :: l' => if is_continuation b then continuations n' (seen + 1) l' else Some (Some seen)
      end
  end.

(** One encoded character: its width, or the error. *)
Definition utf8_char (first : Z) (rest : list Z) : option Z + Z :=
  if first <? 128 then inr 1 else
  let second (lo hi : Z) (n : nat) : option Z + Z :=
    match rest with
    | [] => inl None
    | b :: rest' =>
        if in_span lo hi b then
          match continuations n 2 rest' with None => inr (Z.of_nat n + 2) | Some e => inl e end
        else inl (Some 1)
    end in
  if in_span 194 223 first then second 128 191 0%nat
  else if first =? 224 then second 160 191 1%nat
  else if in_span 225 236 first || in_span 238 239 first then second 128 191 1%nat
  else if first =? 237 then second 128 159 1%nat
  else if first =? 240 then second 144 191 2%nat
  else if in_span 241 243 first then second 128 191 2%nat
  else if first =? 244 then second 128 143 2%nat
  else inl (Some 1).

(** Where validation stops: [skip] bytes belong to the character before. *)
Fixpoint utf8_error_from (skip pos : Z) (l : list Z) : option (Z * option Z) :=
  match l with
  | [] => None
  | b :: l' =>
      if 0 <? skip then utf8_error_from (skip - 1) (pos + 1) l'
      else match utf8_char b l' with
           | inl e => Some (pos, e)
           | inr w => utf8_error_from (w - 1) (pos + 1) l'
           end
  end.

Definition string_of_bytes (l : list Z) : string :=
  string_of_list_ascii (map (fun b => ascii_of_N (Z.to_N b)) l).

Definition from_utf8 (l : list Z) : result string string :=
  match utf8_error_from 0 0 l with
  | None => Ok (string_of_bytes l)
  | Some (pos, Some n) => Err ("invalid utf-8 sequence of " +:+ show n +:+ " bytes from index " +:+ show pos)
  | Some (pos, None) => Err ("incomplete utf-8 byte sequence from index " +:+ show pos)
  end.

(** ** Schemas *)

Inductive FieldKind :=
| KDouble | KFloat | KInt64 | KUInt64 | KInt32 | KFixed64 | KFixed32 | KBool | KString
| KMessage (message_name : string)
| KBytes | KUInt32 | KEnum | KSFixed32 | KSFixed64 | KSInt32 | KSInt64.

Record FieldSchema := mkField {
  fs_name : string;
  fs_number : Z;
  fs_repeated : bool;
  fs_packable : bool;
  fs_kind : FieldKind;
}.

Record MessageSchema := mkMessage {
  fields_by_name : gmap string Z;
  fields_by_number : gmap Z FieldSchema;
}.

Abbreviation MessageRegistry := (gmap string MessageSchema).

Definition is_packable (kind : FieldKind) : bool :=
  match kind with KString | KMessage _ | KBytes => false | _ => true end.

(** ** Reading scalars from JSON *)

Section conversions.
Context `{Base64} `{JsonText}.

Definition to_string_value (value : Value) : result PulseError string :=
  match value with
  | JString s => Ok s
  | JNumber n => Ok (show_number n)
  | JBool b => Ok (show_bool b)
  | JNull => Err (Client "null is not valid here")
  | JArray _ | JObject _ => Err (Client "object/array is not valid for scalar field")
  end.

Definition expected (what : string) (value : Value) : PulseError :=
  Client ("expected " +:+ what +:+ " value, got " +:+ show_value value).

Definition to_bool (value : Value) : result PulseError bool :=
  match value with
  | JBool b => Ok b
  | JString s =>
      if bool_decide (to_ascii_lowercase s = "true") then Ok true
      else if bool_decide (to_ascii_lowercase s = "false") then Ok false
      else Err (expected "boolean" value)
  | _ => Err (expected "boolean" value)
  end.

(** A number or a string that parses. *)
Definition to_scalar {A} (what : string) (of_number : Number -> option A) (parse : string -> option A) (value : Value)
    : result PulseError A :=
  match value with
  | JNumber n => ok_or (of_number n) (expected what value)
  | JString s => ok_or (parse s) (Client ("expected " +:+ what +:+ " string, got '" +:+ s +:+ "'"))
  | _ => Err (expected what value)
  end.

Definition to_i32 : Value -> result PulseError Z :=
  to_scalar "i32" (fun n => v ← number_as_i64 n; if (i32_min <=? v) && (v <=? i32_max) then Some v else None)
    (parse_int i32_max).

Definition to_i64 : Value -> result PulseError Z := to_scalar "i64" number_as_i64 (parse_int i64_max).

Definition to_u32 : Value -> result PulseError Z :=
  to_scalar "u32" (fun n => v ← number_as_u64 n; try_from u32_max v) (parse_uint u32_max).

Definition to_u64 : Value -> result PulseError Z := to_scalar "u64" number_as_u64 (parse_uint u64_max).

(** The bit patterns of the floats. *)
Definition to_f32 : Value -> result PulseError Z :=
  to_scalar "float" (fun n => Some (f32_to_bits (f32_of_f64 (number_as_f64 n)))) (parse_float 23 8).

Definition to_f64 : Value -> result PulseError Z :=
  to_scalar "double" (fun n => Some (f64_to_bits (number_as_f64 n))) (parse_float 52 11).

Definition to_bytes (value : Value) : result PulseError (list Z) :=
  match value with
  | JString s =>
      match strip_prefix "base64:" s with
      | Some encoded => map_err (fun e => Client ("invalid base64 bytes value: " +:+ e)) (b64_decode encoded)
      | None => Ok (bytes_of s)
      end
  | _ => Err (Client ("expected bytes field as string, got " +:+ show_value value))
  end.

(** ** Encoding *)

(** At most ten groups of seven bits of a [u64]. *)
Fixpoint write_varint_groups (n : nat) (value : Z) : list Z :=
  if value <? 128 then [value]
  else Z.lor (Z.land value 127) 128 :: match n with O => [] | S n' => write_varint_groups n' (Z.shiftr value 7) end.

Definition write_varint (value : Z) : list Z := write_varint_groups 9 value.

Definition write_key (field_number wire_type : Z) : list Z :=
  write_varint (Z.lor (Z.shiftl field_number 3) wire_type).

Definition zigzag_i32 (value : Z) : Z := wrapping u32_max (Z.lxor (as_i32 (Z.shiftl value 1)) (Z.shiftr value 31)).
Definition zigzag_i64 (value : Z) : Z := wrapping u64_max (Z.lxor (as_i64 (Z.shiftl value 1)) (Z.shiftr value 63)).

Definition zlen {A} (l : list A) : Z := Z.of_nat (length l).

(** A length-delimited payload. *)
Definition write_delimited (bytes : list Z) : list Z := write_varint (zlen bytes) ++ bytes.

Definition encode_packable_value (kind : FieldKind) (value : Value) : result PulseError (list Z) :=
  match kind with
  | KDouble => v ← to_f64 value; Ok (le_bytes 8 v)
  | KFloat => v ← to_f32 value; Ok (le_bytes 4 v)
  | KInt64 => v ← to_i64 value; Ok (write_varint (wrapping u64_max v))
  | KUInt64 => v ← to_u64 value; Ok (write_varint v)
  | KInt32 => v ← to_i32 value; Ok (write_varint (wrapping u32_max v))
  | KFixed64 => v ← to_u64 value; Ok (le_bytes 8 v)
  | KFixed32 => v ← to_u32 value; Ok (le_bytes 4 v)
  | KBool => b ← to_bool value; Ok (write_varint (if b : bool then 1 else 0))
  | KUInt32 => v ← to_u32 value; Ok (write_varint v)
  | KEnum => v ← to_i32 value; Ok (write_varint (wrapping u32_max v))
  | KSFixed32 => v ← to_i32 value; Ok (le_bytes 4 (wrapping u32_max v))
  | KSFixed64 => v ← to_i64 value; Ok (le_bytes 8 (wrapping u64_max v))
  | KSInt32 => v ← to_i32 value; Ok (write_varint (zigzag_i32 v))
  | KSInt64 => v ← to_i64 value; Ok (write_varint (zigzag_i64 v))
  | KString | KBytes | KMessage _ => Err (Client "non-packable field encoded as packed")
  end.

(** [for item in items { f(item)? }], the outputs one after another. *)
Fixpoint encode_each {A} (f : A -> result PulseError (list Z)) (items : list A) : result PulseError (list Z) :=
  match items with
  | [] => Ok []
  | item :: items' => b ← f item; bs ← encode_each f items'; Ok (b ++ bs)
  end.

Definition encode_packed_repeated_field (field : FieldSchema) (items : list Value) : result PulseError (list Z) :=
  packed ← encode_each (encode_packable_value (fs_kind field)) items;
  Ok (write_key (fs_number field) 2 ++ write_delimited packed).

(** [sort_by_key] on the field number; it is stable. *)
Fixpoint insert_by_number {A} (x : Z * A) (l : list (Z * A)) : list (Z * A) :=
  match l with
  | [] => [x]
  | y :: l' => if fst x <=? fst y then x :: l else y :: insert_by_number x l'
  end.

Definition sort_by_number {A} (l : list (Z * A)) : list (Z * A) := foldr insert_by_number [] l.

Variable messages : MessageRegistry.

Definition message_missing (message_name : string) : PulseError :=
  Client ("message '" +:+ message_name +:+ "' not found in descriptor set").

(** The field a key of a request names. *)
Definition request_field (message_name : string) (schema : MessageSchema) (key : string)
    : result PulseError (Z * FieldSchema) :=
  number ← ok_or (fields_by_name schema !! key)
    (Client ("field '" +:+ key +:+ "' is not defined in message '" +:+ message_name +:+ "'"));
  field ← ok_or (fields_by_number schema !! number)
    (Client ("field number '" +:+ show number +:+ "' missing from schema for '" +:+ message_name +:+ "'"));
  Ok (number, field).

(** The fields of an object with what encodes each, before they are sorted. *)
Fixpoint request_fields (message_name : string) (schema : MessageSchema)
    (entries : list (string * (FieldSchema -> result PulseError (list Z))))
    : result PulseError (list (Z * (FieldSchema * (FieldSchema -> result PulseError (list Z))))) :=
  match entries with
  | [] => Ok []
  | (key, encode) :: entries' =>
      '(number, field) ← request_field message_name schema key;
      pairs ← request_fields message_name schema entries';
      Ok ((number, (field, encode)) :: pairs)
  end.

(** [encode_message], its fields encoded by [encode_field]. *)
Definition encode_message_with (encode_field : Value -> FieldSchema -> result PulseError (list Z))
    (message_name : string) (value : Value) : result PulseError (list Z) :=
  schema ← ok_or (messages !! message_name) (message_missing message_name);
  match value with
  | JObject entries =>
      field_pairs ← request_fields message_name schema (map (fun '(key, v) => (key, encode_field v)) entries);
      encode_each (fun '(_, (field, encode)) => encode field) (sort_by_number field_pairs)
  | _ => Err (Client ("request_fields for '" +:+ message_name +:+ "' must be a JSON object"))
  end.

Definition encode_field_with (encode_single_field_value : Value -> FieldSchema -> result PulseError (list Z))
    (value : Value) (field : FieldSchema) : result PulseError (list Z) :=
  if fs_repeated field then
    match value with
    | JArray items =>
        if fs_packable field then encode_packed_repeated_field field items
        else encode_each (fun item => encode_single_field_value item field) items
    | _ => Err (Client ("field '" +:+ fs_name field +:+ "' is repeated and expects a JSON array"))
    end
  else encode_single_field_value value field.

Fixpoint encode_single_field_value (value : Value) (field : FieldSchema) {struct value} : result PulseError (list Z) :=
  let key := write_key (fs_number field) in
  match fs_kind field with
  | KDouble => v ← to_f64 value; Ok (key 1 ++ le_bytes 8 v)
  | KFloat => v ← to_f32 value; Ok (key 5 ++ le_bytes 4 v)
  | KInt64 => v ← to_i64 value; Ok (key 0 ++ write_varint (wrapping u64_max v))
  | KUInt64 => v ← to_u64 value; Ok (key 0 ++ write_varint v)
  | KInt32 => v ← to_i32 value; Ok (key 0 ++ write_varint (wrapping u32_max v))
  | KFixed64 => v ← to_u64 value; Ok (key 1 ++ le_bytes 8 v)
  | KFixed32 => v ← to_u32 value; Ok (key 5 ++ le_bytes 4 v)
  | KBool => b ← to_bool value; Ok (key 0 ++ write_varint (if b : bool then 1 else 0))
  | KString => text ← to_string_value value; Ok (key 2 ++ write_delimited (bytes_of text))
  | KMessage message_name =>
      nested ← encode_message_with (encode_field_with encode_single_field_value) message_name value;
      Ok (key 2 ++ write_delimited nested)
  | KBytes => bytes ← to_bytes value; Ok (key 2 ++ write_delimited bytes)
  | KUInt32 => v ← to_u32 value; Ok (key 0 ++ write_varint v)
  | KEnum => v ← to_i32 value; Ok (key 0 ++ write_varint (wrapping u32_max v))
  | KSFixed32 => v ← to_i32 value; Ok (key 5 ++ le_bytes 4 (wrapping u32_max v))
  | KSFixed64 => v ← to_i64 value; Ok (key 1 ++ le_bytes 8 (wrapping u64_max v))
  | KSInt32 => v ← to_i32 value; Ok (key 0 ++ write_varint (zigzag_i32 v))
  | KSInt64 => v ← to_i64 value; Ok (key 0 ++ write_varint (zigzag_i64 v))
  end.

Definition encode_field : Value -> FieldSchema -> result PulseError (list Z) := encode_field_with encode_single_field_value.
Definition encode_message : string -> Value -> result PulseError (list Z) := encode_message_with encode_field.

(** ** Decoding *)

(** A reader takes the bytes and an index and returns a value and the index
    after it. *)
Definition reader (A : Type) := list Z -> Z -> result PulseError (A * Z).

Definition byte_at (bytes : list Z) (idx : Z) : option Z := bytes !! Z.to_nat idx.
Definition slice (bytes : list Z) (first last : Z) : list Z :=
  take (Z.to_nat (last - first)) (drop (Z.to_nat first) bytes).

(** The tenth group, at shift 63, is the last. *)
Fixpoint read_varint_from (n : nat) (shift out : Z) : reader Z := fun bytes idx =>
  match byte_at bytes idx with
  | None => Err (Client "unexpected end of payload while reading varint")
  | Some b =>
      let out := Z.lor out (wrapping u64_max (Z.shiftl (Z.land b 127) shift)) in
      if Z.land b 128 =? 0 then Ok (out, idx + 1)
      else match n with
           | O => Err (Client "varint too long")
           | S n' => read_varint_from n' (shift + 7) out bytes (idx + 1)
           end
  end.

Definition read_varint : reader Z := read_varint_from 9 0 0.

(** The end of [n] bytes at [idx], inside the payload. *)
Definition span_end (overflow underflow : string) (n : Z) (bytes : list Z) (idx : Z) : result PulseError Z :=
  e ← ok_or (checked_add usize_max idx n) (Client overflow);
  if zlen bytes <? e then Err (Client underflow) else Ok e.

Definition advance (n : Z) : reader unit := fun bytes idx =>
  e ← span_end "buffer index overflow" "buffer underflow while decoding" n bytes idx; Ok (tt, e).

Definition read_fixed (n : Z) (underflow : string) : reader Z := fun bytes idx =>
  e ← span_end "buffer index overflow" underflow n bytes idx; Ok (of_le_bytes (slice bytes idx e), e).

Definition read_fixed32 : reader Z := read_fixed 4 "buffer underflow reading fixed32".
Definition read_fixed64 : reader Z := read_fixed 8 "buffer underflow reading fixed64".

Definition read_length_delimited : reader (list Z) := fun bytes idx =>
  '(len, idx) ← read_varint bytes idx;
  e ← span_end "length-delimited overflow" "length-delimited field exceeds payload" len bytes idx;
  Ok (slice bytes idx e, e).

Definition unzigzag_i32 (value : Z) : Z :=
  let v := wrapping u32_max value in Z.lxor (as_i32 (Z.shiftr v 1)) (- Z.land v 1).
Definition unzigzag_i64 (value : Z) : Z := Z.lxor (as_i64 (Z.shiftr value 1)) (- Z.land value 1).

(** [Value::Number(Number::from(..))] of what a reader reads. *)
Definition int_value (f : Z -> Z) (r : reader Z) : reader Value := fun bytes idx =>
  '(v, idx) ← r bytes idx; Ok (JNumber (number_of_int (f v)), idx).

Definition float_value (what : string) (f : Z -> f64) (r : reader Z) : reader Value := fun bytes idx =>
  '(v, idx) ← r bytes idx;
  n ← ok_or (number_of_f64 (f v)) (Client ("invalid " +:+ what +:+ " value"));
  Ok (JNumber n, idx).

Definition bool_value : reader Value := fun bytes idx =>
  '(v, idx) ← read_varint bytes idx; Ok (JBool (negb (v =? 0)), idx).

Definition decode_packable_value (kind : FieldKind) : reader Value :=
  match kind with
  | KDouble => float_value "double" f64_of_bits read_fixed64
  | KFloat => float_value "float" (fun v => f64_of_f32 (f32_of_bits v)) read_fixed32
  | KInt64 => int_value as_i64 read_varint
  | KUInt64 => int_value id read_varint
  | KInt32 => int_value as_i32 read_varint
  | KFixed64 => int_value id read_fixed64
  | KFixed32 => int_value id read_fixed32
  | KBool => bool_value
  | KUInt32 => int_value (wrapping u32_max) read_varint
  | KEnum => int_value as_i32 read_varint
  | KSFixed32 => int_value as_i32 read_fixed32
  | KSFixed64 => int_value as_i64 read_fixed64
  | KSInt32 => int_value unzigzag_i32 read_varint
  | KSInt64 => int_value unzigzag_i64 read_varint
  | KString | KBytes | KMessage _ => fun _ _ => Err (Client "non-packable field decoded as packed")
  end.

Definition append_decoded_field (target : list (string * Value)) (name : string) (value : Value) (repeated : bool)
    : list (string * Value) :=
  if repeated then
    match map_get name target with
    | Some (JArray existing) => map_insert name (JArray (existing ++ [value])) target
    | Some existing => map_insert name (JArray [existing; value]) target
    | None => map_insert name (JArray [value]) target
    end
  else map_insert name value target.

Definition ensure_wire_type (wire_type expected_type : Z) (field : FieldSchema) : result PulseError unit :=
  if wire_type =? expected_type then Ok tt
  else Err (Client ("unexpected wire type " +:+ show wire_type +:+ " for field '" +:+ fs_name field
                    +:+ "' (expected " +:+ show expected_type +:+ ")")).

Definition skip_wire_value (wire_type : Z) : reader unit := fun bytes idx =>
  if wire_type =? 0 then '(_, idx) ← read_varint bytes idx; Ok (tt, idx)
  else if wire_type =? 1 then advance 8 bytes idx
  else if wire_type =? 2 then '(len, idx) ← read_varint bytes idx; advance len bytes idx
  else if wire_type =? 5 then advance 4 bytes idx
  else Err (Client ("unsupported wire type while skipping unknown field: " +:+ show wire_type)).

(** A loop or a recursion that did not end within its bound is [None]. *)
Definition outcome (A : Type) := option (result PulseError A).

Definition and_then {A B} (m : outcome A) (k : A -> outcome B) : outcome B :=
  match m with
  | Some (Ok a) => k a
  | Some (Err e) => Some (Err e)
  | None => None
  end.

Definition returned {A} (m : result PulseError A) : outcome A := Some m.

(** The wire type a kind is written with. *)
Definition wire_type_of (kind : FieldKind) : Z :=
  match kind with
  | KDouble | KFixed64 | KSFixed64 => 1
  | KFloat | KFixed32 | KSFixed32 => 5
  | KString | KMessage _ | KBytes => 2
  | _ => 0
  end.

Section fields.
(** What decodes a nested message. *)
Variable decode_nested : string -> list Z -> outcome Value.

Definition decode_single_field_value (field : FieldSchema) (wire_type : Z) (bytes : list Z) (idx : Z)
    : outcome (Value * Z) :=
  and_then (returned (ensure_wire_type wire_type (wire_type_of (fs_kind field)) field)) (fun _ =>
  match fs_kind field with
  | KString =>
      returned ('(data, idx) ← read_length_delimited bytes idx;
            text ← map_err (fun e => Client ("invalid utf8 in field '" +:+ fs_name field +:+ "': " +:+ e)) (from_utf8 data);
            Ok (JString text, idx))
  | KMessage message_name =>
      and_then (returned (read_length_delimited bytes idx)) (fun '(data, idx) =>
      and_then (decode_nested message_name data) (fun value => returned (Ok (value, idx))))
  | KBytes => returned ('(data, idx) ← read_length_delimited bytes idx; Ok (JString (b64_encode data), idx))
  | kind => returned (decode_packable_value kind bytes idx)
  end).

(** [while packed_idx < end]. *)
Fixpoint decode_packed (n : nat) (kind : FieldKind) (bytes : list Z) (packed_idx last : Z) (arr : list Value)
    : outcome (list Value) :=
  if last <=? packed_idx then returned (Ok arr) else
  match n with
  | O => None
  | S n' =>
      and_then (returned (decode_packable_value kind bytes packed_idx)) (fun '(v, packed_idx) =>
      decode_packed n' kind bytes packed_idx last (arr ++ [v]))
  end.

Definition decode_packed_field (field : FieldSchema) (bytes : list Z) (idx : Z) : outcome (Value * Z) :=
  and_then (returned ('(packed_len, idx) ← read_varint bytes idx;
                  e ← span_end "packed field length overflow" "packed field exceeds payload bounds" packed_len bytes idx;
                  Ok (idx, e))) (fun '(idx, e) =>
  and_then (decode_packed (length bytes) (fs_kind field) bytes idx e []) (fun arr => returned (Ok (JArray arr, e)))).

(** [while idx < bytes.len()]. *)
Fixpoint decode_fields (n : nat) (schema : MessageSchema) (bytes : list Z) (idx : Z) (out : list (string * Value))
    : outcome (list (string * Value)) :=
  if zlen bytes <=? idx then returned (Ok out) else
  match n with
  | O => None
  | S n' =>
      and_then (returned (read_varint bytes idx)) (fun '(key, idx) =>
      let field_number := wrapping u32_max (Z.shiftr key 3) in
      let wire_type := Z.land key 7 in
      match fields_by_number schema !! field_number with
      | None => and_then (returned (skip_wire_value wire_type bytes idx)) (fun '(_, idx) => decode_fields n' schema bytes idx out)
      | Some field =>
          if fs_repeated field && fs_packable field && (wire_type =? 2) then
            and_then (decode_packed_field field bytes idx) (fun '(arr, idx) =>
            decode_fields n' schema bytes idx (append_decoded_field out (fs_name field) arr true))
          else
            and_then (decode_single_field_value field wire_type bytes idx) (fun '(value, idx) =>
            decode_fields n' schema bytes idx (append_decoded_field out (fs_name field) value (fs_repeated field)))
      end)
  end.
End fields.

(** Messages nested at most [depth] deep. *)
Fixpoint decode_nested (depth : nat) (message_name : string) (bytes : list Z) : outcome Value :=
  match depth with
  | O => None
  | S depth' =>
      and_then (returned (ok_or (messages !! message_name) (message_missing message_name))) (fun schema =>
      and_then (decode_fields (decode_nested depth') (length bytes) schema bytes 0 []) (fun out =>
      returned (Ok (JObject out))))
  end.

(** A payload nests messages no deeper than it has bytes. *)
Definition decode_message (message_name : string) (bytes : list Z) : outcome Value :=
  decode_nested (S (length bytes)) message_name bytes.
End conversions.
