(* ===== verification/WireCodec.v ===== *)
(** * What the wire codec does

    Decoding ends on every payload, and a JSON object that is canonical for its
    schema decodes back from its own encoding. *)

From S2P Require Import Prelude RustStr F64 Contracts Domain Wire.

(** ** Readers move forward *)

Lemma span_end_Ok overflow underflow n bytes idx e :
  span_end overflow underflow n bytes idx = Ok e <-> e = idx + n /\ e <= zlen bytes /\ e <= usize_max.
Proof.
  unfold span_end. rewrite bind_Ok. split.
  - intros (e' & He & Hc). apply ok_or_Ok, checked_add_Some in He as [-> Hm].
    destruct (Z.ltb_spec (zlen bytes) (idx + n)); [discriminate Hc|]. injection Hc as <-. lia.
  - intros (-> & Hb & Hm). exists (idx + n). rewrite ok_or_Ok, checked_add_Some. split; [lia|].
    by destruct (Z.ltb_spec (zlen bytes) (idx + n)); [lia|].
Qed.

(** What is read at an index of the payload lies inside it. *)
Definition moves {A} (least : Z) (r : reader A) : Prop :=
  forall bytes idx a idx', 0 <= idx -> r bytes idx = Ok (a, idx') -> idx + least <= idx' <= zlen bytes.

Lemma read_varint_from_moves n shift out bytes idx v idx' :
  0 <= idx -> 0 <= out -> read_varint_from n shift out bytes idx = Ok (v, idx') ->
  idx + 1 <= idx' <= zlen bytes /\ 0 <= v.
Proof.
  revert shift out idx. induction n as [|n IH]; intros shift out idx Hi Ho; cbn [read_varint_from]; unfold byte_at;
    destruct (bytes !! Z.to_nat idx) as [b|] eqn:Eb; try discriminate; apply lookup_lt_Some in Eb;
    (assert (0 <= Z.lor out (wrapping u64_max (Z.shiftl (Z.land b 127) shift)))
      by (apply Z.lor_nonneg; split; [done|]; apply (wrapping_range u64_max); lia));
    unfold zlen; destruct (_ =? 0); try discriminate.
  - intros [= <- <-]. lia.
  - intros [= <- <-]. lia.
  - intros Hr. apply IH in Hr; [unfold zlen in Hr; lia|lia|done].
Qed.

Lemma read_varint_moves : moves 1 read_varint.
Proof. intros bytes idx v idx' Hi Hr. by apply read_varint_from_moves in Hr as [? _]. Qed.

Lemma read_varint_nonneg bytes idx v idx' : 0 <= idx -> read_varint bytes idx = Ok (v, idx') -> 0 <= v.
Proof. intros Hi Hr. by apply read_varint_from_moves in Hr as [_ ?]. Qed.

Lemma read_fixed_moves n underflow : 0 <= n -> moves n (read_fixed n underflow).
Proof.
  intros Hn bytes idx v idx' Hi Hr. apply bind_Ok in Hr as (e & He & [= _ <-]).
  apply span_end_Ok in He. lia.
Qed.

Lemma advance_moves n : 0 <= n -> moves n (advance n).
Proof.
  intros Hn bytes idx v idx' Hi Hr. apply bind_Ok in Hr as (e & He & [= _ <-]).
  apply span_end_Ok in He. lia.
Qed.

(** The slice is strictly shorter than the payload. *)
Lemma read_length_delimited_moves bytes idx data idx' :
  0 <= idx -> read_length_delimited bytes idx = Ok (data, idx') ->
  idx + 1 + zlen data <= idx' <= zlen bytes.
Proof.
  intros Hi Hr. apply bind_Ok in Hr as ([len i] & Hv & Hr). apply bind_Ok in Hr as (e & He & [= <- <-]).
  pose proof (read_varint_moves _ _ _ _ Hi Hv). pose proof (read_varint_nonneg _ _ _ _ Hi Hv).
  apply span_end_Ok in He. unfold slice, zlen in *. rewrite length_take, length_drop. lia.
Qed.

Lemma moves_weaken {A} n m (r : reader A) : m <= n -> moves n r -> moves m r.
Proof. intros Hm Hr bytes idx a idx' Hi He. specialize (Hr bytes idx a idx' Hi He). lia. Qed.

Lemma int_value_moves n f r : moves n r -> moves n (int_value f r).
Proof. intros Hr bytes idx v idx' Hi Hv. apply bind_Ok in Hv as ([z i] & Hz & [= _ <-]). by eapply Hr. Qed.

Lemma float_value_moves n what f r : moves n r -> moves n (float_value what f r).
Proof.
  intros Hr bytes idx v idx' Hi Hv. apply bind_Ok in Hv as ([z i] & Hz & Hv).
  apply bind_Ok in Hv as (x & _ & [= _ <-]). by eapply Hr.
Qed.

Lemma bool_value_moves : moves 1 bool_value.
Proof. intros bytes idx v idx' Hi Hv. apply bind_Ok in Hv as ([z i] & Hz & [= _ <-]). by eapply read_varint_moves. Qed.

Lemma decode_packable_moves kind : moves 1 (decode_packable_value kind).
Proof.
  assert (moves 1 read_fixed32) by (eapply moves_weaken; [|by apply read_fixed_moves]; lia).
  assert (moves 1 read_fixed64) by (eapply moves_weaken; [|by apply read_fixed_moves]; lia).
  pose proof read_varint_moves.
  destruct kind; simpl; auto using int_value_moves, float_value_moves, bool_value_moves; intros ?????; discriminate.
Qed.

Lemma skip_wire_value_moves wire_type : moves 0 (skip_wire_value wire_type).
Proof.
  intros bytes idx v idx' Hi Hr. unfold skip_wire_value in Hr.
  destruct (wire_type =? 0); [|destruct (wire_type =? 1); [|destruct (wire_type =? 2); [|destruct (wire_type =? 5); [|discriminate]]]].
  - apply bind_Ok in Hr as ([z i] & Hz & [= _ <-]). apply read_varint_moves in Hz; lia.
  - apply advance_moves in Hr; lia.
  - apply bind_Ok in Hr as ([z i] & Hz & Hr). pose proof (read_varint_nonneg _ _ _ _ Hi Hz).
    apply read_varint_moves in Hz; [|done]. apply advance_moves in Hr; lia.
  - apply advance_moves in Hr; lia.
Qed.

(** ** Decoding ends *)

Lemma and_then_ends {A B} (m : outcome A) (k : A -> outcome B) :
  is_Some m -> (forall a, m = Some (Ok a) -> is_Some (k a)) -> is_Some (and_then m k).
Proof. intros [[a|e] ->] Hk; [by apply Hk|by eexists]. Qed.

Lemma returned_ends {A} (m : result PulseError A) : is_Some (returned m).
Proof. by eexists. Qed.
#[local] Hint Resolve returned_ends : core.

Lemma returned_Ok {A} (m : result PulseError A) a : returned m = Some (Ok a) -> m = Ok a.
Proof. by intros [=]. Qed.

Lemma and_then_Ok {A B} (m : outcome A) (k : A -> outcome B) b :
  and_then m k = Some (Ok b) <-> exists a, m = Some (Ok a) /\ k a = Some (Ok b).
Proof.
  split; [|by intros (a & -> & ?)]. destruct m as [[a|e]|]; [|discriminate|discriminate]. intros Hk. by exists a.
Qed.

Lemma decode_packed_ends n kind bytes idx last arr :
  0 <= idx -> last <= zlen bytes -> zlen bytes - idx <= Z.of_nat n ->
  is_Some (decode_packed n kind bytes idx last arr).
Proof.
  revert idx arr. induction n as [|n IH]; intros idx arr Hi Hl Hn; cbn [decode_packed]; destruct (Z.leb_spec last idx); auto; [lia|].
  apply and_then_ends; [done|]. intros [v i] Hv. apply returned_Ok, decode_packable_moves in Hv; [|done].
  apply IH; lia.
Qed.

Section ends.
Context `{Base64} `{JsonText}.
Variable messages : MessageRegistry.

Section fields.
Variable nested : string -> list Z -> outcome Value.
Variable bytes : list Z.
Hypothesis nested_ends : forall name data, (length data < length bytes)%nat -> is_Some (nested name data).

Lemma decode_packed_field_ends field idx : 0 <= idx -> is_Some (decode_packed_field field bytes idx).
Proof.
  intros Hi. apply and_then_ends; [done|]. intros [i e] Hv.
  apply returned_Ok, bind_Ok in Hv as ([len j] & Hl & Hv). apply bind_Ok in Hv as (e' & He & [= <- <-]).
  apply read_varint_moves in Hl; [|done]. apply span_end_Ok in He.
  apply and_then_ends; [|done]. apply decode_packed_ends; unfold zlen in *; lia.
Qed.

Lemma decode_packed_field_moves field idx v idx' :
  0 <= idx -> decode_packed_field field bytes idx = Some (Ok (v, idx')) -> idx <= idx' <= zlen bytes.
Proof.
  intros Hi Hr. apply and_then_Ok in Hr as ([i e] & Hv & Hr).
  apply returned_Ok, bind_Ok in Hv as ([len j] & Hl & Hv). apply bind_Ok in Hv as (e' & He & [= <- <-]).
  pose proof (read_varint_nonneg _ _ _ _ Hi Hl). apply read_varint_moves in Hl; [|done]. apply span_end_Ok in He.
  apply and_then_Ok in Hr as (arr & _ & [= _ <-]). lia.
Qed.

Lemma decode_single_ends field wire_type idx :
  0 <= idx -> is_Some (decode_single_field_value nested field wire_type bytes idx).
Proof.
  intros Hi. apply and_then_ends; [done|]. intros _ _. destruct (fs_kind field); auto.
  apply and_then_ends; [done|]. intros [data i] Hd. apply returned_Ok, read_length_delimited_moves in Hd; [|done].
  apply and_then_ends; [|done]. apply nested_ends. unfold zlen in Hd. lia.
Qed.

Lemma decode_single_moves field wire_type idx v idx' :
  0 <= idx -> decode_single_field_value nested field wire_type bytes idx = Some (Ok (v, idx')) -> idx <= idx' <= zlen bytes.
Proof.
  intros Hi Hr. apply and_then_Ok in Hr as (u & _ & Hr).
  assert (forall data i, read_length_delimited bytes idx = Ok (data, i) -> idx <= i <= zlen bytes) as Hld.
  { intros data i Hd. apply read_length_delimited_moves in Hd; [unfold zlen in *; lia|done]. }
  destruct (fs_kind field) eqn:Ek;
    try (apply returned_Ok, decode_packable_moves in Hr; [lia|done]).
  - apply returned_Ok, bind_Ok in Hr as ([data i] & Hd & Hr). apply bind_Ok in Hr as (text & _ & [= _ <-]). by eapply Hld.
  - apply and_then_Ok in Hr as ([data i] & Hd & Hr). apply and_then_Ok in Hr as (w & _ & [= _ <-]). by eapply Hld, returned_Ok.
  - apply returned_Ok, bind_Ok in Hr as ([data i] & Hd & [= _ <-]). by eapply Hld.
Qed.

Lemma decode_fields_ends n schema idx out :
  0 <= idx -> zlen bytes - idx <= Z.of_nat n -> is_Some (decode_fields nested n schema bytes idx out).
Proof.
  revert idx out. induction n as [|n IH]; intros idx out Hi Hn; cbn [decode_fields]; destruct (Z.leb_spec (zlen bytes) idx); auto; [lia|].
  apply and_then_ends; [done|]. intros [key i] Hk. apply returned_Ok, read_varint_moves in Hk; [|done].
  destruct (fields_by_number schema !! _) as [field|].
  - destruct (_ && _).
    + apply and_then_ends; [apply decode_packed_field_ends; lia|]. intros [v j] Hv.
      apply decode_packed_field_moves in Hv; [|lia]. apply IH; lia.
    + apply and_then_ends; [apply decode_single_ends; lia|]. intros [v j] Hv.
      apply decode_single_moves in Hv; [|lia]. apply IH; lia.
  - apply and_then_ends; [done|]. intros [v j] Hv. apply returned_Ok, skip_wire_value_moves in Hv; [|lia]. apply IH; lia.
Qed.
End fields.

Lemma decode_nested_ends depth name bytes : (length bytes < depth)%nat -> is_Some (decode_nested messages depth name bytes).
Proof.
  revert name bytes. induction depth as [|depth IH]; intros name bytes Hd; [lia|]. cbn [decode_nested].
  apply and_then_ends; [done|]. intros schema _. apply and_then_ends; [|done].
  apply decode_fields_ends; [|done|unfold zlen; lia]. intros name' data Hl. apply IH. lia.
Qed.

(** C36: decoding ends on every payload, malformed or not, under every schema,
    recursive ones included: with a value or with an error, never by running out
    of the bounds put on its loops and its recursion. *)
Theorem decode_message_terminates name bytes : is_Some (decode_message messages name bytes).
Proof. apply decode_nested_ends. lia. Qed.
End ends.

(** ** Encodings that read back *)

(** [enc] at any place of a payload reads as [a]. *)
Definition reads {A} (r : reader A) (enc : list Z) (a : A) : Prop :=
  forall pre post, zlen (pre ++ enc ++ post) <= usize_max ->
    r (pre ++ enc ++ post) (zlen pre) = Ok (a, zlen pre + zlen enc).

Lemma zlen_app {A} (l k : list A) : zlen (l ++ k) = zlen l + zlen k.
Proof. unfold zlen. rewrite length_app. lia. Qed.

Lemma zlen_cons {A} (x : A) l : zlen (x :: l) = 1 + zlen l.
Proof. unfold zlen. simpl. lia. Qed.

Lemma zlen_nonneg {A} (l : list A) : 0 <= zlen l.
Proof. unfold zlen. lia. Qed.

Lemma byte_at_middle pre b post : byte_at (pre ++ b :: post) (zlen pre) = Some b.
Proof. unfold byte_at, zlen. rewrite Nat2Z.id, lookup_app_r by lia. by rewrite Nat.sub_diag. Qed.

Lemma slice_middle pre mid post : slice (pre ++ mid ++ post) (zlen pre) (zlen pre + zlen mid) = mid.
Proof.
  unfold slice, zlen. rewrite Nat2Z.id, drop_app_length. replace (Z.to_nat _) with (length mid) by lia. apply take_app_length.
Qed.

Lemma lor_disjoint a b k : 0 <= k -> 0 <= a < 2 ^ k -> Z.lor a (b * 2 ^ k) = a + b * 2 ^ k.
Proof.
  intros Hk Ha. assert (Z.land a (b * 2 ^ k) = 0) as Hl.
  { apply Z.bits_inj'. intros i Hi. rewrite Z.land_spec, Z.bits_0, <- Z.shiftl_mul_pow2 by done.
    destruct (Z.lt_ge_cases i k).
    - rewrite Z.shiftl_spec_low by done. by rewrite andb_false_r.
    - destruct (decide (a = 0)) as [->|]; [by rewrite Z.bits_0|].
      rewrite (Z.bits_above_log2 a i); [done|lia|]. apply Z.log2_lt_pow2; [lia|].
      eapply Z.lt_le_trans; [apply Ha|]. apply Z.pow_le_mono_r; lia. }
  rewrite Z.add_nocarry_lxor by done. symmetry. by apply Z.lxor_lor.
Qed.

(** A group with the continuation bit. *)
Lemma continued_group v : Z.land (Z.lor (Z.land v 127) 128) 127 = v mod 128 /\ Z.land (Z.lor (Z.land v 127) 128) 128 = 128.
Proof.
  change 127 with (Z.ones 7). rewrite !Z.land_lor_distr_l, <- !Z.land_assoc. change (Z.land (Z.ones 7) (Z.ones 7)) with (Z.ones 7).
  change (Z.land (Z.ones 7) 128) with 0. rewrite Z.land_0_r, Z.lor_0_l. change (Z.land 128 (Z.ones 7)) with 0.
  by rewrite Z.lor_0_r, Z.land_ones.
Qed.

Lemma last_group v : 0 <= v < 128 -> Z.land v 127 = v /\ Z.land v 128 = 0.
Proof.
  intros Hv. split; [change 127 with (Z.ones 7); rewrite Z.land_ones by lia; apply Z.mod_small; lia|].
  apply Z.bits_inj'. intros i Hi. rewrite Z.land_spec, Z.bits_0. change 128 with (2 ^ 7).
  destruct (decide (i = 7)) as [->|]; [|rewrite Z.pow2_bits_false by lia; apply andb_false_r].
  destruct (decide (v = 0)) as [->|]; [done|]. rewrite Z.bits_above_log2; [done|lia|]. apply Z.log2_lt_pow2; lia.
Qed.

Lemma varint_groups_read n v shift out pre post :
  0 <= v < 2 ^ (7 * (Z.of_nat n + 1)) -> 0 <= shift -> 0 <= out < 2 ^ shift -> v * 2 ^ shift <= u64_max ->
  read_varint_from n shift out (pre ++ write_varint_groups n v ++ post) (zlen pre)
  = Ok (out + v * 2 ^ shift, zlen pre + zlen (write_varint_groups n v)).
Proof.
  revert v shift out pre. induction n as [|n IH]; intros v shift out pre Hv Hs Ho Hm; cbn [write_varint_groups];
    destruct (Z.ltb_spec v 128).
  1,3: cbn [read_varint_from app]; rewrite byte_at_middle; destruct (last_group v) as [-> ->]; [lia|];
       rewrite Z.shiftl_mul_pow2, wrapping_small, lor_disjoint by (done || (unfold in_range; split; [|done];
         apply Z.mul_nonneg_nonneg; [lia|apply Z.pow_nonneg; lia])); by rewrite zlen_cons.
  - change (2 ^ (7 * (Z.of_nat 0 + 1))) with 128 in Hv. lia.
  - cbn [read_varint_from app]. rewrite byte_at_middle. destruct (continued_group v) as [-> ->].
    assert (0 < 2 ^ shift) by (apply Z.pow_pos_nonneg; lia).
    pose proof (Z.mod_pos_bound v 128 ltac:(lia)). pose proof (Z.div_mod v 128 ltac:(lia)).
    assert (v mod 128 * 2 ^ shift <= v * 2 ^ shift) by (apply Z.mul_le_mono_nonneg_r; [lia|]; apply Z.mod_le; lia).
    rewrite Z.shiftl_mul_pow2, wrapping_small, lor_disjoint by (done || (unfold in_range; split; [|lia];
      apply Z.mul_nonneg_nonneg; lia)). cbn [Z.eqb].
    rewrite Z.shiftr_div_pow2 by lia. change (2 ^ 7) with 128.
    replace (pre ++ _ :: _ ++ post) with ((pre ++ [Z.lor (Z.land v 127) 128]) ++ write_varint_groups n (v / 128) ++ post)
      by by rewrite <- app_assoc.
    replace (zlen pre + 1) with (zlen (pre ++ [Z.lor (Z.land v 127) 128])) by (rewrite zlen_app, zlen_cons; done).
    assert (2 ^ (shift + 7) = 128 * 2 ^ shift) as E7 by (rewrite Z.pow_add_r by lia; lia).
    rewrite IH.
    + rewrite zlen_app, !zlen_cons, E7. f_equal. f_equal; [nia|]. change (zlen (@nil Z)) with 0. lia.
    + split; [apply Z.div_pos; lia|]. apply Z.div_lt_upper_bound; [lia|]. eapply Z.lt_le_trans; [apply Hv|].
      replace (7 * (Z.of_nat (S n) + 1)) with (7 + 7 * (Z.of_nat n + 1)) by lia. by rewrite Z.pow_add_r by lia.
    + lia.
    + rewrite E7. nia.
    + rewrite E7. nia.
Qed.

Lemma varint_reads v : in_range u64_max v -> reads read_varint (write_varint v) v.
Proof.
  intros [Hv1 Hv2] pre post _. unfold read_varint, write_varint.
  rewrite varint_groups_read; [by rewrite Z.mul_1_r|..]; try done; [split; [done|]; eapply Z.le_lt_trans; [exact Hv2|done]|].
  by rewrite Z.mul_1_r.
Qed.

Lemma write_varint_nonempty v : 1 <= zlen (write_varint v).
Proof.
  unfold write_varint. cbn [write_varint_groups]. destruct (v <? 128); rewrite zlen_cons; [done|].
  match goal with |- context [zlen ?l] => pose proof (zlen_nonneg l) end. lia.
Qed.

Lemma le_bytes_length n z : length (le_bytes n z) = n.
Proof. revert z. induction n as [|n IH]; intros z; simpl; [done|]. by rewrite IH. Qed.

Lemma le_bytes_read n z : 0 <= z < 2 ^ (8 * Z.of_nat n) -> of_le_bytes (le_bytes n z) = z.
Proof.
  revert z. induction n as [|n IH]; intros z Hz; [change (2 ^ (8 * Z.of_nat 0)) with 1 in Hz; simpl; lia|].
  cbn [le_bytes of_le_bytes foldr]. fold (of_le_bytes (le_bytes n (z / 256))). rewrite IH.
  - pose proof (Z.div_mod z 256 ltac:(lia)). lia.
  - split; [apply Z.div_pos; lia|]. apply Z.div_lt_upper_bound; [lia|]. eapply Z.lt_le_trans; [apply Hz|].
    replace (8 * Z.of_nat (S n)) with (8 + 8 * Z.of_nat n) by lia. by rewrite Z.pow_add_r by lia.
Qed.

Lemma fixed_reads n underflow z :
  0 <= z < 2 ^ (8 * Z.of_nat n) -> reads (read_fixed (Z.of_nat n) underflow) (le_bytes n z) z.
Proof.
  intros Hz pre post Hl. assert (zlen (le_bytes n z) = Z.of_nat n) as El by (unfold zlen; by rewrite le_bytes_length).
  unfold read_fixed. rewrite !zlen_app in Hl. pose proof (zlen_nonneg post).
  rewrite (ok_bind _ _ (zlen pre + Z.of_nat n)) by (apply span_end_Ok; rewrite !zlen_app; lia).
  rewrite <- El, slice_middle. by rewrite le_bytes_read.
Qed.

Lemma delimited_reads data :
  zlen data <= usize_max -> reads read_length_delimited (write_delimited data) data.
Proof.
  intros Hd pre post Hl. unfold write_delimited, read_length_delimited in *. rewrite <- app_assoc.
  rewrite !zlen_app in Hl. pose proof (zlen_nonneg post). pose proof (zlen_nonneg pre). pose proof (zlen_nonneg data).
  pose proof (zlen_nonneg (write_varint (zlen data))).
  rewrite (ok_bind _ _ (zlen data, zlen pre + zlen (write_varint (zlen data)))).
  2:{ apply varint_reads; [done|]. rewrite !zlen_app. lia. }
  rewrite (ok_bind _ _ (zlen pre + zlen (write_varint (zlen data)) + zlen data)).
  2:{ apply span_end_Ok. rewrite !zlen_app. lia. }
  rewrite (app_assoc pre), <- (zlen_app pre (write_varint _)), slice_middle. rewrite !zlen_app. f_equal. f_equal. lia.
Qed.

(** *** Signed integers *)

Lemma as_i32_wrap z : exists k, as_i32 z = z + k * (u32_max + 1).
Proof.
  unfold as_i32, wrapping. pose proof (Z.div_mod z (u32_max + 1) ltac:(lia)). destruct (_ <=? _).
  - exists (- (z / (u32_max + 1))). lia.
  - exists (- (z / (u32_max + 1)) - 1). lia.
Qed.

Lemma as_i64_wrap z : exists k, as_i64 z = z + k * (u64_max + 1).
Proof.
  unfold as_i64, wrapping. pose proof (Z.div_mod z (u64_max + 1) ltac:(lia)). destruct (_ <=? _).
  - exists (- (z / (u64_max + 1))). lia.
  - exists (- (z / (u64_max + 1)) - 1). lia.
Qed.

Lemma as_i32_wrapping z : i32_min <= z <= i32_max -> as_i32 (wrapping u32_max z) = z.
Proof.
  unfold as_i32, i32_min. intros Hz. unfold wrapping. rewrite Z.mod_mod by lia.
  destruct (Z.lt_ge_cases z 0).
  - rewrite <- (Z.mod_add z 1), Z.mod_small by lia. destruct (Z.leb_spec (z + 1 * (u32_max + 1)) i32_max); lia.
  - rewrite Z.mod_small by lia. destruct (Z.leb_spec z i32_max); lia.
Qed.

Lemma as_i64_wrapping z : i64_min <= z <= i64_max -> as_i64 (wrapping u64_max z) = z.
Proof.
  unfold as_i64, i64_min. intros Hz. unfold wrapping. rewrite Z.mod_mod by lia.
  destruct (Z.lt_ge_cases z 0).
  - rewrite <- (Z.mod_add z 1), Z.mod_small by lia. destruct (Z.leb_spec (z + 1 * (u64_max + 1)) i64_max); lia.
  - rewrite Z.mod_small by lia. destruct (Z.leb_spec z i64_max); lia.
Qed.

Lemma lxor_m1 a : Z.lxor a (-1) = - a - 1.
Proof. rewrite Z.lxor_m1_r. unfold Z.lnot. lia. Qed.

Definition zigzag (z : Z) : Z := if z <? 0 then - 2 * z - 1 else 2 * z.

Lemma zigzag_i32_eq z : i32_min <= z <= i32_max -> zigzag_i32 z = zigzag z.
Proof.
  unfold zigzag_i32, zigzag, i32_min. intros Hz. rewrite Z.shiftl_mul_pow2, Z.shiftr_div_pow2 by lia.
  destruct (as_i32_wrap (z * 2 ^ 1)) as [k ->]. destruct (Z.ltb_spec z 0).
  - rewrite <- (Z.div_unique z (2 ^ 31) (-1) (z + 2 ^ 31)) by lia. rewrite lxor_m1. unfold wrapping.
    replace (- _ - 1) with (- 2 * z - 1 + - k * (u32_max + 1)) by lia. rewrite Z.mod_add by lia. apply Z.mod_small. lia.
  - rewrite (Z.div_small z) by lia. rewrite Z.lxor_0_r. unfold wrapping. rewrite Z.mod_add by lia. rewrite Z.mod_small; lia.
Qed.

Lemma zigzag_i64_eq z : i64_min <= z <= i64_max -> zigzag_i64 z = zigzag z.
Proof.
  unfold zigzag_i64, zigzag, i64_min. intros Hz. rewrite Z.shiftl_mul_pow2, Z.shiftr_div_pow2 by lia.
  destruct (as_i64_wrap (z * 2 ^ 1)) as [k ->]. destruct (Z.ltb_spec z 0).
  - rewrite <- (Z.div_unique z (2 ^ 63) (-1) (z + 2 ^ 63)) by lia. rewrite lxor_m1. unfold wrapping.
    replace (- _ - 1) with (- 2 * z - 1 + - k * (u64_max + 1)) by lia. rewrite Z.mod_add by lia. apply Z.mod_small. lia.
  - rewrite (Z.div_small z) by lia. rewrite Z.lxor_0_r. unfold wrapping. rewrite Z.mod_add by lia. rewrite Z.mod_small; lia.
Qed.

Lemma unzigzag_half v : 0 <= v -> Z.lxor (Z.shiftr v 1) (- Z.land v 1) = if Z.even v then v / 2 else - (v / 2) - 1.
Proof.
  intros Hv. rewrite Z.shiftr_div_pow2 by lia. change (2 ^ 1) with 2.
  change (Z.land v 1) with (Z.land v (Z.ones 1)). rewrite Z.land_ones by lia. change (2 ^ 1) with 2. rewrite Zmod_even.
  destruct (Z.even v); [apply Z.lxor_0_r|apply lxor_m1].
Qed.

Lemma zigzag_half z : (if Z.even (zigzag z) then zigzag z / 2 else - (zigzag z / 2) - 1) = z.
Proof.
  unfold zigzag. destruct (Z.ltb_spec z 0).
  - replace (-2 * z - 1) with (1 + 2 * (- z - 1)) by lia. rewrite Z.even_add_mul_2. simpl Z.even. cbn iota.
    rewrite Z.mul_comm, Z.div_add by lia. change (1 / 2) with 0. lia.
  - rewrite Z.even_mul. change (Z.even 2) with true. cbn [orb]. rewrite Z.mul_comm, Z.div_mul; lia.
Qed.

Lemma zigzag_range z n : 0 <= n -> - 2 ^ n <= z < 2 ^ n -> 0 <= zigzag z < 2 * 2 ^ n.
Proof. unfold zigzag. intros. destruct (Z.ltb_spec z 0); lia. Qed.

Lemma unzigzag_i32_zigzag z : i32_min <= z <= i32_max -> unzigzag_i32 (zigzag_i32 z) = z.
Proof.
  intros Hz. pose proof (zigzag_range z 31 ltac:(lia) ltac:(unfold i32_min in *; lia)). rewrite zigzag_i32_eq by done.
  unfold unzigzag_i32. cbn zeta. rewrite (wrapping_small u32_max (zigzag z)) by (unfold in_range; lia).
  assert (0 <= Z.shiftr (zigzag z) 1 <= i32_max).
  { rewrite Z.shiftr_div_pow2 by lia. change (2 ^ 1) with 2.
    split; [apply Z.div_pos|apply Z.lt_succ_r, Z.div_lt_upper_bound]; lia. }
  assert (as_i32 (Z.shiftr (zigzag z) 1) = Z.shiftr (zigzag z) 1) as ->.
  { rewrite <- (wrapping_small u32_max (Z.shiftr (zigzag z) 1)) at 1 by (unfold in_range; lia).
    apply as_i32_wrapping. unfold i32_min. lia. }
  rewrite unzigzag_half by lia. apply zigzag_half.
Qed.

Lemma unzigzag_i64_zigzag z : i64_min <= z <= i64_max -> unzigzag_i64 (zigzag_i64 z) = z.
Proof.
  intros Hz. pose proof (zigzag_range z 63 ltac:(lia) ltac:(unfold i64_min in *; lia)). rewrite zigzag_i64_eq by done.
  unfold unzigzag_i64.
  assert (0 <= Z.shiftr (zigzag z) 1 <= i64_max).
  { rewrite Z.shiftr_div_pow2 by lia. change (2 ^ 1) with 2.
    split; [apply Z.div_pos|apply Z.lt_succ_r, Z.div_lt_upper_bound]; lia. }
  assert (as_i64 (Z.shiftr (zigzag z) 1) = Z.shiftr (zigzag z) 1) as ->.
  { rewrite <- (wrapping_small u64_max (Z.shiftr (zigzag z) 1)) at 1 by (unfold in_range; lia).
    apply as_i64_wrapping. unfold i64_min. lia. }
  rewrite unzigzag_half by lia. apply zigzag_half.
Qed.

(** *** Floats *)

Section float_bits.
Context (mw ew : Z) (Hmw : 1 <= mw) (Hew : 2 <= ew).
Notation prec := (mw + 1).
Notation emax := (2 ^ (ew - 1)).

(** Sign, exponent and fraction of a bit pattern put together from them. *)
Lemma float_of_fields (s : bool) ex frac :
  0 <= ex < 2 ^ ew -> 0 <= frac < 2 ^ mw ->
  let bits := (if s then 2 ^ (mw + ew) else 0) + (ex * 2 ^ mw + frac) in
  0 <= bits < 2 * 2 ^ (mw + ew) /\ (0 <? bits / 2 ^ (mw + ew)) = s /\ (bits / 2 ^ mw) mod 2 ^ ew = ex /\ bits mod 2 ^ mw = frac.
Proof.
  intros Hex Hf bits. assert (0 < 2 ^ mw) by (apply Z.pow_pos_nonneg; lia). assert (0 < 2 ^ ew) by (apply Z.pow_pos_nonneg; lia).
  assert (2 ^ (mw + ew) = 2 ^ mw * 2 ^ ew) as Ep by (apply Z.pow_add_r; lia).
  assert (0 <= ex * 2 ^ mw + frac < 2 ^ (mw + ew)) as Hb by (rewrite Ep; nia).
  assert (bits = (if s then 2 ^ ew else 0) * 2 ^ mw + (ex * 2 ^ mw + frac)) as Eb by (unfold bits; destruct s; lia).
  split; [unfold bits; destruct s; lia|]. split; [|split].
  - unfold bits. destruct s.
    + apply Z.ltb_lt. apply Z.div_str_pos. lia.
    + rewrite Z.div_small by lia. done.
  - replace bits with (frac + ((if s then 2 ^ ew else 0) + ex) * 2 ^ mw) by lia.
    rewrite Z.div_add, (Z.div_small frac) by lia. rewrite Z.add_0_l. destruct s.
    + replace (2 ^ ew + ex) with (ex + 1 * 2 ^ ew) by lia. rewrite Z.mod_add by lia. by apply Z.mod_small.
    + by apply Z.mod_small.
  - replace bits with (frac + ((if s then 2 ^ ew else 0) + ex) * 2 ^ mw) by lia.
    rewrite Z.mod_add by lia. by apply Z.mod_small.
Qed.

(** The exponent field of a finite float. *)
Lemma bounded_fields m e :
  SpecFloat.bounded prec emax m e = true ->
  (2 ^ mw <= Zpos m < 2 * 2 ^ mw /\ 1 <= e + float_bias ew + mw < 2 ^ ew - 1)
  \/ (Zpos m < 2 ^ mw /\ e = 1 - float_bias ew - mw).
Proof.
  unfold SpecFloat.bounded, canonical_mantissa. rewrite andb_true_iff, Z.leb_le. intros [Hc He].
  apply Zeq_bool_eq in Hc. unfold fexp, SpecFloat.emin in Hc. rewrite digits2_pos_log2 in Hc.
  assert (2 ^ ew = 2 * emax) as E2. { replace ew with (1 + (ew - 1)) at 1 by lia. by rewrite Z.pow_add_r by lia. }
  pose proof (log2_bounds (Zpos m) ltac:(lia)) as [Hl1 Hl2]. unfold float_bias.
  destruct (Z.lt_ge_cases (Z.log2 (Zpos m)) mw) as [Hs|Hs].
  - right. split; [|lia]. apply Z.log2_lt_pow2; lia.
  - left. assert (Z.log2 (Zpos m) = mw) as El by lia. rewrite El in *. split; lia.
Qed.

Lemma float_bits_range x : SpecFloat.valid_binary prec emax x = true -> 0 <= float_to_bits mw ew x < 2 * 2 ^ (mw + ew).
Proof.
  assert (0 < 2 ^ mw) by (apply Z.pow_pos_nonneg; lia). assert (0 < 2 ^ (mw + ew)) by (apply Z.pow_pos_nonneg; lia).
  assert (2 ^ 2 <= 2 ^ ew) by (apply Z.pow_le_mono_r; lia). assert (2 ^ mw = 2 * 2 ^ (mw - 1)).
  { replace mw with (1 + (mw - 1)) at 1 by lia. by rewrite Z.pow_add_r by lia. }
  destruct x as [s|s| |s m e]; simpl.
  - destruct s; lia.
  - intros _. pose proof (float_of_fields s (2 ^ ew - 1) 0) as Hf. rewrite Z.add_0_r in Hf. apply Hf; lia.
  - intros _. pose proof (float_of_fields false (2 ^ ew - 1) (2 ^ (mw - 1))) as Hf. apply Hf; lia.
  - intros Hb. destruct (bounded_fields m e Hb) as [[Hm He]|[Hm ->]]; destruct (Z.leb_spec (2 ^ mw) (Zpos m)); try lia.
    + apply float_of_fields; lia.
    + apply (float_of_fields s 0 (Zpos m)); lia.
Qed.

Lemma float_bits_read x :
  SpecFloat.valid_binary prec emax x = true -> float_of_bits mw ew (float_to_bits mw ew x) = x.
Proof.
  assert (0 < 2 ^ mw) by (apply Z.pow_pos_nonneg; lia).
  assert (2 ^ 2 <= 2 ^ ew) by (apply Z.pow_le_mono_r; lia). assert (2 ^ mw = 2 * 2 ^ (mw - 1)).
  { replace mw with (1 + (mw - 1)) at 1 by lia. by rewrite Z.pow_add_r by lia. }
  destruct x as [s|s| |s m e]; simpl; unfold float_of_bits.
  - intros _. destruct (float_of_fields s 0 0) as (_ & Es & Ee & Ef); [lia..|].
    rewrite Z.mul_0_l, !Z.add_0_r in *. rewrite Es, Ee, Ef. destruct (Z.eqb_spec 0 (2 ^ ew - 1)); [lia|]. done.
  - intros _. destruct (float_of_fields s (2 ^ ew - 1) 0) as (_ & Es & Ee & Ef); [lia..|].
    rewrite Z.add_0_r in *. rewrite Es, Ee, Ef. by rewrite Z.eqb_refl.
  - intros _. destruct (float_of_fields false (2 ^ ew - 1) (2 ^ (mw - 1))) as (_ & Es & Ee & Ef); [lia..|].
    rewrite Z.add_0_l in *. rewrite Ee, Ef, Z.eqb_refl. by destruct (Z.eqb_spec (2 ^ (mw - 1)) 0); [lia|].
  - intros Hb. destruct (bounded_fields m e Hb) as [[Hm He]|[Hm ->]]; destruct (Z.leb_spec (2 ^ mw) (Zpos m)); try lia.
    + destruct (float_of_fields s (e + float_bias ew + mw) (Zpos m - 2 ^ mw)) as (_ & Es & Ee & Ef); [lia..|].
      rewrite Es, Ee, Ef. destruct (Z.eqb_spec (e + float_bias ew + mw) (2 ^ ew - 1)); [lia|].
      destruct (Z.eqb_spec (e + float_bias ew + mw) 0); [lia|].
      replace (Zpos m - 2 ^ mw + 2 ^ mw) with (Zpos m) by lia. f_equal. lia.
    + destruct (float_of_fields s 0 (Zpos m)) as (_ & Es & Ee & Ef); [lia..|].
      rewrite Z.mul_0_l, Z.add_0_l in *. rewrite Es, Ee, Ef. by destruct (Z.eqb_spec 0 (2 ^ ew - 1)); [lia|].
Qed.
End float_bits.

Lemma f64_to_bits_eq x : f64_to_bits x = float_to_bits 52 11 x.
Proof.
  destruct x as [s|s| |s m e]; try done. unfold f64_to_bits, float_to_bits, float_bias.
  by replace (e + (2 ^ (11 - 1) - 1) + 52) with (e + 1075) by lia.
Qed.

Lemma f64_bits_read x : SpecFloat.valid_binary f64_prec f64_emax x = true ->
  f64_of_bits (f64_to_bits x) = x /\ 0 <= f64_to_bits x < 2 ^ 64.
Proof.
  intros Hx. rewrite f64_to_bits_eq. split; [by apply float_bits_read|]. by apply (float_bits_range 52 11).
Qed.

Lemma f32_bits_read x : SpecFloat.valid_binary 24 128 x = true -> f32_of_bits (f32_to_bits x) = x /\ 0 <= f32_to_bits x < 2 ^ 32.
Proof. intros Hx. split; [by apply float_bits_read|]. by apply (float_bits_range 23 8). Qed.

(** ** Values that decode back *)

(** A number written as an integer between bounds. *)
Definition number_within (lo hi : Z) (n : Number) : bool :=
  match n with
  | PosInt z => (0 <=? z) && (z <=? hi)
  | NegInt z => (lo <=? z) && (z <? 0)
  | Float _ => false
  end.

Lemma number_within_spec lo hi n :
  0 <= hi -> number_within lo hi n = true -> exists z, n = number_of_int z /\ Z.min lo 0 <= z <= hi /\ (z < 0 -> lo <= z).
Proof.
  unfold number_of_int. destruct n as [z|z|]; simpl; [| |done]; rewrite andb_true_iff, ?Z.leb_le, ?Z.ltb_lt; intros Hh [H1 H2];
    exists z; destruct (Z.ltb_spec z 0); split; (done || lia).
Qed.

(** A value of a kind that is neither a string nor bytes nor a message, in the
    form the decoder gives it. *)
Definition canonical_scalar (kind : FieldKind) (value : Value) : bool :=
  match kind, value with
  | KDouble, JNumber (Float x) => f64_is_finite x && SpecFloat.valid_binary f64_prec f64_emax x
  | KFloat, JNumber (Float x) =>
      f64_is_finite x && SpecFloat.valid_binary 24 128 (f32_of_f64 x) && bool_decide (f64_of_f32 (f32_of_f64 x) = x)
  | (KInt64 | KSFixed64 | KSInt64), JNumber n => number_within i64_min i64_max n
  | (KInt32 | KEnum | KSFixed32 | KSInt32), JNumber n => number_within i32_min i32_max n
  | (KUInt64 | KFixed64), JNumber n => number_within 0 u64_max n
  | (KUInt32 | KFixed32), JNumber n => number_within 0 u32_max n
  | KBool, JBool _ => true
  | _, _ => false
  end.

Lemma int_value_reads f r enc z z' :
  reads r enc z -> f z = z' -> reads (int_value f r) enc (JNumber (number_of_int z')).
Proof. intros Hr <- pre post Hl. unfold int_value. by rewrite (ok_bind _ _ _ (Hr pre post Hl)). Qed.

Lemma float_value_reads what f r enc z x :
  reads r enc z -> f z = x -> f64_is_finite x = true -> reads (float_value what f r) enc (JNumber (Float x)).
Proof.
  intros Hr <- Hf pre post Hl. unfold float_value. rewrite (ok_bind _ _ _ (Hr pre post Hl)). cbn beta iota.
  unfold number_of_f64. by rewrite Hf.
Qed.

Lemma number_as_i64_of_int z : z <= i64_max -> number_as_i64 (number_of_int z) = Some z.
Proof. unfold number_of_int. intros Hz. destruct (Z.ltb_spec z 0); [done|]. simpl. by destruct (Z.leb_spec z i64_max); [|lia]. Qed.

Lemma number_as_u64_of_int z : 0 <= z -> number_as_u64 (number_of_int z) = Some z.
Proof. unfold number_of_int. intros Hz. by destruct (Z.ltb_spec z 0); [lia|]. Qed.

Section scalars.
Context `{Base64} `{JsonText}.

Lemma to_i64_of_int z : z <= i64_max -> to_i64 (JNumber (number_of_int z)) = Ok z.
Proof. intros Hz. unfold to_i64, to_scalar. by rewrite number_as_i64_of_int. Qed.

Lemma to_i32_of_int z : i32_min <= z <= i32_max -> to_i32 (JNumber (number_of_int z)) = Ok z.
Proof.
  intros Hz. unfold to_i32, to_scalar. rewrite number_as_i64_of_int by lia. simpl.
  destruct (Z.leb_spec i32_min z); [|lia]. by destruct (Z.leb_spec z i32_max); [|lia].
Qed.

Lemma to_u64_of_int z : 0 <= z -> to_u64 (JNumber (number_of_int z)) = Ok z.
Proof. intros Hz. unfold to_u64, to_scalar. by rewrite number_as_u64_of_int. Qed.

Lemma to_u32_of_int z : 0 <= z <= u32_max -> to_u32 (JNumber (number_of_int z)) = Ok z.
Proof.
  intros Hz. unfold to_u32, to_scalar. rewrite number_as_u64_of_int by lia. simpl.
  unfold try_from. destruct (Z.leb_spec 0 z); [|lia]. by destruct (Z.leb_spec z u32_max); [|lia].
Qed.

Lemma wrapping_u64 z : in_range u64_max (wrapping u64_max z).
Proof. by apply wrapping_range. Qed.
Lemma wrapping_u32 z : in_range u32_max (wrapping u32_max z).
Proof. by apply wrapping_range. Qed.

Lemma u32_varint z : in_range u32_max z -> in_range u64_max z.
Proof. unfold in_range. lia. Qed.

Lemma zigzag_i32_range z : i32_min <= z <= i32_max -> in_range u64_max (zigzag_i32 z).
Proof. intros Hz. apply u32_varint. by apply (wrapping_range u32_max). Qed.

Lemma zigzag_i64_range z : in_range u64_max (zigzag_i64 z).
Proof. by apply (wrapping_range u64_max). Qed.

Lemma scalar_reads kind v :
  canonical_scalar kind v = true -> exists enc, encode_packable_value kind v = Ok enc /\ reads (decode_packable_value kind) enc v.
Proof.
  intros Hc. destruct kind; try done; destruct v as [|b|n| | |]; try done; simpl in Hc.
  1: { destruct n as [| |x]; try done. apply andb_true_iff in Hc as [Hf Hv]. apply f64_bits_read in Hv as [Hr Hb].
       eexists. split; [done|]. eapply float_value_reads; [by apply (fixed_reads 8)|done|done]. }
  1: { destruct n as [| |x]; try done. apply andb_true_iff in Hc as [Hc Hx]. apply andb_true_iff in Hc as [Hf Hv].
       apply f32_bits_read in Hv as [Hr Hb]. apply bool_decide_eq_true in Hx.
       eexists. split; [done|]. eapply float_value_reads; [by apply (fixed_reads 4)| |done]. simpl. by rewrite Hr. }
  all: try (apply number_within_spec in Hc as (z & -> & Hz & _); [|lia]; unfold i32_min, i64_min in Hz).
  all: cbn [encode_packable_value decode_packable_value];
    rewrite ?to_i64_of_int, ?to_i32_of_int, ?to_u64_of_int, ?to_u32_of_int by (unfold i32_min; lia);
    try (eexists; split; [done|]).
  - eapply int_value_reads; [apply varint_reads, wrapping_u64|apply as_i64_wrapping; unfold i64_min; lia].
  - eapply int_value_reads; [apply varint_reads; unfold in_range; lia|done].
  - eapply int_value_reads; [apply varint_reads, u32_varint, wrapping_u32|apply as_i32_wrapping; unfold i32_min; lia].
  - eapply int_value_reads; [apply (fixed_reads 8); lia|done].
  - eapply int_value_reads; [apply (fixed_reads 4); lia|done].
  - intros pre post Hl. unfold bool_value. assert (in_range u64_max (if b then 1 else 0)) as Hb by by destruct b.
    rewrite (ok_bind _ _ _ (varint_reads _ Hb pre post Hl)). by destruct b.
  - eapply int_value_reads; [apply varint_reads; unfold in_range; lia|apply wrapping_small; unfold in_range; lia].
  - eapply int_value_reads; [apply varint_reads, u32_varint, wrapping_u32|apply as_i32_wrapping; unfold i32_min; lia].
  - eapply int_value_reads; [apply (fixed_reads 4); pose proof (wrapping_u32 z); unfold in_range in *; lia|apply as_i32_wrapping; unfold i32_min; lia].
  - eapply int_value_reads; [apply (fixed_reads 8); pose proof (wrapping_u64 z); unfold in_range in *; lia|apply as_i64_wrapping; unfold i64_min; lia].
  - eapply int_value_reads; [apply varint_reads, zigzag_i32_range; unfold i32_min; lia|apply unzigzag_i32_zigzag; unfold i32_min; lia].
  - eapply int_value_reads; [apply varint_reads, zigzag_i64_range|apply unzigzag_i64_zigzag; unfold i64_min; lia].
Qed.
End scalars.
