(* ===== verification/WireRoundtrip.v ===== *)
(** * The wire codec round trip

    A JSON object that is canonical for its message (the fields named by their
    own names, the scalars in the form the decoder gives them) is encoded, and
    its encoding decodes back to it. *)

From S2P Require Import Prelude RustStr F64 Contracts Domain Wire WireCodec.

(** ** Objects with sorted keys *)

Lemma ascii_compare_trans a b c : Ascii.compare a b = Lt -> Ascii.compare b c = Lt -> Ascii.compare a c = Lt.
Proof. unfold Ascii.compare. rewrite !N.compare_lt_iff. lia. Qed.

Lemma ascii_compare_refl a : Ascii.compare a a = Eq.
Proof. apply N.compare_refl. Qed.

Lemma str_compare_refl s : String.compare s s = Eq.
Proof. induction s as [|a s IH]; [done|]. simpl. by rewrite ascii_compare_refl. Qed.

Lemma str_compare_trans a b c : String.compare a b = Lt -> String.compare b c = Lt -> String.compare a c = Lt.
Proof.
  revert b c. induction a as [|x a IH]; intros [|y b] [|z c]; simpl; try done.
  destruct (Ascii.compare x y) eqn:Exy; try done; destruct (Ascii.compare y z) eqn:Eyz; try done.
  - apply Ascii.compare_eq_iff in Exy as ->. apply Ascii.compare_eq_iff in Eyz as ->.
    rewrite ascii_compare_refl. apply IH.
  - apply Ascii.compare_eq_iff in Exy as ->. by rewrite Eyz.
  - apply Ascii.compare_eq_iff in Eyz as ->. by rewrite Exy.
  - by rewrite (ascii_compare_trans _ _ _ Exy Eyz).
Qed.

Lemma str_ltb_trans a b c : str_ltb a b = true -> str_ltb b c = true -> str_ltb a c = true.
Proof.
  unfold str_ltb. destruct (String.compare a b) eqn:E1; try done. destruct (String.compare b c) eqn:E2; try done.
  by rewrite (str_compare_trans _ _ _ E1 E2).
Qed.

Lemma str_ltb_irrefl a : str_ltb a a = false.
Proof. unfold str_ltb. by rewrite str_compare_refl. Qed.

Lemma str_ltb_total a b : a <> b -> str_ltb a b = false -> str_ltb b a = true.
Proof.
  unfold str_ltb. intros Hne. rewrite String.compare_antisym. destruct (String.compare b a) eqn:E; simpl; try done.
  by apply String.compare_eq_iff in E.
Qed.

Section objects.
Context {A : Type}.
Implicit Types (m : list (string * A)) (k : string) (v : A).

(** Every key of [m] comes after [k]. *)
Definition after k m : Prop := Forall (fun e => str_ltb k (fst e) = true) m.

Fixpoint keys_sorted m : bool :=
  match m with
  | [] => true
  | (k, _) :: m' => match m' with [] => true | (k', _) :: _ => str_ltb k k' end && keys_sorted m'
  end.

Lemma keys_sorted_cons k v m : keys_sorted ((k, v) :: m) = true <-> after k m /\ keys_sorted m = true.
Proof.
  revert k v. induction m as [|[k' v'] m IH]; intros k v; [split; [intros _; split; [constructor|]|]; done|].
  change (keys_sorted ((k, v) :: (k', v') :: m)) with (str_ltb k k' && keys_sorted ((k', v') :: m)).
  rewrite andb_true_iff. split; intros [H1 H2]; split; try done.
  - apply IH in H2 as [H2 _]. constructor; [done|]. eapply Forall_impl; [exact H2|]. intros e He. by eapply str_ltb_trans.
  - by inversion H1.
Qed.

Lemma map_get_after k m : after k m -> map_get k m = None.
Proof.
  induction 1 as [|[k' v'] m Hk _ IH]; [done|]. simpl in *. destruct (String.eqb_spec k' k) as [->|]; [|done].
  by rewrite str_ltb_irrefl in Hk.
Qed.

Lemma map_get_after_lt k k' m : after k m -> str_ltb k' k = true -> map_get k' m = None.
Proof. intros Ha Hl. apply map_get_after. eapply Forall_impl; [exact Ha|]. intros e He. by eapply str_ltb_trans. Qed.

Lemma map_insert_after k k' v m : after k m -> str_ltb k k' = true -> after k (map_insert k' v m).
Proof.
  intros Ha Hl. induction Ha as [|[k0 v0] m Hk Ha IH]; simpl; [by repeat constructor|].
  destruct (String.eqb_spec k0 k') as [->|]; [by constructor|]. destruct (str_ltb k' k0); by repeat constructor.
Qed.

Lemma map_insert_sorted k v m : keys_sorted m = true -> keys_sorted (map_insert k v m) = true.
Proof.
  induction m as [|[k0 v0] m IH]; [done|]. intros Hs. apply keys_sorted_cons in Hs as [Ha Hs]. cbn [map_insert].
  destruct (String.eqb_spec k0 k) as [->|Hne]; [by apply keys_sorted_cons|].
  destruct (str_ltb k k0) eqn:El; apply keys_sorted_cons.
  - split; [|by apply keys_sorted_cons]. constructor; [done|]. eapply Forall_impl; [exact Ha|]. intros e He. by eapply str_ltb_trans.
  - split; [|by apply IH]. apply map_insert_after; [done|]. apply str_ltb_total; [congruence|done].
Qed.

Lemma keys_sorted_ext m1 m2 :
  keys_sorted m1 = true -> keys_sorted m2 = true -> (forall k, map_get k m1 = map_get k m2) -> m1 = m2.
Proof.
  revert m2. induction m1 as [|[k1 v1] m1 IH]; intros [|[k2 v2] m2] H1 H2 Hg; [done| | |].
  - specialize (Hg k2). simpl in Hg. by rewrite String.eqb_refl in Hg.
  - specialize (Hg k1). simpl in Hg. by rewrite String.eqb_refl in Hg.
  - apply keys_sorted_cons in H1 as [Ha1 H1], H2 as [Ha2 H2].
    assert (k1 = k2) as ->.
    { destruct (decide (k1 = k2)) as [|Hne]; [done|exfalso]. destruct (str_ltb k1 k2) eqn:El.
      - pose proof (Hg k1) as Hg1. simpl in Hg1. rewrite String.eqb_refl in Hg1.
        destruct (String.eqb_spec k2 k1); [congruence|]. by rewrite (map_get_after_lt k2) in Hg1.
      - apply str_ltb_total in El; [|done]. pose proof (Hg k2) as Hg2. simpl in Hg2. rewrite String.eqb_refl in Hg2.
        destruct (String.eqb_spec k1 k2); [done|]. by rewrite (map_get_after_lt k1) in Hg2. }
    pose proof (Hg k2) as Hv. simpl in Hv. rewrite String.eqb_refl in Hv. injection Hv as ->. f_equal.
    apply IH; [done..|]. intros k. specialize (Hg k). simpl in Hg.
    destruct (String.eqb_spec k2 k) as [E|]; [|done]. rewrite <- E. by rewrite !map_get_after.
Qed.
End objects.

(** ** Canonical values *)

Lemma forallb_Forall {A} (f : A -> bool) l : forallb f l = true <-> Forall (fun x => f x = true) l.
Proof.
  induction l as [|x l IH]; simpl; [by split; [constructor|]|]. rewrite andb_true_iff, IH. by rewrite Forall_cons.
Qed.

Lemma Value_nested_ind (P : Value -> Prop) :
  P JNull -> (forall b, P (JBool b)) -> (forall n, P (JNumber n)) -> (forall s, P (JString s)) ->
  (forall items, Forall P items -> P (JArray items)) ->
  (forall entries, Forall (fun e => P (snd e)) entries -> P (JObject entries)) -> forall v, P v.
Proof.
  intros Hnull Hb Hn Hs Ha Ho. fix IH 1. intros [|b|n|s|items|entries]; [done|apply Hb|apply Hn|apply Hs| |].
  - apply Ha. induction items; by constructor.
  - apply Ho. induction entries; by constructor.
Qed.

(** The field a key names, when the key is the field's own name. *)
Definition field_named (schema : MessageSchema) (key : string) : option FieldSchema :=
  number ← fields_by_name schema !! key;
  field ← fields_by_number schema !! number;
  if bool_decide (fs_name field = key) && (fs_number field =? number) && (0 <=? number) && (number <=? u32_max)
  then Some field else None.

Section roundtrip.
Context `{Base64} `{JsonText}.
Variable messages : MessageRegistry.

Definition canonical_field_with (canonical : Value -> FieldKind -> bool) (field : FieldSchema) (value : Value) : bool :=
  if fs_repeated field then
    match value with
    | JArray [] => false
    | JArray items => negb (fs_packable field) && forallb (fun item => canonical item (fs_kind field)) items
    | _ => false
    end
  else canonical value (fs_kind field).

(** Repeated fields are not packed and not empty. Bytes are excluded: they are
    written from text and read back as base64. *)
Fixpoint canonical (value : Value) (kind : FieldKind) {struct value} : bool :=
  match kind with
  | KMessage message_name =>
      match messages !! message_name, value with
      | Some schema, JObject entries =>
          keys_sorted entries
          && forallb (fun '(key, v) => match field_named schema key with
                                       | Some field => canonical_field_with canonical field v
                                       | None => false
                                       end) entries
      | _, _ => false
      end
  | KString => match value with JString s => bool_decide (from_utf8 (bytes_of s) = Ok s) | _ => false end
  | KBytes => false
  | _ => canonical_scalar kind value
  end.

Definition canonical_field : FieldSchema -> Value -> bool := canonical_field_with canonical.

(** ** The records of a field *)

(** What is written with a key of its own. *)
Definition records (p : FieldSchema * Value) : list (FieldSchema * Value) :=
  match p with
  | (field, JArray items) => if fs_repeated field then map (fun item => (field, item)) items else [p]
  | _ => [p]
  end.

Definition encode_record (p : FieldSchema * Value) : result PulseError (list Z) :=
  encode_single_field_value messages (snd p) (fst p).

Definition canonical_record (p : FieldSchema * Value) : Prop :=
  canonical (snd p) (fs_kind (fst p)) = true /\ (fs_repeated (fst p) && fs_packable (fst p)) = false
  /\ 0 <= fs_number (fst p) <= u32_max.

Lemma field_named_Some schema key field :
  field_named schema key = Some field ->
  fields_by_name schema !! key = Some (fs_number field) /\ fields_by_number schema !! fs_number field = Some field
  /\ fs_name field = key /\ 0 <= fs_number field <= u32_max.
Proof.
  unfold field_named. destruct (fields_by_name schema !! key) as [number|]; [|done]. simpl.
  destruct (fields_by_number schema !! number) as [f|] eqn:E; [|done]. simpl.
  destruct (_ && _) eqn:Ec; [|done]. intros [= <-]. apply andb_true_iff in Ec as [Ec H4]. apply andb_true_iff in Ec as [Ec H3].
  apply andb_true_iff in Ec as [H1 H2]. apply bool_decide_eq_true in H1. apply Z.eqb_eq in H2 as ->. lia || (repeat split; try done; lia).
Qed.

Lemma encode_each_app {A} (f : A -> result PulseError (list Z)) l k :
  encode_each f (l ++ k) = (b ← encode_each f l; c ← encode_each f k; Ok (b ++ c)).
Proof.
  induction l as [|x l IH]; simpl; [by destruct (encode_each f k)|]. destruct (f x); [|done]. simpl. rewrite IH.
  destruct (encode_each f l); [|done]. simpl. destruct (encode_each f k); [|done]. simpl. by rewrite app_assoc.
Qed.

Lemma encode_each_map {A B} (g : A -> B) (f : B -> result PulseError (list Z)) l :
  encode_each f (map g l) = encode_each (fun x => f (g x)) l.
Proof. induction l as [|x l IH]; simpl; [done|]. by rewrite IH. Qed.

Lemma encode_each_ext {A} (f g : A -> result PulseError (list Z)) l :
  Forall (fun x => f x = g x) l -> encode_each f l = encode_each g l.
Proof. induction 1 as [|x l Hx _ IH]; simpl; [done|]. by rewrite Hx, IH. Qed.

Lemma encode_each_ok {A} (f : A -> result PulseError (list Z)) l :
  Forall (fun x => exists b, f x = Ok b) l -> exists b, encode_each f l = Ok b.
Proof. induction 1 as [|x l [b Hb] _ [c Hc]]; simpl; [by eexists|]. rewrite Hb, Hc. by eexists. Qed.

Lemma encode_each_bind {A B} (f : B -> result PulseError (list Z)) (g : A -> list B) l :
  encode_each (fun x => encode_each f (g x)) l = encode_each f (concat (map g l)).
Proof.
  induction l as [|x l IH]; simpl; [done|]. rewrite encode_each_app, IH. done.
Qed.

Lemma encode_field_records field v :
  canonical_field field v = true -> encode_field messages v field = encode_each encode_record (records (field, v)).
Proof.
  unfold canonical_field, canonical_field_with, encode_field, encode_field_with, encode_record.
  destruct (fs_repeated field) eqn:Er.
  - destruct v as [| | | |items|]; try done. intros Hc. simpl. rewrite Er, encode_each_map.
    destruct items; [done|]. apply andb_true_iff in Hc as [Hp _]. by destruct (fs_packable field).
  - intros _. assert (records (field, v) = [(field, v)]) as -> by (unfold records; destruct v; try done; by rewrite Er).
    simpl. destruct (encode_single_field_value messages v field); [simpl; by rewrite app_nil_r|done].
Qed.

Lemma canonical_records field v :
  canonical_field field v = true -> 0 <= fs_number field <= u32_max -> Forall canonical_record (records (field, v)).
Proof.
  unfold canonical_field, canonical_field_with. intros Hc Hn. destruct (fs_repeated field) eqn:Er.
  - destruct v as [| | | |[|item items]|]; try done. apply andb_true_iff in Hc as [Hp Hc]. apply negb_true_iff in Hp.
    unfold records. rewrite Er. apply Forall_map. apply forallb_Forall in Hc. apply (Forall_impl _ _ _ Hc).
    intros x Hx. split; [done|]. simpl. by rewrite Er, Hp.
  - assert (records (field, v) = [(field, v)]) as -> by (unfold records; destruct v; try done; by rewrite Er).
    repeat constructor; simpl; [done|by rewrite Er|lia|lia].
Qed.

(** ** One record decodes *)

Lemma key_reads n wt :
  0 <= n <= u32_max -> 0 <= wt < 8 ->
  reads read_varint (write_key n wt) (n * 8 + wt) /\ Z.shiftr (n * 8 + wt) 3 = n /\ Z.land (n * 8 + wt) 7 = wt.
Proof.
  intros Hn Hw. assert (Z.lor (Z.shiftl n 3) wt = n * 8 + wt) as E.
  { rewrite Z.lor_comm, Z.shiftl_mul_pow2, lor_disjoint by lia. lia. }
  split; [|split].
  - unfold write_key. rewrite E. apply varint_reads. unfold in_range. lia.
  - rewrite Z.shiftr_div_pow2, Z.add_comm by lia. change (2 ^ 3) with 8. rewrite Z.div_add, Z.div_small; lia.
  - change 7 with (Z.ones 3). rewrite Z.land_ones, Z.add_comm by lia. change (2 ^ 3) with 8. rewrite Z.mod_add, Z.mod_small; lia.
Qed.

Lemma encode_single_scalar v field :
  is_packable (fs_kind field) = true ->
  encode_single_field_value messages v field
  = (b ← encode_packable_value (fs_kind field) v; Ok (write_key (fs_number field) (wire_type_of (fs_kind field)) ++ b)).
Proof.
  intros Hp. destruct v, (fs_kind field) eqn:Ek; try done; cbn [encode_single_field_value]; rewrite Ek; cbn [encode_packable_value wire_type_of];
    match goal with |- context [?m ≫= _] => destruct m end; done.
Qed.

Lemma encode_single_message v field name :
  fs_kind field = KMessage name ->
  encode_single_field_value messages v field
  = (b ← encode_message messages name v; Ok (write_key (fs_number field) 2 ++ write_delimited b)).
Proof. intros Ek. destruct v; cbn [encode_single_field_value]; by rewrite Ek. Qed.

Lemma wire_type_bound kind : 0 <= wire_type_of kind < 8.
Proof. destruct kind; simpl; lia. Qed.

Lemma ensure_same wt field : ensure_wire_type wt wt field = Ok tt.
Proof. unfold ensure_wire_type. by rewrite Z.eqb_refl. Qed.

(** Reading the payload of a record, after its key. *)
Definition payload_decodes (nested : string -> list Z -> outcome Value) (p : FieldSchema * Value) (payload : list Z) : Prop :=
  forall pre post, zlen (pre ++ payload ++ post) <= usize_max ->
    decode_single_field_value nested (fst p) (wire_type_of (fs_kind (fst p))) (pre ++ payload ++ post) (zlen pre)
    = Some (Ok (snd p, zlen pre + zlen payload)).

Lemma delimited_size data : zlen data + 1 <= zlen (write_delimited data).
Proof. unfold write_delimited. rewrite zlen_app. pose proof (write_varint_nonempty (zlen data)). lia. Qed.

Lemma record_payload nested p chunk :
  canonical_record p -> encode_record p = Ok chunk -> zlen chunk <= usize_max ->
  (forall name data, fs_kind (fst p) = KMessage name -> encode_message messages name (snd p) = Ok data ->
     zlen data < zlen chunk -> nested name data = Some (Ok (snd p))) ->
  exists payload, chunk = write_key (fs_number (fst p)) (wire_type_of (fs_kind (fst p))) ++ payload
    /\ payload_decodes nested p payload.
Proof.
  destruct p as [field v]. unfold canonical_record, encode_record, payload_decodes. cbn [fst snd].
  intros (Hc & _ & Hn) He Hl Hnested.
  assert (is_packable (fs_kind field) = true \/ fs_kind field = KString \/ (exists name, fs_kind field = KMessage name))
    as [Hp|[Ek|[name Ek]]].
  { destruct (fs_kind field); eauto. destruct v; discriminate Hc. }
  - rewrite encode_single_scalar in He by done. apply bind_Ok in He as (b & Hb & [= <-]). exists b. split; [done|].
    destruct (scalar_reads (fs_kind field) v) as (enc & He' & Hr). { destruct v, (fs_kind field); done. }
    rewrite He' in Hb. injection Hb as ->. intros pre post Hpp. unfold decode_single_field_value. rewrite ensure_same.
    specialize (Hr pre post Hpp). cbn [and_then returned]. destruct (fs_kind field); try discriminate Hp; by rewrite Hr.
  - rewrite Ek in *. destruct v as [| | |s| |]; try discriminate Hc. simpl in Hc. apply bool_decide_eq_true in Hc.
    cbn [encode_single_field_value] in He. rewrite Ek in He. apply bind_Ok in He as (t & [= <-] & [= <-]).
    exists (write_delimited (bytes_of s)). split; [done|]. rewrite zlen_app in Hl. pose proof (delimited_size (bytes_of s)).
    pose proof (zlen_nonneg (write_key (fs_number field) 2)).
    intros pre post Hpp. unfold decode_single_field_value. rewrite Ek, ensure_same. cbn [and_then returned].
    rewrite (ok_bind _ _ _ (delimited_reads (bytes_of s) ltac:(lia) pre post Hpp)). cbn beta iota. by rewrite Hc.
  - rewrite (encode_single_message v field name Ek) in He. rewrite Ek in *. apply bind_Ok in He as (data & Hd & [= <-]).
    exists (write_delimited data). split; [done|]. rewrite zlen_app in Hl. pose proof (delimited_size data).
    pose proof (zlen_nonneg (write_key (fs_number field) 2)).
    intros pre post Hpp. unfold decode_single_field_value. rewrite Ek, ensure_same. cbn [and_then returned].
    rewrite (delimited_reads data ltac:(lia) pre post Hpp). cbn [and_then].
    rewrite (Hnested name data eq_refl Hd) by (rewrite zlen_app; lia). done.
Qed.

(** One turn of the decoding loop. *)
Lemma decode_record nested n schema p chunk pre post out :
  canonical_record p -> encode_record p = Ok chunk ->
  fields_by_number schema !! fs_number (fst p) = Some (fst p) ->
  zlen (pre ++ chunk ++ post) <= usize_max ->
  (forall name data, fs_kind (fst p) = KMessage name -> encode_message messages name (snd p) = Ok data ->
     zlen data < zlen chunk -> nested name data = Some (Ok (snd p))) ->
  decode_fields nested (S n) schema (pre ++ chunk ++ post) (zlen pre) out
  = decode_fields nested n schema (pre ++ chunk ++ post) (zlen (pre ++ chunk))
      (append_decoded_field out (fs_name (fst p)) (snd p) (fs_repeated (fst p))).
Proof.
  intros Hc He Hf Hl Hnested. pose proof (zlen_nonneg pre). pose proof (zlen_nonneg post).
  destruct (record_payload nested p chunk Hc He) as (payload & -> & Hp); [rewrite !zlen_app in *; lia|done|].
  destruct p as [field v]. cbn [fst snd] in *. destruct Hc as (_ & Hr & Hn). cbn [fst snd] in *.
  set (wt := wire_type_of (fs_kind field)) in *. pose proof (wire_type_bound (fs_kind field)) as Hw. fold wt in Hw.
  destruct (key_reads (fs_number field) wt Hn Hw) as (Hk & Hsh & Hla).
  pose proof (write_varint_nonempty (Z.lor (Z.shiftl (fs_number field) 3) wt)) as Hne.
  fold (write_key (fs_number field) wt) in Hne. pose proof (zlen_nonneg payload).
  rewrite <- !app_assoc in *. cbn [decode_fields]. rewrite !zlen_app in *.
  destruct (Z.leb_spec (zlen pre + (zlen (write_key (fs_number field) wt) + (zlen payload + zlen post))) (zlen pre)); [lia|].
  rewrite (Hk pre (payload ++ post)) by (rewrite !zlen_app; lia). cbn [and_then returned]. rewrite Hsh, Hla.
  rewrite (wrapping_small u32_max) by done. rewrite Hf. destruct (fs_repeated field && fs_packable field); [done|]. cbn [andb].
  specialize (Hp (pre ++ write_key (fs_number field) wt) post). rewrite !zlen_app, <- !app_assoc in Hp.
  unfold payload_decodes in Hp. cbn [fst snd] in Hp. fold wt in Hp. rewrite Hp by lia. cbn [and_then].
  by rewrite Z.add_assoc.
Qed.

(** ** All records decode *)

Lemma encode_record_nonempty p chunk : encode_record p = Ok chunk -> 1 <= zlen chunk.
Proof.
  destruct p as [field v]. unfold encode_record. cbn [fst snd].
  assert (forall wt l, 1 <= zlen (write_key (fs_number field) wt ++ l)) as Hk.
  { intros wt l. rewrite zlen_app. pose proof (zlen_nonneg l). unfold write_key.
    pose proof (write_varint_nonempty (Z.lor (Z.shiftl (fs_number field) 3) wt)). lia. }
  destruct (is_packable (fs_kind field)) eqn:Hp.
  - rewrite encode_single_scalar by done. intros Hb. by apply bind_Ok in Hb as (b & _ & [= <-]).
  - destruct (fs_kind field) as [| | | | | | | | |name| | | | | | |] eqn:Ek; try discriminate Hp.
    + intros He. destruct v; cbn [encode_single_field_value] in He; rewrite Ek in He; by apply bind_Ok in He as (bs & _ & [= <-]).
    + rewrite (encode_single_message v field name Ek). intros Hb. by apply bind_Ok in Hb as (b & _ & [= <-]).
    + intros He. destruct v; cbn [encode_single_field_value] in He; rewrite Ek in He; by apply bind_Ok in He as (bs & _ & [= <-]).
Qed.

Lemma encode_records_length ps body : encode_each encode_record ps = Ok body -> Z.of_nat (length ps) <= zlen body.
Proof.
  revert body. induction ps as [|p ps IH]; intros body He; [by injection He as <-|].
  apply bind_Ok in He as (b & Hb & He). apply bind_Ok in He as (c & Hc & [= <-]).
  apply encode_record_nonempty in Hb. apply IH in Hc. rewrite zlen_app. simpl. lia.
Qed.

Definition append_record (out : list (string * Value)) (p : FieldSchema * Value) : list (string * Value) :=
  append_decoded_field out (fs_name (fst p)) (snd p) (fs_repeated (fst p)).

Lemma decode_records nested schema ps pre body n out :
  encode_each encode_record ps = Ok body -> zlen (pre ++ body) <= usize_max -> (length ps <= n)%nat ->
  Forall (fun p => canonical_record p /\ fields_by_number schema !! fs_number (fst p) = Some (fst p)
    /\ forall name data, fs_kind (fst p) = KMessage name -> encode_message messages name (snd p) = Ok data ->
         zlen data < zlen (pre ++ body) -> nested name data = Some (Ok (snd p))) ps ->
  decode_fields nested n schema (pre ++ body) (zlen pre) out = Some (Ok (foldl append_record out ps)).
Proof.
  revert pre body n out. induction ps as [|p ps IH]; intros pre body n out He Hl Hn Hps.
  - injection He as <-. rewrite app_nil_r. destruct n; cbn [decode_fields]; by rewrite Z.leb_refl.
  - apply bind_Ok in He as (chunk & Hb & He). apply bind_Ok in He as (rest & Hc & [= <-]).
    destruct n as [|n]; [simpl in Hn; lia|]. inversion_clear Hps as [|? ? (Hcan & Hf & Hnest) Hps'].
    pose proof (zlen_nonneg pre). pose proof (zlen_nonneg rest).
    rewrite (decode_record nested n schema p chunk pre rest out); try done.
    2:{ intros name data Ek Ed Hd. apply (Hnest name); [done..|]. rewrite !zlen_app in *. lia. }
    rewrite app_assoc in *. apply IH; [done|done|simpl in Hn; lia|]. done.
Qed.

(** ** Fields in the order of their numbers *)

Lemma insert_by_number_perm {A} (x : Z * A) l : insert_by_number x l ≡ₚ x :: l.
Proof. induction l as [|y l IH]; simpl; [done|]. destruct (_ <=? _); [done|]. rewrite IH. apply Permutation_swap. Qed.

Lemma sort_by_number_perm {A} (l : list (Z * A)) : sort_by_number l ≡ₚ l.
Proof. induction l as [|x l IH]; simpl; [done|]. by rewrite insert_by_number_perm, IH. Qed.

Lemma insert_by_number_map {A B} (g : A -> B) (x : Z * A) l :
  insert_by_number (fst x, g (snd x)) (map (fun y => (fst y, g (snd y))) l)
  = map (fun y => (fst y, g (snd y))) (insert_by_number x l).
Proof. induction l as [|y l IH]; simpl; [done|]. destruct (_ <=? _); [done|]. simpl. by rewrite IH. Qed.

Lemma sort_by_number_map {A B} (g : A -> B) (l : list (Z * A)) :
  sort_by_number (map (fun y => (fst y, g (snd y))) l) = map (fun y => (fst y, g (snd y))) (sort_by_number l).
Proof.
  induction l as [|x l IH]; [done|]. change (sort_by_number (x :: l)) with (insert_by_number x (sort_by_number l)).
  rewrite <- insert_by_number_map, <- IH. done.
Qed.

(** The entries of an object with the fields they name. *)
Definition resolve (schema : MessageSchema) (e : string * Value) : option (Z * (FieldSchema * Value)) :=
  field ← field_named schema (fst e); Some (fs_number field, (field, snd e)).

Lemma resolve_entries schema entries :
  Forall (fun e => is_Some (field_named schema (fst e))) entries ->
  map (fun y => (fs_name (fst (snd y)), snd (snd y))) (omap (resolve schema) entries) = entries.
Proof.
  induction 1 as [|[k v] entries [f Hf] _ IH]; [done|]. simpl in Hf. unfold omap, list_omap, resolve in *. simpl. rewrite Hf. simpl.
  rewrite IH. by apply field_named_Some in Hf as (_ & _ & -> & _).
Qed.

Lemma request_fields_resolve name schema F entries :
  Forall (fun e => is_Some (field_named schema (fst e))) entries ->
  request_fields name schema (map (fun '(key, v) => (key, F v)) entries)
  = Ok (map (fun y => (fst y, (fst (snd y), F (snd (snd y))))) (omap (resolve schema) entries)).
Proof.
  induction 1 as [|[k v] entries [f Hf] _ IH]; [done|]. simpl in Hf. unfold omap, list_omap, resolve in *. simpl. rewrite Hf. simpl.
  apply field_named_Some in Hf as (Hn & Hb & _). unfold request_field. rewrite Hn. simpl. rewrite Hb. simpl. by rewrite IH.
Qed.

Definition ordered (schema : MessageSchema) (entries : list (string * Value)) : list (Z * (FieldSchema * Value)) :=
  sort_by_number (omap (resolve schema) entries).

Definition records_of (schema : MessageSchema) (entries : list (string * Value)) : list (FieldSchema * Value) :=
  concat (map (fun y => records (snd y)) (ordered schema entries)).

Definition entries_ok (schema : MessageSchema) (entries : list (string * Value)) : Prop :=
  Forall (fun e => exists field, field_named schema (fst e) = Some field /\ canonical_field field (snd e) = true) entries.

Lemma canonical_message name schema entries :
  messages !! name = Some schema -> canonical (JObject entries) (KMessage name) = true ->
  keys_sorted entries = true /\ entries_ok schema entries.
Proof.
  intros Hs Hc. simpl in Hc. rewrite Hs in Hc. apply andb_true_iff in Hc as [Hk Hc]. split; [done|].
  apply forallb_Forall in Hc. apply (Forall_impl _ _ _ Hc). intros [k v]. simpl.
  destruct (field_named schema k) as [f|]; [|done]. intros Hf. by exists f.
Qed.

Lemma entries_ok_named schema entries : entries_ok schema entries -> Forall (fun e => is_Some (field_named schema (fst e))) entries.
Proof. intros Hok. apply (Forall_impl _ _ _ Hok). intros e (f & Hf & _). by exists f. Qed.

Lemma ordered_fields schema entries :
  entries_ok schema entries ->
  Forall (fun y => canonical_field (fst (snd y)) (snd (snd y)) = true /\ 0 <= fs_number (fst (snd y)) <= u32_max
    /\ fields_by_number schema !! fs_number (fst (snd y)) = Some (fst (snd y))) (ordered schema entries).
Proof.
  intros Hok. apply Forall_forall. intros y Hy. unfold ordered in Hy. rewrite sort_by_number_perm in Hy.
  apply list_elem_of_omap in Hy as (e & He & Hr). unfold entries_ok in Hok. rewrite Forall_forall in Hok.
  destruct (Hok e He) as (f & Hf & Hc). unfold resolve in Hr. rewrite Hf in Hr. injection Hr as <-.
  apply field_named_Some in Hf as (_ & Hb & _ & Hn). done.
Qed.

Lemma encode_message_records name schema entries :
  messages !! name = Some schema -> entries_ok schema entries ->
  encode_message messages name (JObject entries) = encode_each encode_record (records_of schema entries).
Proof.
  intros Hs Hok. unfold encode_message, encode_message_with. rewrite (ok_bind _ _ schema); [|by rewrite Hs].
  rewrite request_fields_resolve by by apply entries_ok_named.
  rewrite (ok_bind _ _ _ eq_refl).
  rewrite (sort_by_number_map (fun p => (fst p, encode_field messages (snd p)))), encode_each_map.
  unfold records_of. rewrite <- encode_each_bind. apply encode_each_ext.
  pose proof (ordered_fields schema entries Hok) as Hf. unfold ordered in *. apply (Forall_impl _ _ _ Hf).
  intros [n [f v]] (Hc & _). simpl in *. by apply encode_field_records.
Qed.

(** ** The decoded object is the encoded one *)

Definition sets (name : string) (v : Value) (out out' : list (string * Value)) : Prop :=
  (keys_sorted out = true -> keys_sorted out' = true)
  /\ forall k, map_get k out' = if String.eqb name k then Some v else map_get k out.

Lemma map_insert_sets name v out : sets name v out (map_insert name v out).
Proof.
  split; [apply map_insert_sorted|]. intros k. destruct (String.eqb_spec name k) as [->|];
    [apply map_get_insert_eq|by apply map_get_insert_ne].
Qed.

Lemma sets_again name v w out1 out2 out3 : sets name v out1 out2 -> sets name w out2 out3 -> sets name w out1 out3.
Proof.
  intros [Hs1 Hg1] [Hs2 Hg2]. split; [auto|]. intros k. rewrite Hg2, Hg1. by destruct (String.eqb name k).
Qed.

Lemma append_items field items existing out :
  fs_repeated field = true -> map_get (fs_name field) out = Some (JArray existing) ->
  items <> [] ->
  sets (fs_name field) (JArray (existing ++ items)) out (foldl append_record out (map (fun item => (field, item)) items)).
Proof.
  intros Hr. revert existing out. induction items as [|item items IH]; intros existing out Hg Hne; [done|].
  cbn [map foldl]. unfold append_record at 2. cbn [fst snd]. unfold append_decoded_field. rewrite Hr, Hg.
  assert (sets (fs_name field) (JArray (existing ++ [item])) out (map_insert (fs_name field) (JArray (existing ++ [item])) out)) as Hi
    by apply map_insert_sets.
  destruct items as [|item' items]; [done|]. eapply sets_again; [exact Hi|].
  replace (existing ++ item :: item' :: items) with ((existing ++ [item]) ++ item' :: items) by by rewrite <- app_assoc.
  apply IH; [apply map_get_insert_eq|done].
Qed.

Lemma append_group field v out :
  canonical_field field v = true -> map_get (fs_name field) out = None ->
  sets (fs_name field) v out (foldl append_record out (records (field, v))).
Proof.
  unfold canonical_field, canonical_field_with. intros Hc Hg. destruct (fs_repeated field) eqn:Er.
  - destruct v as [| | | |[|item items]|]; try done. unfold records. rewrite Er. cbn [map foldl].
    unfold append_record at 2. cbn [fst snd]. unfold append_decoded_field. rewrite Er, Hg.
    pose proof (map_insert_sets (fs_name field) (JArray [item]) out) as Hi. destruct items as [|item' items]; [done|].
    eapply sets_again; [exact Hi|]. apply (append_items field (item' :: items) [item]); [done|apply map_get_insert_eq|done].
  - assert (records (field, v) = [(field, v)]) as -> by (unfold records; destruct v; try done; by rewrite Er).
    cbn [foldl]. unfold append_record, append_decoded_field. cbn [fst snd]. rewrite Er. apply map_insert_sets.
Qed.

Notation named ps := (map (fun y : Z * (FieldSchema * Value) => (fs_name (fst (snd y)), snd (snd y))) ps).

Lemma append_groups (ps : list (Z * (FieldSchema * Value))) out :
  Forall (fun y => canonical_field (fst (snd y)) (snd (snd y)) = true) ps -> NoDup (map fst (named ps)) ->
  Forall (fun k => map_get k out = None) (map fst (named ps)) -> keys_sorted out = true ->
  keys_sorted (foldl append_record out (concat (map (fun y => records (snd y)) ps))) = true
  /\ forall k, map_get k (foldl append_record out (concat (map (fun y => records (snd y)) ps)))
     = match map_get k (named ps) with Some v => Some v | None => map_get k out end.
Proof.
  revert out. induction ps as [|[n [f v]] ps IH]; intros out Hc Hnd Hfresh Hs; [done|]. cbn [map concat] in *. rewrite foldl_app.
  inversion_clear Hc as [|? ? Hf Hc']. inversion_clear Hnd as [|? ? Hnin Hnd']. inversion_clear Hfresh as [|? ? Hg Hfresh'].
  cbn [fst snd] in *. destruct (append_group f v out Hf Hg) as [Hs' Hg'].
  set (out1 := foldl append_record out (records (f, v))) in *.
  destruct (IH out1) as [Hs2 Hg2]; [done|done| |by apply Hs'|].
  { rewrite Forall_forall in *. intros k Hk. rewrite Hg'. destruct (String.eqb_spec (fs_name f) k) as [E|]; [destruct Hnin; by rewrite E|]. by apply Hfresh'. }
  split; [done|]. intros k. rewrite Hg2, Hg'. cbn [map_get]. destruct (String.eqb_spec (fs_name f) k) as [<-|]; [|done].
  destruct (map_get (fs_name f) (named ps)) as [w|] eqn:E; [|done]. exfalso. apply Hnin.
  clear -E. induction ps as [|[n' [f' v']] ps IH]; [done|]. cbn [map map_get fst snd] in *.
  destruct (String.eqb_spec (fs_name f') (fs_name f)) as [->|]; [by left|right; by apply IH].
Qed.

Lemma map_get_elem {A} k v (m : list (string * A)) : NoDup (map fst m) -> map_get k m = Some v <-> (k, v) ∈ m.
Proof.
  induction m as [|[k' v'] m IH]; intros Hnd; [split; [done|by intros ?%elem_of_nil]|].
  inversion_clear Hnd as [|? ? Hnin Hnd']. simpl in *. rewrite elem_of_cons. destruct (String.eqb_spec k' k) as [->|Hne].
  - split; [intros [= ->]; by left|]. intros [[= <-]|Hin]; [done|]. exfalso. apply Hnin. apply elem_of_map. by exists (k, v).
  - rewrite IH by done. split; [by right|]. by intros [[= -> ->]|].
Qed.

Lemma map_get_perm {A} k (m1 m2 : list (string * A)) : m1 ≡ₚ m2 -> NoDup (map fst m1) -> map_get k m1 = map_get k m2.
Proof.
  intros Hp Hnd. assert (NoDup (map fst m2)) as Hnd2 by (by rewrite <- Hp). apply option_eq. intros v.
  by rewrite !map_get_elem, Hp by done.
Qed.

Lemma keys_sorted_NoDup {A} (m : list (string * A)) : keys_sorted m = true -> NoDup (map fst m).
Proof.
  induction m as [|[k v] m IH]; [constructor|]. intros Hs. apply keys_sorted_cons in Hs as [Ha Hs]. constructor; [|by apply IH].
  intros Hin. apply elem_of_map in Hin as ([k' v'] & Hk & Hin). simpl in Hk. subst k'. unfold after in Ha.
  rewrite Forall_forall in Ha. apply Ha in Hin. simpl in Hin. by rewrite str_ltb_irrefl in Hin.
Qed.

Lemma append_records_of schema entries :
  keys_sorted entries = true -> entries_ok schema entries -> foldl append_record [] (records_of schema entries) = entries.
Proof.
  intros Hs Hok. pose proof (keys_sorted_NoDup entries Hs) as Hnd.
  assert (named (ordered schema entries) ≡ₚ entries) as Hp.
  { unfold ordered. rewrite sort_by_number_perm. by rewrite resolve_entries by by apply entries_ok_named. }
  assert (NoDup (map fst (named (ordered schema entries)))) as Hnd' by by rewrite Hp.
  destruct (append_groups (ordered schema entries) []) as [Hs' Hg]; [|done|by apply Forall_forall|done|].
  { pose proof (ordered_fields schema entries Hok) as Hf. apply (Forall_impl _ _ _ Hf). by intros y (? & _). }
  apply keys_sorted_ext; [done..|]. intros k. unfold records_of. rewrite Hg. rewrite (map_get_perm k _ _ Hp Hnd').
  by destruct (map_get k entries).
Qed.

(** ** The round trip *)

Lemma records_of_ok schema entries :
  entries_ok schema entries ->
  Forall (fun p => canonical_record p /\ fields_by_number schema !! fs_number (fst p) = Some (fst p)) (records_of schema entries).
Proof.
  intros Hok. pose proof (ordered_fields schema entries Hok) as Hf. unfold records_of.
  induction (ordered schema entries) as [|[n [f v]] ps IH]; [constructor|]. inversion_clear Hf as [|? ? (Hc & Hn & Hb) Hf'].
  cbn [map concat fst snd] in *. apply Forall_app. split; [|by apply IH]. pose proof (canonical_records f v Hc Hn) as Hr.
  rewrite Forall_forall in *. intros p Hp. split; [by apply Hr|].
  assert (fst p = f) as ->; [|done]. unfold records in Hp. destruct v; try (by apply list_elem_of_singleton in Hp as ->).
  destruct (fs_repeated f); [|by apply list_elem_of_singleton in Hp as ->]. by apply elem_of_map in Hp as (i & -> & _).
Qed.

Lemma decode_nested_encoded depth name v bytes :
  canonical v (KMessage name) = true -> encode_message messages name v = Ok bytes -> zlen bytes <= usize_max ->
  (length bytes < depth)%nat -> decode_nested messages depth name bytes = Some (Ok v).
Proof.
  revert name v bytes. induction depth as [|depth IH]; intros name v bytes Hc He Hl Hd; [lia|].
  destruct (messages !! name) as [schema|] eqn:Es; [|destruct v; simpl in Hc; by rewrite Es in Hc].
  destruct v as [| | | | |entries]; try (simpl in Hc; by rewrite Es in Hc).
  destruct (canonical_message name schema entries Es Hc) as [Hs Hok].
  rewrite (encode_message_records name schema) in He by done. cbn [decode_nested]. rewrite Es. cbn [ok_or returned and_then].
  pose proof (encode_records_length _ _ He) as Hlen.
  rewrite (decode_records (decode_nested messages depth) schema (records_of schema entries) [] bytes (length bytes) [] He);
    [|done|unfold zlen in Hlen; lia|].
  - cbn [and_then]. by rewrite append_records_of.
  - pose proof (records_of_ok schema entries Hok) as Hr. apply (Forall_impl _ _ _ Hr). intros p [Hp Hf]. split; [done|]. split; [done|].
    intros name' data Ek Ed Hsize. simpl in Hsize. destruct Hp as (Hpc & _). rewrite Ek in Hpc. unfold zlen in *.
    apply IH; [done|done|unfold zlen; lia|lia].
Qed.

(** *** Canonical values are encoded *)

Definition encodes (v : Value) : Prop :=
  forall field, canonical v (fs_kind field) = true -> exists b, encode_single_field_value messages v field = Ok b.

Definition encodes_deep (v : Value) : Prop :=
  encodes v /\ match v with JArray items => Forall encodes items | _ => True end.

Lemma encode_field_ok field v :
  encodes_deep v -> canonical_field field v = true -> exists b, encode_each encode_record (records (field, v)) = Ok b.
Proof.
  intros [Hv Hitems] Hc. apply encode_each_ok. unfold canonical_field, canonical_field_with in Hc.
  destruct (fs_repeated field) eqn:Er.
  - destruct v as [| | | |[|item items]|]; try done. unfold records. rewrite Er. apply andb_true_iff in Hc as [_ Hc].
    apply forallb_Forall in Hc. apply Forall_map. rewrite Forall_forall in *. intros i Hi. by apply Hitems, Hc.
  - assert (records (field, v) = [(field, v)]) as -> by (unfold records; destruct v; try done; by rewrite Er).
    repeat constructor. by apply Hv.
Qed.

Lemma encode_object_ok name schema entries :
  messages !! name = Some schema -> entries_ok schema entries -> Forall (fun e => encodes_deep (snd e)) entries ->
  exists b, encode_message messages name (JObject entries) = Ok b.
Proof.
  intros Hs Hok Hdeep. rewrite (encode_message_records name schema) by done. unfold records_of. rewrite <- encode_each_bind.
  apply encode_each_ok. apply Forall_forall. intros y Hy. pose proof (ordered_fields schema entries Hok) as Hf.
  rewrite Forall_forall in Hf. rewrite Forall_forall in Hdeep. destruct (Hf y Hy) as (Hc & _). unfold ordered in Hy. rewrite sort_by_number_perm in Hy.
  apply list_elem_of_omap in Hy as (e & He & Hr). unfold resolve in Hr. destruct (field_named schema (fst e)) as [f|]; [|done].
  injection Hr as <-. cbn [fst snd] in *. apply encode_field_ok; [by apply Hdeep|done].
Qed.

Lemma encodes_scalar v : (forall kind, canonical v kind = true -> canonical_scalar kind v = true) -> encodes v.
Proof.
  intros Hv field Hc. destruct (scalar_reads (fs_kind field) v (Hv _ Hc)) as (enc & He & _).
  assert (is_packable (fs_kind field) = true) as Hp by (specialize (Hv _ Hc); by destruct (fs_kind field)).
  rewrite encode_single_scalar, He by done. by eexists.
Qed.

Lemma canonical_encodes v : encodes_deep v.
Proof.
  induction v as [|b|n|s|items IH|entries IH] using Value_nested_ind.
  1-3: split; [|done]; apply encodes_scalar; intros kind Hc; destruct kind; try done; simpl in Hc; by case_match.
  - split; [|done]. intros field Hc. destruct (fs_kind field) eqn:Ek; try done; simpl in Hc; try (by case_match).
    cbn [encode_single_field_value]. rewrite Ek. by eexists.
  - split; [|apply (Forall_impl _ _ _ IH); by intros v [? _]].
    apply encodes_scalar. intros kind Hc; destruct kind; try done; simpl in Hc; by case_match.
  - split; [|done]. intros field Hc. destruct (fs_kind field) as [| | | | | | | | |name| | | | | | |] eqn:Ek; try done.
    rewrite (encode_single_message _ field name Ek). destruct (messages !! name) as [schema|] eqn:Es; [|simpl in Hc; by rewrite Es in Hc].
    destruct (canonical_message name schema entries Es Hc) as [_ Hok].
    destruct (encode_object_ok name schema entries Es Hok IH) as [b Hb]. rewrite Hb. by eexists.
Qed.

(** C35: a JSON object that is canonical for a message of the registry (keys are
    field names, scalars are in the form the decoder gives them, strings are valid
    text, repeated fields are neither packed nor empty, messages nest to any
    depth) is encoded, and unless the encoding is longer than memory can hold, it
    decodes back to the very same object. *)
Theorem message_roundtrip name v :
  canonical v (KMessage name) = true ->
  exists bytes, encode_message messages name v = Ok bytes
    /\ (zlen bytes <= usize_max -> decode_message messages name bytes = Some (Ok v)).
Proof.
  intros Hc. destruct (messages !! name) as [schema|] eqn:Es; [|destruct v; simpl in Hc; by rewrite Es in Hc].
  destruct v as [| | | | |entries]; try (simpl in Hc; by rewrite Es in Hc).
  destruct (canonical_message name schema entries Es Hc) as [_ Hok].
  destruct (encode_object_ok name schema entries Es Hok) as [bytes He].
  { apply Forall_forall. intros e _. apply canonical_encodes. }
  exists bytes. split; [done|]. intros Hl. apply decode_nested_encoded; try done. lia.
Qed.
End roundtrip.

(** ** Samples *)

Section sample.
#[local] Instance no_base64 : Base64 := {| b64_encode _ := "AA=="; b64_decode _ := Err "unused" |}.
#[local] Instance plain_text : JsonText := {| show_value _ := "value"; show_number _ := "number" |}.

Definition field_list (l : list FieldSchema) : MessageSchema :=
  mkMessage (list_to_map (map (fun f => (fs_name f, fs_number f)) l)) (list_to_map (map (fun f => (fs_number f, f)) l)).

Definition sample_messages : MessageRegistry :=
  {[ "shop.Order" := field_list [
       mkField "id" 1 false false KString; mkField "total" 2 false true KSInt64; mkField "lines" 3 true false (KMessage "shop.Line");
       mkField "paid" 4 false true KBool; mkField "codes" 5 true true KInt32 ];
     "shop.Line" := field_list [ mkField "sku" 1 false false KString; mkField "price" 2 false true KDouble ] ]}.

Definition sample_order : Value :=
  JObject [ ("id", JString "o-1");
            ("lines", JArray [JObject [("price", JNumber (Float (f64_of_Z 3))); ("sku", JString "a")]; JObject [("sku", JString "b")]]);
            ("paid", JBool true); ("total", JNumber (NegInt (-70000))) ].

Lemma message_roundtrip_witness :
  exists bytes, encode_message sample_messages "shop.Order" sample_order = Ok bytes
    /\ (zlen bytes <= usize_max -> decode_message sample_messages "shop.Order" bytes = Some (Ok sample_order)).
Proof. apply message_roundtrip. by vm_compute. Defined.

(** The elements of a packed repeated field are decoded into an array of
    their own inside the array of the field: the codes [1, 2] are sent, and the
    decoder reads [[1, 2]] back. *)
Example packed_field_decodes_nested :
  let sent := JObject [("codes", JArray [JNumber (PosInt 1); JNumber (PosInt 2)])] in
  exists bytes, encode_message sample_messages "shop.Order" sent = Ok bytes
    /\ decode_message sample_messages "shop.Order" bytes
       = Some (Ok (JObject [("codes", JArray [JArray [JNumber (PosInt 1); JNumber (PosInt 2)]])])).
Proof. exists [42; 2; 1; 2]. split; by vm_compute. Qed.
End sample.
