(* ===== verification/Gateway.v ===== *)
(** * The descriptor-backed gateway

    [src/src/infrastructure/grpc/dynamic_gateway.rs] around the codec ([Wire]):
    message and method registries loaded from a descriptor set, and the gateway
    port built on them. The file system, the descriptor decoder ([prost]) and the
    gRPC client ([tonic]) are parameters. *)

From S2P Require Import Prelude RustStr F64 Contracts Domain Wire WireCodec.

(** ** Descriptor sets, the fields the gateway reads *)

Record FieldDescriptorProto := mkFieldDescriptor {
  fd_name : option string;
  fd_number : option Z;
  fd_label : option Z;
  fd_type : option Z;
  fd_type_name : option string;
  fd_json_name : option string;
}.

Inductive DescriptorProto :=
| mkDescriptor (desc_name : option string) (desc_field : list FieldDescriptorProto) (nested_type : list DescriptorProto).

Record MethodDescriptorProto := mkMethodDescriptor {
  md_name : option string;
  md_input_type : option string;
  md_output_type : option string;
  md_client_streaming : option bool;
  md_server_streaming : option bool;
}.

Record ServiceDescriptorProto := mkServiceDescriptor {
  sd_name : option string;
  sd_method : list MethodDescriptorProto;
}.

Record FileDescriptorProto := mkFileDescriptor {
  file_package : option string;
  file_message_type : list DescriptorProto;
  file_service : list ServiceDescriptorProto;
}.

(** [Type::try_from], by the numbers of [descriptor.proto]. *)
Inductive FieldType :=
| TDouble | TFloat | TInt64 | TUint64 | TInt32 | TFixed64 | TFixed32 | TBool | TString | TGroup | TMessage
| TBytes | TUint32 | TEnum | TSfixed32 | TSfixed64 | TSint32 | TSint64.

Definition field_type_of (z : Z) : option FieldType :=
  if z <? 1 then None else
  [TDouble; TFloat; TInt64; TUint64; TInt32; TFixed64; TFixed32; TBool; TString; TGroup; TMessage;
   TBytes; TUint32; TEnum; TSfixed32; TSfixed64; TSint32; TSint64] !! Z.to_nat (z - 1).

(** ** Registries *)

Record MethodMeta := mkMethodMeta {
  route_path : string;
  client_streaming : bool;
  server_streaming : bool;
  input_type : string;
  output_type : string;
}.

Abbreviation MethodRegistry := (gmap (string * string) MethodMeta).

Fixpoint trim_start_dots (s : string) : string :=
  match s with String "." r => trim_start_dots r | _ => s end.

Definition normalize_name (value : string) : string := trim_start_dots value.

Definition map_field_kind (field_type : FieldType) (type_name : option string) : result PulseError FieldKind :=
  match field_type with
  | TDouble => Ok KDouble
  | TFloat => Ok KFloat
  | TInt64 => Ok KInt64
  | TUint64 => Ok KUInt64
  | TInt32 => Ok KInt32
  | TFixed64 => Ok KFixed64
  | TFixed32 => Ok KFixed32
  | TBool => Ok KBool
  | TString => Ok KString
  | TGroup => Err (Client "protobuf groups are not supported")
  | TMessage => Ok (KMessage (normalize_name (default EmptyString type_name)))
  | TBytes => Ok KBytes
  | TUint32 => Ok KUInt32
  | TEnum => Ok KEnum
  | TSfixed32 => Ok KSFixed32
  | TSfixed64 => Ok KSFixed64
  | TSint32 => Ok KSInt32
  | TSint64 => Ok KSInt64
  end.

(** One field descriptor, added to the schema of its message. *)
Definition collect_field (full_name : string) (schema : MessageSchema) (field : FieldDescriptorProto)
    : result PulseError MessageSchema :=
  let field_name := default EmptyString (fd_name field) in
  if blank field_name then Ok schema else
  let number := default 0 (fd_number field) in
  if number <=? 0 then Ok schema else
  let repeated := default 0 (fd_label field) =? 3 in
  field_type ← ok_or (field_type_of (default 0 (fd_type field)))
    (Client ("unsupported field type for " +:+ full_name +:+ "." +:+ field_name));
  kind ← map_field_kind field_type (fd_type_name field);
  let by_name := <[field_name := number]> (fields_by_name schema) in
  let by_name := match fd_json_name field with
                 | Some json_name => if blank json_name then by_name else <[json_name := number]> by_name
                 | None => by_name
                 end in
  Ok (mkMessage by_name
        (<[number := mkField field_name number repeated (is_packable kind) kind]> (fields_by_number schema))).

Definition full_message_name (package : string) (parent : option string) (name : string) : string :=
  match parent with
  | Some parent_name => parent_name +:+ "." +:+ name
  | None => if str_is_empty package then name else package +:+ "." +:+ name
  end.

(** One descriptor and those nested in it. *)
Fixpoint collect_message (package : string) (parent : option string) (out : MessageRegistry) (desc : DescriptorProto)
    {struct desc} : result PulseError MessageRegistry :=
  let '(mkDescriptor desc_name desc_field nested_type) := desc in
  match desc_name with
  | None => Ok out
  | Some name =>
      if blank name then Ok out else
      let full_name := full_message_name package parent name in
      schema ← try_fold (collect_field full_name) (mkMessage ∅ ∅) desc_field;
      match out !! full_name with
      | Some _ => Err (Client ("duplicate message in descriptor set: " +:+ full_name))
      | None => try_fold (fun out d => collect_message package (Some full_name) out d) (<[full_name := schema]> out) nested_type
      end
  end.

Definition collect_messages (package : string) (parent : option string) (out : MessageRegistry)
    (descriptors : list DescriptorProto) : result PulseError MessageRegistry :=
  try_fold (collect_message package parent) out descriptors.

(** One method of a service. *)
Definition collect_method (messages : MessageRegistry) (full_service_name : string) (methods : MethodRegistry)
    (method : MethodDescriptorProto) : result PulseError MethodRegistry :=
  match md_name method with
  | None => Ok methods
  | Some method_name =>
      if blank method_name then Ok methods else
      let input := normalize_name (default EmptyString (md_input_type method)) in
      let output := normalize_name (default EmptyString (md_output_type method)) in
      let missing (which type_name : string) : PulseError :=
        Client (which +:+ " type '" +:+ type_name +:+ "' for " +:+ full_service_name +:+ "/" +:+ method_name
                +:+ " not found in descriptor set") in
      match messages !! input with
      | None => Err (missing "input" input)
      | Some _ =>
          match messages !! output with
          | None => Err (missing "output" output)
          | Some _ =>
              let meta := mkMethodMeta ("/" +:+ full_service_name +:+ "/" +:+ method_name)
                (default false (md_client_streaming method)) (default false (md_server_streaming method)) input output in
              match methods !! (full_service_name, method_name) with
              | Some _ =>
                  Err (Client ("duplicate method in descriptor set: " +:+ full_service_name +:+ "/" +:+ method_name))
              | None => Ok (<[(full_service_name, method_name) := meta]> methods)
              end
          end
      end
  end.

Definition collect_service (messages : MessageRegistry) (package : string) (methods : MethodRegistry)
    (service : ServiceDescriptorProto) : result PulseError MethodRegistry :=
  match sd_name service with
  | None => Ok methods
  | Some service_name =>
      if blank service_name then Ok methods else
      let full_service_name := if str_is_empty package then service_name else package +:+ "." +:+ service_name in
      try_fold (collect_method messages full_service_name) methods (sd_method service)
  end.

Definition collect_file (registries : MethodRegistry * MessageRegistry) (file : FileDescriptorProto)
    : result PulseError (MethodRegistry * MessageRegistry) :=
  let '(methods, messages) := registries in
  let package := default EmptyString (file_package file) in
  messages ← collect_messages package None messages (file_message_type file);
  methods ← try_fold (collect_service messages package) methods (file_service file);
  Ok (methods, messages).

Section load.
(** [fs::read] and [FileDescriptorSet::decode]; an error is its text. *)
Variable read_file : string -> result string (list Z).
Variable decode_descriptor_set : list Z -> result string (list FileDescriptorProto).

Definition load_schema (path : string) : result PulseError (MethodRegistry * MessageRegistry) :=
  bytes ← map_err (fun e => Client ("failed to read descriptor set '" +:+ path +:+ "': " +:+ e)) (read_file path);
  files ← map_err (fun e => Client ("failed to decode descriptor set '" +:+ path +:+ "' as FileDescriptorSet: " +:+ e))
    (decode_descriptor_set bytes);
  '(methods, messages) ← try_fold collect_file (∅, ∅) files;
  if bool_decide (methods = ∅)
  then Err (Client ("descriptor set '" +:+ path +:+ "' does not contain any service methods"))
  else Ok (methods, messages).
End load.

(** ** The gateway *)

(** [tonic::Status]: its code and its texts. *)
Record Status := mkStatus {
  status_code : Z;
  status_code_text : string;
  status_text : string;
}.

(** The gRPC client: parsing a route path, readiness of the channel, and a
    unary call under a timeout ([None] when it elapses). *)
Record GrpcClient (W : Type) := mkClient {
  parse_path : string -> result string string;
  channel_ready : W -> result string unit * W;
  client_unary : duration -> list Z -> string -> W -> option (result Status (list Z)) * W;
}.
Arguments parse_path {W}.
Arguments channel_ready {W}.
Arguments client_unary {W}.

(** [tonic::Code::DeadlineExceeded]. *)
Definition deadline_exceeded : Z := 4.

Section gateway.
Context `{Base64} `{JsonText} {W : Type}.
Variable client : GrpcClient W.
Variable methods : MethodRegistry.
Variable messages : MessageRegistry.
Variable request_timeout : duration.

Definition method_meta (service method : string) : result PulseError MethodMeta :=
  ok_or (methods !! (normalize_name service, method))
    (Client ("method not found in descriptor set: " +:+ normalize_name service +:+ "/" +:+ method)).

Definition is_streaming (meta : MethodMeta) : bool := client_streaming meta || server_streaming meta.

Definition dynamic_unary (input : DynamicGrpcRequest) (w : W) : result PulseError DynamicGrpcResponse * W :=
  let name := req_service input +:+ "/" +:+ req_method input in
  match method_meta (req_service input) (req_method input) with
  | Err e => (Err e, w)
  | Ok meta =>
      if is_streaming meta then (Err (Client ("method " +:+ name +:+ " is streaming; only unary is supported")), w) else
      match parse_path client (route_path meta) with
      | Err e => (Err (Client ("invalid grpc route path: " +:+ e)), w)
      | Ok path =>
          match channel_ready client w with
          | (Err e, w) => (Err (TargetTransport ("dynamic grpc client not ready for " +:+ name +:+ ": " +:+ e)), w)
          | (Ok _, w) =>
              match client_unary client request_timeout (req_payload input) path w with
              | (None, w) => (Err (RequestTimeout ("grpc:" +:+ name)), w)
              | (Some (Err status), w) =>
                  (Err (if status_code status =? deadline_exceeded then RequestTimeout ("grpc:" +:+ name)
                        else TargetStatus (status_code_text status)
                               ("dynamic grpc call " +:+ name +:+ " failed: " +:+ status_text status)), w)
              | (Some (Ok payload), w) => (Ok (mkGrpcResponse payload), w)
              end
          end
      end
  end.

Definition dynamic_validate (service method : string) : result PulseError unit :=
  meta ← method_meta service method;
  reject_if (is_streaming meta)
    (InvalidScenario ("method " +:+ service +:+ "/" +:+ method +:+ " is streaming; only unary methods are supported")).

Definition dynamic_encode (service method : string) (fields : Value) : result PulseError (list Z) :=
  meta ← method_meta service method; encode_message messages (input_type meta) fields.

(** Decoding always ends ([decode_nested_ends]), so the default is not used. *)
Definition dynamic_decode (service method : string) (payload : list Z) : result PulseError Value :=
  meta ← method_meta service method;
  default (Err (InvariantViolation "decoding did not end")) (decode_message messages (output_type meta) payload).

Definition DescriptorBackedGrpcGateway : DynamicGrpcGateway W :=
  mkGateway W dynamic_unary dynamic_validate dynamic_encode dynamic_decode.
End gateway.

(** ** Loaded registries are well formed *)

Lemma try_fold_inv {E S A} (f : S -> A -> result E S) (P : S -> Prop) s l s' :
  P s -> Forall (fun a => forall s0 s1, P s0 -> f s0 a = Ok s1 -> P s1) l -> try_fold f s l = Ok s' -> P s'.
Proof.
  intros Hs Hl. revert s Hs. induction Hl as [|a l Ha _ IH]; intros s Hs Hf; [by injection Hf as <-|].
  simpl in Hf. apply bind_Ok in Hf as (s1 & H1 & Hf). by eapply IH; [eapply Ha|].
Qed.

(** Every field is filed under its own number, and every name leads to a field. *)
Definition schema_wf (schema : MessageSchema) : Prop :=
  (forall n f, fields_by_number schema !! n = Some f ->
     fs_number f = n /\ 1 <= n /\ blank (fs_name f) = false /\ fs_packable f = is_packable (fs_kind f))
  /\ forall k n, fields_by_name schema !! k = Some n -> is_Some (fields_by_number schema !! n).

Lemma collect_field_wf full_name schema field schema' :
  schema_wf schema -> collect_field full_name schema field = Ok schema' -> schema_wf schema'.
Proof.
  intros [Hnum Hname]. unfold collect_field. destruct (blank _) eqn:Eb; [by intros [= <-]|].
  destruct (Z.leb_spec (default 0 (fd_number field)) 0) as [|Hpos]; [by intros [= <-]|].
  intros Hf. apply bind_Ok in Hf as (t & _ & Hf). apply bind_Ok in Hf as (kind & _ & [= <-]).
  set (number := default 0 (fd_number field)) in *. split; cbn [fields_by_number fields_by_name].
  - intros n f. rewrite lookup_insert_Some. intros [[<- <-]|[_ Hf]]; [|by apply Hnum]. cbn. split; [done|]. split; [lia|done].
  - intros k n Hk. assert (n = number \/ fields_by_name schema !! k = Some n) as [->|Hold].
    { destruct (fd_json_name field) as [j|]; [destruct (blank j)|]; rewrite ?lookup_insert_Some in Hk; naive_solver. }
    + rewrite lookup_insert_eq. by eexists.
    + destruct (decide (n = number)) as [->|]; [rewrite lookup_insert_eq; by eexists|].
      rewrite lookup_insert_ne by done. by eapply Hname.
Qed.

Lemma DescriptorProto_nested_ind (P : DescriptorProto -> Prop) :
  (forall name fields nested, Forall P nested -> P (mkDescriptor name fields nested)) -> forall d, P d.
Proof. intros HP. fix IH 1. intros [name fields nested]. apply HP. induction nested; by constructor. Qed.

Definition messages_wf (messages : MessageRegistry) : Prop := map_Forall (fun _ schema => schema_wf schema) messages.

(** Every message of the one is a message of the other. *)
Definition extends (out out' : MessageRegistry) : Prop := forall t, is_Some (out !! t) -> is_Some (out' !! t).

Lemma collect_message_wf desc package parent out out' :
  messages_wf out -> collect_message package parent out desc = Ok out' -> messages_wf out' /\ extends out out'.
Proof.
  revert package parent out out'. induction desc as [name fields nested IH] using DescriptorProto_nested_ind.
  intros package parent out out' Hout. cbn [collect_message].
  destruct name as [name|]; [|intros [= <-]; by split; [|intros t]].
  destruct (blank name); [intros [= <-]; by split; [|intros t]|]. intros Hc. apply bind_Ok in Hc as (schema & Hs & Hc).
  destruct (out !! _) eqn:El; [done|]. assert (schema_wf schema) as Hwf.
  { eapply (try_fold_inv _ schema_wf); [| |exact Hs]; [split; cbn [fields_by_number fields_by_name]; intros ??; by rewrite lookup_empty|].
    apply Forall_forall. intros a _ s0 s1. by apply collect_field_wf. }
  eapply (try_fold_inv _ (fun o => messages_wf o /\ extends out o)); [| |exact Hc].
  - split; [by apply map_Forall_insert_2|]. intros t Ht. destruct (decide (t = full_message_name package parent name)) as [->|].
    + rewrite lookup_insert_eq. by eexists.
    + by rewrite lookup_insert_ne.
  - apply (Forall_impl _ _ _ IH). intros d Hd s0 s1 [Hs0 Hsub] H1. apply Hd in H1 as [? ?]; [split; [done|unfold extends in *; auto]|done].
Qed.

Definition methods_wf (messages : MessageRegistry) (methods : MethodRegistry) : Prop :=
  map_Forall (fun key meta => route_path meta = "/" +:+ fst key +:+ "/" +:+ snd key
    /\ is_Some (messages !! input_type meta) /\ is_Some (messages !! output_type meta)) methods.

Lemma methods_wf_mono messages messages' methods :
  methods_wf messages methods -> extends messages messages' -> methods_wf messages' methods.
Proof.
  intros Hm Hsub key meta Hk. destruct (Hm key meta Hk) as (Hr & Hi & Ho). by auto.
Qed.

Lemma collect_method_wf messages service methods method methods' :
  methods_wf messages methods -> collect_method messages service methods method = Ok methods' -> methods_wf messages methods'.
Proof.
  intros Hm. unfold collect_method. destruct (md_name method) as [name|]; [|by intros [= <-]].
  destruct (blank name); [by intros [= <-]|]. destruct (messages !! normalize_name (default EmptyString (md_input_type method))) eqn:Ei; [|done].
  destruct (messages !! normalize_name (default EmptyString (md_output_type method))) eqn:Eo; [|done].
  destruct (methods !! _); [done|]. intros [= <-]. apply map_Forall_insert_2; [|done]. cbn. rewrite Ei, Eo. split; [done|split; by eexists].
Qed.

Lemma collect_file_wf methods messages file methods' messages' :
  messages_wf messages /\ methods_wf messages methods -> collect_file (methods, messages) file = Ok (methods', messages') ->
  messages_wf messages' /\ methods_wf messages' methods'.
Proof.
  intros [Hms Hme] Hc. apply bind_Ok in Hc as (m1 & H1 & Hc). apply bind_Ok in Hc as (me1 & H2 & [= <- <-]).
  assert (messages_wf m1 /\ extends messages m1) as [Hm1 Hsub].
  { eapply (try_fold_inv _ (fun o => messages_wf o /\ extends messages o)); [split; [done|by intros t]| |exact H1].
    apply Forall_forall. intros d _ s0 s1 [Hs0 Hs] Hd. apply collect_message_wf in Hd as [? ?]; [split; [done|unfold extends in *; auto]|done]. }
  split; [done|]. eapply (try_fold_inv _ (methods_wf m1)); [by eapply methods_wf_mono| |exact H2].
  apply Forall_forall. intros s _ s0 s1 Hs0 Hs. unfold collect_service in Hs. destruct (sd_name s) as [name|]; [|by injection Hs as <-].
  destruct (blank name); [by injection Hs as <-|]. eapply (try_fold_inv _ (methods_wf m1)); [exact Hs0| |exact Hs].
  apply Forall_forall. intros m _ s2 s3. by apply collect_method_wf.
Qed.

(** C37: what [load_schema] accepts is well typed: there is a method, every method
    is routed by its own service and name and its request and response types are
    messages of the registry, every field of every message is filed under its own
    positive number with the packing of its kind, and every name and JSON name
    leads to a field. *)
Theorem loaded_schema_is_well_formed read_file decode_set path methods messages :
  load_schema read_file decode_set path = Ok (methods, messages) ->
  methods <> ∅ /\ methods_wf messages methods /\ messages_wf messages.
Proof.
  intros Hl. apply bind_Ok in Hl as (bytes & _ & Hl). apply bind_Ok in Hl as (files & _ & Hl).
  apply bind_Ok in Hl as ([me ms] & Hf & Hl). case_bool_decide as Hne; [done|]. injection Hl as <- <-.
  assert (messages_wf (snd (me, ms)) /\ methods_wf (snd (me, ms)) (fst (me, ms))) as [? ?]; [|done].
  eapply (try_fold_inv _ (fun r => messages_wf (snd r) /\ methods_wf (snd r) (fst r))); [| |exact Hf].
  - split; apply map_Forall_empty.
  - apply Forall_forall. intros file _ [m0 g0] [m1 g1]. apply collect_file_wf.
Qed.

(** ** A sample *)

Definition sample_files : list FileDescriptorProto :=
  [mkFileDescriptor (Some "shop")
     [mkDescriptor (Some "Order")
        [mkFieldDescriptor (Some "id") (Some 1) (Some 1) (Some 9) None (Some "id");
         mkFieldDescriptor (Some "lines") (Some 2) (Some 3) (Some 11) (Some ".shop.Order.Line") (Some "lines")]
        [mkDescriptor (Some "Line") [mkFieldDescriptor (Some "sku") (Some 1) (Some 1) (Some 9) None None] []]]
     [mkServiceDescriptor (Some "Orders")
        [mkMethodDescriptor (Some "Create") (Some ".shop.Order") (Some ".shop.Order") None None]]].

Definition sample_schema : result PulseError (MethodRegistry * MessageRegistry) :=
  load_schema (fun _ => Ok []) (fun _ => Ok sample_files) "shop.pb".

Lemma sample_schema_loads : is_ok sample_schema = true.
Proof. by vm_compute. Qed.

Lemma loaded_schema_is_well_formed_witness :
  exists methods messages, sample_schema = Ok (methods, messages) /\ methods_wf messages methods /\ messages_wf messages.
Proof.
  pose proof sample_schema_loads as Hok. remember sample_schema as loaded eqn:E. destruct loaded as [[methods messages]|e].
  - exists methods, messages. split; [reflexivity|]. exact (proj2 (loaded_schema_is_well_formed _ _ _ _ _ (eq_sym E))).
  - discriminate Hok.
Defined.
