(* ===== verification/Template.v ===== *)
(** * Templates

    [src/src/application/template.rs]: text and JSON templates over the variables of
    a scenario, and the paths that read values out of responses. Random values
    come from the outside world [W] through an interface. *)

From S2P Require Import Prelude RustStr F64 Contracts Domain Wire.

(** ** Random values *)

(** [Uuid::new_v4] and [rand]'s inclusive [random_range]. *)
Class Generators (W : Type) := {
  new_uuid : W -> string * W;
  random_range : Z -> Z -> W -> Z * W;
}.

Section template.
Context {W : Type} `{Generators W} `{JsonText}.

(** A computation that may fail and draws random values. *)
Definition drawing (A : Type) := W -> result PulseError A * W.

#[local] Instance drawing_ret : MRet drawing := fun _ a w => (Ok a, w).
#[local] Instance drawing_bind : MBind drawing := fun _ _ f m w =>
  match m w with (Ok a, w') => f a w' | (Err e, w') => (Err e, w') end.

Definition lift {A} (m : result PulseError A) : drawing A := fun w => (m, w).
Definition draw {A} (f : W -> A * W) : drawing A := fun w => let '(a, w') := f w in (Ok a, w').

Definition generate_phone : drawing string :=
  n1 ← draw (random_range 200 998);
  n2 ← draw (random_range 100 998);
  n3 ← draw (random_range 1000 9998);
  mret ("+1" +:+ show n1 +:+ show n2 +:+ show n3).

Definition generate_int (expr args : string) : drawing string :=
  let invalid {A} : drawing A := lift (Err (Client ("invalid generator expression: " +:+ expr))) in
  match split_char ":" args with
  | [] => invalid
  | min :: parts =>
      min ← lift (ok_or (parse_int i64_max min) (Client ("invalid int min in expression: " +:+ expr)));
      match parts with
      | [] => invalid
      | max :: parts =>
          max ← lift (ok_or (parse_int i64_max max) (Client ("invalid int max in expression: " +:+ expr)));
          match parts with
          | _ :: _ => invalid
          | [] =>
              if max <? min then lift (Err (Client ("invalid generator bounds in '" +:+ expr +:+ "': min > max")))
              else value ← draw (random_range min max); mret (show value)
          end
      end
  end.

Definition evaluate_template_expr (expr : string) (ctx : ScenarioContext) : drawing string :=
  match strip_prefix "ctx." expr with
  | Some key => lift (ok_or (context_get key ctx) (MissingContextVar key))
  | None =>
      if bool_decide (expr = "gen.uuid") then draw new_uuid
      else if bool_decide (expr = "gen.phone") then generate_phone
      else match strip_prefix "gen.int:" expr with
           | Some args => generate_int expr args
           | None => lift (Err (Client ("unsupported template expression: " +:+ expr)))
           end
  end.

(** The rest of the input after [cursor], which moves on with every turn. *)
Fixpoint render_from (turns : nat) (input : string) (ctx : ScenarioContext) (rest : string) : drawing string :=
  match split_once "${" rest with
  | None => mret rest
  | Some (literal, tail) =>
      match turns, split_once "}" tail with
      | S turns', Some (expr, rest') =>
          resolved ← evaluate_template_expr (trim expr) ctx;
          out ← render_from turns' input ctx rest';
          mret (literal +:+ resolved +:+ out)
      | _, _ => lift (Err (Client ("unterminated template expression in '" +:+ input +:+ "'")))
      end
  end.

Definition render_string_template (input : string) (ctx : ScenarioContext) : drawing string :=
  render_from (String.length input) input ctx input.

Fixpoint each {A B} (f : A -> drawing B) (l : list A) : drawing (list B) :=
  match l with
  | [] => mret []
  | a :: l' => b ← f a; bs ← each f l'; mret (b :: bs)
  end.

Fixpoint render_json_templates (value : Value) (ctx : ScenarioContext) {struct value} : drawing Value :=
  match value with
  | JObject entries =>
      out ← each (fun '(k, v) => v' ← render_json_templates v ctx; mret (k, v')) entries; mret (JObject out)
  | JArray items => out ← each (fun item => render_json_templates item ctx) items; mret (JArray out)
  | JString s => out ← render_string_template s ctx; mret (JString out)
  | JNumber n => mret (JNumber n)
  | JBool b => mret (JBool b)
  | JNull => mret JNull
  end.

Fixpoint extract_segments (current : Value) (segments : list string) : option Value :=
  match segments with
  | [] => Some current
  | segment :: segments' =>
      match current with
      | JObject entries => next ← map_get segment entries; extract_segments next segments'
      | _ => None
      end
  end.

Definition extract_path (value : Value) (path : string) : option Value :=
  if blank path then Some value else extract_segments value (split_char "." path).

Definition value_to_context_string (value : Value) : result PulseError string :=
  match value with
  | JString s => Ok s
  | JNumber n => Ok (show_number n)
  | JBool b => Ok (show_bool b)
  | JNull => Err (Client "cannot store null response value in context")
  | JObject _ | JArray _ => Ok (show_value value)
  end.
End template.
