(* ===== verification/Steps.v ===== *)
(** * gRPC steps

    [src/src/application/steps.rs]: a step renders its request, calls the gateway of
    its endpoint, and stores what it extracts from the response in the context of
    the scenario. *)

From S2P Require Import Prelude RustStr F64 Contracts Domain Wire WireCodec WireRoundtrip Gateway Template.

Inductive GrpcRequestSpec :=
| RequestEmpty
| StaticBase64Template (template : string)
| FieldTemplate (template : Value).

(** [extraction] lists the entries of the map in its iteration order. *)
Record DynamicGrpcStep := mkGrpcStep {
  gs_name : string;
  gs_endpoint_override : option string;
  gs_service : string;
  gs_method : string;
  gs_request_spec : GrpcRequestSpec;
  gs_extraction : list (string * string);
  gs_response_payload_context_key : option string;
}.

Definition DynamicGrpcStep_new (endpoint_override : option string) (service method : string) (request_spec : GrpcRequestSpec)
    (extraction : list (string * string)) (response_payload_context_key : option string) : DynamicGrpcStep :=
  mkGrpcStep ("grpc:" +:+ service +:+ "/" +:+ method) endpoint_override service method request_spec extraction
    response_payload_context_key.

(** [sort_by] on the keys, which are distinct. *)
Fixpoint insert_by_key (x : string * string) (l : list (string * string)) : list (string * string) :=
  match l with
  | [] => [x]
  | y :: l' => if str_ltb (fst x) (fst y) then x :: l else y :: insert_by_key x l'
  end.

Section steps.
Context {W : Type} `{Generators W} `{Base64} `{JsonText}.
Implicit Types (self : DynamicGrpcStep) (ports : StepPorts W) (ctx : ScenarioContext) (w : W).

Definition grpc_fingerprint_material self : string :=
  let request := match gs_request_spec self with
                 | RequestEmpty => "empty"
                 | StaticBase64Template template => "base64:" +:+ template
                 | FieldTemplate value => "fields:" +:+ show_value value
                 end in
  let extraction := join "," (map (fun '(key, path) => key +:+ "=" +:+ path) (foldr insert_by_key [] (gs_extraction self))) in
  "grpc|endpoint=" +:+ default "<default>" (gs_endpoint_override self) +:+ "|service=" +:+ gs_service self
  +:+ "|method=" +:+ gs_method self +:+ "|request=" +:+ request +:+ "|extract=" +:+ extraction
  +:+ "|payload_key=" +:+ default EmptyString (gs_response_payload_context_key self).

Definition grpc_endpoint self ports : string := default (default_endpoint ports) (gs_endpoint_override self).

Definition grpc_validate self ports : result PulseError unit :=
  gateway ← ok_or (dynamic_grpc_gateways ports !! grpc_endpoint self ports)
    (InvalidScenario ("dynamic gRPC gateway is not configured for endpoint '" +:+ grpc_endpoint self ports +:+ "'"));
  validate_unary_method gateway (gs_service self) (gs_method self).

Definition render_request self (gateway : DynamicGrpcGateway W) ctx : drawing (list Z) := fun w =>
  match gs_request_spec self with
  | RequestEmpty => (Ok [], w)
  | StaticBase64Template template =>
      match render_string_template template ctx w with
      | (Err e, w) => (Err e, w)
      | (Ok rendered, w) =>
          (map_err (fun e => Client ("invalid rendered request_base64 for " +:+ gs_service self +:+ "/" +:+ gs_method self
                                     +:+ ": " +:+ e)) (b64_decode rendered), w)
      end
  | FieldTemplate template =>
      match render_json_templates template ctx w with
      | (Err e, w) => (Err e, w)
      | (Ok rendered, w) => (encode_request_fields gateway (gs_service self) (gs_method self) rendered, w)
      end
  end.

(** One extraction after another; what was stored before an error stays. *)
Fixpoint extract_each self (decoded : Value) (extraction : list (string * string)) ctx
    : result PulseError unit * ScenarioContext :=
  match extraction with
  | [] => (Ok tt, ctx)
  | (ctx_key, response_path) :: extraction' =>
      match extract_path decoded response_path with
      | None => (Err (Client ("extraction path '" +:+ response_path +:+ "' not found in response for "
                              +:+ gs_service self +:+ "/" +:+ gs_method self)), ctx)
      | Some value =>
          match value_to_context_string value with
          | Err e => (Err e, ctx)
          | Ok serialized => extract_each self decoded extraction' (context_set ctx_key serialized ctx)
          end
      end
  end.

Definition store_response self (gateway : DynamicGrpcGateway W) (payload : list Z) ctx
    : result PulseError unit * ScenarioContext :=
  let ctx := match gs_response_payload_context_key self with
             | Some key => context_set key (b64_encode payload) ctx
             | None => ctx
             end in
  match gs_extraction self with
  | [] => (Ok tt, ctx)
  | extraction =>
      match decode_response_fields gateway (gs_service self) (gs_method self) payload with
      | Err e => (Err e, ctx)
      | Ok decoded => extract_each self decoded extraction ctx
      end
  end.

Definition grpc_execute self ctx ports w : result PulseError unit * ScenarioContext * W :=
  match dynamic_grpc_gateways ports !! grpc_endpoint self ports with
  | None => (Err (Client ("dynamic gRPC gateway is not configured for endpoint '" +:+ grpc_endpoint self ports
                          +:+ "' in step '" +:+ gs_name self +:+ "'")), ctx, w)
  | Some gateway =>
      match render_request self gateway ctx w with
      | (Err e, w) => (Err e, ctx, w)
      | (Ok payload, w) =>
          match unary gateway (mkGrpcRequest (gs_service self) (gs_method self) payload) w with
          | (Err e, w) => (Err e, ctx, w)
          | (Ok response, w) => (store_response self gateway (resp_payload response) ctx, w)
          end
      end
  end.

(** The step as the runner sees it. *)
Definition grpc_step self : Step W :=
  mkStep (gs_name self) (grpc_fingerprint_material self) (grpc_validate self) true (gs_endpoint_override self) (grpc_execute self).
End steps.

(** ** What a step stores *)

Section extraction.
Context {W : Type} `{Generators W} `{Base64} `{JsonText}.
Implicit Types (self : DynamicGrpcStep) (ctx : ScenarioContext).

(** The text an extraction stores. *)
Definition extracted (decoded : Value) (path : string) : option string :=
  value ← extract_path decoded path; result_ok (value_to_context_string value).

Lemma context_get_set_eq key s ctx : context_get key (context_set key s ctx) = Some s.
Proof. apply lookup_insert_eq. Qed.

Lemma context_get_set_ne key key' s ctx : key <> key' -> context_get key' (context_set key s ctx) = context_get key' ctx.
Proof. intros Hne. by apply lookup_insert_ne. Qed.

Lemma extract_each_ok self decoded extraction ctx :
  Forall (fun e => is_Some (extracted decoded (snd e))) extraction -> NoDup (map fst extraction) ->
  exists ctx', extract_each self decoded extraction ctx = (Ok tt, ctx')
    /\ (forall key path, (key, path) ∈ extraction -> context_get key ctx' = extracted decoded path)
    /\ (forall key, key ∉ map fst extraction -> context_get key ctx' = context_get key ctx).
Proof.
  intros Hall. revert ctx. induction Hall as [|[key path] extraction [s Hs] _ IH]; intros ctx Hnd.
  - exists ctx. split; [done|]. split; [by intros ?? ?%elem_of_nil|done].
  - inversion_clear Hnd as [|? ? Hnin Hnd']. cbn [extract_each fst snd map] in *. unfold extracted in Hs.
    destruct (extract_path decoded path) as [value|] eqn:Ep; [|done]. cbn in Hs.
    destruct (value_to_context_string value) as [text|e] eqn:Ev; [|done]. injection Hs as <-.
    destruct (IH (context_set key text ctx) Hnd') as (ctx' & -> & Hget & Hother). exists ctx'. split; [done|]. split.
    + intros key' path' [[= -> ->]|Hin]%elem_of_cons; [|by apply Hget].
      rewrite Hother, context_get_set_eq by done. unfold extracted. rewrite Ep. cbn. by rewrite Ev.
    + intros key' Hni. rewrite not_elem_of_cons in Hni. destruct Hni as [Hne Hni]. rewrite Hother by done.
      apply context_get_set_ne. congruence.
Qed.

Section response.
Variable client : GrpcClient W.
Variable methods : MethodRegistry.
Variable messages : MessageRegistry.
Variable request_timeout : duration.
Let gateway := DescriptorBackedGrpcGateway client methods messages request_timeout.

Lemma unary_answers service method meta path payload response w1 w2 w3 :
  methods !! (normalize_name service, method) = Some meta -> is_streaming meta = false ->
  parse_path client (route_path meta) = Ok path -> channel_ready client w1 = (Ok tt, w2) ->
  client_unary client request_timeout payload path w2 = (Some (Ok response), w3) ->
  unary gateway (mkGrpcRequest service method payload) w1 = (Ok (mkGrpcResponse response), w3).
Proof.
  intros Hm Hs Hp Hr Hc. cbn [unary gateway DescriptorBackedGrpcGateway]. unfold dynamic_unary, method_meta. cbn [req_service req_method req_payload].
  rewrite Hm. cbn [ok_or]. by rewrite Hs, Hp, Hr, Hc.
Qed.

Lemma response_decodes service method meta v response :
  methods !! (normalize_name service, method) = Some meta ->
  canonical messages v (KMessage (output_type meta)) = true -> encode_message messages (output_type meta) v = Ok response ->
  zlen response <= usize_max -> decode_response_fields gateway service method response = Ok v.
Proof.
  intros Hm Hc He Hl. cbn [decode_response_fields gateway DescriptorBackedGrpcGateway]. unfold dynamic_decode, method_meta.
  rewrite Hm. cbn [ok_or]. rewrite (ok_bind _ _ meta eq_refl). unfold decode_message.
  by rewrite (decode_nested_encoded messages _ _ v response Hc He Hl) by lia.
Qed.

(** A step whose target answers with the encoding of a canonical message ends
    well, and stores under every key of its extraction the text found at its path
    in that message, leaving every other variable alone but the one that keeps the
    payload. *)
Theorem step_stores_extracted_fields self ports ctx w1 w2 w3 w4 meta path payload v response :
  dynamic_grpc_gateways ports !! grpc_endpoint self ports = Some gateway ->
  methods !! (normalize_name (gs_service self), gs_method self) = Some meta -> is_streaming meta = false ->
  parse_path client (route_path meta) = Ok path ->
  render_request self gateway ctx w1 = (Ok payload, w2) -> channel_ready client w2 = (Ok tt, w3) ->
  client_unary client request_timeout payload path w3 = (Some (Ok response), w4) ->
  canonical messages v (KMessage (output_type meta)) = true -> encode_message messages (output_type meta) v = Ok response ->
  zlen response <= usize_max ->
  Forall (fun e => is_Some (extracted v (snd e))) (gs_extraction self) -> NoDup (map fst (gs_extraction self)) ->
  exists ctx', grpc_execute self ctx ports w1 = (Ok tt, ctx', w4)
    /\ (forall key p, (key, p) ∈ gs_extraction self -> context_get key ctx' = extracted v p)
    /\ forall key, key ∉ map fst (gs_extraction self) -> gs_response_payload_context_key self <> Some key ->
         context_get key ctx' = context_get key ctx.
Proof.
  intros Hg Hm Hs Hp Hr Hready Hc Hv He Hl Hext Hnd. unfold grpc_execute. rewrite Hg, Hr.
  rewrite (unary_answers _ _ meta path payload response w2 w3 w4 Hm Hs Hp Hready Hc). unfold store_response. cbn [resp_payload].
  set (ctx1 := match gs_response_payload_context_key self with Some key => _ | None => ctx end).
  assert (forall key, gs_response_payload_context_key self <> Some key -> context_get key ctx1 = context_get key ctx) as Hctx1.
  { intros key Hne. unfold ctx1. destruct (gs_response_payload_context_key self) as [k|]; [|done].
    apply context_get_set_ne. congruence. }
  destruct (extract_each_ok self v (gs_extraction self) ctx1 Hext Hnd) as (ctx' & He' & Hget & Hother).
  exists ctx'. split; [|split; [done|intros key Hni Hne; by rewrite Hother, Hctx1]].
  rewrite (response_decodes _ _ meta v response Hm Hv He Hl).
  destruct (gs_extraction self) as [|e extraction]; [by injection He' as <-|]. by rewrite He'.
Qed.
End response.
End extraction.

(** ** A sample *)

Section sample.
#[local] Existing Instance no_base64.
#[local] Existing Instance plain_text.
#[local] Instance fixed_draws : Generators unit := {| new_uuid w := ("uuid", w); random_range lo _ w := (lo, w) |}.

Definition order_bytes : list Z := default [] (result_ok (encode_message sample_messages "shop.Order" sample_order)).

Definition order_client : GrpcClient unit :=
  {| parse_path p := Ok p; channel_ready w := (Ok tt, w); client_unary _ _ _ w := (Some (Ok order_bytes), w) |}.

Definition order_meta : MethodMeta := mkMethodMeta "/shop.Orders/Get" false false "shop.Order" "shop.Order".

Definition order_methods : MethodRegistry := {[ ("shop.Orders", "Get") := order_meta ]}.

Definition order_step : DynamicGrpcStep :=
  DynamicGrpcStep_new None "shop.Orders" "Get" RequestEmpty [("order", "id"); ("paid", "paid")] (Some "raw").

Definition order_ports : StepPorts unit :=
  mkPorts "http://orders" {[ "http://orders" := DescriptorBackedGrpcGateway order_client order_methods sample_messages 1 ]}.

Lemma step_stores_extracted_fields_witness :
  exists ctx', grpc_execute order_step context_default order_ports tt = (Ok tt, ctx', tt)
    /\ context_get "order" ctx' = Some "o-1".
Proof.
  destruct (step_stores_extracted_fields order_client order_methods sample_messages 1 order_step order_ports context_default
    tt tt tt tt order_meta "/shop.Orders/Get" [] sample_order order_bytes) as (ctx' & He & Hget & _).
  1-2: apply lookup_singleton_eq.
  1-5: reflexivity.
  1-3: by vm_compute.
  - apply (bool_decide_unpack _). by vm_compute.
  - apply (bool_decide_unpack _). by vm_compute.
  - exists ctx'. split; [exact He|]. apply (Hget "order" "id"). by left.
Defined.
End sample.
