(* ===== verification/Scenarios.v ===== *)
(** * The scenario file

    [src/src/application/scenarios.rs]: the entries of the file, its validation, and
    the scenarios built from it. The YAML deserializer ([serde_yaml], which
    rejects unknown fields and values outside the types) and reading the file are
    parameters. *)

From S2P Require Import Prelude RustStr F64 Contracts Domain Wire WireCodec WireRoundtrip Gateway Template Steps.

Definition MAX_CONFIGURED_SCENARIOS : Z := 128.
Definition MAX_CONFIGURED_SCENARIO_NAME_BYTES : Z := 256.
Definition MAX_CONFIGURED_STEPS_PER_SCENARIO : Z := 128.

(** ** Entries *)

Inductive RepeatEntry :=
| RepeatOnce
| RepeatEvery (interval : string).

Inductive StepEntry :=
| GrpcEntry (endpoint : option string) (service method : string) (request_base64 : option string)
    (request_fields : option Value) (extract : option (list (string * string))) (response_payload_context_key : option string)
| HttpEntry (method url : string).

Record ScenarioEntry := mkScenarioEntry {
  ent_name : string;
  ent_endpoint : option string;
  ent_scenarios_per_sec : f64;
  ent_max_concurrency : Z;
  ent_duration : string;
  ent_repeat : RepeatEntry;
  ent_partition_key_strategy : option PartitionKeyStrategy;
  ent_steps : list StepEntry;
}.

Record ScenarioFile := mkScenarioFile {
  file_version : Z;
  file_scenarios : list ScenarioEntry;
}.

(** ** Durations *)

Definition parse_duration_unit (num value what : string) (scale : Z) : result string duration :=
  n ← ok_or (parse_uint u64_max num) ("invalid " +:+ what +:+ " duration: " +:+ value);
  if n =? 0 then Err ("duration must be > 0: " +:+ value) else
  seconds ← ok_or (checked_mul u64_max n scale) (what +:+ " duration exceeds u64 seconds: " +:+ value);
  Ok (from_secs seconds).

Definition parse_duration_literal (value : string) : result string duration :=
  match strip_suffix "s" value with
  | Some num => parse_duration_unit num value "seconds" 1
  | None =>
      match strip_suffix "m" value with
      | Some num => parse_duration_unit num value "minutes" 60
      | None =>
          match strip_suffix "h" value with
          | Some num => parse_duration_unit num value "hours" 3600
          | None => Err ("unsupported duration format: " +:+ value +:+ " (use Ns/Nm/Nh)")
          end
      end
  end.

(** ** Validation *)

Definition error_if (cond : bool) (message : string) : list string := if cond then [message] else [].

(** An optional text that is there but blank. *)
Definition blank_option (o : option string) : bool := match o with Some s => blank s | None => false end.

Definition is_object (v : Value) : bool := match v with JObject _ => true | _ => false end.

Section validation.
Context `{Base64}.

Definition validate_extract (prefix : string) (e : string * string) : list string :=
  error_if (blank (fst e)) (prefix +:+ ".extract contains empty context key")
  ++ error_if (blank (snd e)) (prefix +:+ ".extract path for '" +:+ fst e +:+ "' must not be empty").

Definition validate_step (prefix : string) (step : StepEntry) : list string :=
  match step with
  | GrpcEntry endpoint service method request_base64 request_fields extract response_payload_context_key =>
      error_if (blank_option endpoint) (prefix +:+ ".endpoint must not be empty when provided")
      ++ error_if (blank service) (prefix +:+ ".service must not be empty")
      ++ error_if (blank method) (prefix +:+ ".method must not be empty")
      ++ match request_base64 with
         | Some raw =>
             if blank raw then [prefix +:+ ".request_base64 must not be empty when provided"]
             else error_if (negb (str_contains "${" raw) && negb (is_ok (b64_decode raw)))
                    (prefix +:+ ".request_base64 must be valid base64 payload")
         | None => []
         end
      ++ error_if (bool_decide (is_Some request_base64) && bool_decide (is_Some request_fields))
           (prefix +:+ " must define only one of request_base64 or request_fields")
      ++ error_if (match request_fields with Some fields => negb (is_object fields) | None => false end)
           (prefix +:+ ".request_fields must be a JSON object")
      ++ concat (map (validate_extract prefix) (default [] extract))
      ++ error_if (blank_option response_payload_context_key)
           (prefix +:+ ".response_payload_context_key must not be empty when provided")
  | HttpEntry method url =>
      error_if (blank method) (prefix +:+ ".method must not be empty")
      ++ error_if (blank url) (prefix +:+ ".url must not be empty")
  end.

(** What is wrong with the name, and the names seen with it. *)
Definition validate_name (prefix name : string) (names : gset string) : list string * gset string :=
  if blank name then ([prefix +:+ ".name must not be empty"], names)
  else if MAX_CONFIGURED_SCENARIO_NAME_BYTES <? str_len name
  then ([prefix +:+ ".name exceeds " +:+ show MAX_CONFIGURED_SCENARIO_NAME_BYTES +:+ " bytes"], names)
  else if bool_decide (trim name ∈ names) then ([prefix +:+ ".name '" +:+ name +:+ "' is duplicated"], names)
  else ([], {[trim name]} ∪ names).

Definition validate_fields (prefix : string) (scenario : ScenarioEntry) : list string :=
  let steps := Z.of_nat (length (ent_steps scenario)) in
  error_if (blank_option (ent_endpoint scenario)) (prefix +:+ ".endpoint must not be empty when provided")
  ++ error_if (negb (f64_is_finite (ent_scenarios_per_sec scenario)) || f64_leb (ent_scenarios_per_sec scenario) f64_zero)
       (prefix +:+ ".scenarios_per_sec must be > 0")
  ++ error_if (ent_max_concurrency scenario =? 0) (prefix +:+ ".max_concurrency must be > 0")
  ++ error_if (negb (is_ok (parse_duration_literal (ent_duration scenario))))
       (prefix +:+ ".duration '" +:+ ent_duration scenario +:+ "' must use Ns/Nm/Nh format")
  ++ match ent_repeat scenario with
     | RepeatOnce => []
     | RepeatEvery interval =>
         error_if (negb (is_ok (parse_duration_literal interval)))
           (prefix +:+ ".repeat.interval '" +:+ interval +:+ "' must use Ns/Nm/Nh format")
     end
  ++ (if steps =? 0 then [prefix +:+ ".steps must contain at least one step"]
      else error_if (MAX_CONFIGURED_STEPS_PER_SCENARIO <? steps)
             (prefix +:+ ".steps contains " +:+ show steps +:+ " items; maximum is " +:+ show MAX_CONFIGURED_STEPS_PER_SCENARIO))
  ++ concat (imap (fun j step => validate_step (prefix +:+ ".steps[" +:+ show (Z.of_nat j) +:+ "]") step) (ent_steps scenario)).

Fixpoint validate_scenarios (i : Z) (names : gset string) (scenarios : list ScenarioEntry) : list string :=
  match scenarios with
  | [] => []
  | scenario :: scenarios' =>
      let prefix := "scenarios[" +:+ show i +:+ "]" in
      let '(errors, names') := validate_name prefix (ent_name scenario) names in
      errors ++ validate_fields prefix scenario ++ validate_scenarios (i + 1) names' scenarios'
  end.

Definition validate_schema (file : ScenarioFile) : list string :=
  let n := Z.of_nat (length (file_scenarios file)) in
  let version := error_if (negb (file_version file =? 1))
    ("unsupported scenarios file version '" +:+ show (file_version file) +:+ "' (expected 1)") in
  if n =? 0 then version ++ ["scenarios must contain at least one item"] else
  version
  ++ error_if (MAX_CONFIGURED_SCENARIOS <? n)
       ("scenarios contains " +:+ show n +:+ " items; maximum is " +:+ show MAX_CONFIGURED_SCENARIOS)
  ++ validate_scenarios 0 ∅ (file_scenarios file).
End validation.

(** ** Scenarios *)

Section scenarios.
Context {W : Type} `{Generators W} `{Base64} `{JsonText}.

Definition step_entry_into_domain (step : StepEntry) : result string (Step W) :=
  match step with
  | GrpcEntry endpoint service method request_base64 request_fields extract response_payload_context_key =>
      let request_spec := match request_base64, request_fields with
                          | Some raw, _ => StaticBase64Template raw
                          | None, Some fields => FieldTemplate fields
                          | None, None => RequestEmpty
                          end in
      Ok (grpc_step (DynamicGrpcStep_new endpoint service method request_spec (default [] extract) response_payload_context_key))
  | HttpEntry _ _ => Err "http step declared in yaml, but HTTP adapter is not implemented yet (step 5)"
  end.

(** [collect] into a [Result]: the first error, or all values. *)
Fixpoint collect_results {A B} (f : A -> result string B) (l : list A) : result string (list B) :=
  match l with
  | [] => Ok []
  | a :: l' => b ← f a; bs ← collect_results f l'; Ok (b :: bs)
  end.

Definition scenario_entry_into_domain (default_endpoint : string) (entry : ScenarioEntry) : result string (Scenario W) :=
  steps ← collect_results step_entry_into_domain (ent_steps entry);
  let partition_key_strategy := default ExecutionKey (ent_partition_key_strategy entry) in
  repeat ← match ent_repeat entry with
           | RepeatOnce => Ok Once
           | RepeatEvery interval => d ← parse_duration_literal interval; Ok (Every d)
           end;
  d ← parse_duration_literal (ent_duration entry);
  Ok (mkScenario (ent_name entry) steps
        (mkScenarioConfig (default default_endpoint (ent_endpoint entry)) (ent_scenarios_per_sec entry)
           (ent_max_concurrency entry) d repeat partition_key_strategy)).

(** [serde_yaml::from_str] and [fs::read_to_string]; an error is its text. *)
Variable from_yaml : string -> result string ScenarioFile.
Variable read_to_string : string -> result string string.

Definition parse_scenarios_yaml (raw default_endpoint : string) : result string (list (Scenario W)) :=
  parsed ← map_err (fun e => "invalid yaml: " +:+ e) (from_yaml raw);
  match validate_schema parsed with
  | [] => collect_results (scenario_entry_into_domain default_endpoint) (file_scenarios parsed)
  | errors => Err (foldl (fun message e => message +:+ String "010" EmptyString +:+ " - " +:+ e) "scenario schema validation failed:" errors)
  end.

Definition load_scenarios_from_yaml (path default_endpoint : string) : result string (list (Scenario W)) :=
  raw ← map_err (fun e => "failed to read scenarios file '" +:+ path +:+ "': " +:+ e) (read_to_string path);
  map_err (fun e => "failed to load scenarios from '" +:+ path +:+ "': " +:+ e) (parse_scenarios_yaml raw default_endpoint).

(** The configured file, or the default one when it exists. *)
Definition load_scenarios (scenarios_file : option string) (pulse_endpoint : string) (default_exists : bool)
    : result string (list (Scenario W)) :=
  match scenarios_file with
  | Some path => load_scenarios_from_yaml path pulse_endpoint
  | None =>
      if default_exists then load_scenarios_from_yaml "scenarios.yaml" pulse_endpoint
      else Err "no scenario source found; set PULSE_SCENARIOS_FILE or add ./scenarios.yaml"
  end.
End scenarios.

(** ** What is accepted *)

Lemma error_if_nil cond message : error_if cond message = [] <-> cond = false.
Proof. by destruct cond. Qed.

Lemma app_nil_iff {A} (l k : list A) : l ++ k = [] <-> l = [] /\ k = [].
Proof. split; [apply app_eq_nil|by intros [-> ->]]. Qed.

Lemma concat_nil_iff {A} (l : list (list A)) : concat l = [] <-> Forall (fun x => x = []) l.
Proof. induction l as [|x l IH]; simpl; [by split; [constructor|]|]. by rewrite app_nil_iff, IH, Forall_cons. Qed.

Lemma imap_Forall {A B} (f : nat -> A -> B) (P : B -> Prop) (Q : A -> Prop) l :
  (forall i a, P (f i a) <-> Q a) -> Forall P (imap f l) <-> Forall Q l.
Proof.
  revert f. induction l as [|a l IH]; intros f Hf; [split; intros; constructor|]. cbn [imap]. rewrite !Forall_cons, Hf.
  rewrite (IH (f ∘ S)); [done|]. intros i b. apply Hf.
Qed.

Section accepted.
Context `{Base64}.

Definition extract_ok (e : string * string) : Prop := blank (fst e) = false /\ blank (snd e) = false.

Definition request_ok (request_base64 : option string) (request_fields : option Value) : Prop :=
  match request_base64, request_fields with
  | Some _, Some _ => False
  | Some raw, None => blank raw = false /\ (str_contains "${" raw = true \/ is_ok (b64_decode raw) = true)
  | None, Some fields => is_object fields = true
  | None, None => True
  end.

Definition step_ok (step : StepEntry) : Prop :=
  match step with
  | GrpcEntry endpoint service method request_base64 request_fields extract response_payload_context_key =>
      blank_option endpoint = false /\ blank service = false /\ blank method = false
      /\ request_ok request_base64 request_fields /\ Forall extract_ok (default [] extract)
      /\ blank_option response_payload_context_key = false
  | HttpEntry method url => blank method = false /\ blank url = false
  end.

Definition name_ok (name : string) : Prop := blank name = false /\ str_len name <= MAX_CONFIGURED_SCENARIO_NAME_BYTES.

Definition interval_ok (r : RepeatEntry) : Prop :=
  match r with RepeatOnce => True | RepeatEvery interval => is_ok (parse_duration_literal interval) = true end.

Definition entry_ok (e : ScenarioEntry) : Prop :=
  blank_option (ent_endpoint e) = false /\ rate_ok (ent_scenarios_per_sec e) /\ ent_max_concurrency e <> 0
  /\ is_ok (parse_duration_literal (ent_duration e)) = true /\ interval_ok (ent_repeat e)
  /\ (0 < length (ent_steps e))%nat /\ Z.of_nat (length (ent_steps e)) <= MAX_CONFIGURED_STEPS_PER_SCENARIO
  /\ Forall step_ok (ent_steps e).

(** A file as its documentation describes it. *)
Definition file_ok (file : ScenarioFile) : Prop :=
  file_version file = 1 /\ (0 < length (file_scenarios file))%nat
  /\ Z.of_nat (length (file_scenarios file)) <= MAX_CONFIGURED_SCENARIOS
  /\ Forall (fun e => name_ok (ent_name e)) (file_scenarios file)
  /\ NoDup (map (fun e => trim (ent_name e)) (file_scenarios file))
  /\ Forall entry_ok (file_scenarios file).

Lemma validate_extract_nil prefix e : validate_extract prefix e = [] <-> extract_ok e.
Proof. unfold validate_extract. by rewrite app_nil_iff, !error_if_nil. Qed.

Lemma validate_step_nil prefix step : validate_step prefix step = [] <-> step_ok step.
Proof.
  destruct step as [endpoint service method b64 fields extract key|method url]; cbn [validate_step step_ok].
  2:{ by rewrite app_nil_iff, !error_if_nil. }
  rewrite !app_nil_iff, !error_if_nil, concat_nil_iff, Forall_map.
  rewrite (Forall_iff _ _ extract_ok) by (intros e; apply validate_extract_nil).
  assert ((match b64 with
           | Some raw => if blank raw then [prefix +:+ ".request_base64 must not be empty when provided"]
                         else error_if (negb (str_contains "${" raw) && negb (is_ok (b64_decode raw)))
                                (prefix +:+ ".request_base64 must be valid base64 payload")
           | None => []
           end = [] /\ bool_decide (is_Some b64) && bool_decide (is_Some fields) = false
          /\ match fields with Some fields => negb (is_object fields) | None => false end = false)
          <-> request_ok b64 fields) as Hreq; [|rewrite <- Hreq; tauto].
  unfold request_ok. destruct b64 as [raw|], fields as [f|]; rewrite ?bool_decide_true, ?bool_decide_false by (eauto || by intros []); simpl.
  - split; [by intros (_ & ? & _)|done].
  - destruct (blank raw); [split; [by intros []|by intros []]|]. rewrite error_if_nil, andb_false_iff, !negb_false_iff. tauto.
  - rewrite negb_false_iff. tauto.
  - tauto.
Qed.

Lemma validate_fields_nil prefix e : validate_fields prefix e = [] <-> entry_ok e.
Proof.
  unfold validate_fields, entry_ok, rate_ok. rewrite !app_nil_iff, !error_if_nil, concat_nil_iff.
  rewrite (imap_Forall _ _ step_ok) by (intros j step; apply validate_step_nil).
  rewrite orb_false_iff, !negb_false_iff, Z.eqb_neq.
  assert ((match ent_repeat e with
           | RepeatOnce => []
           | RepeatEvery interval => error_if (negb (is_ok (parse_duration_literal interval)))
               (prefix +:+ ".repeat.interval '" +:+ interval +:+ "' must use Ns/Nm/Nh format")
           end = []) <-> interval_ok (ent_repeat e)) as ->.
  { destruct (ent_repeat e); simpl; [done|]. by rewrite error_if_nil, negb_false_iff. }
  assert (forall m, ((if Z.of_nat (length (ent_steps e)) =? 0 then [m]
     else error_if (MAX_CONFIGURED_STEPS_PER_SCENARIO <? Z.of_nat (length (ent_steps e)))
            (prefix +:+ ".steps contains " +:+ show (Z.of_nat (length (ent_steps e))) +:+ " items; maximum is "
             +:+ show MAX_CONFIGURED_STEPS_PER_SCENARIO)) = [])
    <-> (0 < length (ent_steps e))%nat /\ Z.of_nat (length (ent_steps e)) <= MAX_CONFIGURED_STEPS_PER_SCENARIO) as Hsteps.
  { intros m. destruct (Z.eqb_spec (Z.of_nat (length (ent_steps e))) 0); [split; [done|lia]|].
    rewrite error_if_nil, Z.ltb_ge. split; [intros; split; [lia|done]|by intros []]. }
  rewrite Hsteps. tauto.
Qed.

Lemma validate_scenarios_nil i names l :
  validate_scenarios i names l = []
  <-> Forall (fun e => name_ok (ent_name e)) l /\ NoDup (map (fun e => trim (ent_name e)) l)
      /\ Forall (fun e => trim (ent_name e) ∉ names) l /\ Forall entry_ok l.
Proof.
  revert i names. induction l as [|e l IH]; intros i names; [split; [|done]; intros _; repeat constructor|].
  cbn [validate_scenarios map]. rewrite !Forall_cons, NoDup_cons. unfold validate_name, name_ok.
  destruct (blank (ent_name e)); [split; [done|naive_solver]|].
  destruct (Z.ltb_spec MAX_CONFIGURED_SCENARIO_NAME_BYTES (str_len (ent_name e))); [split; [done|naive_solver lia]|].
  case_bool_decide as Hin; [split; [done|naive_solver]|].
  rewrite !app_nil_iff, validate_fields_nil, IH.
  assert (Forall (fun e' => trim (ent_name e') ∉ {[trim (ent_name e)]} ∪ names) l
          <-> trim (ent_name e) ∉ map (fun e => trim (ent_name e)) l /\ Forall (fun e' => trim (ent_name e') ∉ names) l) as ->.
  { rewrite !Forall_forall, elem_of_map. set_solver. }
  tauto.
Qed.

Lemma validate_schema_nil file : validate_schema file = [] <-> file_ok file.
Proof.
  unfold validate_schema, file_ok. destruct (Z.eqb_spec (Z.of_nat (length (file_scenarios file))) 0).
  - split; [by intros [_ ?]%app_nil_iff|lia].
  - rewrite !app_nil_iff, !error_if_nil, negb_false_iff, Z.eqb_eq, Z.ltb_ge, validate_scenarios_nil.
    assert (Forall (fun e => trim (ent_name e) ∉ (∅ : gset string)) (file_scenarios file)) by (apply Forall_forall; set_solver).
    split; [intros (? & ? & ? & ? & _ & ?); split_and!; try done; lia|naive_solver].
Qed.
End accepted.

(** ** What is built *)

Lemma collect_results_Ok {A B} (f : A -> result string B) l bs :
  collect_results f l = Ok bs <-> Forall2 (fun a b => f a = Ok b) l bs.
Proof.
  revert bs. induction l as [|a l IH]; intros bs; cbn [collect_results].
  - split; [intros [= <-]; constructor|]. by inversion 1.
  - rewrite bind_Ok. split.
    + intros (b & Hb & Hr). apply bind_Ok in Hr as (bs' & Hbs & [= <-]). constructor; [done|]. by apply IH.
    + inversion_clear 1 as [|? b ? bs' Hb Hbs]. exists b. split; [done|]. apply IH in Hbs. by rewrite Hbs.
Qed.

Lemma parse_digits_nonneg acc s z : 0 <= acc -> parse_digits acc s = Some z -> 0 <= z.
Proof.
  revert acc. induction s as [|c s IH]; intros acc Ha; cbn [parse_digits]; [by intros [= <-]|].
  unfold digit_val. destruct (_ && _) eqn:E; [|done]. cbn. apply andb_true_iff in E as [E _]. apply Z.leb_le in E. apply IH. lia.
Qed.

Lemma parse_uint_nonneg max s z : parse_uint max s = Some z -> 0 <= z <= max.
Proof.
  unfold parse_uint. set (o := match s with String "+" r => parse_nat r | _ => parse_nat s end).
  assert (forall z, o = Some z -> 0 <= z) as Ho.
  { intros x. assert (forall r, parse_nat r = Some x -> 0 <= x) as Hn.
    { intros r. unfold parse_nat. destruct r as [|c r]; [done|]. by apply parse_digits_nonneg. }
    unfold o. repeat case_match; eauto. }
  destruct o as [x|]; [|done]. cbn. destruct (Z.leb_spec x max); [|done]. intros [= <-]. by auto.
Qed.

Lemma parse_duration_literal_positive value d : parse_duration_literal value = Ok d -> from_secs 1 <= d <= duration_max.
Proof.
  assert (forall num what scale, 1 <= scale -> parse_duration_unit num value what scale = Ok d ->
            from_secs 1 <= d <= duration_max) as Hunit.
  { intros num what scale Hs Hd. apply bind_Ok in Hd as (n & Hn & Hd). destruct (Z.eqb_spec n 0); [done|].
    apply bind_Ok in Hd as (secs & Hm & [= <-]). apply ok_or_Ok, checked_mul_Some in Hm as [-> Hm].
    assert (0 <= n <= u64_max) by (apply ok_or_Ok in Hn; by apply (parse_uint_nonneg u64_max num)).
    unfold from_secs, nanos_per_sec, duration_max. nia. }
  unfold parse_duration_literal. destruct (strip_suffix "s" value); [by apply Hunit|].
  destruct (strip_suffix "m" value); [by apply Hunit|]. destruct (strip_suffix "h" value); [by apply Hunit|done].
Qed.


(** *** Literals read back *)

Lemma parse_duration_unit_show n value what scale :
  1 <= n <= u64_max ->
  parse_duration_unit (show n) value what scale
  = ok_or (from_secs <$> checked_mul u64_max n scale) (what +:+ " duration exceeds u64 seconds: " +:+ value).
Proof.
  intros Hn. unfold parse_duration_unit. rewrite parse_uint_show by (unfold in_range; lia). cbn [ok_or].
  rewrite (ok_bind _ _ n eq_refl). destruct (Z.eqb_spec n 0); [lia|]. by destruct (checked_mul u64_max n scale).
Qed.

(** The unit of a literal, its name and its length in seconds. *)
Definition duration_units : list (ascii * (string * Z)) :=
  [("s"%char, ("seconds", 1)); ("m"%char, ("minutes", 60)); ("h"%char, ("hours", 3600))].

Lemma duration_literal_reads n c what scale :
  1 <= n <= u64_max -> (c, (what, scale)) ∈ duration_units ->
  parse_duration_literal (show n +:+ String c EmptyString)
  = ok_or (from_secs <$> checked_mul u64_max n scale)
      (what +:+ " duration exceeds u64 seconds: " +:+ show n +:+ String c EmptyString).
Proof.
  intros Hn Hc. unfold parse_duration_literal, duration_units in *. rewrite !elem_of_cons in Hc.
  destruct Hc as [[= -> -> ->]|[[= -> -> ->]|[[= -> -> ->]|[]%elem_of_nil]]];
    rewrite ?strip_suffix_app, ?strip_suffix_other by done; by apply parse_duration_unit_show.
Qed.

(** *** The scenarios of an accepted file *)

Section built.
Context {W : Type} `{Generators W} `{Base64} `{JsonText}.
Variable from_yaml : string -> result string ScenarioFile.

Definition is_grpc (step : StepEntry) : bool := match step with GrpcEntry _ _ _ _ _ _ _ => true | HttpEntry _ _ => false end.

Definition all_grpc (file : ScenarioFile) : Prop :=
  Forall (fun e => Forall (fun s => is_grpc s = true) (ent_steps e)) (file_scenarios file).

Lemma step_entry_Ok step : is_grpc step = true <-> exists s : Step W, step_entry_into_domain step = Ok s.
Proof. destruct step; simpl; [split; [by eexists|done]|split; [done|by intros []]]. Qed.

Lemma collect_results_ok {A B} (f : A -> result string B) l :
  (exists bs, collect_results f l = Ok bs) <-> Forall (fun a => exists b, f a = Ok b) l.
Proof.
  split.
  - intros [bs Hbs]. apply collect_results_Ok in Hbs. induction Hbs; constructor; eauto.
  - induction 1 as [|a l [b Hb] _ [bs Hbs]]; [by exists []|]. exists (b :: bs). cbn [collect_results]. by rewrite Hb, Hbs.
Qed.

Lemma scenario_entry_Ok d e :
  entry_ok e -> (exists s : Scenario W, scenario_entry_into_domain d e = Ok s) <-> Forall (fun s => is_grpc s = true) (ent_steps e).
Proof.
  intros (_ & _ & _ & Hd & Hr & _).
  assert ((exists ss : list (Step W), collect_results step_entry_into_domain (ent_steps e) = Ok ss)
          <-> Forall (fun s => is_grpc s = true) (ent_steps e)) as <-.
  { rewrite collect_results_ok. apply Forall_iff. intros s. symmetry. apply step_entry_Ok. }
  unfold scenario_entry_into_domain. destruct (parse_duration_literal (ent_duration e)) as [dur|]; [|done].
  split; [intros [s Hs]; apply bind_Ok in Hs as (ss & Hss & _); by exists ss|].
  intros [ss Hss]. rewrite Hss. rewrite (ok_bind _ _ ss eq_refl). unfold interval_ok in Hr.
  destruct (ent_repeat e) as [|interval]; [by eexists|]. destruct (parse_duration_literal interval); [by eexists|done].
Qed.

(** C38: a scenario file is accepted exactly when it is what its documentation
    describes (version 1, between 1 and 128 scenarios with distinct names of at
    most 256 bytes, a positive finite rate, positive concurrency and durations,
    between 1 and 128 complete steps each) and every step is a gRPC step. *)
Theorem scenario_file_accepted_exactly raw default_endpoint file :
  from_yaml raw = Ok file ->
  (exists scenarios : list (Scenario W), parse_scenarios_yaml from_yaml raw default_endpoint = Ok scenarios)
  <-> file_ok file /\ all_grpc file.
Proof.
  intros Hf. unfold parse_scenarios_yaml. rewrite Hf. cbn [map_err]. rewrite (ok_bind _ _ file eq_refl), <- validate_schema_nil.
  destruct (validate_schema file) as [|e errors] eqn:Ev; [|split; [by intros []|by intros [? _]]].
  rewrite collect_results_ok. apply validate_schema_nil in Ev as (_ & _ & _ & _ & _ & Hok).
  unfold all_grpc. split; [intros Hs; split; [done|]|intros [_ Hs]]; rewrite Forall_forall in *; intros e He;
    by eapply scenario_entry_Ok; [apply Hok|apply Hs].
Qed.

(** A scenario that can be run. *)
Definition runnable (s : Scenario W) : Prop :=
  name_ok (scenario_name s) /\ rate_ok (cfg_scenarios_per_sec (config s)) /\ cfg_max_concurrency (config s) <> 0
  /\ from_secs 1 <= cfg_duration (config s)
  /\ match cfg_repeat (config s) with Once => True | Every interval => from_secs 1 <= interval end
  /\ (0 < length (steps s))%nat /\ Z.of_nat (length (steps s)) <= MAX_CONFIGURED_STEPS_PER_SCENARIO.

Lemma scenario_entry_runnable d e (s : Scenario W) :
  name_ok (ent_name e) -> entry_ok e -> scenario_entry_into_domain d e = Ok s -> runnable s /\ scenario_name s = ent_name e.
Proof.
  intros Hn (_ & Hr & Hm & Hd & Hi & Hl & Hu & _) Hs. apply bind_Ok in Hs as (ss & Hss & Hs).
  apply bind_Ok in Hs as (rep & Hrep & Hs). apply bind_Ok in Hs as (dur & Hdur & [= <-]).
  apply collect_results_Ok, Forall2_length in Hss. unfold runnable. cbn. rewrite <- Hss. split; [|done].
  pose proof (parse_duration_literal_positive _ _ Hdur). split_and!; try done; [lia|].
  destruct (ent_repeat e) as [|interval]; [by injection Hrep as <-|]. apply bind_Ok in Hrep as (i & Hint & [= <-]).
  pose proof (parse_duration_literal_positive _ _ Hint). lia.
Qed.

(** What the loader returns can be run: between 1 and 128 scenarios with
    distinct names, each with a name of at most 256 bytes that is not blank, a
    positive finite rate, positive concurrency, at least a second of load, at
    least a second between repetitions, and between 1 and 128 steps. *)
Theorem loaded_scenarios_are_runnable raw default_endpoint scenarios :
  parse_scenarios_yaml (W := W) from_yaml raw default_endpoint = Ok scenarios ->
  (0 < length scenarios)%nat /\ Z.of_nat (length scenarios) <= MAX_CONFIGURED_SCENARIOS
  /\ NoDup (map scenario_name scenarios) /\ Forall runnable scenarios.
Proof.
  intros Hp. apply bind_Ok in Hp as (file & _ & Hp). destruct (validate_schema file) eqn:Ev; [|done].
  apply validate_schema_nil in Ev as (_ & Hl & Hu & Hn & Hnd & Hok). apply collect_results_Ok in Hp.
  assert (map scenario_name scenarios = map ent_name (file_scenarios file) /\ Forall runnable scenarios) as [Em Hr].
  { clear Hl Hu Hnd. induction Hp as [|e s l ss Hs _ IH]; [done|]. inversion_clear Hn. inversion_clear Hok.
    destruct (scenario_entry_runnable _ e s ltac:(done) ltac:(done) Hs) as [Hrun Hname]. destruct IH as [IHn IHr]; [done..|].
    split; [simpl; by rewrite Hname, IHn|by constructor]. }
  apply Forall2_length in Hp. rewrite <- Hp, Em. split_and!; try done.
  apply (NoDup_fmap_1 trim). by rewrite <- list_fmap_compose.
Qed.
End built.

(** ** A sample *)

Section sample.
#[local] Existing Instance no_base64.
#[local] Existing Instance plain_text.
#[local] Existing Instance fixed_draws.

Definition sample_file : ScenarioFile :=
  mkScenarioFile 1
    [mkScenarioEntry "checkout" None (f64_of_Z 5) 2 "90s" (RepeatEvery "10m") None
       [GrpcEntry None "shop.Orders" "Get" None (Some (JObject [])) (Some [("order", "id")]) None]].

Definition sample_yaml (raw : string) : result string ScenarioFile := Ok sample_file.

Lemma sample_file_ok : file_ok sample_file.
Proof. apply validate_schema_nil. by vm_compute. Qed.

Lemma scenario_file_accepted_exactly_witness :
  exists scenarios : list (Scenario unit), parse_scenarios_yaml sample_yaml "file" "http://target" = Ok scenarios.
Proof.
  apply (scenario_file_accepted_exactly sample_yaml "file" "http://target" sample_file eq_refl).
  split; [apply sample_file_ok|]. repeat constructor.
Defined.

Lemma loaded_scenarios_are_runnable_witness :
  exists scenarios : list (Scenario unit),
    parse_scenarios_yaml sample_yaml "file" "http://target" = Ok scenarios /\ Forall runnable scenarios.
Proof.
  eexists. split; [reflexivity|].
  exact (proj2 (proj2 (proj2 (loaded_scenarios_are_runnable sample_yaml "file" "http://target" _ eq_refl)))).
Defined.
End sample.
