(* ===== verification/Config.v ===== *)
(** * Configuration

    [src/src/infrastructure/config/mod.rs]: settings read from environment variables
    and files, and their validation. The environment, the files, the URI parser
    ([tonic]/[http]) and the Redis URL parser are parameters. *)

From S2P Require Import Prelude RustStr F64 Contracts Domain Planning Wire.

(** ** Limits *)

Definition MAX_KAFKA_POLL_INTERVAL : duration := from_secs 86400.
Definition MAX_KAFKA_SESSION_TIMEOUT : duration := from_secs 3600.
Definition MAX_CONFIGURED_DURATION : duration := from_secs 86400.
Definition MAX_QUEUE_CAPACITY : Z := 1000000.
Definition MAX_CONSUMER_QUEUE_KBYTES : Z := 1048576.
Definition MAX_KAFKA_MESSAGE_BYTES : Z := 268435456.
Definition POISON_ENVELOPE_OVERHEAD_BYTES : Z := 16384.
Definition MAX_TOPIC_PARTITIONS : Z := 10000.
Definition MAX_TOPIC_REPLICATION_FACTOR : Z := 32.
Definition MAX_WORKER_RETRIES : Z := 32.
Definition MAX_SAFETY_RATE : f64 := f64_of_Z 1000000000.
Definition MAX_SAFETY_CONCURRENCY : Z := 1000000.
Definition REDIS_OPERATION_TIMEOUT_CEILING : duration := from_secs 2.
Definition KAFKA_POLL_SAFETY_MARGIN : duration := from_secs 1.

Record AppConfig := mkAppConfig {
  kafka_brokers : string;
  kafka_jobs_topic : string;
  kafka_results_topic : string;
  kafka_summaries_topic : string;
  kafka_dlq_topic : string;
  kafka_group_id : string;
  kafka_aggregator_group_id : string;
  kafka_max_poll_interval : duration;
  kafka_session_timeout : duration;
  kafka_message_timeout : duration;
  kafka_delivery_timeout : duration;
  kafka_request_timeout : duration;
  kafka_producer_acks : string;
  kafka_producer_idempotence : bool;
  kafka_producer_message_max_bytes : Z;
  kafka_topic_management_enabled : bool;
  kafka_topic_partitions : Z;
  kafka_topic_replication_factor : Z;
  producer_queue_messages : Z;
  consumer_queue_kbytes : Z;
  consumer_partition_fetch_max_bytes : Z;
  consumer_fetch_max_bytes : Z;
  consumer_record_max_bytes : Z;
  redis_url : string;
  redis_leader_key : string;
  redis_schedule_prefix : string;
  redis_idempotency_prefix : string;
  redis_aggregation_prefix : string;
  app_node_id : string;
  leader_lock_ttl_ms : Z;
  app_leader_renew_interval : duration;
  app_scheduler_tick_interval : duration;
  execution_lease_ttl : duration;
  execution_lease_renew_interval : duration;
  execution_terminal_retention : duration;
  app_worker_max_retries : Z;
  app_worker_retry_base_delay : duration;
  app_worker_retry_max_delay : duration;
  retry_queue_capacity : Z;
  aggregation_enabled : bool;
  aggregation_partial_timeout : duration;
  aggregation_retention : duration;
  aggregation_scan_interval : duration;
  aggregation_scan_batch : Z;
  aggregation_max_active_runs : Z;
  aggregation_max_error_kinds : Z;
  startup_deadline : duration;
  app_shutdown_drain_timeout : duration;
  pulse_endpoint : string;
  scenarios_file : option string;
  grpc_descriptor_set : option string;
  grpc_connect_timeout : duration;
  grpc_request_timeout : duration;
  grpc_scenario_timeout : duration;
  max_duration : duration;
  app_max_scenarios_per_sec : f64;
  app_max_concurrency : Z;
  dry_run : bool;
  app_startup_burst : Z;
  allow_partial_start : bool;
  target_allowlist : list string;
  acknowledge_non_local_targets : bool;
  metrics_enabled : bool;
  metrics_bind : string;
}.

Inductive ConfigError :=
| EnvironmentError (name reason : string)
| FileError (name path reason : string)
| InvalidConfig (name reason : string).

Definition show_ConfigError (e : ConfigError) : string :=
  match e with
  | EnvironmentError name reason => "failed to read environment setting " +:+ name +:+ ": " +:+ reason
  | FileError name path reason => "failed to load " +:+ name +:+ " from '" +:+ path +:+ "': " +:+ reason
  | InvalidConfig name reason => "invalid configuration for " +:+ name +:+ ": " +:+ reason
  end.

(** ** Numeric addresses *)

(** [Ipv4Addr]: four decimal numbers without leading zeros. *)
Definition parse_octet (s : string) : option Z :=
  if (3 <? str_len s) then None else
  match s with
  | String "0" (String _ _) => None
  | _ => z ← parse_nat s; if z <=? 255 then Some z else None
  end.

Definition is_ipv4 (s : string) : bool :=
  match split_char "." s with
  | [a; b; c; d] => forallb (fun o => bool_decide (is_Some (parse_octet o))) [a; b; c; d]
  | _ => false
  end.

Definition is_hex_digit (c : ascii) : bool :=
  is_digit c || in_span 97 102 (byte_of (ascii_lower c)).

Definition is_hex_group (s : string) : bool :=
  (1 <=? str_len s) && (str_len s <=? 4) && all_chars is_hex_digit s.

(** How many 16-bit groups the text of one side of a [::] stands for; only the
    last of them may be an IPv4 address, which stands for two. *)
Fixpoint ipv6_groups (allow_v4 : bool) (l : list string) : option Z :=
  match l with
  | [] => Some 0
  | [g] => if is_hex_group g then Some 1 else if allow_v4 && is_ipv4 g then Some 2 else None
  | g :: l' => if is_hex_group g then n ← ipv6_groups allow_v4 l'; Some (n + 1) else None
  end.

(** [Ipv6Addr] without a scope: eight groups, or fewer around one [::]. *)
Definition is_ipv6 (s : string) : bool :=
  let side (t : string) := if str_is_empty t then Some 0 else ipv6_groups true (split_char ":" t) in
  match split_once "::" s with
  | None => match ipv6_groups true (split_char ":" s) with Some n => n =? 8 | None => false end
  | Some (l, r) =>
      match (if str_is_empty l then Some 0 else ipv6_groups false (split_char ":" l)), side r with
      | Some n, Some m => n + m <=? 7
      | _, _ => false
      end
  end.

Definition is_ip_addr (s : string) : bool := is_ipv4 s || is_ipv6 s.

(** A decimal number up to the bound. *)
Definition is_bounded_decimal (bound : Z) (s : string) : bool :=
  match parse_nat s with Some z => z <=? bound | None => false end.

(** The text of an [Ipv6Addr] with an optional decimal scope. *)
Definition is_scoped_ipv6 (s : string) : bool :=
  match split_once "%" s with
  | Some (addr, scope) => is_ipv6 addr && is_bounded_decimal u32_max scope
  | None => is_ipv6 s
  end.

(** [SocketAddr]: [a.b.c.d:port] or [[v6]:port]. *)
Definition is_socket_addr (s : string) : bool :=
  match strip_prefix "[" s with
  | Some r => match split_once "]:" r with
              | Some (addr, port) => is_scoped_ipv6 addr && is_bounded_decimal u16_max port
              | None => false
              end
  | None => match split_char ":" s with
            | [addr; port] => is_ipv4 addr && is_bounded_decimal u16_max port
            | _ => false
            end
  end.

(** ** Reading settings *)

Definition trimmed_non_empty (name value : string) : result ConfigError string :=
  if blank value then Err (InvalidConfig name "must not be empty or whitespace-only") else Ok (trim value).

Definition validate_non_empty (name value : string) : result ConfigError unit :=
  _ ← trimmed_non_empty name value; Ok tt.

Section sources.
(** The environment and the files. *)
Variable env : string -> result ConfigError (option string).
Variable read_file : string -> result string string.

Definition source_string (name default_value : string) : result ConfigError string :=
  o ← env name; trimmed_non_empty name (default default_value o).

Definition source_optional_string (name : string) : result ConfigError (option string) :=
  o ← env name;
  match o with
  | Some value => v ← trimmed_non_empty name value; Ok (Some v)
  | None => Ok None
  end.

Definition source_string_with_file (name default_value : string) : result ConfigError string :=
  let file_name := name +:+ "_FILE" in
  direct ← env name;
  file_path ← env file_name;
  match direct, file_path with
  | Some _, Some _ => Err (InvalidConfig name ("cannot be set together with " +:+ file_name))
  | Some value, None => trimmed_non_empty name value
  | None, Some path =>
      path ← trimmed_non_empty file_name path;
      value ← map_err (FileError name path) (read_file path);
      map_err (fun _ => FileError name path "file is empty or whitespace-only") (trimmed_non_empty name value)
  | None, None => trimmed_non_empty name default_value
  end.

Definition source_parse {A} (type_name : string) (parse : string -> option A) (name : string) (default_value : A)
    : result ConfigError A :=
  o ← env name;
  match o with
  | None => Ok default_value
  | Some raw =>
      value ← trimmed_non_empty name raw;
      ok_or (parse value) (InvalidConfig name ("must be a valid " +:+ type_name))
  end.

Definition parse_usize : string -> Z -> result ConfigError Z := source_parse "usize" (parse_uint usize_max).
Definition parse_u64 : string -> Z -> result ConfigError Z := source_parse "u64" (parse_uint u64_max).
Definition parse_u32 : string -> Z -> result ConfigError Z := source_parse "u32" (parse_uint u32_max).
Definition parse_i32 : string -> Z -> result ConfigError Z := source_parse "i32" (parse_int i32_max).
Definition parse_f64 : string -> f64 -> result ConfigError f64 :=
  source_parse "f64" (fun s => f64_of_bits <$> parse_float 52 11 s).

Definition source_duration_ms (name : string) (default_ms : Z) : result ConfigError duration :=
  millis ← parse_u64 name default_ms;
  if millis =? 0 then Err (InvalidConfig name "must be greater than zero") else Ok (from_millis millis).

Definition source_boolean (name : string) (default_value : bool) : result ConfigError bool :=
  o ← env name;
  match o with
  | None => Ok default_value
  | Some raw =>
      value ← trimmed_non_empty name raw;
      let value := to_ascii_lowercase value in
      if bool_decide (value = "true") || bool_decide (value = "1") then Ok true
      else if bool_decide (value = "false") || bool_decide (value = "0") then Ok false
      else Err (InvalidConfig name "must be one of: true, false, 1, 0")
  end.
End sources.

(** ** Validation *)

(** The parts of a URI the validation reads. *)
Record Uri := mkUri {
  uri_scheme : option string;
  uri_host : option string;
  uri_port : option Z;
  uri_path : string;
  uri_query : option string;
}.

(** [Endpoint::from_shared] and [redis::Client::open]; an error is its text. *)
Class UrlParsers := {
  parse_endpoint : string -> result string Uri;
  open_redis_url : string -> result string unit;
}.

Definition redis_hash_tag (value : string) : option string :=
  '(_, remainder) ← split_once "{" value;
  '(tag, _) ← split_once "}" remainder;
  if str_is_empty tag then None else Some tag.

Definition is_ascii_alphanumeric (c : ascii) : bool :=
  is_digit c || in_span 65 90 (byte_of c) || in_span 97 122 (byte_of c).

Definition validate_topic (name topic : string) : result ConfigError unit :=
  validate_non_empty name topic;;
  reject_if (249 <? str_len topic) (InvalidConfig name "must be at most 249 bytes");;
  reject_if (negb (all_chars (fun c => is_ascii_alphanumeric c || Ascii.eqb c "." || Ascii.eqb c "_" || Ascii.eqb c "-") topic))
    (InvalidConfig name "may contain only ASCII letters, digits, '.', '_', and '-'").

Definition validate_capacity (name : string) (value maximum : Z) : result ConfigError unit :=
  reject_if ((value =? 0) || (maximum <? value)) (InvalidConfig name ("must be between 1 and " +:+ show maximum)).

Definition poison_record_size_bound (source_message_bytes : Z) : option Z :=
  n ← checked_add usize_max source_message_bytes 2;
  n ← checked_mul usize_max (n / 3) 4;
  n ← checked_add usize_max n 4;
  checked_add usize_max n POISON_ENVELOPE_OVERHEAD_BYTES.

Definition validate_inclusive_i32 (name : string) (value minimum maximum : Z) : result ConfigError unit :=
  reject_if (negb ((minimum <=? value) && (value <=? maximum)))
    (InvalidConfig name ("must be between " +:+ show minimum +:+ " and " +:+ show maximum)).

Definition validate_duration_upper_bound (name : string) (value maximum : duration) : result ConfigError unit :=
  reject_if (duration_is_zero value || (maximum <? value))
    (InvalidConfig name ("must be greater than zero and no more than " +:+ show (as_millis maximum) +:+ " ms")).

Definition checked_duration_sum (name : string) (values : list duration) : result ConfigError duration :=
  try_fold (fun sum value => ok_or (duration_checked_add sum value) (InvalidConfig name "duration budget overflowed"))
    0 values.

Definition duration_checked_mul (d : duration) (k : Z) : option duration := checked_mul duration_max d k.

(** The longest delay after an attempt. *)
Definition backoff_upper (base maximum : duration) (attempt : Z) : duration :=
  let multiplier := Z.shiftl 1 (Z.min attempt 16) in
  let exponential := Z.min (duration_saturating_mul base multiplier) maximum in
  Z.min (duration_saturating_mul exponential 6 / 5) maximum.

Definition retry_backoff_upper_bound (base maximum : duration) (retry_count : Z) : result ConfigError duration :=
  try_fold (fun total attempt =>
      ok_or (duration_checked_add total (backoff_upper base maximum attempt))
        (InvalidConfig "PULSE_KAFKA_MAX_POLL_INTERVAL_MS" "bounded retry backoff sum overflowed Duration"))
    0 (rangeZ retry_count).

Definition allowlist_label_ok (label : string) : bool :=
  negb (str_is_empty label) && (str_len label <=? 63) && negb (starts_with "-" label)
  && negb (bool_decide (is_Some (strip_suffix "-" label)))
  && all_chars (fun c => is_ascii_alphanumeric c || Ascii.eqb c "-") label.

Definition validate_allowlist_host (host : string) : result ConfigError unit :=
  if is_ip_addr host then Ok tt else
  reject_if ((253 <? str_len host) || starts_with "." host || bool_decide (is_Some (strip_suffix "." host))
             || negb (forallb allowlist_label_ok (split_char "." host)))
    (InvalidConfig "PULSE_TARGET_ALLOWLIST" "entries must be hostnames or IP addresses without schemes, paths, or ports").

(** The hosts so far, without repetitions, in order. *)
Definition parse_allowlist_host (hosts : list string) (raw_host : string) : result ConfigError (list string) :=
  let host := to_ascii_lowercase (trim raw_host) in
  if str_is_empty host then Err (InvalidConfig "PULSE_TARGET_ALLOWLIST" "must not contain empty entries") else
  validate_allowlist_host host;;
  Ok (if bool_decide (host ∈ hosts) then hosts else hosts ++ [host]).

Definition parse_allowlist (raw : string) : result ConfigError (list string) :=
  hosts ← try_fold parse_allowlist_host [] (split_char "," raw);
  match hosts with
  | [] => Err (InvalidConfig "PULSE_TARGET_ALLOWLIST" "must contain at least one host")
  | _ => Ok hosts
  end.

Section urls.
Context `{UrlParsers}.

Definition validate_broker (raw : string) : result ConfigError unit :=
  let broker := trim raw in
  let invalid reason := InvalidConfig "PULSE_KAFKA_BROKERS" reason in
  reject_if (str_is_empty broker || str_contains "://" broker)
    (invalid "must be a comma-separated list of host:port authorities without URL schemes");;
  uri ← map_err (fun _ => invalid "contains an invalid broker authority") (parse_endpoint ("http://" +:+ broker));
  reject_if (negb (bool_decide (is_Some (uri_host uri))) || negb (bool_decide (is_Some (uri_port uri)))
             || negb (str_is_empty (uri_path uri) || bool_decide (uri_path uri = "/")) || bool_decide (is_Some (uri_query uri)))
    (invalid "every broker must include a host and numeric port").

Definition validate_brokers (brokers : string) : result ConfigError unit :=
  validate_non_empty "PULSE_KAFKA_BROKERS" brokers;;
  try_for validate_broker (split_char "," brokers).

Definition endpoint_host (name value : string) : result ConfigError string :=
  uri ← map_err (fun e => InvalidConfig name ("invalid endpoint URL: " +:+ e)) (parse_endpoint value);
  match uri_scheme uri with
  | Some "http" => Ok tt
  | Some "https" =>
      Err (InvalidConfig name "https endpoints are not supported because this Pulse build has no gRPC TLS transport; use http:// only on a trusted network")
  | _ => Err (InvalidConfig name "endpoint URL scheme must be http; this Pulse build supports plaintext gRPC only")
  end;;
  reject_if (negb (str_is_empty (uri_path uri) || bool_decide (uri_path uri = "/")) || bool_decide (is_Some (uri_query uri)))
    (InvalidConfig name "endpoint URL must not contain a path or query");;
  ok_or (to_ascii_lowercase ∘ (fun host => default host (strip_prefix "[" host ≫= strip_suffix "]")) <$> uri_host uri)
    (InvalidConfig name "endpoint URL must include a host").

Definition validate_target_endpoint (self : AppConfig) (endpoint : string) : result ConfigError unit :=
  host ← endpoint_host "target endpoint" endpoint;
  reject_if (negb (acknowledge_non_local_targets self
                   || existsb (fun allowed => bool_decide (to_ascii_lowercase allowed = to_ascii_lowercase host)) (target_allowlist self)))
    (InvalidConfig "target endpoint"
       ("host '" +:+ host +:+ "' is not allowlisted; add it to PULSE_TARGET_ALLOWLIST or explicitly set PULSE_ACKNOWLEDGE_NON_LOCAL_TARGETS=true")).
End urls.

Definition redis_operation_timeout (self : AppConfig) : duration :=
  Z.min REDIS_OPERATION_TIMEOUT_CEILING (kafka_request_timeout self).

Definition kafka_safe_processing_interval (self : AppConfig) : duration :=
  duration_saturating_sub (kafka_max_poll_interval self) KAFKA_POLL_SAFETY_MARGIN.

(** ** [AppConfig::validate] *)

Section validate.
Context `{UrlParsers}.
Variable self : AppConfig.

Definition validate_names : result ConfigError unit :=
  validate_brokers (kafka_brokers self);;
  validate_topic "PULSE_KAFKA_JOBS_TOPIC" (kafka_jobs_topic self);;
  validate_topic "PULSE_KAFKA_RESULTS_TOPIC" (kafka_results_topic self);;
  validate_topic "PULSE_KAFKA_SUMMARIES_TOPIC" (kafka_summaries_topic self);;
  validate_topic "PULSE_KAFKA_DLQ_TOPIC" (kafka_dlq_topic self);;
  reject_if (negb (bool_decide (NoDup [kafka_jobs_topic self; kafka_results_topic self; kafka_summaries_topic self; kafka_dlq_topic self])))
    (InvalidConfig "Kafka topics" "jobs, results, summaries, and DLQ topics must be distinct");;
  validate_non_empty "PULSE_KAFKA_GROUP_ID" (kafka_group_id self);;
  validate_non_empty "PULSE_KAFKA_AGGREGATOR_GROUP_ID" (kafka_aggregator_group_id self);;
  reject_if (bool_decide (kafka_group_id self = kafka_aggregator_group_id self))
    (InvalidConfig "PULSE_KAFKA_AGGREGATOR_GROUP_ID" "must differ from the job-worker consumer group");;
  validate_non_empty "PULSE_REDIS_LEADER_KEY" (redis_leader_key self);;
  validate_non_empty "PULSE_REDIS_SCHEDULE_PREFIX" (redis_schedule_prefix self);;
  leader_slot ← ok_or (redis_hash_tag (redis_leader_key self))
    (InvalidConfig "PULSE_REDIS_LEADER_KEY" "must contain a non-empty Redis Cluster hash tag such as '{coordination}'");
  schedule_slot ← ok_or (redis_hash_tag (redis_schedule_prefix self))
    (InvalidConfig "PULSE_REDIS_SCHEDULE_PREFIX" "must contain the same Redis Cluster hash tag as PULSE_REDIS_LEADER_KEY");
  reject_if (negb (bool_decide (leader_slot = schedule_slot)))
    (InvalidConfig "Redis coordination hash tag" "leader and schedule keys must share one Redis Cluster hash tag");;
  validate_non_empty "PULSE_REDIS_IDEMPOTENCY_PREFIX" (redis_idempotency_prefix self);;
  validate_non_empty "PULSE_REDIS_AGGREGATION_PREFIX" (redis_aggregation_prefix self);;
  reject_if (negb (bool_decide (NoDup [redis_schedule_prefix self; redis_idempotency_prefix self; redis_aggregation_prefix self])))
    (InvalidConfig "Redis prefixes" "schedule, execution, and aggregation prefixes must be distinct");;
  validate_non_empty "PULSE_NODE_ID" (app_node_id self);;
  map_err (fun e => InvalidConfig "PULSE_REDIS_URL" ("invalid Redis URL: " +:+ e)) (open_redis_url (redis_url self)).

Definition validate_kafka_timeouts : result ConfigError unit :=
  validate_duration_upper_bound "PULSE_KAFKA_MAX_POLL_INTERVAL_MS" (kafka_max_poll_interval self) MAX_KAFKA_POLL_INTERVAL;;
  validate_duration_upper_bound "PULSE_KAFKA_SESSION_TIMEOUT_MS" (kafka_session_timeout self) MAX_KAFKA_SESSION_TIMEOUT;;
  reject_if (kafka_max_poll_interval self <=? kafka_session_timeout self)
    (InvalidConfig "PULSE_KAFKA_SESSION_TIMEOUT_MS" "must be less than PULSE_KAFKA_MAX_POLL_INTERVAL_MS");;
  reject_if (negb (kafka_message_timeout self =? kafka_delivery_timeout self))
    (InvalidConfig "PULSE_KAFKA_MESSAGE_TIMEOUT_MS" "must equal PULSE_KAFKA_DELIVERY_TIMEOUT_MS because librdkafka treats them as aliases");;
  reject_if (kafka_delivery_timeout self <? kafka_request_timeout self)
    (InvalidConfig "PULSE_KAFKA_REQUEST_TIMEOUT_MS" "must not exceed the producer delivery timeout");;
  reject_if (negb (bool_decide (kafka_producer_acks self = "all") || bool_decide (kafka_producer_acks self = "-1")))
    (InvalidConfig "PULSE_KAFKA_PRODUCER_ACKS" "must be 'all' or '-1' so terminal publications are durably acknowledged").

Definition validate_kafka_capacities : result ConfigError unit :=
  validate_inclusive_i32 "PULSE_KAFKA_TOPIC_PARTITIONS" (kafka_topic_partitions self) 1 MAX_TOPIC_PARTITIONS;;
  validate_inclusive_i32 "PULSE_KAFKA_TOPIC_REPLICATION_FACTOR" (kafka_topic_replication_factor self) 1 MAX_TOPIC_REPLICATION_FACTOR;;
  validate_capacity "PULSE_KAFKA_PRODUCER_QUEUE_MESSAGES" (producer_queue_messages self) MAX_QUEUE_CAPACITY;;
  validate_capacity "PULSE_KAFKA_CONSUMER_QUEUE_KBYTES" (consumer_queue_kbytes self) MAX_CONSUMER_QUEUE_KBYTES;;
  validate_capacity "PULSE_KAFKA_PRODUCER_MESSAGE_MAX_BYTES" (kafka_producer_message_max_bytes self) MAX_KAFKA_MESSAGE_BYTES;;
  validate_capacity "PULSE_KAFKA_CONSUMER_PARTITION_FETCH_MAX_BYTES" (consumer_partition_fetch_max_bytes self) MAX_KAFKA_MESSAGE_BYTES;;
  validate_capacity "PULSE_KAFKA_CONSUMER_FETCH_MAX_BYTES" (consumer_fetch_max_bytes self) MAX_KAFKA_MESSAGE_BYTES;;
  validate_capacity "PULSE_KAFKA_CONSUMER_RECORD_MAX_BYTES" (consumer_record_max_bytes self) MAX_KAFKA_MESSAGE_BYTES;;
  reject_if (consumer_fetch_max_bytes self <? consumer_partition_fetch_max_bytes self)
    (InvalidConfig "PULSE_KAFKA_CONSUMER_FETCH_MAX_BYTES"
       "must be greater than or equal to PULSE_KAFKA_CONSUMER_PARTITION_FETCH_MAX_BYTES");;
  reject_if (consumer_fetch_max_bytes self <? consumer_record_max_bytes self)
    (InvalidConfig "PULSE_KAFKA_CONSUMER_RECORD_MAX_BYTES" "must be less than or equal to PULSE_KAFKA_CONSUMER_FETCH_MAX_BYTES");;
  reject_if (consumer_record_max_bytes self <? kafka_producer_message_max_bytes self)
    (InvalidConfig "PULSE_KAFKA_CONSUMER_RECORD_MAX_BYTES"
       "must be greater than or equal to PULSE_KAFKA_PRODUCER_MESSAGE_MAX_BYTES so Pulse can consume every record it can publish");;
  let invalid reason := InvalidConfig "PULSE_KAFKA_PRODUCER_MESSAGE_MAX_BYTES" reason in
  poison_evidence_bytes ← ok_or (checked_mul usize_max MAX_POISON_EVIDENCE_FIELD_BYTES 2)
    (invalid "cannot calculate the bounded poison evidence size");
  poison_record_bound ← ok_or (poison_record_size_bound poison_evidence_bytes)
    (invalid "cannot calculate a safe base64 poison-record size bound");
  reject_if (kafka_producer_message_max_bytes self <? poison_record_bound)
    (invalid ("must be at least " +:+ show poison_record_bound +:+ " bytes to carry the bounded base64 poison evidence envelope")).

Definition validate_aggregation : result ConfigError unit :=
  validate_capacity "PULSE_RETRY_QUEUE_CAPACITY" (retry_queue_capacity self) MAX_QUEUE_CAPACITY;;
  validate_capacity "PULSE_AGGREGATION_SCAN_BATCH" (aggregation_scan_batch self) MAX_QUEUE_CAPACITY;;
  validate_capacity "PULSE_AGGREGATION_MAX_ACTIVE_RUNS" (aggregation_max_active_runs self) MAX_QUEUE_CAPACITY;;
  validate_capacity "PULSE_AGGREGATION_MAX_ERROR_KINDS" (aggregation_max_error_kinds self) 10000;;
  reject_if (aggregation_max_active_runs self <? aggregation_scan_batch self)
    (InvalidConfig "PULSE_AGGREGATION_SCAN_BATCH" "must not exceed PULSE_AGGREGATION_MAX_ACTIVE_RUNS");;
  reject_if (aggregation_retention self <=? aggregation_partial_timeout self)
    (InvalidConfig "PULSE_AGGREGATION_RETENTION_MS"
       "must exceed PULSE_AGGREGATION_PARTIAL_TIMEOUT_MS so finalized summaries remain recoverable");;
  aggregation_discovery_budget ← checked_duration_sum "PULSE_AGGREGATION_RETENTION_MS"
    [max_duration self; aggregation_partial_timeout self];
  reject_if (aggregation_retention self <=? aggregation_discovery_budget)
    (InvalidConfig "PULSE_AGGREGATION_RETENTION_MS"
       "must exceed PULSE_MAX_DURATION_MS plus PULSE_AGGREGATION_PARTIAL_TIMEOUT_MS so a zero-result run remains discoverable");;
  reject_if (aggregation_partial_timeout self <? aggregation_scan_interval self)
    (InvalidConfig "PULSE_AGGREGATION_SCAN_INTERVAL_MS" "must not exceed PULSE_AGGREGATION_PARTIAL_TIMEOUT_MS").

Definition validate_retries : result ConfigError unit :=
  reject_if (MAX_WORKER_RETRIES <? app_worker_max_retries self)
    (InvalidConfig "PULSE_WORKER_MAX_RETRIES" ("must not exceed " +:+ show MAX_WORKER_RETRIES));;
  reject_if (duration_is_zero (app_worker_retry_base_delay self))
    (InvalidConfig "PULSE_WORKER_RETRY_BASE_DELAY_MS" "must be greater than zero to prevent a tight retry loop");;
  reject_if (duration_is_zero (app_worker_retry_max_delay self))
    (InvalidConfig "PULSE_WORKER_RETRY_MAX_DELAY_MS" "must be greater than zero to prevent a tight retry loop");;
  reject_if (app_worker_retry_max_delay self <? app_worker_retry_base_delay self)
    (InvalidConfig "PULSE_WORKER_RETRY_BASE_DELAY_MS" "must not exceed PULSE_WORKER_RETRY_MAX_DELAY_MS");;
  reject_if (kafka_max_poll_interval self <=? app_worker_retry_max_delay self)
    (InvalidConfig "PULSE_WORKER_RETRY_MAX_DELAY_MS" "must be less than PULSE_KAFKA_MAX_POLL_INTERVAL_MS").

(** The TTL a lease must have: three renewals, and a response in time. *)
Definition required_ttl (name : string) (renew_interval : duration) : result ConfigError duration :=
  renew_budget ← ok_or (duration_checked_mul renew_interval 3) (InvalidConfig name "three renewal intervals overflow Duration");
  response_budget ← ok_or (b ← duration_checked_add (redis_operation_timeout self) renew_interval; duration_checked_add b (from_millis 1))
    (InvalidConfig name "Redis response safety budget overflowed Duration");
  Ok (Z.max renew_budget response_budget).

Definition ttl_too_short (name : string) (required : duration) : ConfigError :=
  InvalidConfig name ("must cover three renewal intervals and the Redis operation response budget (at least "
                      +:+ show (as_millis required) +:+ " ms)").

Definition validate_leases : result ConfigError unit :=
  required_leader_ttl ← required_ttl "PULSE_LEADER_RENEW_INTERVAL_MS" (app_leader_renew_interval self);
  reject_if (from_millis (leader_lock_ttl_ms self) <? required_leader_ttl) (ttl_too_short "PULSE_LEADER_LOCK_TTL_MS" required_leader_ttl);;
  reject_if (from_millis (leader_lock_ttl_ms self) <=? app_scheduler_tick_interval self)
    (InvalidConfig "PULSE_SCHEDULER_TICK_INTERVAL_MS" "must be less than the leader lock TTL");;
  required_execution_ttl ← required_ttl "PULSE_EXECUTION_LEASE_RENEW_INTERVAL_MS" (execution_lease_renew_interval self);
  reject_if (execution_lease_ttl self <? required_execution_ttl)
    (ttl_too_short "PULSE_EXECUTION_LEASE_TTL_MS" required_execution_ttl);;
  reject_if (execution_terminal_retention self <? kafka_max_poll_interval self)
    (InvalidConfig "PULSE_EXECUTION_TERMINAL_RETENTION_MS"
       "must be at least the Kafka max poll interval so redelivery can verify terminal state").

Definition validate_load_limits : result ConfigError unit :=
  validate_duration_upper_bound "PULSE_MAX_DURATION_MS" (max_duration self) MAX_CONFIGURED_DURATION;;
  reject_if (negb (f64_is_finite (app_max_scenarios_per_sec self)) || f64_leb (app_max_scenarios_per_sec self) f64_zero)
    (InvalidConfig "PULSE_MAX_SCENARIOS_PER_SEC" "must be finite and greater than zero");;
  reject_if (f64_ltb MAX_SAFETY_RATE (app_max_scenarios_per_sec self))
    (InvalidConfig "PULSE_MAX_SCENARIOS_PER_SEC" ("must not exceed " +:+ show_f64 MAX_SAFETY_RATE));;
  reject_if ((app_max_concurrency self =? 0) || (MAX_SAFETY_CONCURRENCY <? app_max_concurrency self))
    (InvalidConfig "PULSE_MAX_CONCURRENCY" ("must be between 1 and " +:+ show MAX_SAFETY_CONCURRENCY));;
  reject_if (app_max_concurrency self <? app_startup_burst self)
    (InvalidConfig "PULSE_STARTUP_BURST" "must not exceed PULSE_MAX_CONCURRENCY").

Definition validate_deadlines : result ConfigError unit :=
  reject_if (grpc_scenario_timeout self <? grpc_request_timeout self)
    (InvalidConfig "PULSE_GRPC_REQUEST_TIMEOUT_MS" "must not exceed PULSE_GRPC_SCENARIO_TIMEOUT_MS");;
  startup_dependency_budget ← checked_duration_sum "PULSE_STARTUP_DEADLINE_MS" [grpc_connect_timeout self; kafka_request_timeout self];
  reject_if (startup_deadline self <? startup_dependency_budget)
    (InvalidConfig "PULSE_STARTUP_DEADLINE_MS" "must cover the gRPC connect and Kafka request timeout budgets");;
  shutdown_settlement_budget ← checked_duration_sum "PULSE_SHUTDOWN_DRAIN_TIMEOUT_MS"
    [kafka_delivery_timeout self; kafka_request_timeout self];
  reject_if (app_shutdown_drain_timeout self <? shutdown_settlement_budget)
    (InvalidConfig "PULSE_SHUTDOWN_DRAIN_TIMEOUT_MS" "must cover Kafka delivery and request timeout budgets").

Definition validate_poll_budget : result ConfigError unit :=
  let poll := "PULSE_KAFKA_MAX_POLL_INTERVAL_MS" in
  let local_attempts := saturating_add u32_max (app_worker_max_retries self) 1 in
  result_then_retry_delivery_budget ← ok_or (duration_checked_mul (kafka_delivery_timeout self) (saturating_mul u32_max local_attempts 2))
    (InvalidConfig poll "bounded result/retry delivery budget overflowed Duration");
  completion_request_budget ← ok_or (duration_checked_mul (kafka_request_timeout self) local_attempts)
    (InvalidConfig poll "bounded completion request budget overflowed Duration");
  backoff ← retry_backoff_upper_bound (app_worker_retry_base_delay self) (app_worker_retry_max_delay self) (app_worker_max_retries self);
  local_backoff_budget ← ok_or (duration_checked_mul backoff 3)
    (InvalidConfig poll "bounded publication/completion backoff budget overflowed Duration");
  bounded_job_and_settlement ← checked_duration_sum poll
    [max_duration self; grpc_scenario_timeout self; app_worker_retry_max_delay self; result_then_retry_delivery_budget;
     completion_request_budget; local_backoff_budget];
  required_poll_interval ← ok_or (duration_checked_add bounded_job_and_settlement KAFKA_POLL_SAFETY_MARGIN)
    (InvalidConfig poll "bounded job, settlement, and poll safety margin overflowed Duration");
  reject_if (kafka_max_poll_interval self <=? required_poll_interval)
    (InvalidConfig poll ("must exceed the bounded job/settlement budget plus the " +:+ show (as_millis KAFKA_POLL_SAFETY_MARGIN)
       +:+ " ms poll safety margin (more than " +:+ show (as_millis required_poll_interval) +:+ " ms total)")).

Definition validate_targets : result ConfigError unit :=
  reject_if (bool_decide (target_allowlist self = [])) (InvalidConfig "PULSE_TARGET_ALLOWLIST" "must contain at least one host");;
  try_for validate_allowlist_host (target_allowlist self);;
  reject_if (negb (is_socket_addr (metrics_bind self)))
    (InvalidConfig "PULSE_METRICS_BIND" "must be a numeric socket address: invalid socket address syntax");;
  validate_target_endpoint self (pulse_endpoint self).

Definition AppConfig_validate : result ConfigError unit :=
  validate_names;; validate_kafka_timeouts;; validate_kafka_capacities;; validate_aggregation;; validate_retries;;
  validate_leases;; validate_load_limits;; validate_deadlines;; validate_poll_budget;; validate_targets.
End validate.

(** ** [AppConfig::from_sources] *)

Section from_sources.
Context `{UrlParsers}.
Variable env : string -> result ConfigError (option string).
Variable read_file : string -> result string string.
Variable default_node_id : string.

(** The acknowledgement setting, in its normal form. *)
Definition read_producer_acks : result ConfigError string :=
  acks ← source_string env "PULSE_KAFKA_PRODUCER_ACKS" "all";
  let acks := to_ascii_lowercase acks in
  if bool_decide (acks = "all") || bool_decide (acks = "-1") then Ok "all"
  else Err (InvalidConfig "PULSE_KAFKA_PRODUCER_ACKS" "must be 'all' or '-1' so terminal publications are durably acknowledged").

(** The settings in the order they are read. *)
Definition read_settings : result ConfigError AppConfig :=
  v_kafka_producer_acks ← read_producer_acks;
  allowlist ← source_string env "PULSE_TARGET_ALLOWLIST" "localhost,127.0.0.1,::1";
  v_target_allowlist ← parse_allowlist allowlist;
  v_kafka_brokers ← source_string env "PULSE_KAFKA_BROKERS" "localhost:9092";
  v_kafka_jobs_topic ← source_string env "PULSE_KAFKA_JOBS_TOPIC" "pulse.scenario.jobs";
  v_kafka_results_topic ← source_string env "PULSE_KAFKA_RESULTS_TOPIC" "pulse.scenario.results";
  v_kafka_summaries_topic ← source_string env "PULSE_KAFKA_SUMMARIES_TOPIC" "pulse.scenario.summaries";
  v_kafka_dlq_topic ← source_string env "PULSE_KAFKA_DLQ_TOPIC" "pulse.scenario.dlq";
  v_kafka_group_id ← source_string env "PULSE_KAFKA_GROUP_ID" "pulse-workers";
  v_kafka_aggregator_group_id ← source_string env "PULSE_KAFKA_AGGREGATOR_GROUP_ID" "pulse-aggregators";
  v_kafka_max_poll_interval ← source_duration_ms env "PULSE_KAFKA_MAX_POLL_INTERVAL_MS" 300000;
  v_kafka_session_timeout ← source_duration_ms env "PULSE_KAFKA_SESSION_TIMEOUT_MS" 10000;
  v_kafka_message_timeout ← source_duration_ms env "PULSE_KAFKA_MESSAGE_TIMEOUT_MS" 10000;
  v_kafka_delivery_timeout ← source_duration_ms env "PULSE_KAFKA_DELIVERY_TIMEOUT_MS" 10000;
  v_kafka_request_timeout ← source_duration_ms env "PULSE_KAFKA_REQUEST_TIMEOUT_MS" 5000;
  v_kafka_producer_idempotence ← source_boolean env "PULSE_KAFKA_PRODUCER_IDEMPOTENCE" true;
  v_kafka_producer_message_max_bytes ← parse_usize env "PULSE_KAFKA_PRODUCER_MESSAGE_MAX_BYTES" 1000000;
  v_kafka_topic_management_enabled ← source_boolean env "PULSE_KAFKA_TOPIC_MANAGEMENT_ENABLED" false;
  v_kafka_topic_partitions ← parse_i32 env "PULSE_KAFKA_TOPIC_PARTITIONS" 3;
  v_kafka_topic_replication_factor ← parse_i32 env "PULSE_KAFKA_TOPIC_REPLICATION_FACTOR" 1;
  v_producer_queue_messages ← parse_usize env "PULSE_KAFKA_PRODUCER_QUEUE_MESSAGES" 1024;
  v_consumer_queue_kbytes ← parse_usize env "PULSE_KAFKA_CONSUMER_QUEUE_KBYTES" 4096;
  v_consumer_partition_fetch_max_bytes ← parse_usize env "PULSE_KAFKA_CONSUMER_PARTITION_FETCH_MAX_BYTES" 524288;
  v_consumer_fetch_max_bytes ← parse_usize env "PULSE_KAFKA_CONSUMER_FETCH_MAX_BYTES" 4194304;
  v_consumer_record_max_bytes ← parse_usize env "PULSE_KAFKA_CONSUMER_RECORD_MAX_BYTES" 1000000;
  v_redis_url ← source_string_with_file env read_file "PULSE_REDIS_URL" "redis://127.0.0.1:6379";
  v_redis_leader_key ← source_string env "PULSE_REDIS_LEADER_KEY" "pulse:{coordination}:leader";
  v_redis_schedule_prefix ← source_string env "PULSE_REDIS_SCHEDULE_PREFIX" "pulse:{coordination}:schedule";
  v_redis_idempotency_prefix ← source_string env "PULSE_REDIS_IDEMPOTENCY_PREFIX" "pulse:dedupe";
  v_redis_aggregation_prefix ← source_string env "PULSE_REDIS_AGGREGATION_PREFIX" "pulse:aggregation";
  v_app_node_id ← source_string env "PULSE_NODE_ID" default_node_id;
  v_leader_lock_ttl_ms ← parse_u64 env "PULSE_LEADER_LOCK_TTL_MS" 10000;
  v_app_leader_renew_interval ← source_duration_ms env "PULSE_LEADER_RENEW_INTERVAL_MS" 3000;
  v_app_scheduler_tick_interval ← source_duration_ms env "PULSE_SCHEDULER_TICK_INTERVAL_MS" 500;
  v_execution_lease_ttl ← source_duration_ms env "PULSE_EXECUTION_LEASE_TTL_MS" 30000;
  v_execution_lease_renew_interval ← source_duration_ms env "PULSE_EXECUTION_LEASE_RENEW_INTERVAL_MS" 10000;
  v_execution_terminal_retention ← source_duration_ms env "PULSE_EXECUTION_TERMINAL_RETENTION_MS" 86400000;
  v_app_worker_max_retries ← parse_u32 env "PULSE_WORKER_MAX_RETRIES" 2;
  v_app_worker_retry_base_delay ← source_duration_ms env "PULSE_WORKER_RETRY_BASE_DELAY_MS" 500;
  v_app_worker_retry_max_delay ← source_duration_ms env "PULSE_WORKER_RETRY_MAX_DELAY_MS" 30000;
  v_retry_queue_capacity ← parse_usize env "PULSE_RETRY_QUEUE_CAPACITY" 1024;
  v_aggregation_enabled ← source_boolean env "PULSE_AGGREGATION_ENABLED" true;
  v_aggregation_partial_timeout ← source_duration_ms env "PULSE_AGGREGATION_PARTIAL_TIMEOUT_MS" 60000;
  v_aggregation_retention ← source_duration_ms env "PULSE_AGGREGATION_RETENTION_MS" 86400000;
  v_aggregation_scan_interval ← source_duration_ms env "PULSE_AGGREGATION_SCAN_INTERVAL_MS" 1000;
  v_aggregation_scan_batch ← parse_usize env "PULSE_AGGREGATION_SCAN_BATCH" 128;
  v_aggregation_max_active_runs ← parse_usize env "PULSE_AGGREGATION_MAX_ACTIVE_RUNS" 10000;
  v_aggregation_max_error_kinds ← parse_usize env "PULSE_AGGREGATION_MAX_ERROR_KINDS" 64;
  v_startup_deadline ← source_duration_ms env "PULSE_STARTUP_DEADLINE_MS" 60000;
  v_app_shutdown_drain_timeout ← source_duration_ms env "PULSE_SHUTDOWN_DRAIN_TIMEOUT_MS" 30000;
  v_pulse_endpoint ← source_string env "PULSE_ENDPOINT" "http://127.0.0.1:8080";
  v_scenarios_file ← source_optional_string env "PULSE_SCENARIOS_FILE";
  v_grpc_descriptor_set ← source_optional_string env "PULSE_GRPC_DESCRIPTOR_SET";
  v_grpc_connect_timeout ← source_duration_ms env "PULSE_GRPC_CONNECT_TIMEOUT_MS" 5000;
  v_grpc_request_timeout ← source_duration_ms env "PULSE_GRPC_REQUEST_TIMEOUT_MS" 5000;
  v_grpc_scenario_timeout ← source_duration_ms env "PULSE_GRPC_SCENARIO_TIMEOUT_MS" 30000;
  v_max_duration ← source_duration_ms env "PULSE_MAX_DURATION_MS" 60000;
  v_app_max_scenarios_per_sec ← parse_f64 env "PULSE_MAX_SCENARIOS_PER_SEC" (f64_of_Z 1000);
  v_app_max_concurrency ← parse_usize env "PULSE_MAX_CONCURRENCY" 256;
  v_dry_run ← source_boolean env "PULSE_DRY_RUN" false;
  v_app_startup_burst ← parse_usize env "PULSE_STARTUP_BURST" 0;
  v_allow_partial_start ← source_boolean env "PULSE_ALLOW_PARTIAL_START" false;
  v_acknowledge_non_local_targets ← source_boolean env "PULSE_ACKNOWLEDGE_NON_LOCAL_TARGETS" false;
  v_metrics_enabled ← source_boolean env "PULSE_METRICS_ENABLED" true;
  v_metrics_bind ← source_string env "PULSE_METRICS_BIND" "0.0.0.0:9090";
  Ok {|
    kafka_brokers := v_kafka_brokers;
    kafka_jobs_topic := v_kafka_jobs_topic;
    kafka_results_topic := v_kafka_results_topic;
    kafka_summaries_topic := v_kafka_summaries_topic;
    kafka_dlq_topic := v_kafka_dlq_topic;
    kafka_group_id := v_kafka_group_id;
    kafka_aggregator_group_id := v_kafka_aggregator_group_id;
    kafka_max_poll_interval := v_kafka_max_poll_interval;
    kafka_session_timeout := v_kafka_session_timeout;
    kafka_message_timeout := v_kafka_message_timeout;
    kafka_delivery_timeout := v_kafka_delivery_timeout;
    kafka_request_timeout := v_kafka_request_timeout;
    kafka_producer_acks := v_kafka_producer_acks;
    kafka_producer_idempotence := v_kafka_producer_idempotence;
    kafka_producer_message_max_bytes := v_kafka_producer_message_max_bytes;
    kafka_topic_management_enabled := v_kafka_topic_management_enabled;
    kafka_topic_partitions := v_kafka_topic_partitions;
    kafka_topic_replication_factor := v_kafka_topic_replication_factor;
    producer_queue_messages := v_producer_queue_messages;
    consumer_queue_kbytes := v_consumer_queue_kbytes;
    consumer_partition_fetch_max_bytes := v_consumer_partition_fetch_max_bytes;
    consumer_fetch_max_bytes := v_consumer_fetch_max_bytes;
    consumer_record_max_bytes := v_consumer_record_max_bytes;
    redis_url := v_redis_url;
    redis_leader_key := v_redis_leader_key;
    redis_schedule_prefix := v_redis_schedule_prefix;
    redis_idempotency_prefix := v_redis_idempotency_prefix;
    redis_aggregation_prefix := v_redis_aggregation_prefix;
    app_node_id := v_app_node_id;
    leader_lock_ttl_ms := v_leader_lock_ttl_ms;
    app_leader_renew_interval := v_app_leader_renew_interval;
    app_scheduler_tick_interval := v_app_scheduler_tick_interval;
    execution_lease_ttl := v_execution_lease_ttl;
    execution_lease_renew_interval := v_execution_lease_renew_interval;
    execution_terminal_retention := v_execution_terminal_retention;
    app_worker_max_retries := v_app_worker_max_retries;
    app_worker_retry_base_delay := v_app_worker_retry_base_delay;
    app_worker_retry_max_delay := v_app_worker_retry_max_delay;
    retry_queue_capacity := v_retry_queue_capacity;
    aggregation_enabled := v_aggregation_enabled;
    aggregation_partial_timeout := v_aggregation_partial_timeout;
    aggregation_retention := v_aggregation_retention;
    aggregation_scan_interval := v_aggregation_scan_interval;
    aggregation_scan_batch := v_aggregation_scan_batch;
    aggregation_max_active_runs := v_aggregation_max_active_runs;
    aggregation_max_error_kinds := v_aggregation_max_error_kinds;
    startup_deadline := v_startup_deadline;
    app_shutdown_drain_timeout := v_app_shutdown_drain_timeout;
    pulse_endpoint := v_pulse_endpoint;
    scenarios_file := v_scenarios_file;
    grpc_descriptor_set := v_grpc_descriptor_set;
    grpc_connect_timeout := v_grpc_connect_timeout;
    grpc_request_timeout := v_grpc_request_timeout;
    grpc_scenario_timeout := v_grpc_scenario_timeout;
    max_duration := v_max_duration;
    app_max_scenarios_per_sec := v_app_max_scenarios_per_sec;
    app_max_concurrency := v_app_max_concurrency;
    dry_run := v_dry_run;
    app_startup_burst := v_app_startup_burst;
    allow_partial_start := v_allow_partial_start;
    target_allowlist := v_target_allowlist;
    acknowledge_non_local_targets := v_acknowledge_non_local_targets;
    metrics_enabled := v_metrics_enabled;
    metrics_bind := v_metrics_bind;
  |}.

Definition from_sources : result ConfigError AppConfig :=
  config ← read_settings;
  AppConfig_validate config;;
  Ok config.
End from_sources.
