(* ===== verification/Startup.v ===== *)
(** * Startup

    [src/src/main.rs]: from a loaded configuration and its scenarios to the plans and
    settings the node runs with. The scenarios are checked against the configured
    limits, every endpoint they need gets a gateway, and every step is validated
    against the gateways before anything is started. *)

From S2P Require Import Prelude RustStr F64 Contracts Domain Planning Wire Gateway Aggregation Coordination Metrics Effects Runner Worker Scenarios Config.

(** ** Settings of the runtimes *)

Definition node_runtime_config (config : AppConfig) : NodeRuntimeConfig := {|
  leader_renew_interval := app_leader_renew_interval config;
  scheduler_tick_interval := app_scheduler_tick_interval config;
  worker_max_retries := app_worker_max_retries config;
  worker_retry_base_delay := app_worker_retry_base_delay config;
  worker_retry_max_delay := app_worker_retry_max_delay config;
  worker_queue_capacity := retry_queue_capacity config;
  execution_renew_interval := execution_lease_renew_interval config;
  shutdown_drain_timeout := app_shutdown_drain_timeout config;
  max_processing_interval := kafka_safe_processing_interval config;
  max_job_duration := max_duration config;
  max_scenarios_per_sec := app_max_scenarios_per_sec config;
  node_max_concurrency := app_max_concurrency config;
  scenario_timeout := Some (grpc_scenario_timeout config);
  node_startup_burst := app_startup_burst config |}.

Definition required_kafka_topics (config : AppConfig) : list string :=
  [kafka_jobs_topic config; kafka_results_topic config; kafka_summaries_topic config; kafka_dlq_topic config].

Definition duration_saturating_add (a b : duration) : duration := saturating_add duration_max a b.

Definition runtime_join_timeout (config : AppConfig) : duration :=
  duration_saturating_add
    (duration_saturating_add
       (duration_saturating_add (app_shutdown_drain_timeout config)
          (duration_saturating_mul (app_leader_renew_interval config) 2))
       (kafka_request_timeout config))
    (from_secs 1).

(** What [JoinSet::join_next] returned: a component's result, or the text of a
    [JoinError]; [None] when no component is left. *)
Definition component_exit (component : option (result string (result string string))) (shutdown : bool) : option string :=
  if shutdown then None else
  match component with
  | Some (Ok (Ok name)) => Some (name +:+ " exited unexpectedly")
  | Some (Ok (Err error)) => Some error
  | Some (Err error) => Some ("runtime component panicked or was cancelled: " +:+ error)
  | None => Some "all runtime components exited unexpectedly"
  end.

(** ** [{:.n}]: a fixed number of decimals *)

(** The integer nearest to [num / den], ties to even. *)
Definition div_nearest (num den : Z) : Z :=
  let q := num / den in
  match Z.compare (2 * (num mod den)) den with
  | Lt => q
  | Gt => q + 1
  | Eq => if Z.even q then q else q + 1
  end.

Definition show_fixed (decimals : Z) (x : f64) : string :=
  let text (s : bool) (scaled : Z) :=
    let fraction := show (scaled mod 10 ^ decimals) in
    (if s then "-" else EmptyString) +:+ show (scaled / 10 ^ decimals)
    +:+ "." +:+ zeros (decimals - str_len fraction) +:+ fraction in
  match x with
  | S754_nan => "NaN"
  | S754_infinity s => if s then "-inf" else "inf"
  | S754_zero s => text s 0
  | S754_finite s m e =>
      text s (if 0 <=? e then Zpos m * 2 ^ e * 10 ^ decimals else div_nearest (Zpos m * 10 ^ decimals) (2 ^ (- e)))
  end.

(** ** Scenario limits *)

Section limits.
Context `{UrlParsers} {W : Type}.
Variable app : AppConfig.
Implicit Types scenario : Scenario W.

Definition validate_repeat scenario : result string unit :=
  match cfg_repeat (config scenario) with
  | Every interval =>
      reject_if (interval <? cfg_duration (config scenario))
        ("scenario '" +:+ scenario_name scenario +:+ "' repeat interval " +:+ show (as_millis interval)
         +:+ " ms is shorter than its " +:+ show (as_millis (cfg_duration (config scenario)))
         +:+ " ms load window and would overlap global concurrency budgets")
  | Once => Ok tt
  end.

(** Without a startup burst, a window must be long enough for one start. *)
Definition window_too_short (rate : f64) (d : duration) : bool := f64_ltb (f64_mul rate (as_secs_f64 d)) f64_one.

Definition validate_step_endpoint scenario (step : Step W) : result string unit :=
  match dynamic_grpc_endpoint_override step with
  | Some endpoint =>
      map_err (fun error => "scenario '" +:+ scenario_name scenario +:+ "' step '" +:+ step_name step +:+ "': " +:+ show_ConfigError error)
        (validate_target_endpoint app endpoint)
  | None => Ok tt
  end.

Definition validate_scenario scenario : result string unit :=
  let name := scenario_name scenario in
  let cfg := config scenario in
  reject_if (blank name || (MAX_CONFIGURED_SCENARIO_NAME_BYTES <? str_len name))
    ("scenario name must be non-empty and at most " +:+ show MAX_CONFIGURED_SCENARIO_NAME_BYTES +:+ " bytes");;
  reject_if (bool_decide (length (steps scenario) = 0%nat) || (MAX_CONFIGURED_STEPS_PER_SCENARIO <? Z.of_nat (length (steps scenario))))
    ("scenario '" +:+ name +:+ "' must contain between 1 and " +:+ show MAX_CONFIGURED_STEPS_PER_SCENARIO +:+ " steps");;
  map_err (fun error => "scenario '" +:+ name +:+ "': " +:+ error) (validate_scenario_identity_budget name);;
  validate_repeat scenario;;
  reject_if (max_duration app <? cfg_duration cfg)
    ("scenario '" +:+ name +:+ "' duration " +:+ show (as_millis (cfg_duration cfg))
     +:+ " ms exceeds PULSE_MAX_DURATION_MS=" +:+ show (as_millis (max_duration app)));;
  reject_if ((app_startup_burst app =? 0) && window_too_short (cfg_scenarios_per_sec cfg) (cfg_duration cfg))
    ("scenario '" +:+ name +:+ "' window is shorter than one " +:+ show_fixed 6 (cfg_scenarios_per_sec cfg)
     +:+ " SPS inter-arrival interval; increase duration or explicitly opt into PULSE_STARTUP_BURST");;
  reject_if (negb (f64_is_finite (cfg_scenarios_per_sec cfg)) || f64_leb (cfg_scenarios_per_sec cfg) f64_zero
             || f64_ltb (app_max_scenarios_per_sec app) (cfg_scenarios_per_sec cfg))
    ("scenario '" +:+ name +:+ "' rate " +:+ show_f64 (cfg_scenarios_per_sec cfg)
     +:+ " is outside (0, PULSE_MAX_SCENARIOS_PER_SEC=" +:+ show_f64 (app_max_scenarios_per_sec app) +:+ "]");;
  reject_if ((cfg_max_concurrency cfg =? 0) || (app_max_concurrency app <? cfg_max_concurrency cfg))
    ("scenario '" +:+ name +:+ "' concurrency " +:+ show (cfg_max_concurrency cfg)
     +:+ " is outside [1, PULSE_MAX_CONCURRENCY=" +:+ show (app_max_concurrency app) +:+ "]");;
  reject_if (cfg_max_concurrency cfg <? app_startup_burst app)
    ("scenario '" +:+ name +:+ "' startup burst " +:+ show (app_startup_burst app)
     +:+ " exceeds its max concurrency " +:+ show (cfg_max_concurrency cfg));;
  map_err (fun error => "scenario '" +:+ name +:+ "': " +:+ show_ConfigError error)
    (validate_target_endpoint app (cfg_endpoint cfg));;
  try_for (validate_step_endpoint scenario) (steps scenario).

Definition validate_scenario_limits (scenarios : list (Scenario W)) : result string unit :=
  reject_if (bool_decide (length scenarios = 0%nat)) "scenario source contains zero scenarios";;
  reject_if (MAX_CONFIGURED_SCENARIOS <? Z.of_nat (length scenarios))
    ("scenario source contains " +:+ show (Z.of_nat (length scenarios)) +:+ " scenarios; maximum is " +:+ show MAX_CONFIGURED_SCENARIOS);;
  try_for validate_scenario scenarios.
End limits.

(** ** Plans *)

Section plans.
Context {W : Type} {call : Type} {answer : call -> Type}.
Variable app : AppConfig.
(** The order in which a [HashSet] yields its elements. *)
Variable iteration : gset string -> list string.
(** Opening the gateway of an endpoint with a descriptor file: connecting to it
    within the startup budget, or offline. *)
Variable open_gateway : string -> string -> prog answer (result string (DynamicGrpcGateway W)).
(** [fs::read]. *)
Variable read_file : string -> prog answer (result string (list Z)).

Definition required_endpoints (scenario : Scenario W) : gset string :=
  foldl (fun endpoints step =>
      if requires_dynamic_grpc step
      then {[ default (cfg_endpoint (config scenario)) (dynamic_grpc_endpoint_override step) ]} ∪ endpoints
      else endpoints)
    ∅ (steps scenario).

(** The gateways of a scenario and the gateways opened so far, also when one
    cannot be opened. *)
Fixpoint open_gateways (descriptor_path : string) (endpoints : list string)
    (scenario_clients clients : gmap string (DynamicGrpcGateway W))
    : prog answer (result string (gmap string (DynamicGrpcGateway W)) * gmap string (DynamicGrpcGateway W)) :=
  match endpoints with
  | [] => mret (Ok scenario_clients, clients)
  | endpoint :: endpoints =>
      match clients !! endpoint with
      | Some existing => open_gateways descriptor_path endpoints (<[endpoint := existing]> scenario_clients) clients
      | None =>
          opened ← open_gateway endpoint descriptor_path;
          match opened with
          | Err e => mret (Err e, clients)
          | Ok gateway =>
              open_gateways descriptor_path endpoints (<[endpoint := gateway]> scenario_clients) (<[endpoint := gateway]> clients)
          end
      end
  end.

Definition scenario_gateways (scenario : Scenario W) (clients : gmap string (DynamicGrpcGateway W))
    : prog answer (result string (gmap string (DynamicGrpcGateway W)) * gmap string (DynamicGrpcGateway W)) :=
  let endpoints := required_endpoints scenario in
  if bool_decide (endpoints = ∅) then mret (Ok ∅, clients) else
  match grpc_descriptor_set app with
  | None => mret (Err ("scenario '" +:+ scenario_name scenario +:+ "' uses dynamic gRPC but PULSE_GRPC_DESCRIPTOR_SET is unset"), clients)
  | Some path => open_gateways path (iteration endpoints) ∅ clients
  end.

Definition validate_plan_step (scenario : Scenario W) (ports : StepPorts W) (step : Step W) : result string unit :=
  map_err (fun error => "scenario '" +:+ scenario_name scenario +:+ "' step '" +:+ step_name step
                        +:+ "' failed startup validation: " +:+ show_PulseError error)
    (step_validate step ports).

Definition build_plan (fingerprint : string) (scenario : Scenario W) (clients : gmap string (DynamicGrpcGateway W))
    : prog answer (result string (ScenarioExecutionPlan W) * gmap string (DynamicGrpcGateway W)) :=
  '(gateways, clients) ← scenario_gateways scenario clients;
  mret (gateways ← gateways;
        let ports := mkPorts (cfg_endpoint (config scenario)) gateways in
        try_for (validate_plan_step scenario ports) (steps scenario);;
        Ok (mkPlan scenario ports fingerprint),
        clients).

(** The plans and the failures of the scenarios left out. *)
Fixpoint build_plans (fingerprint : string) (scenarios : list (Scenario W)) (clients : gmap string (DynamicGrpcGateway W))
    (plans : list (ScenarioExecutionPlan W)) (failures : list string)
    : prog answer (result string (list (ScenarioExecutionPlan W) * list string)) :=
  match scenarios with
  | [] => mret (Ok (plans, failures))
  | scenario :: scenarios =>
      '(r, clients) ← build_plan fingerprint scenario clients;
      match r with
      | Ok plan => build_plans fingerprint scenarios clients (plans ++ [plan]) failures
      | Err error =>
          if allow_partial_start app then build_plans fingerprint scenarios clients plans (failures ++ [error]) else mret (Err error)
      end
  end.

Definition build_scenario_plans (scenarios : list (Scenario W)) : prog answer (result string (list (ScenarioExecutionPlan W))) :=
  descriptor_bytes ←
    match grpc_descriptor_set app with
    | Some path =>
        bytes ← read_file path;
        mret (bytes ← map_err (fun error => "could not read gRPC descriptor set '" +:+ path +:+ "': " +:+ error) bytes;
              Ok (Some bytes))
    | None => mret (Ok None)
    end;
  match descriptor_bytes : result string (option (list Z)) with
  | Err error => mret (Err error)
  | Ok descriptor_bytes =>
      let fingerprint := execution_semantics_fingerprint (grpc_request_timeout app) (Some (grpc_scenario_timeout app)) descriptor_bytes in
      built ← build_plans fingerprint scenarios ∅ [] [];
      mret ('(plans, failures) ← built;
            match plans with
            | [] => Err ("no valid scenarios remain after initialization"
                         +:+ (if bool_decide (failures = []) then EmptyString else ": " +:+ join "; " failures))
            | _ => Ok plans
            end)
  end.
End plans.

(** ** The budgets of a loaded configuration *)

Section budgets.
Context `{UrlParsers}.
Variable env : string -> result ConfigError (option string).
Variable read_file : string -> result string string.
Implicit Types self : AppConfig.

(** Durations are read in milliseconds. *)
Definition millis_setting (d : duration) : Prop := exists ms, 0 < ms <= u64_max /\ d = from_millis ms.

Lemma source_duration_ms_Ok name default_ms d :
  0 < default_ms <= u64_max -> source_duration_ms env name default_ms = Ok d -> millis_setting d.
Proof.
  intros Hd Hs. unfold source_duration_ms in Hs. apply bind_Ok in Hs as (ms & Hp & Hs).
  destruct (Z.eqb_spec ms 0); [done|]. injection Hs as <-. exists ms. split; [|done].
  unfold parse_u64, source_parse in Hp. inv_ok. case_match; inv_ok; [|by subst].
  pose proof (parse_uint_nonneg _ _ _ Hp). lia.
Qed.

Lemma millis_setting_range d : millis_setting d -> 0 < d <= duration_max.
Proof. intros (ms & ? & ->). unfold from_millis, nanos_per_milli, duration_max. lia. Qed.

Lemma read_settings_durations node self :
  read_settings env read_file node = Ok self ->
  Forall (fun d => 0 < d <= duration_max)
    [app_worker_retry_base_delay self; app_worker_retry_max_delay self; kafka_request_timeout self;
     app_leader_renew_interval self; execution_lease_renew_interval self].
Proof.
  intros Hr. unfold read_settings in Hr. repeat (apply bind_Ok in Hr as (? & ? & Hr)). injection Hr as <-. simpl.
  rewrite !Forall_cons. split_and!; [..|constructor];
    (eapply millis_setting_range, source_duration_ms_Ok; [|eassumption]; lia).
Qed.

Lemma read_settings_retries node self : read_settings env read_file node = Ok self -> 0 <= app_worker_max_retries self.
Proof.
  intros Hr. unfold read_settings in Hr. repeat (apply bind_Ok in Hr as (? & ? & Hr)). injection Hr as <-. simpl.
  match goal with Hp : parse_u32 _ _ _ = Ok _ |- _ => rename Hp into Hp0 end.
  unfold parse_u32, source_parse in Hp0. inv_ok. case_match; inv_ok; [|by subst].
  pose proof (parse_uint_nonneg _ _ _ Hp0). lia.
Qed.

Lemma required_ttl_Ok self name renew ttl :
  required_ttl self name renew = Ok ttl -> 3 * renew <= ttl /\ redis_operation_timeout self + renew + from_millis 1 <= ttl.
Proof.
  unfold required_ttl. intros Hr. inv_ok. subst ttl.
  match goal with Hm : duration_checked_mul _ _ = Some _ |- _ => apply checked_mul_Some in Hm as [-> _] end.
  match goal with Hb : (_ ≫= _) = Some _ |- _ => apply bind_Some in Hb as (b & [-> _]%checked_add_Some & [-> _]%checked_add_Some) end.
  lia.
Qed.

(** A lease whose TTL covers the response budget is safe after any response that
    arrives within the operation timeout. *)
Lemma response_within_timeout_is_safe self started now ttl renew :
  redis_operation_timeout self + renew + from_millis 1 <= ttl -> 0 <= redis_operation_timeout self ->
  started + ttl <= instant_max -> 0 <= renew -> now <= started + redis_operation_timeout self ->
  lease_response_has_safe_budget started ttl renew now = true.
Proof.
  intros. unfold lease_response_has_safe_budget, conservative_lease_deadline, duration_saturating_sub, saturating_sub.
  assert (from_millis 1 = 1000000) by done.
  rewrite Z.max_r by lia. assert (checked_add instant_max started (ttl - renew) = Some (started + (ttl - renew))) as ->
    by (apply checked_add_Some; lia).
  simpl. apply Z.ltb_lt. lia.
Qed.

(** The jittered delay never exceeds the bound the budget uses. *)
Lemma retry_delay_upper base maximum attempt entropy :
  0 <= base -> 0 <= attempt -> 0 <= maximum <= duration_max ->
  retry_delay base maximum attempt entropy <= backoff_upper base maximum attempt.
Proof.
  intros Hb Ha Hm. destruct (retry_delay_unfold base maximum attempt entropy Hb Ha Hm) as (bp & Hbp & Hd). simpl in Hd.
  rewrite Hd. unfold backoff_upper. rewrite exponential_backoff_saturated by lia.
  set (e := exponential_backoff base maximum attempt).
  assert (0 <= e).
  { unfold e, exponential_backoff. assert (0 < 2 ^ Z.min attempt 16) by (apply Z.pow_pos_nonneg; lia). nia. }
  assert (e * bp / 10000 <= e * 6 / 5).
  { replace (e * 6 / 5) with (e * 12000 / 10000); [apply Z.div_le_mono; nia|].
    replace (e * 12000) with (e * 6 * 2000) by lia. change 10000 with (5 * 2000). by rewrite Z.div_mul_cancel_r. }
  assert (u64_max <= duration_max / 5) by done.
  unfold duration_saturating_mul, saturating_mul.
  destruct (Z.min_spec duration_max (e * 6)) as [[? ->]|[? ->]]; lia.
Qed.

Lemma retry_backoff_upper_bound_sum base maximum n total entropy :
  0 <= base -> 0 <= maximum <= duration_max ->
  retry_backoff_upper_bound base maximum n = Ok total ->
  sumZ (map (fun attempt => retry_delay base maximum attempt entropy) (rangeZ n)) <= total.
Proof.
  intros Hb Hm. unfold retry_backoff_upper_bound.
  assert (Forall (fun a => 0 <= a) (rangeZ n)) as Hall by (apply Forall_forall; intros a Ha%elem_of_rangeZ; lia).
  cut (forall t, try_fold (fun total attempt => ok_or (duration_checked_add total (backoff_upper base maximum attempt))
      (InvalidConfig "PULSE_KAFKA_MAX_POLL_INTERVAL_MS" "bounded retry backoff sum overflowed Duration")) t (rangeZ n) = Ok total ->
    t + sumZ (map (fun attempt => retry_delay base maximum attempt entropy) (rangeZ n)) <= total).
  { intros Ht Hf. specialize (Ht 0 Hf). lia. }
  induction Hall as [|a l Ha _ IH]; intros t Hf; simpl in *; [injection Hf; lia|].
  apply bind_Ok in Hf as (t' & [-> _]%ok_or_Ok%checked_add_Some & Hf). specialize (IH _ Hf).
  pose proof (retry_delay_upper base maximum a entropy Hb Ha Hm). lia.
Qed.

Lemma checked_duration_sum_Ok name l total : checked_duration_sum name l = Ok total -> total = sumZ l.
Proof.
  unfold checked_duration_sum. intros Hf. enough (forall t, try_fold (fun sum value => ok_or (duration_checked_add sum value)
    (InvalidConfig name "duration budget overflowed")) t l = Ok total -> total = t + sumZ l) as Hg by (rewrite (Hg 0 Hf); lia).
  clear Hf. induction l as [|a l IH]; intros t Hf; simpl in *; [injection Hf; lia|].
  apply bind_Ok in Hf as (t' & [-> _]%ok_or_Ok%checked_add_Some & Hf). rewrite (IH _ Hf). lia.
Qed.

Definition settlement_budget self : duration :=
  let attempts := local_settlement_attempt_limit (node_runtime_config self) in
  max_duration self + grpc_scenario_timeout self + app_worker_retry_max_delay self
  + 2 * attempts * kafka_delivery_timeout self + attempts * kafka_request_timeout self.

Lemma validate_poll_budget_Ok self :
  app_worker_max_retries self <= MAX_WORKER_RETRIES -> 0 <= app_worker_max_retries self -> validate_poll_budget self = Ok tt ->
  exists backoff,
    retry_backoff_upper_bound (app_worker_retry_base_delay self) (app_worker_retry_max_delay self) (app_worker_max_retries self) = Ok backoff
    /\ settlement_budget self + 3 * backoff < kafka_safe_processing_interval self.
Proof.
  intros Hr Hr0 Hv. unfold validate_poll_budget in Hv. unfold MAX_WORKER_RETRIES in Hr. inv_ok. bool_hyps.
  repeat match goal with
  | H : checked_duration_sum _ _ = Ok _ |- _ => apply checked_duration_sum_Ok in H; simpl in H
  | H : duration_checked_mul _ _ = Some _ |- _ => apply checked_mul_Some in H as [-> _]
  | H : duration_checked_add _ _ = Some _ |- _ => apply checked_add_Some in H as [-> _]
  end.
  eexists. split; [done|]. unfold settlement_budget, kafka_safe_processing_interval, local_settlement_attempt_limit.
  unfold duration_saturating_sub, saturating_sub, saturating_mul, saturating_add in *. simpl.
  change KAFKA_POLL_SAFETY_MARGIN with 1000000000 in *.
  replace (Z.min u32_max (app_worker_max_retries self + 1)) with (app_worker_max_retries self + 1) in * by lia.
  rewrite (Z.max_l (_ + 1) 1) by lia. rewrite Z.min_r in * by lia. lia.
Qed.

(** C33: what a configuration that loads guarantees to the worker. A claim or
    renewal answered within the Redis operation timeout always leaves a usable
    lease, for execution leases and for the leader lock, so a healthy Redis never
    costs a lease. And the longest a worker may take with one record fits the
    interval it may go without polling Kafka: a full load window, the last
    scenario, a deferral, every attempt to publish a result and a retry, every
    completion request, and three complete runs of jittered backoff, whatever
    the jitter. *)
Theorem loaded_config_fits_its_budgets (node : string) self
    (Hload : from_sources env read_file node = Ok self) :
  (forall started now,
     0 <= started -> now <= started + redis_operation_timeout self ->
     (started + execution_lease_ttl self <= instant_max ->
      lease_response_has_safe_budget started (execution_lease_ttl self)
        (execution_renew_interval (node_runtime_config self)) now = true)
     /\ (started + from_millis (leader_lock_ttl_ms self) <= instant_max ->
         lease_response_has_safe_budget started (from_millis (leader_lock_ttl_ms self))
           (leader_renew_interval (node_runtime_config self)) now = true))
  /\ (forall e1 e2 e3,
      let backoff e := sumZ (map (fun attempt =>
          retry_delay (app_worker_retry_base_delay self) (app_worker_retry_max_delay self) attempt e)
        (rangeZ (app_worker_max_retries self))) in
      settlement_budget self + backoff e1 + backoff e2 + backoff e3 < max_processing_interval (node_runtime_config self)).
Proof.
  unfold from_sources in Hload. apply bind_Ok in Hload as (c & Hread & Hload).
  apply bind_Ok in Hload as ([] & Hv & [= ->]).
  pose proof (read_settings_durations _ _ Hread) as Hd. rewrite !Forall_cons in Hd.
  destruct Hd as (Hb & Hm & Hq & Hl & He & _).
  pose proof (read_settings_retries _ _ Hread) as Hr.
  unfold AppConfig_validate in Hv. do 9 (apply bind_Ok in Hv as ([] & ? & Hv)).
  assert (app_worker_max_retries self <= MAX_WORKER_RETRIES) as Hr'.
  { match goal with Hx : validate_retries _ = Ok _ |- _ => apply bind_Ok in Hx as ([] & Hx%reject_if_Ok & _) end. by bool_hyps. }
  split.
  - intros started now Hs Hnow.
    match goal with Hx : validate_leases _ = Ok _ |- _ => unfold validate_leases in Hx end. inv_ok. bool_hyps.
    repeat match goal with Hx : required_ttl _ _ _ = Ok _ |- _ => apply required_ttl_Ok in Hx as [_ Hx] end.
    assert (0 <= redis_operation_timeout self).
    { unfold redis_operation_timeout. change REDIS_OPERATION_TIMEOUT_CEILING with 2000000000. lia. }
    split; intros; eapply response_within_timeout_is_safe; simpl; try done; simpl in *; lia.
  - intros e1 e2 e3 backoff.
    match goal with Hx : validate_poll_budget _ = Ok _ |- _ => apply validate_poll_budget_Ok in Hx as (total & Ht & Hlt); [|lia..] end.
    assert (forall e, backoff e <= total) as Hall by (intros e; eapply retry_backoff_upper_bound_sum; [lia..|done]).
    pose proof (Hall e1). pose proof (Hall e2). pose proof (Hall e3). simpl. lia.
Qed.
End budgets.

(** ** The configuration of an empty environment *)

(** URIs of the form [http://host:port]. *)
Definition plain_uri (s : string) : result string Uri :=
  match strip_prefix "http://" s ≫= split_once ":" with
  | Some (host, port) => Ok (mkUri (Some "http") (Some host) (parse_uint u16_max port) "/" None)
  | None => Err "invalid URI"
  end.

#[local] Instance plain_urls : UrlParsers := {| parse_endpoint := plain_uri; open_redis_url := fun _ => Ok tt |}.

Definition empty_env (name : string) : result ConfigError (option string) := Ok None.
Definition no_files (path : string) : result string string := Err "not found".

Lemma empty_env_loads : is_ok (from_sources empty_env no_files "node-1") = true.
Proof. by vm_compute. Qed.

Lemma loaded_config_fits_its_budgets_witness :
  exists self, from_sources empty_env no_files "node-1" = Ok self
  /\ lease_response_has_safe_budget 7 (execution_lease_ttl self) (execution_lease_renew_interval self)
       (7 + redis_operation_timeout self) = true.
Proof.
  pose proof empty_env_loads as Hok.
  assert (match from_sources empty_env no_files "node-1" with
          | Ok self => 7 + execution_lease_ttl self <= instant_max | Err _ => True end) as Ht by (vm_compute; discriminate).
  destruct (from_sources empty_env no_files "node-1") as [self|] eqn:E; [|done]. exists self. split; [done|].
  destruct (loaded_config_fits_its_budgets empty_env no_files "node-1" self E) as [Hs _].
  by apply (Hs 7 (7 + redis_operation_timeout self)).
Defined.

(** A scenario of 0.3 starts per second for ten seconds, three starts in all. *)
Definition slow_scenario : Scenario unit :=
  mkScenario "slow" [mkStep "call" "call" (fun _ => Ok tt) false None (fun ctx _ w => (Ok tt, ctx, w))]
    (mkScenarioConfig "http://127.0.0.1:8080" (f64_of_ratio 3 10) 75 (from_secs 10) Once ScenarioId).

(** Startup and the workers disagree about when a window is long enough.
    Startup multiplies the scenario's rate with its duration; the worker
    multiplies the slice's rate, which is the scenario's rate divided by the
    number of slices and rounded. This scenario is accepted, is cut into three
    slices of one expected start each, and a worker dead-letters every one of
    them because [0.3 / 3 * 10] rounds below one. *)
Example accepted_scenario_is_dead_lettered :
  match from_sources empty_env no_files "node-1" with
  | Ok self =>
      let loads := planned_slice_loads slow_scenario (app_startup_burst self) in
      validate_scenario_limits self [slow_scenario] = Ok tt /\ length loads = 3%nat /\ forallb starts_nothing loads = true
  | Err _ => False
  end.
Proof. by vm_compute. Qed.

(** ** The plans a node starts with *)

Section plan_lemmas.
Context {W : Type} {call : Type} {answer : call -> Type}.
Variable app : AppConfig.
Variable iteration : gset string -> list string.
Variable open_gateway : string -> string -> prog answer (result string (DynamicGrpcGateway W)).
Hypothesis iteration_complete : forall s x, x ∈ iteration s <-> x ∈ s.
Implicit Types (scenario : Scenario W) (plan : ScenarioExecutionPlan W).

Lemma open_gateways_complete path endpoints sc cs m cs' tr :
  runs (open_gateways open_gateway path endpoints sc cs) tr (Some (Ok m, cs')) ->
  forall e, is_Some (sc !! e) \/ e ∈ endpoints -> is_Some (m !! e).
Proof.
  revert sc cs tr. induction endpoints as [|x l IH]; intros sc cs tr Ho e He; simpl in Ho.
  { destruct Ho as [_ [= <- <-]]. destruct He as [|He]; [done|]. by apply elem_of_nil in He. }
  assert (forall g, is_Some ((<[x := g]> sc) !! e) \/ e ∈ l) as Hx.
  { intros g. destruct (decide (e = x)) as [->|Hne]; [left; rewrite lookup_insert_eq; by eexists|].
    rewrite lookup_insert_ne by done. destruct He as [|[|]%elem_of_cons]; auto. done. }
  destruct (cs !! x) as [g|]; [by eapply IH; [exact Ho|]|].
  apply runs_bind_done in Ho as ([g|] & t1 & t2 & -> & _ & Ho); [by eapply IH; [exact Ho|]|by destruct Ho].
Qed.

(** What startup establishes for a plan. *)
Definition plan_ready plan : Prop :=
  let ports := plan_ports plan in
  default_endpoint ports = cfg_endpoint (config (plan_scenario plan))
  /\ Forall (fun step => step_validate step ports = Ok tt) (steps (plan_scenario plan))
  /\ forall step, step ∈ steps (plan_scenario plan) -> requires_dynamic_grpc step = true ->
       is_Some (dynamic_grpc_gateways ports !! default (default_endpoint ports) (dynamic_grpc_endpoint_override step)).

Lemma required_endpoints_elem scenario step :
  step ∈ steps scenario -> requires_dynamic_grpc step = true ->
  default (cfg_endpoint (config scenario)) (dynamic_grpc_endpoint_override step) ∈ required_endpoints scenario.
Proof.
  unfold required_endpoints. intros Hs Hr. generalize (∅ : gset string) as acc.
  assert (forall (l : list (Step W)) (acc : gset string) e, e ∈ acc -> e ∈ foldl (fun endpoints s =>
      if requires_dynamic_grpc s then {[default (cfg_endpoint (config scenario)) (dynamic_grpc_endpoint_override s)]} ∪ endpoints
      else endpoints) acc l) as Hmono.
  { clear. induction l as [|x l IH]; intros acc e He; simpl; [done|]. apply IH. case_match; set_solver. }
  induction (steps scenario) as [|x l IH]; intros acc; simpl; [by apply elem_of_nil in Hs|].
  apply elem_of_cons in Hs as [<-|Hs]; [|by apply IH]. apply Hmono. rewrite Hr. set_solver.
Qed.

Lemma build_plan_ready fingerprint scenario cs plan cs' tr :
  runs (build_plan app iteration open_gateway fingerprint scenario cs) tr (Some (Ok plan, cs')) ->
  plan_scenario plan = scenario /\ plan_semantics_fingerprint plan = fingerprint /\ plan_ready plan.
Proof.
  intros Hr. apply runs_bind_done in Hr as ([gateways cs1] & t1 & t2 & -> & Eg & [_ [= Hb ->]]). symmetry in Hb.
  apply bind_Ok in Hb as (m & -> & Hb). apply bind_Ok in Hb as ([] & Hv & [= <-]). simpl. split_and!; [done..|].
  split; [done|]. split.
  - apply try_for_Ok in Hv. eapply Forall_impl; [exact Hv|]. intros s Hs. simpl in *. by apply map_err_Ok in Hs.
  - simpl. intros step Hs Hr. pose proof (required_endpoints_elem _ _ Hs Hr) as He.
    unfold scenario_gateways in Eg. rewrite bool_decide_eq_false_2 in Eg by set_solver.
    destruct (grpc_descriptor_set app); [|by destruct Eg]. eapply open_gateways_complete; [exact Eg|]. right. by apply iteration_complete.
Qed.

Lemma build_plans_ready fingerprint scenarios cs plans0 failures0 plans failures tr :
  runs (build_plans app iteration open_gateway fingerprint scenarios cs plans0 failures0) tr (Some (Ok (plans, failures))) ->
  exists new, plans = plans0 ++ new /\ map plan_scenario new `sublist_of` scenarios
  /\ Forall (fun plan => plan_semantics_fingerprint plan = fingerprint /\ plan_ready plan) new
  /\ (allow_partial_start app = false -> map plan_scenario new = scenarios).
Proof.
  revert cs plans0 failures0 tr. induction scenarios as [|s l IH]; intros cs plans0 failures0 tr Hb.
  { destruct Hb as [_ [= <- <-]]. exists []. rewrite app_nil_r. by split_and!; try constructor. }
  cbn [build_plans] in Hb. apply runs_bind_done in Hb as ([[plan|error] cs1] & t1 & t2 & -> & Ep & Hb).
  - apply IH in Hb as (new & -> & Hs & Hn & Ha). apply build_plan_ready in Ep as (<- & Hf & Hr).
    exists (plan :: new). rewrite <- app_assoc. split_and!; [done|by constructor|by constructor|].
    intros Hp. simpl. by rewrite Ha.
  - destruct (allow_partial_start app); [|by destruct Hb]. apply IH in Hb as (new & -> & Hs & Hn & _).
    exists new. split_and!; [done|by constructor|done|done].
Qed.

Lemma built_plans_ready read_file (scenarios : list (Scenario W)) plans tr :
  runs (build_scenario_plans app iteration open_gateway read_file scenarios) tr (Some (Ok plans)) ->
  plans <> [] /\ map plan_scenario plans `sublist_of` scenarios /\ Forall plan_ready plans
  /\ (allow_partial_start app = false -> map plan_scenario plans = scenarios).
Proof.
  intros Hr. apply runs_bind_done in Hr as ([bytes|] & t1 & t2 & -> & _ & Hr); [|by destruct Hr].
  apply runs_bind_done in Hr as (built & t3 & t4 & -> & Hb & [_ [= Hr]]). symmetry in Hr.
  apply bind_Ok in Hr as ([ps failures] & -> & Hr).
  apply build_plans_ready in Hb as (new & -> & Hs & Hn & Ha). simpl in *.
  destruct new as [|p new]; [done|]. injection Hr as <-. split_and!; [done..| |done].
  eapply Forall_impl; [exact Hn|]. by intros ? [_ ?].
Qed.

(** C34: no node starts with a plan it cannot run. Every plan startup returns
    belongs to a configured scenario, keeps their order, and has passed every
    step's validation against the very gateways it will use; each endpoint one
    of its steps calls has a gateway among them. Unless a partial start is
    allowed, no scenario is left out; and there is always at least one plan. *)
Theorem startup_plans_are_ready (read_file : string -> prog answer (result string (list Z))) (scenarios : list (Scenario W)) plans tr
    (Hbuild : runs (build_scenario_plans app iteration open_gateway read_file scenarios) tr (Some (Ok plans))) :
  plans <> [] /\ map plan_scenario plans `sublist_of` scenarios /\ Forall plan_ready plans
  /\ (allow_partial_start app = false -> map plan_scenario plans = scenarios).
Proof. by eapply built_plans_ready. Qed.
End plan_lemmas.

(** Nothing can be opened or read. *)
Definition nowhere {A : Type} (_ : A) : Type := Empty_set.

Lemma startup_plans_are_ready_witness :
  match from_sources empty_env no_files "node-1" with
  | Ok self => exists plans, runs (answer := nowhere (A := unit)) (build_scenario_plans self elements
                   (fun _ _ => Ret (Err "offline")) (fun _ => Ret (Err "not found")) [slow_scenario]) [] (Some (Ok plans))
                 /\ map plan_scenario plans = [slow_scenario]
  | Err _ => False
  end.
Proof.
  pose proof empty_env_loads as Hok.
  assert (match from_sources empty_env no_files "node-1" with
          | Ok self => grpc_descriptor_set self = None /\ allow_partial_start self = false | Err _ => True end) as Ht by (by vm_compute).
  destruct (from_sources empty_env no_files "node-1") as [self|]; [|done]. destruct Ht as [Hd Hp].
  eexists. assert (runs (answer := nowhere (A := unit)) (build_scenario_plans self elements (fun _ _ => Ret (Err "offline")) (fun _ => Ret (Err "not found"))
    [slow_scenario]) [] (Some (Ok [mkPlan slow_scenario (mkPorts "http://127.0.0.1:8080" ∅)
            (execution_semantics_fingerprint (grpc_request_timeout self) (Some (grpc_scenario_timeout self)) None)]))) as Hb.
  { unfold build_scenario_plans. rewrite Hd. by split. }
  split; [exact Hb|].
  by apply (startup_plans_are_ready self elements (fun _ _ => Ret (Err "offline")) (fun s x => elem_of_elements s x)
    (fun _ => Ret (Err "not found")) [slow_scenario] _ _ Hb).
Defined.
