(* ===== verification/Node.v ===== *)
(** * The tasks of a node

    The tasks [PulseNode::run] of [src/src/application/service.rs] starts beside the
    worker: the leader election, the scheduler and the consumer pump. As in
    [Worker], the coordination stores, the Kafka clients, the clock, the shutdown
    signal and the channel on which the election announces the lease it holds are
    calls that may be answered in any way, or not at all. [NodeRun] puts the tasks
    together. Logging and counters are left out. *)

From S2P Require Import Prelude RustStr F64 Contracts Domain Planning Coordination Metrics Effects Runner Worker.

Record ObservedLeaderLease := mkObserved {
  observed_lease : LeaderLease;
  valid_until : Z;
}.

#[global] Instance ObservedLeaderLease_eq_dec : EqDecision ObservedLeaderLease.
Proof. solve_decision. Defined.

Definition ObservedLeaderLease_new (lease : LeaderLease) (renew_interval : duration) (request_started : Z) : ObservedLeaderLease :=
  mkObserved lease (conservative_lease_deadline request_started (lead_ttl lease) renew_interval).

(** The same owner and fence. *)
Definition same_leader (a b : LeaderLease) : bool :=
  bool_decide (lead_owner_token a = lead_owner_token b) && (lead_fencing_token a =? lead_fencing_token b).

(** The plans by scenario name; a later plan of a name replaces an earlier one. *)
Definition node_plans {W} (plans : list (ScenarioExecutionPlan W)) : gmap string (ScenarioExecutionPlan W) :=
  foldl (fun m plan => <[scenario_name (plan_scenario plan) := plan]> m) ∅ plans.

(** ** Calls *)

Section node.
Context {M W : Type}.

Inductive ncall :=
| NNow
| NSleep (d : duration)
| NSleepUntil (t : Z)
| NShutdownRequested
| NShutdownChanged
| NPanic (message : string)
| NForever
(* the scheduler *)
| NLeader
| NLeaderChanged
| NPrepare (spec : DispatchSpec) (leader : LeaderLease)
| NRegister (window : DispatchWindow) (d : duration)
| NPublication (key : string) (job : ScenarioJob)
| NAck (window : DispatchWindow) (slice_index : Z) (leader : LeaderLease)
| NSchedulerStopped
(* the election *)
| NElect (current : option LeaderLease)
| NAnnounce (observed : option ObservedLeaderLease)
| NAwaitScheduler
| NRelinquish (lease : LeaderLease)
(* the pump *)
| NReserve
| NReceive
| NForward (record : M).

(** [NShutdownChanged] and [NLeaderChanged] answer whether the sender is gone;
    [NLeader] is [leader_rx.borrow()]. [NPublication] waits for the publication of
    a job that the first such wait starts; one that is dropped may go on. *)
Definition nanswer (c : ncall) : Type :=
  match c with
  | NNow => Z
  | NSleep _ | NSleepUntil _ | NSchedulerStopped | NAnnounce _ | NAwaitScheduler | NForward _ => unit
  | NShutdownRequested | NShutdownChanged | NLeaderChanged => bool
  | NPanic _ | NForever => Empty_set
  | NLeader => option ObservedLeaderLease
  | NPrepare _ _ => result CoordinationError DispatchOutcome
  | NRegister _ _ => result CoordinationError unit
  | NPublication _ _ => result string unit
  | NAck _ _ _ => result CoordinationError DispatchProgress
  | NElect _ => result CoordinationError LeadershipOutcome
  | NRelinquish _ => result CoordinationError unit
  | NReserve => bool
  | NReceive => result string (option M)
  end.

Notation nprog := (prog nanswer).

Definition ncall_of (c : ncall) : nprog (nanswer c) := Call c Ret.

Definition node_panic {A} (message : string) : nprog A := Call (NPanic message) (fun r : Empty_set => match r with end).
Definition node_forever {A} : nprog A := Call NForever (fun r : Empty_set => match r with end).

Definition node_wait_or_shutdown (d : duration) : nprog bool :=
  select (ncall_of (NSleep d);; mret false)
         (gone ← ncall_of NShutdownChanged; if gone : bool then mret true else ncall_of NShutdownRequested).

(** [loop]: a body that returns [None] is run again. *)
Fixpoint loop {A} (fuel : nat) (body : nat -> nprog (option A)) : nprog A :=
  match fuel with
  | O => node_forever
  | S fuel' => r ← body fuel'; match r with Some a => mret a | None => loop fuel' body end
  end.

(** ** The scheduler *)

Definition leader_identity_is_current (expected : ObservedLeaderLease) : nprog bool :=
  current ← ncall_of NLeader;
  mret (match current : option ObservedLeaderLease with
        | Some current => same_leader (observed_lease current) (observed_lease expected)
        | None => false
        end).

Definition lease_is_current (expected : ObservedLeaderLease) : nprog bool :=
  same ← leader_identity_is_current expected;
  if negb same then mret false else
  current ← ncall_of NLeader;
  match current : option ObservedLeaderLease with
  | Some current => t ← ncall_of NNow; mret (t <? valid_until current)
  | None => mret false
  end.

(** [shutdown_requested(..) || !lease_is_current(..)]. *)
Definition must_stop (leader : ObservedLeaderLease) : nprog bool :=
  stop ← ncall_of NShutdownRequested;
  if stop : bool then mret true else current ← lease_is_current leader; mret (negb current).

Inductive publication_event :=
| EvShutdown
| EvLeaseExpired
| EvLeaderChanged (gone : bool)
| EvPublished (r : result string unit).

Definition next_publication_event (leader : ObservedLeaderLease) (key : string) (job : ScenarioJob) : nprog publication_event :=
  select (ncall_of NShutdownChanged;; mret EvShutdown)
    (select (ncall_of (NSleepUntil (valid_until leader));; mret EvLeaseExpired)
       (select (gone ← ncall_of NLeaderChanged; mret (EvLeaderChanged gone))
          (r ← ncall_of (NPublication key job); mret (EvPublished r)))).

(** The result of the publication and the lease as last renewed, or [None] for
    [continue 'scheduler]. *)
Fixpoint await_publication (fuel : nat) (leader : ObservedLeaderLease) (key : string) (job : ScenarioJob)
    : nprog (option (ObservedLeaderLease * result string unit)) :=
  match fuel with
  | O => node_forever
  | S fuel' =>
      event ← next_publication_event leader key job;
      match event with
      | EvShutdown | EvLeaseExpired => mret None
      | EvLeaderChanged gone =>
          if gone : bool then mret None else
          same ← leader_identity_is_current leader;
          if negb same then mret None else
          current ← ncall_of NLeader;
          match current : option ObservedLeaderLease with
          | Some leader' => await_publication fuel' leader' key job
          | None => node_panic "current leader identity was verified"
          end
      | EvPublished r => mret (Some (leader, r))
      end
  end.

Section scheduler.
Variable worker_retries : Z.
Variable burst : Z.
Variable tick_interval : duration.

Definition scheduled_job (scenario_id : string) (plan : ScenarioExecutionPlan W) (window : DispatchWindow)
    (slice_index : Z) (execution_key : string) : ScenarioJob := {|
  job_schema_version := win_contract_version window;
  job_scenario_id := scenario_id;
  job_run_id := win_run_id window;
  job_execution_key := execution_key;
  job_plan_fingerprint := win_plan_fingerprint window;
  job_scheduled_at_unix_ms := win_scheduled_at_unix_ms window;
  job_not_before_unix_ms := 0;
  job_slice := mkSlice slice_index (win_total_slices window);
  job_load := slice_load (plan_scenario plan) (win_total_slices window) slice_index burst;
  job_attempt := 0;
  job_max_retries := worker_retries |}.

(** The slices of a window in order. [Some leader] goes on with the next scenario,
    [None] is [continue 'scheduler]. *)
Fixpoint dispatch_slices (fuel : nat) (leader : ObservedLeaderLease) (scenario_id : string) (plan : ScenarioExecutionPlan W)
    (window : DispatchWindow) (slices : list Z) : nprog (option ObservedLeaderLease) :=
  match slices with
  | [] => mret (Some leader)
  | slice_index :: slices =>
      stop ← must_stop leader;
      if stop : bool then mret None else
      match window_execution_key window slice_index with
      | None => mret None
      | Some execution_key =>
          let job := scheduled_job scenario_id plan window slice_index execution_key in
          let key := key_for (cfg_partition_key_strategy (config (plan_scenario plan))) job in
          published ← await_publication fuel leader key job;
          match published : option (ObservedLeaderLease * result string unit) with
          | None => mret None
          | Some (leader, Err _) => mret (Some leader)
          | Some (leader, Ok _) =>
              acked ← ncall_of (NAck window slice_index (observed_lease leader));
              match acked : result CoordinationError DispatchProgress with
              | Ok _ => dispatch_slices fuel leader scenario_id plan window slices
              | Err (StaleOwner _) => mret None
              | Err _ => mret (Some leader)
              end
          end
      end
  end.

Definition dispatch_spec (scenario_id : string) (plan : ScenarioExecutionPlan W) : DispatchSpec :=
  let cfg := config (plan_scenario plan) in
  let slices := calculate_slices (cfg_scenarios_per_sec cfg) (cfg_max_concurrency cfg) (cfg_duration cfg) in
  mkSpec scenario_id CURRENT_CONTRACT_VERSION slices (cfg_repeat cfg) (execution_plan_fingerprint plan slices burst worker_retries).

Definition dispatch_scenario (fuel : nat) (leader : ObservedLeaderLease) (scenario_id : string) (plan : ScenarioExecutionPlan W)
    : nprog (option ObservedLeaderLease) :=
  stop ← must_stop leader;
  if stop : bool then mret None else
  prepared ← ncall_of (NPrepare (dispatch_spec scenario_id plan) (observed_lease leader));
  match prepared : result CoordinationError DispatchOutcome with
  | Ok (DispatchReady window) =>
      current ← lease_is_current leader;
      if negb current then mret None else
      registered ← ncall_of (NRegister window (cfg_duration (config (plan_scenario plan))));
      match registered : result CoordinationError unit with
      | Ok _ => dispatch_slices fuel leader scenario_id plan window (win_missing_slices window)
      | Err _ => mret (Some leader)
      end
  | Ok _ => mret (Some leader)
  | Err (StaleOwner _) => mret None
  | Err _ => mret (Some leader)
  end.

Fixpoint dispatch_scenarios (fuel : nat) (leader : ObservedLeaderLease) (plans : list (string * ScenarioExecutionPlan W))
    : nprog (option ObservedLeaderLease) :=
  match plans with
  | [] => mret (Some leader)
  | (scenario_id, plan) :: plans =>
      r ← dispatch_scenario fuel leader scenario_id plan;
      match r : option ObservedLeaderLease with
      | Some leader => dispatch_scenarios fuel leader plans
      | None => mret None
      end
  end.

(** One turn of the loop; [Some] is [break]. The plans are in the order in which
    the map of the node yields them. *)
Definition scheduler_turn (plans : list (string * ScenarioExecutionPlan W)) (fuel : nat) : nprog (option unit) :=
  stop ← ncall_of NShutdownRequested;
  if stop : bool then mret (Some tt) else
  leader ← ncall_of NLeader;
  match leader : option ObservedLeaderLease with
  | None =>
      select (gone ← ncall_of NLeaderChanged; mret (if gone : bool then Some tt else None))
             (ncall_of NShutdownChanged;; mret None)
  | Some leader =>
      r ← dispatch_scenarios fuel leader plans;
      match r : option ObservedLeaderLease with
      | None => mret None
      | Some _ => stop ← node_wait_or_shutdown tick_interval; mret (if stop : bool then Some tt else None)
      end
  end.

Definition scheduler_loop (plans : list (string * ScenarioExecutionPlan W)) (fuel : nat) : nprog unit :=
  loop fuel (scheduler_turn plans);;
  ncall_of NSchedulerStopped.
End scheduler.

(** ** The leader election *)

Section election.
Variable renew_interval : duration.

Definition interval_remaining (request_started : Z) (interval : duration) : nprog duration :=
  t ← ncall_of NNow;
  mret (duration_saturating_sub interval (saturating_sub t request_started)).

(** A lease that was granted is announced while its budget lasts. *)
Definition announce_lease (lease : LeaderLease) (request_started : Z) : nprog unit :=
  let observed := ObservedLeaderLease_new lease renew_interval request_started in
  t ← ncall_of NNow;
  if t <? valid_until observed then ncall_of (NAnnounce (Some observed)) else ncall_of (NAnnounce None).

(** One turn of the loop: the lease held, and whether the loop ends. *)
Definition election_turn (current : option LeaderLease) : nprog (option LeaderLease * bool) :=
  stop ← ncall_of NShutdownRequested;
  if stop : bool then mret (current, true) else
  request_started ← ncall_of NNow;
  outcome ← ncall_of (NElect current);
  let wait_for (current : option LeaderLease) (interval : duration) :=
    wait ← interval_remaining request_started interval;
    stop ← node_wait_or_shutdown wait;
    mret (current, stop) in
  match outcome : result CoordinationError LeadershipOutcome with
  | Ok (LeaderAcquired lease) | Ok (LeaderRenewed lease) =>
      announce_lease lease request_started;;
      wait_for (Some lease) renew_interval
  | Ok (Follower retry_after) =>
      ncall_of (NAnnounce None);;
      wait_for None (Z.min retry_after renew_interval)
  | Err _ =>
      ncall_of (NAnnounce None);;
      wait_for None renew_interval
  end.

Fixpoint election_turns (fuel : nat) (current : option LeaderLease) : nprog (option LeaderLease) :=
  match fuel with
  | O => node_forever
  | S fuel' =>
      '(current, stop) ← election_turn current;
      if stop : bool then mret current else election_turns fuel' current
  end.

Definition leader_election_loop (fuel : nat) : nprog unit :=
  current ← election_turns fuel None;
  ncall_of (NAnnounce None);;
  select (ncall_of NAwaitScheduler) (ncall_of (NSleep (duration_saturating_mul renew_interval 2)));;
  match current : option LeaderLease with
  | Some lease => ncall_of (NRelinquish lease);; mret tt
  | None => mret tt
  end.
End election.

(** ** The consumer pump *)

(** [NReserve] answers whether the queue is still open. *)
Definition pump_turn (fuel : nat) : nprog (option unit) :=
  stop ← ncall_of NShutdownRequested;
  if stop : bool then mret (Some tt) else
  permit ← select (open ← ncall_of NReserve; mret (Some open)) (ncall_of NShutdownChanged;; mret None);
  match permit : option bool with
  | None => mret None
  | Some false => mret (Some tt)
  | Some true =>
      received ← select (r ← ncall_of NReceive; mret (Some r)) (ncall_of NShutdownChanged;; mret None);
      match received : option (result string (option M)) with
      | None => mret None
      | Some (Ok (Some record)) => ncall_of (NForward record);; mret None
      | Some (Ok None) => mret None
      | Some (Err _) => stop ← node_wait_or_shutdown (from_secs 1); mret (if stop : bool then Some tt else None)
      end
  end.

Definition consumer_pump (fuel : nat) : nprog unit := loop fuel pump_turn.
End node.

#[global] Arguments ncall : clear implicits.
