(* ===== verification/SchedulerProtocol.v ===== *)
(** * The dispatch protocol

    What every run of the scheduler obeys, whatever the stores, the brokers, the
    clock and the election do: a monitor of its calls, the proof that no run
    fails it, and what follows for a slice that is acknowledged. *)

From S2P Require Import Prelude RustStr F64 Contracts Domain Planning Coordination Effects Node.

#[global] Instance DispatchSpec_eq_dec : EqDecision DispatchSpec.
Proof. solve_decision. Defined.
#[global] Instance DispatchWindow_eq_dec : EqDecision DispatchWindow.
Proof. solve_decision. Defined.

Section protocol.
Context {M W : Type}.
Variable worker_retries burst : Z.
Variable tick_interval : duration.
Variable plans : list (string * ScenarioExecutionPlan W).
Hypothesis plans_distinct : NoDup plans.*1.
Notation nanswer := (nanswer (M := M)).
Notation nprog := (prog nanswer).
Notation nobs := (obs nanswer).
Implicit Types (w : DispatchWindow) (plan : ScenarioExecutionPlan W) (l : LeaderLease).

(** ** The monitor *)

(** The last two leases read from the election, and the lease that was found
    current since it was last relied on. *)
Record view := mkView {
  earlier : option ObservedLeaderLease;
  latest : option ObservedLeaderLease;
  current : option LeaderLease;
}.

(** The window in hand: prepared by a leader; registered, with a publication that
    may be in flight and the lease it was started under; or with a slice whose
    publication was acknowledged. *)
Inductive dispatch_phase :=
| NoWindow
| Prepared l (id : string) plan w
| Registered (id : string) plan w (inflight : option (Z * LeaderLease))
| Published (id : string) plan w (slice : Z) l.

Definition dispatch_state : Type := dispatch_phase * view.

Definition initial : dispatch_state := (NoWindow, mkView None None None).

(** The leader's lease was just found current. *)
Definition cleared (v : view) l : bool :=
  match current v with Some o => same_leader o l | None => false end.

Definition used (v : view) : view := mkView (earlier v) (latest v) None.

(** The clock is read to see whether the latest lease has not expired; its
    identity was checked on the one before. *)
Definition checked (v : view) (t : Z) : option LeaderLease :=
  match latest v with
  | Some o => if t <? valid_until o then observed_lease <$> earlier v else None
  | None => None
  end.

(** The job and key of a slice of a window. *)
Definition slice_job (id : string) plan w (i : Z) : option (string * ScenarioJob) :=
  execution_key ← window_execution_key w i;
  let job := scheduled_job worker_retries burst id plan w i execution_key in
  Some (key_for (cfg_partition_key_strategy (config (plan_scenario plan))) job, job).

(** The publication of a missing slice of the window, started under a lease just
    found current; another one only once this one has ended. *)
Definition may_publish (v : view) (id : string) plan w (inflight : option (Z * LeaderLease)) (key : string) (job : ScenarioJob)
    : option (Z * LeaderLease) :=
  let i := index (job_slice job) in
  if bool_decide (slice_job id plan w i = Some (key, job)) && bool_decide (i ∈ win_missing_slices w)
  then match inflight with
       | Some (j, l) => if i =? j then Some (i, l) else None
       | None => l ← current v; Some (i, l)
       end
  else None.

Definition prepares (v : view) (spec : DispatchSpec) l : option (ScenarioExecutionPlan W) :=
  plan ← map_get (spec_scenario_id spec) plans;
  if bool_decide (spec = dispatch_spec worker_retries burst (spec_scenario_id spec) plan) && cleared v l then Some plan else None.

(** The lease of an acknowledgement: the one of the publication, or the one read
    from the election last. *)
Definition acts_for (v : view) l l0 : bool :=
  same_leader l l0 || bool_decide (observed_lease <$> latest v = Some l).

Definition on_answer (s : dispatch_state) (c : ncall M) : nanswer c -> option dispatch_state :=
  let '(ph, v) := s in
  match c return nanswer c -> option dispatch_state with
  | NLeader => fun o => Some (ph, mkView (latest v) o (current v))
  | NNow => fun t => Some (ph, mkView (earlier v) (latest v) (checked v t))
  | NPrepare spec l => fun r =>
      plan ← prepares v spec l;
      Some (match r with Ok (DispatchReady w) => Prepared l (spec_scenario_id spec) plan w | _ => NoWindow end, used v)
  | NRegister w d => fun r =>
      match ph with
      | Prepared l id plan w0 =>
          if bool_decide (w = w0) && (d =? cfg_duration (config (plan_scenario plan))) && cleared v l
          then Some (match r with Ok _ => Registered id plan w None | Err _ => NoWindow end, used v) else None
      | _ => None
      end
  | NPublication key job => fun r =>
      match ph with
      | Registered id plan w inflight =>
          '(i, l) ← may_publish v id plan w inflight key job;
          Some (match r with Ok _ => Published id plan w i l | Err _ => NoWindow end, used v)
      | _ => None
      end
  | NAck w i l => fun r =>
      match ph with
      | Published id plan w0 i0 l0 =>
          if bool_decide (w = w0) && (i =? i0) && acts_for v l l0
          then Some (match r with Ok _ => Registered id plan w None | Err _ => NoWindow end, used v) else None
      | _ => None
      end
  | _ => fun _ => Some s
  end.

Definition on_drop (s : dispatch_state) (c : ncall M) : option dispatch_state :=
  let '(ph, v) := s in
  match c with
  | NPrepare spec l => _ ← prepares v spec l; Some (NoWindow, used v)
  | NRegister w d => on_answer s (NRegister w d) (Err (Timeout EmptyString))
  | NPublication key job =>
      match ph with
      | Registered id plan w inflight =>
          il ← may_publish v id plan w inflight key job;
          Some (Registered id plan w (Some il), used v)
      | _ => None
      end
  | NAck w i l => on_answer s (NAck w i l) (Err (Timeout EmptyString))
  | _ => Some s
  end.

Definition dispatch_protocol (s : dispatch_state) (x : nobs) : option dispatch_state :=
  match x with
  | Answered c r => on_answer s c r
  | Dropped c => on_drop s c
  end.

(** ** No run fails it *)

Notation safe := (safe dispatch_protocol).
Notation anywhere := (fun _ : dispatch_state => True).

(** A call the protocol does not mention. *)
Definition plain (c : ncall M) : bool :=
  match c with
  | NLeader | NNow | NPrepare _ _ | NRegister _ _ | NPublication _ _ | NAck _ _ _ => false
  | _ => true
  end.

Lemma dispatch_plain_ignored c : plain c = true -> ignored dispatch_protocol (Dropped c) /\ forall r, ignored dispatch_protocol (Answered c r).
Proof. intros Hp. split; [|intros r]; intros [ph v]; destruct c; done. Qed.

Lemma dispatch_quiet_plain {A} c (k : nanswer c -> nprog A) :
  plain c = true -> (forall r, quiet dispatch_protocol (k r)) -> quiet dispatch_protocol (Call c k).
Proof. intros Hp Hk. destruct (dispatch_plain_ignored c Hp). apply quiet_call; auto. Qed.

Lemma quiet_call_of c : plain c = true -> quiet dispatch_protocol (ncall_of c).
Proof. intros Hp. apply dispatch_quiet_plain; [done|]. intros. apply quiet_ret. Qed.

Lemma safe_call_of {A} c (k : nanswer c -> nprog A) (s : dispatch_state) Q :
  is_Some (on_drop s c) -> (forall r, exists s', on_answer s c r = Some s' /\ safe (k r) s' anywhere Q) ->
  safe (ncall_of c ≫= k) s anywhere Q.
Proof.
  intros [sd Hd] Hk. apply safe_call; [done|by exists sd|]. intros r. destruct (Hk r) as (s' & Ha & Hs). by exists s'.
Qed.

Lemma dispatch_safe_plain {A} c (k : nanswer c -> nprog A) s Q :
  plain c = true -> (forall r, safe (k r) s anywhere Q) -> safe (ncall_of c ≫= k) s anywhere Q.
Proof.
  intros Hp Hk. destruct (dispatch_plain_ignored c Hp) as [Hd Ha]. apply safe_call_of; [eexists; apply (Hd s)|].
  intros r. exists s. split; [apply (Ha r s)|done].
Qed.

Lemma safe_read {A} (k : option ObservedLeaderLease -> nprog A) ph v Q :
  (forall o, safe (k o) (ph, mkView (latest v) o (current v)) anywhere Q) -> safe (ncall_of NLeader ≫= k) (ph, v) anywhere Q.
Proof. intros Hk. apply safe_call_of; [done|]. intros o. eexists. split; [done|apply Hk]. Qed.

Lemma identity_safe leader ph v :
  safe (leader_identity_is_current leader) (ph, v) anywhere (fun b s =>
    exists o, s = (ph, mkView (latest v) o (current v))
    /\ (b = true -> exists c, o = Some c /\ same_leader (observed_lease c) (observed_lease leader) = true)).
Proof.
  apply safe_read. intros o. apply safe_ret. exists o. split; [done|]. destruct o as [c|]; [|done]. intros Hc. by exists c.
Qed.

Lemma lease_is_current_safe leader ph v :
  safe (lease_is_current leader) (ph, v) anywhere (fun b s =>
    exists v', s = (ph, v') /\ (b = true -> cleared v' (observed_lease leader) = true)).
Proof.
  apply safe_bind. eapply safe_mono; [apply identity_safe|done|]. intros same s (o & -> & Ho).
  destruct same; [|apply safe_ret; by eexists]. destruct (Ho eq_refl) as (c & -> & Hc). simpl negb. cbv iota.
  apply safe_read. intros [c2|]; [|apply safe_ret; by eexists].
  apply safe_call_of; [done|]. intros t. eexists. split; [done|]. apply safe_ret. eexists. split; [done|].
  simpl. unfold cleared, checked. simpl. intros ->. done.
Qed.

Lemma must_stop_safe leader ph v :
  safe (must_stop leader) (ph, v) anywhere (fun b s =>
    exists v', s = (ph, v') /\ (b = false -> cleared v' (observed_lease leader) = true)).
Proof.
  apply dispatch_safe_plain; [done|]. intros [|]; [apply safe_ret; by eexists|].
  apply safe_bind. eapply safe_mono; [apply lease_is_current_safe|done|]. intros b s (v' & -> & Hb).
  apply safe_ret. exists v'. split; [done|]. destruct b; [auto|done].
Qed.

Lemma same_leader_sym l l' : same_leader l l' = same_leader l' l.
Proof. unfold same_leader. rewrite Z.eqb_sym. f_equal. apply bool_decide_ext. naive_solver. Qed.

(** A race of a quiet side that returns only [b]s. *)
Lemma safe_select {A} (p q : nprog A) s (J : dispatch_state -> Prop) Q :
  quiet dispatch_protocol p -> (forall b s', (exists tr, runs p tr (Some b)) -> J s' -> Q b s') ->
  safe q s J Q -> safe (select p q) s J Q.
Proof.
  intros Hp HQ Hq. apply safe_race_r; [done|]. eapply safe_mono; [exact Hq| |].
  - intros s' Hs. split; [done|]. intros b Hb. apply safe_ret. by apply HQ.
  - intros b s' Hs. by apply safe_ret.
Qed.

Lemma runs_call_of {A} c (k : nanswer c -> nprog A) tr b : runs (ncall_of c ≫= k) tr (Some b) -> exists r tr', runs (k r) tr' (Some b).
Proof. intros [[_ [=]]|[[_ [=]]|(r & tr' & _ & Hr)]]. by exists r, tr'. Qed.

Section slice.
Context (id : string) (plan : ScenarioExecutionPlan W) (w : DispatchWindow) (i : Z) (key : string) (job : ScenarioJob).
Hypothesis job_of_slice : slice_job id plan w i = Some (key, job).
Hypothesis slice_missing : i ∈ win_missing_slices w.

(** The publication may go on or start, for the lease it is cleared under. *)
Definition waiting (leader : ObservedLeaderLease) l (s : dispatch_state) : Prop :=
  exists v inflight, s = (Registered id plan w inflight, v)
  /\ match inflight with None => current v = Some l | Some il => il = (i, l) end
  /\ acts_for v (observed_lease leader) l = true.

Definition after_event (leader : ObservedLeaderLease) l (e : publication_event) (s : dispatch_state) : Prop :=
  match e with
  | EvPublished (Ok _) => exists v, s = (Published id plan w i l, v) /\ acts_for v (observed_lease leader) l = true
  | EvPublished (Err _) => True
  | _ => waiting leader l s
  end.

Lemma slice_job_index : index (job_slice job) = i.
Proof.
  unfold slice_job in job_of_slice. apply bind_Some in job_of_slice as (k & _ & E). by injection E as _ <-.
Qed.

Lemma may_publish_waiting l v inflight :
  match inflight with None => current v = Some l | Some il => il = (i, l) end ->
  may_publish v id plan w inflight key job = Some (i, l).
Proof.
  intros Hi. unfold may_publish. rewrite slice_job_index, !bool_decide_true by done. simpl.
  destruct inflight as [[j l']|]; [injection Hi as -> ->; by rewrite Z.eqb_refl|by rewrite Hi].
Qed.

Lemma publication_safe leader l s :
  waiting leader l s ->
  safe (r ← ncall_of (NPublication key job); mret (EvPublished r)) s (waiting leader l) (after_event leader l).
Proof.
  intros Hw. pose proof Hw as (v & inflight & -> & Hi & Ha). pose proof (may_publish_waiting _ _ _ Hi) as Hp.
  apply safe_call; [done| |].
  - eexists. split; [simpl; by rewrite Hp|]. by eexists _, _.
  - intros r. eexists. split; [simpl; by rewrite Hp|]. apply safe_ret. destruct r; [|done]. by eexists.
Qed.

Lemma next_event_safe leader l s :
  waiting leader l s -> safe (next_publication_event leader key job) s (waiting leader l) (after_event leader l).
Proof.
  intros Hw. repeat (apply safe_select; [apply dispatch_quiet_plain; [done|]; intros; apply quiet_ret| |]); [..|by apply publication_safe];
    intros b s' [tr Hr] Hs; apply runs_call_of in Hr as (r & tr' & [_ [= ->]]); done.
Qed.

Lemma await_publication_safe fuel leader l s :
  waiting leader l s ->
  safe (await_publication fuel leader key job) s anywhere (fun r s' =>
    match r with
    | Some (leader', Ok _) => exists v, s' = (Published id plan w i l, v) /\ acts_for v (observed_lease leader') l = true
    | _ => True
    end).
Proof.
  revert leader s. induction fuel as [|fuel IH]; intros leader s Hw.
  { apply safe_call; [done|by destruct s; eexists|]. intros []. }
  apply safe_bind. eapply safe_mono; [by apply next_event_safe|done|]. intros [| |[]|r] s' He; try (by apply safe_ret).
  destruct He as (v & inflight & -> & Hi & Ha). apply safe_bind. eapply safe_mono; [apply identity_safe|done|].
  intros same s' (o & -> & Ho). destruct same; [|by apply safe_ret]. apply safe_read. intros [leader'|].
  - apply IH. eexists _, _. split; [done|]. simpl. split; [done|]. unfold acts_for. simpl.
    rewrite (bool_decide_true (Some _ = Some _)) by done. apply orb_true_r.
  - apply safe_call; [done|by eexists|]. intros [].
Qed.
End slice.

Lemma dispatch_slices_safe fuel leader id plan w slices v :
  slices ⊆ win_missing_slices w ->
  safe (dispatch_slices worker_retries burst fuel leader id plan w slices) (Registered id plan w None, v) anywhere (fun _ _ => True).
Proof.
  revert leader v. induction slices as [|i slices IH]; intros leader v Hsub; [by apply safe_ret|].
  cbn [dispatch_slices]. apply safe_bind. eapply safe_mono; [apply must_stop_safe|done|]. intros [] s (v' & -> & Hc); [by apply safe_ret|].
  specialize (Hc eq_refl). unfold cleared in Hc. destruct (current v') as [l|] eqn:El; [|done].
  destruct (window_execution_key w i) as [k|] eqn:Ek; [|by apply safe_ret].
  apply safe_bind. eapply safe_mono.
  - eapply (await_publication_safe id plan w i) with (l := l); [unfold slice_job; by rewrite Ek|set_solver|].
    exists v', None. split; [done|]. split; [done|]. unfold acts_for. by rewrite same_leader_sym, Hc.
  - done.
  - intros [[leader' [[]|e]]|] s Hs; try (by apply safe_ret). destruct Hs as (v2 & -> & Ha).
    apply safe_call_of.
    + simpl. rewrite bool_decide_true, Z.eqb_refl, Ha by done. done.
    + intros r. eexists. split; [simpl; by rewrite bool_decide_true, Z.eqb_refl, Ha|].
      destruct r as [p|e]; [apply IH; set_solver|]. destruct e; by apply safe_ret.
Qed.

Lemma dispatch_scenario_safe fuel leader id plan s :
  map_get id plans = Some plan ->
  safe (dispatch_scenario worker_retries burst fuel leader id plan) s anywhere (fun _ _ => True).
Proof.
  intros Hp. destruct s as [ph v]. apply safe_bind. eapply safe_mono; [apply must_stop_safe|done|].
  intros [] s (v1 & -> & Hc); [by apply safe_ret|]. specialize (Hc eq_refl).
  assert (prepares v1 (dispatch_spec worker_retries burst id plan) (observed_lease leader) = Some plan) as Hprep.
  { unfold prepares. simpl. rewrite Hp. simpl. by rewrite bool_decide_true, Hc. }
  apply safe_call_of; [simpl; by rewrite Hprep|]. intros r. eexists. split; [simpl; by rewrite Hprep|].
  destruct r as [[w| |]|e]; [|by apply safe_ret..|destruct e; by apply safe_ret].
  apply safe_bind. eapply safe_mono; [apply lease_is_current_safe|done|]. intros [] s (v2 & -> & Hc2); [|by apply safe_ret].
  specialize (Hc2 eq_refl). apply safe_call_of; [simpl; by rewrite bool_decide_true, Z.eqb_refl, Hc2|].
  intros r. eexists. split; [simpl; by rewrite bool_decide_true, Z.eqb_refl, Hc2|].
  destruct r as [[]|e]; [|by apply safe_ret]. by apply dispatch_slices_safe.
Qed.

Lemma plans_get_elem id plan : (id, plan) ∈ plans -> map_get id plans = Some plan.
Proof.
  induction plans as [|[id' plan'] l IH]; intros Hin; [by apply elem_of_nil in Hin|].
  simpl in *. apply NoDup_cons in plans_distinct as [Hn Hd]. destruct (String.eqb_spec id' id) as [->|Hne].
  - apply elem_of_cons in Hin as [[= ->]|Hin]; [done|]. destruct Hn. apply list_elem_of_fmap. by exists (id, plan).
  - apply elem_of_cons in Hin as [[= -> ->]|Hin]; [done|]. by apply IH.
Qed.

Lemma dispatch_scenarios_safe fuel leader (todo : list (string * ScenarioExecutionPlan W)) s :
  todo ⊆ plans -> safe (dispatch_scenarios worker_retries burst fuel leader todo) s anywhere (fun _ _ => True).
Proof.
  revert leader s. induction todo as [|[id plan] todo IH]; intros leader s Hsub; [by apply safe_ret|].
  cbn [dispatch_scenarios]. apply safe_bind. eapply safe_mono; [apply dispatch_scenario_safe, plans_get_elem; set_solver|done|].
  intros [leader'|] s' _; [apply IH; set_solver|by apply safe_ret].
Qed.

Lemma quiet_wait d : quiet dispatch_protocol (node_wait_or_shutdown d).
Proof.
  apply quiet_race; [apply dispatch_quiet_plain; [done|]; intros; apply quiet_ret| |intros; apply quiet_ret].
  apply dispatch_quiet_plain; [done|]. intros []; [apply quiet_ret|exact (quiet_call_of NShutdownRequested eq_refl)].
Qed.

Lemma scheduler_turn_safe fuel s :
  safe (scheduler_turn worker_retries burst tick_interval plans fuel) s anywhere (fun _ _ => True).
Proof.
  apply dispatch_safe_plain; [done|]. intros [|]; [by apply safe_ret|]. destruct s as [ph v]. apply safe_read. intros [leader|].
  - apply safe_bind. eapply safe_mono; [by apply dispatch_scenarios_safe|done|]. intros [leader'|] s' _; [|by apply safe_ret].
    apply safe_quiet; [|done..]. apply quiet_bind; [apply quiet_wait|]. intros. apply quiet_ret.
  - apply safe_quiet; [|done..]. apply quiet_race; [| |intros; apply quiet_ret];
      (apply dispatch_quiet_plain; [done|]; intros; apply quiet_ret).
Qed.

Lemma scheduler_safe fuel s :
  safe (scheduler_loop worker_retries burst tick_interval plans fuel) s anywhere (fun _ _ => True).
Proof.
  apply safe_bind. revert s. generalize fuel at 1 as n. intros n. induction n as [|n IH]; intros s.
  { apply safe_call; [done|by destruct s; eexists|]. intros []. }
  cbn [loop]. apply safe_bind. eapply safe_mono; [apply scheduler_turn_safe|done|]. intros [[]|] s' _; [|apply IH].
  apply safe_ret. apply safe_quiet; [exact (quiet_call_of NSchedulerStopped eq_refl)|done..].
Qed.

(** ** What an acknowledged slice has behind it *)

Definition is_prepare (x : nobs) : bool :=
  match x with Answered (NPrepare _ _) _ | Dropped (NPrepare _ _) => true | _ => false end.

Definition settles_slice (x : nobs) : bool :=
  match x with
  | Answered (NPublication _ _) _ | Dropped (NPublication _ _) | Answered (NAck _ _ _) _ | Dropped (NAck _ _ _) => true
  | _ => false
  end.

(** The calls since the window was prepared for the plan. *)
Definition prepared_since (tr : list nobs) l id plan w (since : list nobs) : Prop :=
  (exists before, tr = before ++ Answered (NPrepare (dispatch_spec worker_retries burst id plan) l) (Ok (DispatchReady w)) :: since)
  /\ map_get id plans = Some plan /\ Forall (fun x => is_prepare x = false) since.

Definition registered_since (tr : list nobs) id plan w (since : list nobs) : Prop :=
  exists l t, prepared_since tr l id plan w (t ++ Answered (NRegister w (cfg_duration (config (plan_scenario plan)))) (Ok tt) :: since).

Definition published_since (tr : list nobs) id plan w i : Prop :=
  exists key job t since, registered_since tr id plan w (t ++ Answered (NPublication key job) (Ok tt) :: since)
    /\ slice_job id plan w i = Some (key, job) /\ i ∈ win_missing_slices w /\ Forall (fun x => settles_slice x = false) since.

Definition explained (tr : list nobs) (ph : dispatch_phase) : Prop :=
  match ph with
  | NoWindow => True
  | Prepared l id plan w => exists since, prepared_since tr l id plan w since
  | Registered id plan w _ => exists since, registered_since tr id plan w since
  | Published id plan w i _ => published_since tr id plan w i
  end.

Lemma prepared_more tr l id plan w since x :
  is_prepare x = false -> prepared_since tr l id plan w since -> prepared_since (tr ++ [x]) l id plan w (since ++ [x]).
Proof.
  intros Hx ([before ->] & Hm & Hf). split; [exists before; by rewrite <- app_assoc|]. split; [done|].
  apply Forall_app. by split; [|constructor].
Qed.

Lemma registered_more tr id plan w since x :
  is_prepare x = false -> registered_since tr id plan w since -> registered_since (tr ++ [x]) id plan w (since ++ [x]).
Proof.
  intros Hx (l & t & Hp). exists l, t. rewrite app_comm_cons, app_assoc. by apply prepared_more.
Qed.

Lemma explained_more tr ph x :
  is_prepare x = false -> settles_slice x = false -> explained tr ph -> explained (tr ++ [x]) ph.
Proof.
  intros Hx Hs. destruct ph as [|l id plan w|id plan w f|id plan w i l]; simpl; [done| | |].
  - intros [since Hp]. eexists. by apply prepared_more.
  - intros [since Hp]. eexists. by apply registered_more.
  - intros (key & job & t & since & Hr & Hj & Hi & Hf). exists key, job, t, (since ++ [x]).
    split; [rewrite app_comm_cons, app_assoc; by apply registered_more|]. split_and!; [done..|].
    apply Forall_app. by split; [|constructor].
Qed.

Lemma explained_answer tr ph v c r s :
  explained tr ph -> on_answer (ph, v) c r = Some s -> explained (tr ++ [Answered c r]) s.1.
Proof.
  intros He Hs. destruct c; simpl in Hs; try (injection Hs as <-; by apply explained_more).
  - apply bind_Some in Hs as (plan & Hp & [= <-]). unfold prepares in Hp. apply bind_Some in Hp as (plan' & Hm & Hp).
    destruct (bool_decide _ && _) eqn:Eb; [|done]. injection Hp as ->. bool_hyps.
    destruct r as [[w| |]|]; [|done..]. simpl. exists []. split; [|by split]. exists tr. by rewrite <- H.
  - destruct ph as [|l id plan w| |]; try done. destruct (_ && _ && _) eqn:Eb; [|done]. injection Hs as <-. bool_hyps. subst.
    destruct r as [[]|]; [|done]. destruct He as [since Hp]. simpl. exists [], l, since. by apply prepared_more.
  - destruct ph as [| |id plan w inflight|]; try done. apply bind_Some in Hs as ([i l] & Hp & [= <-]).
    destruct r as [[]|]; [|done]. destruct He as [since Hr]. unfold may_publish in Hp.
    destruct (_ && _) eqn:Eb; [|done]. bool_hyps. assert (index (job_slice job) = i) as <-.
    { destruct inflight as [[j l']|]; [by destruct (_ =? j); simplify_eq/=|by destruct (current v); simplify_eq/=]. }
    exists key, job, since, []. split_and!; [by apply registered_more|done..].
  - destruct ph as [| | |id plan w i l]; try done. destruct (_ && _ && _) eqn:Eb; [|done]. injection Hs as <-. bool_hyps. subst.
    destruct r as [p|]; [|done]. destruct He as (key & job & t & since & Hr & _). simpl. eexists. by apply registered_more.
Qed.

Lemma explained_drop tr ph v c s :
  explained tr ph -> on_drop (ph, v) c = Some s -> explained (tr ++ [Dropped c]) s.1.
Proof.
  intros He Hs. destruct c; simpl in Hs; try (injection Hs as <-; by apply explained_more).
  - by apply bind_Some in Hs as (plan & _ & [= <-]).
  - destruct ph; try done. by destruct (_ && _ && _); simplify_eq/=.
  - destruct ph as [| |id plan w inflight|]; try done. apply bind_Some in Hs as (il & _ & [= <-]).
    destruct He as [since Hr]. eexists. by apply registered_more.
  - destruct ph; try done. by destruct (_ && _ && _); simplify_eq/=.
Qed.

Lemma watch_explained tr s : watch dispatch_protocol initial tr = Some s -> explained tr s.1.
Proof.
  revert s. induction tr as [|x tr IH] using rev_ind; intros s Hw; [by injection Hw as <-|].
  rewrite watch_app in Hw. apply bind_Some in Hw as ([ph v] & Hw & Hx). apply IH in Hw.
  simpl in Hx. apply bind_Some in Hx as (s' & Hx & [= <-]).
  destruct x as [c r|c]; [by eapply explained_answer|by eapply explained_drop].
Qed.

(** *** The leases the scheduler acts under were read from the election *)

Definition read_lease (tr : list nobs) l : Prop := exists o, Answered NLeader (Some o) ∈ tr /\ observed_lease o = l.

(** A call that needs leadership, and the lease it is made under. *)
Definition acts_under (x : nobs) l : Prop :=
  match x with
  | Answered (NPrepare _ l0) _ | Dropped (NPrepare _ l0) | Answered (NAck _ _ l0) _ | Dropped (NAck _ _ l0) => same_leader l l0 = true
  | Answered (NPublication _ _) _ | Dropped (NPublication _ _) => True
  | _ => False
  end.

Definition leases_read (tr : list nobs) (s : dispatch_state) : Prop :=
  let '(ph, v) := s in
  (forall o, earlier v = Some o \/ latest v = Some o -> Answered NLeader (Some o) ∈ tr)
  /\ (forall l, current v = Some l -> read_lease tr l)
  /\ match ph with Registered _ _ _ (Some (_, l)) | Published _ _ _ _ l => read_lease tr l | _ => True end.

Lemma read_more tr x l : read_lease tr l -> read_lease (tr ++ [x]) l.
Proof. intros (o & Ho & E). exists o. split; [set_solver|done]. Qed.

Lemma leases_read_more tr x s : leases_read tr s -> leases_read (tr ++ [x]) s.
Proof.
  destruct s as [ph v]. intros (Hv & Hc & Hp). split; [intros o Ho; apply Hv in Ho; set_solver|].
  split; [intros l Hl; by apply read_more, Hc|]. repeat case_match; first [done|by apply read_more].
Qed.

Lemma leases_read_used tr ph v ph' :
  leases_read tr (ph, v) ->
  match ph' with Registered _ _ _ (Some (_, l)) | Published _ _ _ _ l => read_lease tr l | _ => True end ->
  leases_read tr (ph', used v).
Proof. intros (Hv & _ & _) Hp. by split_and!. Qed.

Lemma may_publish_read tr v id plan w inflight key job i l :
  leases_read tr (Registered id plan w inflight, v) -> may_publish v id plan w inflight key job = Some (i, l) -> read_lease tr l.
Proof.
  intros (_ & Hc & Hp). unfold may_publish. destruct (_ && _); [|done]. destruct inflight as [[j l']|].
  - destruct (_ =? j); [|done]. by intros [= _ <-].
  - intros (l' & El & [= _ <-])%bind_Some. by apply Hc.
Qed.

Lemma leases_read_answer tr ph v c r s : leases_read tr (ph, v) -> on_answer (ph, v) c r = Some s -> leases_read (tr ++ [Answered c r]) s.
Proof.
  intros Hr Hs. pose proof (leases_read_more _ (Answered c r) _ Hr) as Hm.
  destruct c; simpl in Hs; try (by injection Hs as <-).
  - injection Hs as <-. destruct Hm as (Hv & Hc & Hp). split; [done|]. split; [|done]. simpl. unfold checked. intros l Hl.
    destruct (latest v) as [c|]; [|done]. destruct (r <? _); [|done]. apply fmap_Some in Hl as (o & Eo & ->). exists o. split; [|done].
    apply Hv. by left.
  - injection Hs as <-. destruct Hm as (Hv & Hc & Hp). split; [|by split]. simpl. intros o [Ho|Ho]; [by apply Hv; right|].
    subst r. set_solver.
  - apply bind_Some in Hs as (plan & _ & [= <-]). eapply leases_read_used; [done|]. by repeat case_match.
  - destruct ph; try done. destruct (_ && _ && _); [|done]. injection Hs as <-. eapply leases_read_used; [done|]. by repeat case_match.
  - destruct ph as [| |id plan w inflight|]; try done. apply bind_Some in Hs as ([i l] & Hp & [= <-]).
    eapply leases_read_used; [done|]. destruct r; [|done]. by eapply may_publish_read.
  - destruct ph; try done. destruct (_ && _ && _); [|done]. injection Hs as <-. eapply leases_read_used; [done|]. by repeat case_match.
Qed.

Lemma leases_read_drop tr ph v c s : leases_read tr (ph, v) -> on_drop (ph, v) c = Some s -> leases_read (tr ++ [Dropped c]) s.
Proof.
  intros Hr Hs. pose proof (leases_read_more _ (Dropped c) _ Hr) as Hm.
  destruct c; simpl in Hs; try (by injection Hs as <-).
  - apply bind_Some in Hs as (plan & _ & [= <-]). by eapply leases_read_used.
  - destruct ph; try done. destruct (_ && _ && _); [|done]. injection Hs as <-. by eapply leases_read_used.
  - destruct ph as [| |id plan w inflight|]; try done. apply bind_Some in Hs as ([i l] & Hp & [= <-]).
    eapply leases_read_used; [done|]. by eapply may_publish_read.
  - destruct ph; try done. destruct (_ && _ && _); [|done]. injection Hs as <-. by eapply leases_read_used.
Qed.

Lemma watch_leases_read tr s : watch dispatch_protocol initial tr = Some s -> leases_read tr s.
Proof.
  revert s. induction tr as [|x tr IH] using rev_ind; intros s Hw; [injection Hw as <-; split_and!; [by intros ? [|]|done..]|].
  rewrite watch_app in Hw. apply bind_Some in Hw as ([ph v] & Hw & Hx). apply IH in Hw.
  apply bind_Some in Hx as (s' & Hx & [= <-]).
  destruct x as [c r|c]; [by eapply leases_read_answer|by eapply leases_read_drop].
Qed.

(** Before any call that needs leadership, a lease of that leader was read. *)
Lemma acted_under_read_lease tr x :
  is_Some (watch dispatch_protocol initial (tr ++ [x])) -> (exists l, acts_under x l) ->
  exists l, read_lease tr l /\ acts_under x l.
Proof.
  intros [s Hw] Hx. rewrite watch_app in Hw. apply bind_Some in Hw as ([ph v] & Hw & Hs). apply watch_leases_read in Hw.
  apply bind_Some in Hs as (s' & Hs & _). destruct Hx as [l Hx].
  assert (forall spec l1, is_Some (prepares v spec l1) -> exists l0, read_lease tr l0 /\ same_leader l0 l1 = true) as Hprep.
  { intros spec l1 [plan Hp]. unfold prepares in Hp. apply bind_Some in Hp as (plan' & _ & Hp).
    destruct (_ && _) eqn:Eb; [|done]. bool_hyps. unfold cleared in *. destruct Hw as (_ & Hc & _).
    destruct (current v) as [l0|]; [|done]. exists l0. auto. }
  assert (forall w w0 i i0 l1 l0 id plan, leases_read tr (Published id plan w0 i0 l0, v) ->
    bool_decide (w = w0) && (i =? i0) && acts_for v l1 l0 = true -> exists l2, read_lease tr l2 /\ same_leader l2 l1 = true) as Hack.
  { intros w w0 i i0 l1 l0 id plan (Hv & _ & Hp) Eb. bool_hyps. unfold acts_for in *.
    destruct (same_leader l1 l0) eqn:Es; [exists l0; split; [done|by rewrite same_leader_sym]|]. simpl in *.
    match goal with Hb : bool_decide _ = true |- _ => apply bool_decide_eq_true in Hb; apply fmap_Some in Hb as (o & Eo & ->) end.
    exists (observed_lease o). split; [exists o; split; [apply Hv; by right|done]|].
    unfold same_leader. by rewrite bool_decide_true, Z.eqb_refl. }
  destruct x as [c r|c]; destruct c; try done; simpl in Hs, Hx |- *.
  - apply bind_Some in Hs as (plan & Hp & _). eapply Hprep. by eexists.
  - destruct ph as [| |id plan w inflight|]; try done. apply bind_Some in Hs as ([i l0] & Hp & _).
    exists l0. split; [by eapply may_publish_read|done].
  - destruct ph; try done. destruct (_ && _ && _) eqn:Eb; [|done]. by eapply Hack.
  - apply bind_Some in Hs as (plan & Hp & _). eapply Hprep. by eexists.
  - destruct ph as [| |id plan w inflight|]; try done. apply bind_Some in Hs as ([i l0] & Hp & _).
    exists l0. split; [by eapply may_publish_read|done].
  - destruct ph; try done. destruct (_ && _ && _) eqn:Eb; [|done]. by eapply Hack.
Qed.

(** C6: the scheduler follows the dispatch protocol in every run, whatever the
    stores, the brokers, the election and the clock do. It prepares and registers
    a window only under a lease it has just found current, for the plan's own
    specification; it publishes only missing slices of the window it registered,
    each as the one job the plan and the window determine, one at a time, started
    under a current lease; and it acknowledges a slice only when its publication
    was just acknowledged. *)
Theorem scheduler_follows_dispatch_protocol fuel tr o
    (Hrun : runs (scheduler_loop worker_retries burst tick_interval plans fuel) tr o) :
  is_Some (watch dispatch_protocol initial tr).
Proof. destruct (scheduler_safe fuel initial tr o Hrun) as (s & -> & _). by eexists. Qed.

(** C12: no slice is marked dispatched without its job. Whenever the scheduler asks
    the dispatch store to acknowledge a slice of a window, that window was
    prepared for one of the node's plans and not replaced since, its run was
    registered for aggregation, and then the broker acknowledged the job of that
    slice, as the plan and the window determine it; nothing was published or
    acknowledged in between. So a crash or a lost lease can only repeat the same
    job, never lose one. *)
Theorem acknowledged_slices_were_published fuel before x after o w i l
    (Hrun : runs (scheduler_loop worker_retries burst tick_interval plans fuel) (before ++ x :: after) o)
    (Hack : (exists r, x = Answered (NAck w i l) r) \/ x = Dropped (NAck w i l)) :
  exists id plan, (id, plan) ∈ plans /\ published_since before id plan w i.
Proof.
  destruct (scheduler_safe fuel initial _ o Hrun) as (s & Hw & _).
  rewrite watch_app in Hw. apply bind_Some in Hw as ([ph v] & Hb & Hx). apply watch_explained in Hb.
  apply bind_Some in Hx as (s' & Hx & _).
  assert (exists id plan w0 i0 l0, ph = Published id plan w0 i0 l0 /\ w = w0 /\ i = i0) as (id & plan & w0 & i0 & l0 & -> & <- & <-).
  { destruct Hack as [[r ->]| ->]; destruct ph as [| | |id plan w0 i0 l0]; try done; simpl in Hx;
      (destruct (_ && _ && _) eqn:Eb; [|done]; bool_hyps; by eexists _, _, _, _, _). }
  simpl in Hb. exists id, plan. split; [|done].
  destruct Hb as (key & job & t & since & (l1 & t1 & _ & Hm & _) & _). clear -Hm.
  induction plans as [|[id' plan'] todo IH]; [done|]. simpl in Hm. destruct (String.eqb_spec id' id) as [->|]; simplify_eq/=; set_solver.
Qed.
End protocol.

(** ** A dispatched slice *)

Section sample.
#[local] Arguments runs : simpl never.
Context {M : Type}.
Notation nanswer := (nanswer (M := M)).
Context (plan : ScenarioExecutionPlan unit).

Definition sample_leader : ObservedLeaderLease :=
  ObservedLeaderLease_new (mkLeader "lock" "node" "token" 1 10000 (from_secs 10)) (from_secs 3) 5.
Definition sample_window : DispatchWindow := mkWindow "s" "window" "run" 1 2 1 "plan" [0].

(** A lease is read twice, and the clock once. *)
Definition found_current : list (obs nanswer) :=
  [Answered NLeader (Some sample_leader); Answered NLeader (Some sample_leader); Answered NNow 3].

Definition sample_job : ScenarioJob := scheduled_job 2 0 "s" plan sample_window 0 "window:slice-0-of-1".

Definition dispatch_calls : list (obs nanswer) :=
  [Answered NShutdownRequested false; Answered NLeader (Some sample_leader); Answered NShutdownRequested false] ++ found_current
  ++ [Answered (NPrepare (dispatch_spec 2 0 "s" plan) (observed_lease sample_leader)) (Ok (DispatchReady sample_window))] ++ found_current
  ++ [Answered (NRegister sample_window (cfg_duration (config (plan_scenario plan)))) (Ok tt); Answered NShutdownRequested false]
  ++ found_current
  ++ [Answered (NPublication (key_for (cfg_partition_key_strategy (config (plan_scenario plan))) sample_job) sample_job) (Ok tt)].

Lemma dispatch_runs n tick (acked : DispatchProgress) :
  runs (scheduler_loop 2 0 tick [("s", plan)] (S (S n)))
    (dispatch_calls ++ [Answered (NAck sample_window 0 (observed_lease sample_leader)) (Ok acked)]) None.
Proof.
  unfold dispatch_calls, scheduler_loop. cbn [loop]. simpl app. do 15 (apply (runs_answer (answer := nanswer)); simpl).
  apply (runs_second _ _ _ (EvPublished (Ok tt)) [Answered (NPublication _ _) (Ok tt)]
    [Answered (NAck sample_window 0 (observed_lease sample_leader)) (Ok acked)]); [by left| |].
  - apply (runs_second _ _ _ (EvPublished (Ok tt)) [_] []); [by left| |done].
    apply (runs_second _ _ _ (EvPublished (Ok tt)) [_] []); [by left| |done]. by apply (runs_answer (answer := nanswer)).
  - apply (runs_answer (answer := nanswer)). simpl. exists [], [], []. split; [constructor|]. left. split_and!; [by left..|done|done].
Qed.
End sample.

Definition sample_plan : ScenarioExecutionPlan unit :=
  mkPlan (mkScenario "s" [] (mkScenarioConfig "http://127.0.0.1:8080" f64_one 1 (from_secs 10) Once ScenarioId)) (mkPorts "http://127.0.0.1:8080" ∅) "semantics".

Lemma sample_plans_distinct : NoDup [("s", sample_plan)].*1.
Proof. apply NoDup_singleton. Qed.

Lemma scheduler_follows_dispatch_protocol_witness :
  is_Some (watch (dispatch_protocol (M := unit) 2 0 [("s", sample_plan)]) initial
    (dispatch_calls sample_plan ++ [Answered (NAck sample_window 0 (observed_lease sample_leader)) (Ok DispatchComplete)])).
Proof.
  exact (scheduler_follows_dispatch_protocol 2 0 (from_secs 1) [("s", sample_plan)] sample_plans_distinct 2 _ _
    (dispatch_runs sample_plan 0 (from_secs 1) DispatchComplete)).
Defined.

Lemma acknowledged_slices_were_published_witness :
  exists id plan, (id, plan) ∈ [("s", sample_plan)]
    /\ published_since (M := unit) 2 0 [("s", sample_plan)] (dispatch_calls sample_plan) id plan sample_window 0.
Proof.
  apply (acknowledged_slices_were_published 2 0 (from_secs 1) [("s", sample_plan)] sample_plans_distinct 2
    (dispatch_calls sample_plan) (Answered (NAck sample_window 0 (observed_lease sample_leader)) (Ok DispatchComplete)) [] None
    sample_window 0 (observed_lease sample_leader)); [exact (dispatch_runs sample_plan 0 (from_secs 1) DispatchComplete)|].
  left. by eexists.
Defined.
