(* ===== verification/ElectionProtocol.v ===== *)
(** * The leadership protocol of a node

    What every run of the leader election obeys: what it announces to the
    scheduler, and when it gives a lease back. *)

From S2P Require Import Prelude RustStr Contracts Domain Planning Coordination Effects Runner Worker Node.

Section protocol.
Context {M : Type}.
Variable renew_interval : duration.
Notation nanswer := (nanswer (M := M)).
Notation nprog := (prog nanswer).
Notation nobs := (obs nanswer).
Implicit Types (cur : option LeaderLease) (l : LeaderLease).

(** ** The monitor *)

Inductive election_phase :=
| Between cur                             (** a turn is over; the lease held *)
| Requesting cur (started : Z)            (** the clock was read before a request *)
| Granted l (started : Z)                 (** the lease was granted *)
| Timed l (started now : Z)               (** the clock was read after the grant *)
| Denied                                  (** it was not granted *)
| Withdrawn cur                           (** the last announcement was withdrawn *)
| Quiesced cur                            (** the scheduler stopped, or had its time to *)
| Relinquished.

(** A lease is announced as the budget that remains of it, while some remains, and
    withdrawn when none does; a refusal or an error is followed by a withdrawal. *)
Definition announce (ph : election_phase) (observed : option ObservedLeaderLease) : option election_phase :=
  match ph, observed with
  | Timed l started now, Some o =>
      if bool_decide (o = ObservedLeaderLease_new l renew_interval started) && (now <? valid_until o)
      then Some (Between (Some l)) else None
  | Timed l started now, None =>
      if now <? valid_until (ObservedLeaderLease_new l renew_interval started) then None else Some (Between (Some l))
  | Denied, None => Some (Between None)
  | (Between cur | Requesting cur _), None => Some (Withdrawn cur)
  | _, _ => None
  end.

(** An answer to a request is acted on before anything else is done: after a grant
    the clock is read and the lease announced or withdrawn, after a denial it is
    withdrawn. *)
Definition at_once (ph : election_phase) : bool :=
  match ph with Granted _ _ | Timed _ _ _ | Denied => true | _ => false end.

Definition unless_at_once (ph : election_phase) : option election_phase := if at_once ph then None else Some ph.

Definition on_election (ph : election_phase) (c : ncall M) : nanswer c -> option election_phase :=
  match c return nanswer c -> option election_phase with
  | NNow => fun t =>
      match ph with
      | Between cur | Requesting cur _ => Some (Requesting cur t)
      | Granted l started => Some (Timed l started t)
      | ph => unless_at_once ph
      end
  | NElect cur => fun r =>
      match ph with
      | Requesting cur0 started =>
          if bool_decide (cur = cur0)
          then Some (match r with Ok (LeaderAcquired l) | Ok (LeaderRenewed l) => Granted l started | _ => Denied end)
          else None
      | _ => None
      end
  | NAnnounce o => fun _ => announce ph o
  | NAwaitScheduler => fun _ => match ph with Withdrawn cur => Some (Quiesced cur) | _ => None end
  | NSleep d => fun _ =>
      match ph with
      | Withdrawn cur => if d =? duration_saturating_mul renew_interval 2 then Some (Quiesced cur) else None
      | ph => unless_at_once ph
      end
  | NRelinquish l => fun _ =>
      match ph with Quiesced (Some l0) => if bool_decide (l = l0) then Some Relinquished else None | _ => None end
  | _ => fun _ => unless_at_once ph
  end.

Definition on_election_drop (ph : election_phase) (c : ncall M) : option election_phase :=
  match c with
  | NNow => match ph with Granted _ _ => Some ph | _ => unless_at_once ph end
  | NElect cur => on_election ph (NElect cur) (Err (Timeout EmptyString))
  | NAnnounce o => announce ph o
  | NRelinquish l => on_election ph (NRelinquish l) (Ok tt)
  | _ => unless_at_once ph
  end.

Definition leadership_protocol (ph : election_phase) (x : nobs) : option election_phase :=
  match x with Answered c r => on_election ph c r | Dropped c => on_election_drop ph c end.

(** ** No run fails it *)

Notation safe := (safe leadership_protocol).
Notation anywhere := (fun _ : election_phase => True).

Lemma elect_call {A} c (k : nanswer c -> nprog A) ph Q :
  is_Some (on_election_drop ph c) -> (forall r, exists ph', on_election ph c r = Some ph' /\ safe (k r) ph' anywhere Q) ->
  safe (ncall_of c ≫= k) ph anywhere Q.
Proof.
  intros [pd Hd] Hk. apply safe_call; [done|by exists pd|]. intros r. destruct (Hk r) as (ph' & Ha & Hs). by exists ph'.
Qed.

Lemma elect_last c ph (Q : nanswer c -> election_phase -> Prop) :
  is_Some (on_election_drop ph c) -> (forall r, exists ph', on_election ph c r = Some ph' /\ Q r ph') -> safe (ncall_of c) ph anywhere Q.
Proof.
  intros [pd Hd] Hk. apply safe_call; [done|by exists pd|]. intros r. destruct (Hk r) as (ph' & Ha & Hq).
  exists ph'. split; [done|by apply safe_ret].
Qed.

Lemma elect_wait d cur started :
  safe (node_wait_or_shutdown d) (Requesting cur started) anywhere (fun _ ph => ph = Requesting cur started).
Proof.
  apply safe_steady; [|done..]. apply makes_race; [| |intros; apply makes_ret].
  - apply (makes_call (answer := nanswer)); [done|]. intros. split; [done|apply makes_ret].
  - apply (makes_call (answer := nanswer)); [done|]. intros gone. split; [done|]. destruct gone; [apply makes_ret|].
    apply (makes_call (answer := nanswer) _ NShutdownRequested Ret); [done|]. intros. split; [done|apply makes_ret].
Qed.

(** The lease after a turn, and that the monitor knows it. *)
Definition turn_over (r : option LeaderLease * bool) (ph : election_phase) : Prop :=
  ph = Between r.1 \/ exists started, ph = Requesting r.1 started.

Lemma wait_for_safe request_started cur cur' interval :
  safe (wait ← interval_remaining request_started interval; stop ← node_wait_or_shutdown wait; mret (cur', stop))
    (Between cur) anywhere (fun r ph => r.1 = cur' /\ exists started, ph = Requesting cur started).
Proof.
  apply safe_bind. apply elect_call; [done|]. intros t. eexists. split; [done|]. apply safe_ret.
  apply safe_bind. eapply safe_mono; [apply elect_wait|done|]. intros stop ph ->. apply safe_ret. split; [done|by eexists].
Qed.

Lemma wait_over request_started cur interval :
  safe (wait ← interval_remaining request_started interval; stop ← node_wait_or_shutdown wait; mret (cur, stop))
    (Between cur) anywhere turn_over.
Proof.
  eapply safe_mono; [apply wait_for_safe|done|]. intros [cur' stop] ph [Hc [started ->]]. simpl in Hc. subst. right. by exists started.
Qed.

Lemma announce_lease_safe l started :
  safe (announce_lease renew_interval l started) (Granted l started) anywhere (fun _ ph => ph = Between (Some l)).
Proof.
  apply elect_call; [done|]. intros t. exists (Timed l started t). split; [done|]. cbv beta zeta.
  destruct (t <? valid_until (ObservedLeaderLease_new l renew_interval started)) eqn:Et.
  - assert (announce (Timed l started t) (Some (ObservedLeaderLease_new l renew_interval started)) = Some (Between (Some l))) as Ha
      by (unfold announce; by rewrite bool_decide_true, Et).
    apply (elect_last (NAnnounce (Some _))); [by eexists|]. intros []. by eexists.
  - assert (announce (Timed l started t) None = Some (Between (Some l))) as Ha by (unfold announce; by rewrite Et).
    apply (elect_last (NAnnounce None)); [by eexists|]. intros []. by eexists.
Qed.

Lemma election_turn_safe cur ph :
  turn_over (cur, false) ph -> safe (election_turn renew_interval cur) ph anywhere turn_over.
Proof.
  intros Hph. assert (unless_at_once ph = Some ph) as Hu by (by destruct Hph as [->|[started ->]]).
  apply elect_call; [by eexists|]. intros stop. exists ph. split; [done|].
  destruct stop; [by apply safe_ret|]. apply elect_call; [by destruct Hph as [->|[started ->]]; eexists|]. intros t.
  exists (Requesting cur t). split; [by destruct Hph as [->|[started ->]]|].
  apply elect_call; [simpl; by rewrite bool_decide_true|]. intros r. eexists. split; [simpl; by rewrite bool_decide_true|].
  destruct r as [[l|l|retry_after]|e].
  1, 2: apply safe_bind; eapply safe_mono; [apply announce_lease_safe|done|]; intros [] ph' ->; apply wait_over.
  1, 2: apply elect_call; [done|]; intros []; eexists; (split; [done|]); apply wait_over.
Qed.

Lemma election_turns_safe fuel cur ph :
  turn_over (cur, false) ph -> safe (election_turns renew_interval fuel cur) ph anywhere (fun cur' ph' => turn_over (cur', true) ph').
Proof.
  revert cur ph. induction fuel as [|fuel IH]; intros cur ph Hph.
  { apply safe_call; [done|by destruct Hph as [->|[started ->]]; eexists|]. intros []. }
  cbn [election_turns]. apply safe_bind. eapply safe_mono; [by apply election_turn_safe|done|].
  intros [cur' []] ph' Ht; [by apply safe_ret|by apply IH].
Qed.

Lemma quiesce_safe cur :
  safe (select (ncall_of NAwaitScheduler) (ncall_of (NSleep (duration_saturating_mul renew_interval 2)))) (Withdrawn cur) anywhere
    (fun _ ph => ph = Quiesced cur).
Proof.
  intros tr o (t1 & t2 & t & Hi & Hr).
  assert (forall c : ncall M, forall u x, runs (ncall_of c) u x -> u = [] /\ x = None \/ u = [Dropped c] /\ x = None \/ exists r, u = [Answered c r] /\ x = Some r) as Hc.
  { intros c u x [[-> ->]|[[-> ->]|(r & u' & -> & [-> ->])]]; [by left|by right; left|right; right; by exists r]. }
  assert (leadership_protocol (Withdrawn cur) (Answered (NSleep (duration_saturating_mul renew_interval 2)) tt) = Some (Quiesced cur)) as Hsl
    by (simpl; by rewrite Z.eqb_refl).
  destruct Hr as [(H1 & H2 & -> & ->)|(b & tr' & [-> ->] & -> & [[H1 H2]|[H1 H2]])];
    apply (Hc NAwaitScheduler) in H1 as [[-> ?]|[[-> ?]|([] & -> & ?)]]; try done;
    apply (Hc (NSleep _)) in H2 as [[-> ?]|[[-> ?]|([] & -> & ?)]]; try done;
    repeat (match goal with H : interleaves _ _ _ |- _ => inversion H; clear H; subst end); cbn [app watch];
    change (leadership_protocol (Withdrawn cur) (Dropped NAwaitScheduler)) with (Some (Withdrawn cur)); cbn [mbind option_bind];
    rewrite ?Hsl; eexists; done.
Qed.

Lemma election_safe fuel : safe (leader_election_loop renew_interval fuel) (Between None) anywhere (fun _ _ => True).
Proof.
  apply safe_bind. eapply safe_mono; [apply election_turns_safe; by left|done|]. intros cur ph Ht.
  apply elect_call; [by destruct Ht as [->|[started ->]]|]. intros []. exists (Withdrawn cur).
  split; [by destruct Ht as [->|[started ->]]|]. apply safe_bind. eapply safe_mono; [apply quiesce_safe|done|].
  intros [] ph' ->. destruct cur as [l|]; [|by apply safe_ret].
  apply elect_call; [simpl; by rewrite bool_decide_true|]. intros r. eexists. split; [simpl; by rewrite bool_decide_true|by apply safe_ret].
Qed.

(** *** What was announced was granted *)

Definition granted (tr : list nobs) l : Prop :=
  exists cur, Answered (NElect cur) (Ok (LeaderAcquired l)) ∈ tr \/ Answered (NElect cur) (Ok (LeaderRenewed l)) ∈ tr.

Definition announces (o : ObservedLeaderLease) (x : nobs) : Prop :=
  x = Answered (NAnnounce (Some o)) tt \/ x = Dropped (NAnnounce (Some o)).

Lemma granted_more tr x l : granted tr l -> granted (tr ++ [x]) l.
Proof. intros [cur Hg]. exists cur. set_solver. Qed.

Lemma watch_granted tr ph :
  watch leadership_protocol (Between None) tr = Some ph ->
  match ph with Granted l _ | Timed l _ _ => granted tr l | _ => True end.
Proof.
  revert ph. induction tr as [|x tr IH] using rev_ind; intros ph Hw; [by injection Hw as <-|].
  rewrite watch_app in Hw. apply bind_Some in Hw as (ph0 & Hw & Hx). apply IH in Hw. clear IH.
  apply bind_Some in Hx as (ph1 & Hx & [= <-]). destruct x as [c r|c]; destruct c; simpl in Hx; unfold announce in Hx;
    repeat case_match; simplify_eq; try done; try (by apply granted_more);
    match goal with |- context [NElect ?c] => exists c end; set_solver.
Qed.

Lemma announced_was_granted tr x o :
  is_Some (watch leadership_protocol (Between None) (tr ++ [x])) -> announces o x -> granted tr (observed_lease o).
Proof.
  intros [ph Hw] Hx. rewrite watch_app in Hw. apply bind_Some in Hw as (ph0 & Hw & Hs). apply watch_granted in Hw.
  assert (is_Some (announce ph0 (Some o))) as [ph' Ha].
  { apply bind_Some in Hs as (ph1 & Hs & _). destruct Hx as [-> | ->]; by eexists. }
  unfold announce in Ha. destruct ph0 as [| | |l started now| | | |]; try done.
  destruct (_ && _) eqn:Eb; [|done]. bool_hyps. by subst.
Qed.

(** C15: the election follows the leadership protocol in every run. What its last
    request was answered is acted on before it makes any other call. When it was
    granted a lease, it reads the clock and announces that lease, with a deadline
    counted from before the request was sent and one renewal interval short of its
    TTL, while that deadline lies ahead, and withdraws its announcement when it
    does not; when it was denied the lease, or got an error, it withdraws its
    announcement at once. It gives back only the lease it holds, after it has
    withdrawn it and the scheduler has stopped or had two renewal intervals to do
    so. *)
Theorem election_follows_leadership_protocol fuel tr o
    (Hrun : runs (leader_election_loop renew_interval fuel) tr o) :
  is_Some (watch leadership_protocol (Between None) tr).
Proof.
  destruct (election_safe fuel tr o Hrun) as (ph & -> & _). by eexists.
Qed.
End protocol.

(** ** A term of leadership *)

Section sample.
#[local] Arguments runs : simpl never.
Context {M : Type}.
Notation nanswer := (nanswer (M := M)).

Definition term_lease : LeaderLease := mkLeader "lock" "node" "token" 1 10000 (from_secs 10).

Definition term_calls (started : Z) : list (obs nanswer) :=
  [Answered NShutdownRequested false; Answered NNow started; Answered (NElect None) (Ok (LeaderAcquired term_lease));
   Answered NNow started; Answered (NAnnounce (Some (ObservedLeaderLease_new term_lease (from_secs 3) started))) tt;
   Answered NNow started; Answered (NSleep (from_secs 3)) tt;
   Answered NShutdownRequested true; Answered (NAnnounce None) tt; Answered NAwaitScheduler tt;
   Answered (NRelinquish term_lease) (Ok tt)].

Lemma term_runs n : runs (leader_election_loop (from_secs 3) (S (S n))) (term_calls 5) (Some tt).
Proof.
  unfold leader_election_loop, term_calls. apply (runs_then _ _ (Some term_lease)
    [Answered NShutdownRequested false; Answered NNow 5; Answered (NElect None) (Ok (LeaderAcquired term_lease)); Answered NNow 5;
     Answered (NAnnounce (Some (ObservedLeaderLease_new term_lease (from_secs 3) 5))) tt; Answered NNow 5;
     Answered (NSleep (from_secs 3)) tt; Answered NShutdownRequested true]).
  - cbn [election_turns]. do 6 (apply (runs_answer (answer := nanswer)); simpl).
    apply (runs_first _ _ _ false [Answered (NSleep (from_secs 3)) tt]); [by apply (runs_answer (answer := nanswer))|by left|].
    by apply (runs_answer (answer := nanswer)).
  - apply (runs_answer (answer := nanswer)).
    apply (runs_first _ _ _ tt [Answered NAwaitScheduler tt]); [by apply (runs_answer (answer := nanswer))|by left|].
    by apply (runs_answer (answer := nanswer)).
Qed.

End sample.

Lemma election_follows_leadership_protocol_witness :
  is_Some (watch (leadership_protocol (M := unit) (from_secs 3)) (Between None) (term_calls 5)).
Proof. exact (election_follows_leadership_protocol (from_secs 3) 2 (term_calls 5) (Some tt) (term_runs 0)). Defined.
