(* ===== verification/NodeRun.v ===== *)
(** * A node

    [PulseNode::run] of [src/src/application/service.rs]: the election, the scheduler,
    the consumer pump and the worker as tasks of one node, beside a task that
    passes the process's shutdown on to them. A task that ends, or panics, makes
    the node shut the others down. The calls of the four loops are those of
    [Node] and [Worker], tagged with the task that makes them; the channels between
    the tasks are assumptions on the order of those calls, where a theorem needs
    them. *)

From S2P Require Import Prelude RustStr F64 Contracts Domain Planning Aggregation Coordination Metrics Effects Runner Worker WorkerProtocol Node SchedulerProtocol ElectionProtocol.

Inductive node_task := TaskElection | TaskScheduler | TaskPump | TaskWorker.

Section node_run.
Context {M W H : Type} `{EqDecision M} `{CommitableJob M} `{LatencyHistogramLaws H}.
Notation nanswer := (nanswer (M := M)).
Notation wanswer := (wanswer (M := M) (W := W) (H := H)).

(** ** The pump *)

(** The record received and not yet handed to the worker's queue. *)
Definition pump_protocol (held : option M) (x : obs nanswer) : option (option M) :=
  match x with
  | Answered NReceive r =>
      match r : result string (option M), held with
      | Ok (Some record), None => Some (Some record)
      | Ok (Some _), Some _ => None
      | _, _ => Some held
      end
  | Answered (NForward record) _ | Dropped (NForward record) => if bool_decide (held = Some record) then Some None else None
  | _ => Some held
  end.

Definition pumped_of (x : obs nanswer) : option M :=
  match x with Answered NReceive r => match r : result string (option M) with Ok (Some record) => Some record | _ => None end | _ => None end.
Definition forwarded_of (x : obs nanswer) : option M :=
  match x with Answered (NForward record) _ | Dropped (NForward record) => Some record | _ => None end.
Definition pumped (tr : list (obs nanswer)) : list M := omap pumped_of tr.
Definition forwarded (tr : list (obs nanswer)) : list M := omap forwarded_of tr.

Lemma watch_pumped tr held : watch pump_protocol None tr = Some held -> pumped tr = forwarded tr ++ option_list held.
Proof.
  revert held. induction tr as [|x tr IH] using rev_ind; intros held Hw; [by injection Hw as <-|].
  rewrite watch_app in Hw. apply bind_Some in Hw as (held0 & Hw & Hx). apply IH in Hw. clear IH.
  apply bind_Some in Hx as (held1 & Hx & [= <-]). unfold pumped, forwarded in *. rewrite !omap_app, Hw.
  destruct x as [c r|c]; destruct c; simpl in Hx |- *; repeat case_match; simplify_eq/=; rewrite ?app_nil_r; try done; by bool_hyps; subst.
Qed.

Definition pump_plain (c : ncall M) : bool := match c with NReceive | NForward _ => false | _ => true end.

Lemma pump_quiet {A} c (k : nanswer c -> prog nanswer A) :
  pump_plain c = true -> (forall r, quiet pump_protocol (k r)) -> quiet pump_protocol (Call c k).
Proof. intros Hc Hk. apply quiet_call; [by destruct c|]. intros r. split; [by destruct c|done]. Qed.

Notation anything := (fun _ : option M => True).

Lemma pump_wait_quiet d : quiet pump_protocol (node_wait_or_shutdown d).
Proof.
  apply quiet_race; [apply pump_quiet; [done|]; intros; apply quiet_ret| |intros; apply quiet_ret].
  apply pump_quiet; [done|]. intros []; [apply quiet_ret|]. apply (pump_quiet NShutdownRequested Ret); [done|]. intros. apply quiet_ret.
Qed.

Lemma pump_receive_safe :
  safe pump_protocol (select (r ← ncall_of NReceive; mret (Some r)) (ncall_of NShutdownChanged;; mret None)) None anything
    (fun received held => held = match received with Some (Ok (Some record)) => Some record | _ => None end).
Proof.
  apply safe_race; [apply pump_quiet; [done|]; intros; apply quiet_ret|].
  assert (forall b, (exists tr, runs (ncall_of NShutdownChanged;; mret None : prog nanswer (option (result string (option M)))) tr (Some b)) ->
    b = None) as Hb.
  { intros b [tr Hr]. by apply runs_call_of in Hr as (? & ? & _ & [= ->]). }
  apply safe_call.
  - split; [done|]. intros b ->%Hb. by apply safe_ret.
  - exists None. split; [done|]. split; [done|]. intros b ->%Hb. by apply safe_ret.
  - intros r. exists (match r : result string (option M) with Ok o => o | Err _ => None end).
    split; [by destruct r as [[]|]|]. apply safe_ret, safe_ret. by destruct r as [[]|].
Qed.

Lemma pump_turn_safe fuel : safe pump_protocol (pump_turn fuel) None anything (fun _ held => held = None).
Proof.
  unfold pump_turn. apply safe_call; [done|by eexists|]. intros stop. exists None. split; [done|].
  destruct stop; [by apply safe_ret|]. apply safe_bind, safe_quiet; [|done|].
  - apply quiet_race; [apply pump_quiet; [done|]; intros; apply quiet_ret|apply pump_quiet; [done|]; intros; apply quiet_ret|].
    intros. apply quiet_ret.
  - intros [[]|]; [|by apply safe_ret..]. apply safe_bind. eapply safe_mono; [apply pump_receive_safe|done|].
    intros [[[record|]|e]|] held ->; [|by apply safe_ret| |by apply safe_ret].
    + apply safe_call; [done|exists None; split; [simpl; by rewrite bool_decide_true|done]|]. intros [].
      exists None. split; [simpl; by rewrite bool_decide_true|by apply safe_ret].
    + apply safe_quiet; [|done..]. apply quiet_bind; [apply pump_wait_quiet|]. intros. apply quiet_ret.
Qed.

Lemma pump_safe fuel : safe pump_protocol (consumer_pump fuel) None anything (fun _ _ => True).
Proof.
  unfold consumer_pump. induction fuel as [|fuel IH]; [apply safe_call; [done|by eexists|]; intros []|].
  cbn [loop]. apply safe_bind. eapply safe_mono; [apply pump_turn_safe|done|]. intros [[]|] held ->; [by apply safe_ret|exact IH].
Qed.

(** ** Calls *)

Inductive pcall :=
| PElection (c : ncall M)
| PScheduler (c : ncall M)
| PPump (c : ncall M)
| PWorker (c : wcall M W)
| PExternalShutdown
| PExternalChanged
| PChannels (shutdown : bool) (queue_capacity : Z)
| PShutdown
| PSendShutdown
| PJoinError (task : node_task)
| PForever.

(** [PExternalChanged] answers whether the sender is gone; [PJoinError] that the
    task panicked. *)
Definition panswer (c : pcall) : Type :=
  match c with
  | PElection c | PScheduler c | PPump c => nanswer c
  | PWorker c => wanswer c
  | PExternalShutdown | PExternalChanged | PShutdown => bool
  | PChannels _ _ | PSendShutdown => unit
  | PJoinError _ => string
  | PForever => Empty_set
  end.

Notation pprog := (prog panswer).
Notation pobs := (obs panswer).

Definition pcall_of (c : pcall) : pprog (panswer c) := Call c Ret.

(** ** The node *)

Section run.
Variable config : NodeRuntimeConfig.
Variable plans : list (ScenarioExecutionPlan W).
(** The order in which the map of the plans yields them. *)
Variable iteration : gmap string (ScenarioExecutionPlan W) -> list (string * ScenarioExecutionPlan W).

(** The process's shutdown, once it is requested. *)
Fixpoint shutdown_forwarder (fuel : nat) : pprog unit :=
  match fuel with
  | O => Call PForever (fun r : Empty_set => match r with end)
  | S fuel' =>
      gone ← pcall_of PExternalChanged;
      if gone : bool then mret tt else
      requested ← pcall_of PExternalShutdown;
      if requested : bool then pcall_of PSendShutdown else shutdown_forwarder fuel'
  end.

(** A task of the set, and what the node does when it is joined. *)
Definition supervised (task : node_task) (body : pprog unit) : pprog unit :=
  select body (pcall_of (PJoinError task);; mret tt);;
  stopping ← pcall_of PShutdown;
  if stopping : bool then mret tt else pcall_of PSendShutdown.

Definition election_task (fuel : nat) : pprog unit :=
  interp (pass (answer2 := panswer) PElection (fun _ r => r)) (leader_election_loop (leader_renew_interval config) fuel).

Definition scheduler_task (fuel : nat) : pprog unit :=
  interp (pass (answer2 := panswer) PScheduler (fun _ r => r))
    (scheduler_loop (worker_max_retries config) (node_startup_burst config) (scheduler_tick_interval config)
       (iteration (node_plans plans)) fuel).

Definition pump_task (fuel : nat) : pprog unit :=
  interp (pass (answer2 := panswer) PPump (fun _ r => r)) (consumer_pump fuel).

Definition worker_task (fuel : nat) : pprog unit :=
  interp (pass (answer2 := panswer) PWorker (fun _ r => r)) (worker_loop config (node_plans plans) fuel).

Definition node_tasks (fuel : nat) : list (pprog unit) :=
  [supervised TaskElection (election_task fuel); supervised TaskScheduler (scheduler_task fuel);
   supervised TaskPump (pump_task fuel); supervised TaskWorker (worker_task fuel)].

(** The forwarder runs beside the tasks and is aborted when all have ended. *)
Definition node_run (fuel : nat) : pprog unit :=
  requested ← pcall_of PExternalShutdown;
  pcall_of (PChannels requested (Z.max (worker_queue_capacity config) 1));;
  select (join_all (node_tasks fuel);; mret tt)
         (shutdown_forwarder fuel;; Call PForever (fun r : Empty_set => match r with end)).

(** ** What a task sees *)

Definition seen_election (x : pobs) : option (obs nanswer) :=
  match x with Answered (PElection c) r => Some (Answered c r) | Dropped (PElection c) => Some (Dropped c) | _ => None end.
Definition seen_scheduler (x : pobs) : option (obs nanswer) :=
  match x with Answered (PScheduler c) r => Some (Answered c r) | Dropped (PScheduler c) => Some (Dropped c) | _ => None end.
Definition seen_pump (x : pobs) : option (obs nanswer) :=
  match x with Answered (PPump c) r => Some (Answered c r) | Dropped (PPump c) => Some (Dropped c) | _ => None end.
Definition seen_worker (x : pobs) : option (obs wanswer) :=
  match x with Answered (PWorker c) r => Some (Answered c r) | Dropped (PWorker c) => Some (Dropped c) | _ => None end.

(** The calls of the node itself. *)
Definition own_call (c : pcall) : bool :=
  match c with PElection _ | PScheduler _ | PPump _ | PWorker _ => false | _ => true end.

Section seen.
Context {call1 : Type} {answer1 : call1 -> Type} (view : pobs -> option (obs answer1)).
Hypothesis own_unseen : forall c, own_call c = true -> view (Dropped c) = None /\ forall r, view (Answered c r) = None.

Lemma unseen_own {A} c (k : panswer c -> pprog A) : own_call c = true -> (forall r, unseen view (k r)) -> unseen view (Call c k).
Proof. intros Hc Hk. destruct (own_unseen c Hc). apply unseen_call; auto. Qed.

Lemma forwarder_unseen fuel : unseen view (shutdown_forwarder fuel).
Proof.
  induction fuel as [|fuel IH]; [apply unseen_own; [done|]; intros []|].
  apply unseen_own; [done|]. intros []; [apply unseen_ret|]. apply unseen_own; [done|]. intros []; [|done].
  apply (unseen_own PSendShutdown Ret); [done|]. intros. apply unseen_ret.
Qed.

Lemma joined_unseen : unseen view (stopping ← pcall_of PShutdown; if stopping : bool then mret tt else pcall_of PSendShutdown).
Proof.
  apply unseen_own; [done|]. intros []; [apply unseen_ret|]. apply (unseen_own PSendShutdown Ret); [done|]. intros. apply unseen_ret.
Qed.

Lemma panicked_unseen task : unseen view (pcall_of (PJoinError task);; mret tt).
Proof. apply unseen_own; [done|]. intros. apply unseen_ret. Qed.

Lemma supervised_unseen task body : unseen view body -> unseen view (supervised task body).
Proof.
  intros Hb. apply unseen_bind; [|intros; apply joined_unseen].
  apply unseen_race; [done|apply panicked_unseen|]. intros. apply unseen_ret.
Qed.

Lemma supervised_shows {A} (p : prog answer1 A) task body : shows view p body -> shows view p (supervised task body).
Proof.
  intros Hb. apply shows_bind; [|intros; apply joined_unseen].
  apply shows_race; [done|apply panicked_unseen|]. intros. apply unseen_ret.
Qed.

(** A task of which the others show nothing. *)
Lemma node_run_shows {A} (p : prog answer1 A) fuel before task after :
  runs p [] None -> node_tasks fuel = before ++ task :: after ->
  Forall (unseen view) before -> shows view p task -> Forall (unseen view) after -> shows view p (node_run fuel).
Proof.
  intros Hp E Hb Ht Ha. unfold node_run. apply shows_call; [done|by apply own_unseen|]. intros requested. split; [by apply own_unseen|].
  apply shows_call; [done|by apply own_unseen|]. intros []. split; [by apply own_unseen|].
  apply shows_race; [|apply unseen_bind; [apply forwarder_unseen|intros; apply unseen_own; [done|]; intros []]|intros; apply unseen_ret].
  apply shows_bind; [|intros; apply unseen_ret]. rewrite E. by apply shows_join_all.
Qed.
End seen.

Lemma pass_shows {call1 : Type} {answer1 : call1 -> Type} (view : pobs -> option (obs answer1))
    (wrap : call1 -> pcall) (unwrap : forall c, panswer (wrap c) -> answer1 c) {A} (p : prog answer1 A) :
  (forall c r, view (Answered (wrap c) r) = Some (Answered c (unwrap c r))) -> (forall c, view (Dropped (wrap c)) = Some (Dropped c)) ->
  shows view p (interp (pass (answer2 := panswer) wrap unwrap) p).
Proof. intros Ha Hd tr o Hr. exists o. by eapply runs_interp_pass. Qed.

Lemma pass_unseen {call0 call1 : Type} {answer0 : call0 -> Type} {answer1 : call1 -> Type} (view : pobs -> option (obs answer1))
    (wrap : call0 -> pcall) (unwrap : forall c, panswer (wrap c) -> answer0 c) {A} (p : prog answer0 A) :
  (forall c, view (Dropped (wrap c)) = None) -> (forall c r, view (Answered (wrap c) r) = None) ->
  unseen view (interp (pass (answer2 := panswer) wrap unwrap) p).
Proof. intros Hd Ha. apply unseen_interp. intros c. apply unseen_call; [done|]. intros r. split; [done|apply unseen_ret]. Qed.

Lemma election_idle fuel : runs (leader_election_loop (M := M) (leader_renew_interval config) fuel) [] None.
Proof. destruct fuel; by left. Qed.
Lemma scheduler_idle fuel retries burst tick order : runs (scheduler_loop (M := M) (W := W) retries burst tick order fuel) [] None.
Proof. destruct fuel; by left. Qed.
Lemma pump_idle fuel : runs (consumer_pump (M := M) fuel) [] None.
Proof. destruct fuel; by left. Qed.
Lemma worker_idle fuel : runs (worker_loop (H := H) config (node_plans plans) fuel) [] None.
Proof. destruct fuel; by left. Qed.

Ltac others := repeat (constructor; [apply supervised_unseen; [by intros []|by apply pass_unseen]|]); constructor.
Ltac node_part view idle before :=
  eapply (node_run_shows view ltac:(by intros []) _ _ before _ _ idle eq_refl);
  [others|apply supervised_shows; [by intros []|by apply pass_shows]|others].

Lemma node_shows_election fuel : shows seen_election (leader_election_loop (leader_renew_interval config) fuel) (node_run fuel).
Proof. node_part seen_election (election_idle fuel) (@nil (pprog unit)). Qed.

Lemma node_shows_scheduler fuel :
  shows seen_scheduler (scheduler_loop (worker_max_retries config) (node_startup_burst config) (scheduler_tick_interval config)
    (iteration (node_plans plans)) fuel) (node_run fuel).
Proof.
  node_part seen_scheduler (scheduler_idle fuel (worker_max_retries config) (node_startup_burst config) (scheduler_tick_interval config)
    (iteration (node_plans plans))) [supervised TaskElection (election_task fuel)].
Qed.

Lemma node_shows_pump fuel : shows seen_pump (consumer_pump fuel) (node_run fuel).
Proof.
  node_part seen_pump (pump_idle fuel) [supervised TaskElection (election_task fuel); supervised TaskScheduler (scheduler_task fuel)].
Qed.

Lemma node_shows_worker fuel : shows seen_worker (worker_loop config (node_plans plans) fuel) (node_run fuel).
Proof.
  node_part seen_worker (worker_idle fuel) [supervised TaskElection (election_task fuel); supervised TaskScheduler (scheduler_task fuel);
    supervised TaskPump (pump_task fuel)].
Qed.

(** ** Properties *)

Hypothesis iteration_complete : forall m, iteration m ≡ₚ map_to_list m.
Hypothesis record_typed : forall record job, record_job record = Ok job ->
  in_range u32_max (job_attempt job) /\ in_range u32_max (job_max_retries job).

Lemma iteration_distinct m : NoDup (iteration m).*1.
Proof. rewrite iteration_complete. apply NoDup_fst_map_to_list. Qed.

Notation election_protocol := (leadership_protocol (leader_renew_interval config)).
Notation scheduler_protocol :=
  (dispatch_protocol (worker_max_retries config) (node_startup_burst config) (iteration (node_plans plans))).

Lemma node_election_safe fuel tr o :
  runs (node_run fuel) tr o -> is_Some (watch election_protocol (Between None) (omap seen_election tr)).
Proof. intros Hr. destruct (node_shows_election _ _ _ Hr) as [o' Hs]. by destruct (election_safe _ _ _ _ Hs) as (s & -> & _). Qed.

Lemma node_scheduler_safe fuel tr o :
  runs (node_run fuel) tr o -> is_Some (watch scheduler_protocol initial (omap seen_scheduler tr)).
Proof.
  intros Hr. destruct (node_shows_scheduler _ _ _ Hr) as [o' Hs].
  by destruct (scheduler_safe _ _ _ _ (iteration_distinct _) _ initial _ _ Hs) as (s & -> & _).
Qed.

Lemma node_pump_safe fuel tr o : runs (node_run fuel) tr o -> is_Some (watch pump_protocol None (omap seen_pump tr)).
Proof. intros Hr. destruct (node_shows_pump _ _ _ Hr) as [o' Hs]. by destruct (pump_safe _ _ _ Hs) as (s & -> & _). Qed.

Lemma node_worker_safe fuel tr o : runs (node_run fuel) tr o -> is_Some (watch (protocol config) Idle (omap seen_worker tr)).
Proof.
  intros Hr. destruct (node_shows_worker _ _ _ Hr) as [o' Hs].
  by destruct (worker_loop_safe _ _ record_typed _ _ _ Hs) as (s & -> & _).
Qed.

(** The node saw that it was shutting down, or said so. *)
Definition shutting_down (x : pobs) : Prop := x = Answered PShutdown true \/ x = Answered PSendShutdown tt.

Lemma supervised_stops task body tr : runs (supervised task body) tr (Some tt) -> exists x, x ∈ tr /\ shutting_down x.
Proof.
  intros Hr. apply runs_bind in Hr as [[_ [=]]|([] & t1 & t2 & _ & Hr & ->)].
  destruct Hr as [[_ [=]]|[[_ [=]]|(stopping & t & -> & Hr)]]. destruct stopping.
  - exists (Answered PShutdown true). split; [set_solver|by left].
  - destruct Hr as [[_ [=]]|[[_ [=]]|([] & t' & -> & _)]]. exists (Answered PSendShutdown tt). split; [set_solver|by right].
Qed.

(** The tasks of a node keep their protocols while they run together, whatever
    the interleaving, the environment and the task that panics: the election its
    leadership protocol, the scheduler its dispatch protocol, the worker its
    settlement protocol, and the pump hands every record it received to the
    worker's queue before it receives another. And the node returns only when it
    is shutting down, because it was told to or because one of its tasks ended. *)
Theorem node_follows_every_protocol fuel tr o (Hrun : runs (node_run fuel) tr o) :
  is_Some (watch election_protocol (Between None) (omap seen_election tr))
  /\ is_Some (watch scheduler_protocol initial (omap seen_scheduler tr))
  /\ is_Some (watch pump_protocol None (omap seen_pump tr))
  /\ is_Some (watch (protocol config) Idle (omap seen_worker tr))
  /\ (o = Some tt -> exists x, x ∈ tr /\ shutting_down x).
Proof.
  split; [by eapply node_election_safe|]. split; [by eapply node_scheduler_safe|].
  split; [by eapply node_pump_safe|]. split; [by eapply node_worker_safe|]. intros ->.
  destruct Hrun as [[_ [=]]|[[_ [=]]|(requested & t & -> & Hr)]]. destruct Hr as [[_ [=]]|[[_ [=]]|([] & t' & -> & Hr)]].
  destruct Hr as (t1 & t2 & t & Hi & [(_ & _ & _ & [=])|([] & tr' & [-> _] & -> & [[Ha _]|[_ Hb]])]).
  - apply runs_bind in Ha as [[_ [=]]|(l & u1 & u2 & Ha & _ & ->)].
    destruct Ha as (v1 & v2 & v & Hv & [(? & ? & _ & _ & _ & [=])|([] & c & v' & Ha & _ & _ & ->)]).
    apply supervised_stops in Ha as (x & Hx & Hs). exists x. split; [|done].
    apply interleaves_subseteq in Hv as [Hv _]. apply interleaves_subseteq in Hi as [Hi _]. set_solver.
  - apply runs_bind in Hb as [[_ [=]]|(l & u1 & u2 & _ & [[_ [=]]|[[_ [=]]|([] & _)]] & _)].
Qed.

(** *** The channel of the election *)

(** [watch]: what the scheduler reads is something the election announced before. *)
Definition announcements_only (tr : list pobs) : Prop :=
  forall before observed after, tr = before ++ Answered (PScheduler NLeader) (Some observed) :: after ->
  exists x, x ∈ omap seen_election before /\ announces observed x.

Definition lease_read (x : obs nanswer) : option ObservedLeaderLease :=
  match x with Answered NLeader r => r | _ => None end.

(** The scheduler dispatches only as a leader. Whenever it prepares a window,
    publishes the job of a slice or acknowledges a slice, the elector has before
    that granted this node a lease; and the lease under which it prepares or
    acknowledges has the owner and the fencing token of one so granted. *)
Theorem dispatch_needs_granted_lease fuel before x after o
    (Hrun : runs (node_run fuel) (before ++ x :: after) o)
    (Hchannel : announcements_only (before ++ x :: after))
    (Hacts : exists y l, seen_scheduler x = Some y /\ acts_under y l) :
  exists y l, seen_scheduler x = Some y /\ acts_under y l /\ granted (omap seen_election before) l.
Proof.
  destruct Hacts as (y & l0 & Hy & Hl0). exists y. pose proof (node_scheduler_safe _ _ _ Hrun) as Hs.
  rewrite omap_app in Hs. simpl in Hs. rewrite Hy in Hs. apply watch_prefix in Hs.
  destruct (acted_under_read_lease _ _ _ (iteration_distinct _) _ _ Hs) as (l & (observed & Ho & <-) & Hl); [by exists l0|].
  exists (observed_lease observed). split; [done|]. split; [done|].
  apply list_elem_of_omap in Ho as (z & Hz & Ez). apply list_elem_of_split in Hz as (b1 & b2 & ->).
  assert (z = Answered (PScheduler NLeader) (Some observed)) as ->.
  { destruct z as [c r|c]; destruct c as [|c| | | | | | | | |]; try done; destruct c; try done.
    apply (f_equal (fun z => z ≫= lease_read)) in Ez. simpl in *. by rewrite Ez. }
  destruct (Hchannel b1 observed (b2 ++ x :: after)) as (z & Hz & Ha); [by rewrite <- app_assoc|].
  apply list_elem_of_split in Hz as (e1 & e2 & Ee).
  pose proof (node_election_safe _ _ _ Hrun) as He. rewrite omap_app, omap_app, Ee in He. rewrite omap_app, Ee. rewrite <- !app_assoc in He. apply watch_prefix in He.
  destruct (announced_was_granted _ _ _ _ He Ha) as [cur Hg]. exists cur. rewrite !elem_of_app. tauto.
Qed.

(** *** The queue of the worker *)

(** [mpsc]: the worker receives what the pump forwarded, in that order. *)
Definition queue_in_order (tr : list pobs) : Prop :=
  forall before after, tr = before ++ after ->
  received (omap seen_worker before) `prefix_of` forwarded (omap seen_pump before).

(** C17: a node commits the records of its consumer in the order in which it
    received them, none skipped: at every moment of every run the records whose
    commit was acknowledged are the first ones the consumer returned. *)
Theorem node_commits_in_order fuel before after o
    (Hrun : runs (node_run fuel) (before ++ after) o) (Hqueue : queue_in_order (before ++ after)) :
  committed (omap seen_worker before) `prefix_of` pumped (omap seen_pump before).
Proof.
  destruct (node_worker_safe _ _ _ Hrun) as [s Hw]. destruct (node_pump_safe _ _ _ Hrun) as [held Hp].
  rewrite omap_app, watch_app in Hw. rewrite omap_app, watch_app in Hp. apply bind_Some in Hw as (s1 & Hw & _), Hp as (held1 & Hp & _).
  apply watch_in_order in Hw. apply watch_pumped in Hp. rewrite Hp. transitivity (received (omap seen_worker before)).
  - destruct s1; simpl in Hw; [by rewrite Hw|rewrite Hw; by eexists|destruct Hw as [m ->]; by eexists].
  - etransitivity; [by eapply Hqueue|by eexists].
Qed.
End run.
End node_run.

(** ** A sample node *)

(** One node leads and dispatches a slice, and settles a record that does not
    decode. *)
Section sample.
#[local] Existing Instance undecodable_record.
Notation nanswer := (nanswer (M := Z)).
Notation wanswer := (wanswer (M := Z) (W := unit) (H := kept_histogram)).
Notation panswer := (panswer (M := Z) (W := unit) (H := kept_histogram)).
Notation pobs := (obs panswer).

Definition by_election (x : obs nanswer) : pobs :=
  match x with Answered c r => Answered (PElection c : pcall) r | Dropped c => Dropped (PElection c) end.
Definition by_scheduler (x : obs nanswer) : pobs :=
  match x with Answered c r => Answered (PScheduler c : pcall) r | Dropped c => Dropped (PScheduler c) end.
Definition by_pump (x : obs nanswer) : pobs :=
  match x with Answered c r => Answered (PPump c : pcall) r | Dropped c => Dropped (PPump c) end.
Definition by_worker (x : obs wanswer) : pobs :=
  match x with Answered c r => Answered (PWorker c : pcall) r | Dropped c => Dropped (PWorker c) end.

Definition pump_calls : list (obs nanswer) :=
  [Answered NShutdownRequested false; Answered NReserve true; Answered NReceive (Ok (Some 7)); Answered (NForward 7) tt].

Lemma pump_runs n : runs (consumer_pump (S n)) pump_calls None.
Proof.
  unfold consumer_pump. cbn [loop]. apply (runs_answer (answer := nanswer)).
  apply (runs_first _ _ _ (Some true) [Answered NReserve true]); [by apply (runs_answer (answer := nanswer))|by left|].
  apply (runs_first _ _ _ (Some (Ok (Some 7))) [Answered NReceive (Ok (Some 7))]); [by apply (runs_answer (answer := nanswer))|by left|].
  apply (runs_answer (answer := nanswer)). destruct n; by left.
Qed.

Definition elected_calls : list (obs nanswer) :=
  [Answered NShutdownRequested false; Answered NNow 5; Answered (NElect None) (Ok (LeaderAcquired term_lease));
   Answered NNow 5; Answered (NAnnounce (Some sample_leader)) tt].

Lemma elected_runs n : runs (leader_election_loop (from_secs 3) (S n)) elected_calls None.
Proof.
  unfold leader_election_loop. cbn [election_turns]. apply runs_cut.
  do 5 (apply (runs_answer (answer := nanswer)); cbn -[runs]). by left.
Qed.

Lemma supervised_cut task (body : prog panswer unit) tr o : runs body tr o -> runs (supervised task body) tr None.
Proof.
  intros Hb. assert (runs (pcall_of (PJoinError task);; mret tt : prog panswer unit) [] None) as Hq by by left.
  destruct o as [[]|]; [|by apply runs_cut, runs_race_cut].
  rewrite <- (app_nil_r tr). eapply (runs_then _ _ tt); [|by left].
  rewrite <- (app_nil_r tr). by apply (runs_first _ _ _ tt tr []).
Qed.

Definition node_plan_order (m : gmap string (ScenarioExecutionPlan unit)) := map_to_list m.
Definition sample_config : NodeRuntimeConfig := NodeRuntimeConfig_default.
Definition opened : list pobs := [Answered (PExternalShutdown : pcall) false; Answered (PChannels false 64 : pcall) tt].
Definition led : list pobs := map by_election elected_calls.
Definition dispatched : list pobs := map by_scheduler (dispatch_calls sample_plan).
Definition ack_call : pobs := by_scheduler (Answered (NAck sample_window 0 (observed_lease sample_leader)) (Ok DispatchComplete)).
Definition taken : list pobs := map by_pump pump_calls.
Definition settled_calls : list pobs := map by_worker (poison_calls ++ poison_committed).

Lemma led_runs : runs (election_task sample_config 3) led None.
Proof. exact (runs_pass (answer2 := panswer) PElection (fun _ r => r) by_election (fun c r => ex_intro _ r (conj eq_refl eq_refl)) (fun _ => eq_refl) _ _ _ (elected_runs 2)). Qed.

Lemma dispatched_runs : runs (scheduler_task sample_config [sample_plan] map_to_list 3) (dispatched ++ [ack_call]) None.
Proof.
  assert (dispatched ++ [ack_call] = map by_scheduler (dispatch_calls sample_plan
    ++ [Answered (NAck sample_window 0 (observed_lease sample_leader)) (Ok DispatchComplete)])) as -> by (symmetry; apply map_app).
  exact (runs_pass (answer2 := panswer) PScheduler (fun _ r => r) by_scheduler (fun c r => ex_intro _ r (conj eq_refl eq_refl)) (fun _ => eq_refl)
    _ _ _ (dispatch_runs sample_plan 1 (scheduler_tick_interval sample_config) DispatchComplete)).
Qed.

Lemma taken_runs : runs (pump_task 3) taken None.
Proof. exact (runs_pass (answer2 := panswer) PPump (fun _ r => r) by_pump (fun c r => ex_intro _ r (conj eq_refl eq_refl)) (fun _ => eq_refl) _ _ _ (pump_runs 2)). Qed.

Lemma settled_runs : runs (worker_task sample_config [sample_plan] 3) settled_calls (Some tt).
Proof.
  apply (runs_pass (answer2 := panswer) PWorker (fun _ r => r) by_worker (fun c r => ex_intro _ r (conj eq_refl eq_refl)) (fun _ => eq_refl)).
  by apply poison_runs_with; vm_compute.
Qed.

Lemma sample_node_runs :
  runs (node_run sample_config [sample_plan] map_to_list 3)
    ((opened ++ led ++ dispatched) ++ ack_call :: taken ++ settled_calls) None.
Proof.
  unfold node_run. do 2 apply (runs_answer (answer := panswer)).
  apply runs_race_cut; [|by left]. apply runs_cut.
  change (runs (join_all (node_tasks sample_config [sample_plan] map_to_list 3)) ((led ++ dispatched) ++ ack_call :: taken ++ settled_calls) None).
  assert ((led ++ dispatched) ++ ack_call :: taken ++ settled_calls
    = led ++ (dispatched ++ [ack_call]) ++ taken ++ settled_calls ++ []) as -> by by rewrite app_nil_r, <- !app_assoc.
  unfold node_tasks. cbn [join_all].
  apply (runs_both_cut _ _ _ led _ None None); [exact (supervised_cut _ _ _ _ led_runs)|].
  apply (runs_both_cut _ _ _ (dispatched ++ [ack_call]) _ None None); [exact (supervised_cut _ _ _ _ dispatched_runs)|].
  apply (runs_both_cut _ _ _ taken _ None None); [exact (supervised_cut _ _ _ _ taken_runs)|].
  apply (runs_both_cut _ _ _ settled_calls _ None (Some [])); [exact (supervised_cut _ _ _ _ settled_runs)|done].
Qed.

Definition sample_calls : list pobs := (opened ++ led ++ dispatched) ++ ack_call :: taken ++ settled_calls.

Lemma node_follows_every_protocol_witness : is_Some (watch (protocol sample_config) Idle (omap seen_worker sample_calls)).
Proof.
  exact (proj1 (proj2 (proj2 (proj2 (node_follows_every_protocol sample_config [sample_plan] map_to_list
    (fun m => Permutation_refl _) undecodable_typed 3 sample_calls None sample_node_runs))))).
Defined.

(** Every read of the scheduler comes after the announcement of what it reads. *)
Lemma announced_first (announced rest : list pobs) observed :
  (exists x, x ∈ omap seen_election announced /\ announces observed x) ->
  Forall (fun x => seen_scheduler x ≫= lease_read = None) announced ->
  Forall (fun x => seen_scheduler x ≫= lease_read = None \/ seen_scheduler x ≫= lease_read = Some observed) rest ->
  announcements_only (announced ++ rest).
Proof.
  intros (x & Hx & Ha) Hn Hr before o after E. apply app_eq_app in E as (l & [[-> E]|[-> E]]).
  - rewrite Forall_app in Hn. destruct l as [|y l].
    + simpl in E. subst rest. apply Forall_cons in Hr as [[Hr|Hr] _]; simpl in Hr; [done|]. injection Hr as ->.
      exists x. by rewrite app_nil_r in *.
    + injection E as <- _. destruct Hn as [_ [Hn _]%Forall_cons]. done.
  - subst rest. apply Forall_app in Hr as [_ [[Hr|Hr] _]%Forall_cons]; [done|]. injection Hr as ->.
    exists x. split; [|done]. rewrite omap_app. apply elem_of_app. by left.
Qed.

Lemma dispatch_needs_granted_lease_witness :
  exists y l, seen_scheduler ack_call = Some y /\ acts_under y l /\ granted (omap seen_election (opened ++ led ++ dispatched)) l.
Proof.
  apply (dispatch_needs_granted_lease sample_config [sample_plan] map_to_list (fun m => Permutation_refl _) 3
    (opened ++ led ++ dispatched) ack_call (taken ++ settled_calls) None sample_node_runs).
  - change ((opened ++ led ++ dispatched) ++ ack_call :: taken ++ settled_calls)
      with ((opened ++ led) ++ (dispatched ++ ack_call :: taken ++ settled_calls)).
    apply (announced_first _ _ sample_leader).
    + exists (Answered (NAnnounce (Some sample_leader)) tt). split; [|by left]. simpl. set_solver.
    + repeat (constructor; [done|]). constructor.
    + repeat (constructor; [first [by left|by right]|]). constructor.
  - eexists _, (observed_lease sample_leader). split; reflexivity.
Defined.

(** Every receipt of the worker comes after all that the pump forwards. *)
Lemma forwarded_first (a b : list pobs) :
  received (omap seen_worker a) = [] -> forwarded (omap seen_pump b) = [] ->
  received (omap seen_worker b) `prefix_of` forwarded (omap seen_pump a) -> queue_in_order (a ++ b).
Proof.
  intros Ha Hb Hp before after E. unfold received, forwarded in *. apply app_eq_app in E as (l & [[-> ->]|[-> ->]]).
  - rewrite !omap_app in Ha. apply app_eq_nil in Ha as [-> _]. apply prefix_nil.
  - rewrite !omap_app in Hb. apply app_eq_nil in Hb as [Hl _].
    rewrite (omap_app seen_worker), (omap_app seen_pump), !omap_app, Ha, Hl, app_nil_r.
    etransitivity; [|exact Hp]. rewrite !omap_app. apply prefix_app_r. done.
Qed.

Lemma node_commits_in_order_witness :
  committed (omap seen_worker sample_calls) = [7] /\ committed (omap seen_worker sample_calls) `prefix_of` pumped (omap seen_pump sample_calls).
Proof.
  split; [reflexivity|].
  assert (runs (node_run sample_config [sample_plan] map_to_list 3) (sample_calls ++ []) None) as Hr
    by (rewrite app_nil_r; exact sample_node_runs).
  apply (node_commits_in_order sample_config [sample_plan] map_to_list undecodable_typed 3 sample_calls [] None Hr).
  change (sample_calls ++ []) with (((opened ++ led ++ dispatched) ++ ack_call :: taken) ++ settled_calls).
  apply forwarded_first; reflexivity.
Defined.
End sample.
