(* ===== verification/Health.v ===== *)
(** * Health

    The shared health state of [src/src/infrastructure/metrics/mod.rs] and the answer
    of the readiness endpoint. Each flag is an atomic of its own: a setter stores
    one, [begin_draining] stores two, one after the other, and a snapshot loads the
    eight in order, so that stores of other tasks may come between its loads. *)

From S2P Require Import Prelude RustStr.

Inductive health_field :=
| ConfigLoaded
| RedisReady
| KafkaTopicsReady
| KafkaProducersReady
| KafkaConsumerReady
| ScenariosInitialized
| WorkerAccepting
| Draining.

#[global] Instance health_field_eq_dec : EqDecision health_field.
Proof. solve_decision. Defined.

(** The flags, also as a snapshot holds them. *)
Definition HealthState : Type := health_field -> bool.

Definition HealthState_new : HealthState := fun _ => false.

(** The setters. *)
Definition health_set (field : health_field) (ready : bool) (health : HealthState) : HealthState :=
  fun f => if decide (f = field) then ready else health f.

(** The stores of [begin_draining], in order. *)
Definition begin_draining : list (health_field * bool) := [(WorkerAccepting, false); (Draining, true)].

(** A snapshot, of the states in which the eight loads find the flags. *)
Definition snapshot (at_load : health_field -> HealthState) : HealthState := fun field => at_load field field.

(** In the order the endpoint names them. *)
Definition prerequisites : list (string * health_field) :=
  [("config", ConfigLoaded); ("redis", RedisReady); ("kafka_topics", KafkaTopicsReady); ("kafka_producers", KafkaProducersReady);
   ("kafka_consumer", KafkaConsumerReady); ("scenarios", ScenariosInitialized); ("worker", WorkerAccepting)].

Definition is_ready (s : HealthState) : bool :=
  s ConfigLoaded && s RedisReady && s KafkaTopicsReady && s KafkaProducersReady && s KafkaConsumerReady
  && s ScenariosInitialized && s WorkerAccepting && negb (s Draining).

Definition newline : string := String "010" EmptyString.

Definition missing_prerequisites (s : HealthState) : list string :=
  omap (fun '(name, field) => if negb (s field) then Some name else None) prerequisites.

Definition readiness_diagnostic (s : HealthState) : string :=
  let missing := join "," (missing_prerequisites s) in
  match str_is_empty missing, s Draining with
  | true, true => "not ready: draining" +:+ newline
  | false, true => "not ready: missing=" +:+ missing +:+ "; draining" +:+ newline
  | false, false => "not ready: missing=" +:+ missing +:+ newline
  | true, false => "ready" +:+ newline
  end.

(** The status and the body. *)
Definition readiness_handler (s : HealthState) : Z * string :=
  if is_ready s then (200, "ready" +:+ newline) else (503, readiness_diagnostic s).

Definition liveness_handler : Z * string := (200, "live" +:+ newline).

(** ** What the endpoint says *)

Lemma is_ready_true s : is_ready s = true <-> Forall (fun p => s p.2 = true) prerequisites /\ s Draining = false.
Proof.
  unfold is_ready, prerequisites. rewrite !Forall_cons, Forall_nil. cbn [snd].
  destruct (s ConfigLoaded), (s RedisReady), (s KafkaTopicsReady), (s KafkaProducersReady), (s KafkaConsumerReady),
    (s ScenariosInitialized), (s WorkerAccepting), (s Draining); cbn; split; try done; intros; naive_solver.
Qed.

Lemma nothing_missing s : missing_prerequisites s = [] -> Forall (fun p => s p.2 = true) prerequisites.
Proof.
  unfold missing_prerequisites. induction prerequisites as [|[name field] l IH]; [done|]. simpl.
  destruct (s field) eqn:E; [|done]. intros Hl. constructor; [done|by apply IH].
Qed.

Lemma missing_named s : str_is_empty (join "," (missing_prerequisites s)) = true -> missing_prerequisites s = [].
Proof.
  assert (Forall (fun name => str_is_empty name = false) (missing_prerequisites s)) as Hn.
  { unfold missing_prerequisites. assert (Forall (fun p => str_is_empty p.1 = false) prerequisites) as Hp by (repeat constructor).
    induction Hp as [|[name field] l Hx _ IH]; [constructor|]. simpl. destruct (s field); [done|by constructor]. }
  destruct (missing_prerequisites s) as [|name l]; [done|]. apply Forall_cons in Hn as [Hn _].
  destruct l; simpl; [by rewrite Hn|]. by destruct name.
Qed.

Lemma diagnostic_not_ready s : readiness_diagnostic s = "ready" +:+ newline -> is_ready s = true.
Proof.
  unfold readiness_diagnostic. intros Hd. apply is_ready_true.
  destruct (str_is_empty (join "," (missing_prerequisites s))) eqn:Em, (s Draining) eqn:Ed; try discriminate.
  split; [|done]. by apply nothing_missing, missing_named.
Qed.

(** The endpoint says it is ready exactly when it is, and otherwise why not. *)
Lemma readiness_answer s : (readiness_handler s).1 = 200 <-> is_ready s = true.
Proof. unfold readiness_handler. by destruct (is_ready s). Qed.

Lemma readiness_body s : (readiness_handler s).2 = "ready" +:+ newline <-> is_ready s = true.
Proof.
  unfold readiness_handler. destruct (is_ready s) eqn:E; [done|]. simpl. split; [|done].
  intros Hd%diagnostic_not_ready. congruence.
Qed.
