(* ===== verification/EndToEnd.v ===== *)
(** * From a configured scenario to an accepted job

    The components together: a scenario that startup accepts, a window the
    dispatch store opens for its plan, and the job the scheduler publishes for a
    slice of it, as the worker checks it. *)

From S2P Require Import Prelude RustStr F64 Contracts Domain Planning Lua Redis RedisMem Aggregation Coordination Leader Dispatch Metrics Effects Runner Worker Scenarios Config Startup Node.

(** ** Texts that are not blank *)

Lemma v_not_blank s : blank ("v" +:+ s) = false.
Proof. apply (has_not_blank "v"); done. Qed.

Lemma fnv128_text_not_blank bytes : blank (fnv128_text bytes) = false.
Proof. apply (has_not_blank "f"); done. Qed.

(** ** Identities of a window fit the contract *)

Definition window_id (id : string) (at_ms slices : Z) : string := window_id_of (show CURRENT_CONTRACT_VERSION) id at_ms slices.

Lemma worst_identity_len id at_ms slices i :
  validate_scenario_identity_budget id = Ok tt -> 0 <= at_ms < 10 ^ 14 -> 0 <= i < slices -> slices <= MAX_AUTO_SLICES ->
  str_len id <= 1024 /\ str_len (window_id id at_ms slices) <= 1024
  /\ str_len (window_id id at_ms slices +:+ ":slice-" +:+ show i +:+ "-of-" +:+ show slices) <= 1024.
Proof.
  intros Hb Ht Hi Hn. apply try_for_Ok in Hb. unfold identity_budget_fields in Hb. cbv zeta in Hb.
  rewrite !Forall_cons in Hb. destruct Hb as (Hid & _ & Hex & _).
  apply reject_if_Ok, orb_false_iff in Hid as [_ Hid]. apply reject_if_Ok, orb_false_iff in Hex as [_ Hex]. bool_hyps.
  unfold MAX_CONTRACT_ID_BYTES, MAX_AUTO_SLICES in *. pose proof (str_len_nonneg id).
  rewrite !str_len_app in Hex. unfold window_id, window_id_of.
  rewrite !tostring_small by lia. rewrite !str_len_app.
  pose proof (show_len 14 at_ms ltac:(lia) ltac:(simpl; lia)). pose proof (show_len 3 slices ltac:(lia) ltac:(simpl; lia)).
  pose proof (show_len 3 i ltac:(lia) ltac:(simpl; lia)).
  change (str_len (show u128_max)) with 39 in Hex. change (str_len (show 128)) with 3 in Hex.
  change (str_len (show (128 - 1))) with 3 in Hex. change (str_len ":slice-") with 7 in *. change (str_len "-of-") with 4 in *. lia.
Qed.

(** ** The window the store opens *)

Section accepted.
Context {db : Type} `{RedisLaws db} `{UrlParsers} {W : Type}.
Variable self : RedisDueStateStore.

(** The open window of a scenario is named after it; what every operation keeps. *)
Definition named_after (id : string) (st : Schedule.state) : Prop :=
  match Schedule.open st with
  | Some w => Schedule.w_id w = window_id_of (Schedule.w_version w) id (Schedule.w_scheduled w) (Schedule.w_total w)
  | None => True
  end.

Lemma prepare_named r now st :
  named_after (Schedule.r_scenario r) st -> named_after (Schedule.r_scenario r) (Schedule.prepare r now st).2.
Proof.
  unfold Schedule.prepare. intros Hn. destruct (Schedule.open st) eqn:E; [by case_decide|].
  destruct (_ && _); [done|]. by destruct (_ <? _).
Qed.

Lemma ack_named id wid total plan i st : named_after id st -> named_after id (Schedule.ack wid total plan i st).2.
Proof.
  unfold Schedule.ack, named_after. destruct (Schedule.open st) as [w|] eqn:E; intros Hn; [|by case_bool_decide; simpl; rewrite E].
  repeat (destruct (negb _); [simpl; by rewrite E|]). case_bool_decide; [|done].
  unfold Schedule.close. by case_bool_decide.
Qed.

Lemma missing_in_window (w : Schedule.window) i : i ∈ Schedule.missing w -> 0 <= i < Schedule.w_total w.
Proof. unfold Schedule.missing. rewrite list_elem_of_filter, elem_of_rangeZ. tauto. Qed.

(** The window handed to the scheduler. *)
Lemma prepared_window link spec leader (d d' : db) st w :
  leader_current d leader -> clock_exact d -> spec_ok spec (now_ms d) ->
  tracks_schedule self d (spec_scenario_id spec) st -> named_after (spec_scenario_id spec) st ->
  prepare_window self link spec leader d = (Ok (DispatchReady w), d') ->
  exists at_ms missing, 0 <= at_ms < 10 ^ 14 /\ (forall i, i ∈ missing -> 0 <= i < spec_total_slices spec)
  /\ let id := window_id_of (show (spec_contract_version spec)) (spec_scenario_id spec) at_ms (spec_total_slices spec) in
     w = mkWindow (spec_scenario_id spec) id id at_ms (spec_contract_version spec) (spec_total_slices spec) (spec_plan_fingerprint spec) missing.
Proof.
  intros Hl Hx Hs Ht Hn Hp. pose proof (prepare_implements self link spec leader d st Hl Hx Hs Ht) as Hi.
  destruct Ht as (h & _ & Hsch). pose proof (now_ms_nonneg d) as Hnow. pose proof Hx as Hexact. unfold clock_exact, lua_exact in Hexact.
  unfold Schedule.prepare in Hi. unfold named_after in Hn.
  assert (forall id at_ms missing st', dispatch_ends self link d (spec_scenario_id spec)
      (prepare_result spec (Schedule.Ready id at_ms missing)) st st' (prepare_window self link spec leader d) ->
    w = mkWindow (spec_scenario_id spec) id id at_ms (spec_contract_version spec) (spec_total_slices spec) (spec_plan_fingerprint spec) missing) as Hw.
  { intros id at_ms missing st' [_ [(_ & E & _)|(_ & [e E] & _)]]; rewrite Hp in E; by simplify_eq/=. }
  assert (forall good st', dispatch_ends self link d (spec_scenario_id spec) good st st' (prepare_window self link spec leader d) ->
    good = Ok (DispatchReady w)) as Hgood.
  { intros good st' [_ [(_ & E & _)|(_ & [e E] & _)]]; rewrite Hp in E; by simplify_eq/=. }
  destruct (Schedule.open st) as [ow|] eqn:Eo.
  - destruct Hsch as [Hopen _ _ _ _ _]. rewrite Eo in Hopen. destruct Hopen as [Hok _].
    case_decide as Hsame; [|apply Hgood in Hi; done]. destruct Hsame as (Hv & Htot & Hk & Hr & Hpl). apply Hw in Hi as ->.
    assert (Schedule.w_total ow = spec_total_slices spec) as Htot' by (rewrite Htot; unfold spec_request; by destruct (spec_repeat spec)).
    assert (Schedule.w_version ow = show (spec_contract_version spec)) as Hv' by (rewrite Hv; unfold spec_request; by destruct (spec_repeat spec)).
    exists (Schedule.w_scheduled ow), (Schedule.missing ow). split; [destruct Hok; lia|].
    split; [intros i Hi%missing_in_window; lia|]. cbv zeta. by rewrite Hn, Hv', Htot'.
  - destruct (_ && _); [apply Hgood in Hi; done|]. destruct (Z.ltb_spec (now_ms d) (default (now_ms d) (Schedule.next_at st))); [apply Hgood in Hi; done|].
    set (due := default (now_ms d) (Schedule.next_at st)) in *. set (ow := Schedule.open_window (spec_request spec) due) in *.
    assert (Schedule.w_total ow = spec_total_slices spec) as Htot by (unfold ow, spec_request; by destruct (spec_repeat spec)).
    apply Hw in Hi as ->. exists due, (Schedule.missing ow). split; [|split].
    + unfold due in *. destruct (Schedule.next_at st) as [t|] eqn:En; simpl in *; [|lia]. by apply (sch_next_time _ _ Hsch).
    + intros i Hi%missing_in_window. lia.
    + unfold ow, spec_request. by destruct (spec_repeat spec).
Qed.

(** ** The job the scheduler makes of a slice *)

Lemma ScenarioJob_limits_Ok j max_duration max_rate max_conc :
  job_contract j /\ load_duration (job_load j) <= max_duration /\ f64_ltb max_rate (scenarios_per_sec (job_load j)) = false
  /\ max_concurrency (job_load j) <= max_conc ->
  ScenarioJob_validate_limits j max_duration max_rate max_conc = Ok tt.
Proof.
  unfold ScenarioJob_validate_limits. rewrite !then_Ok, !reject_if_Ok, ScenarioJob_validate_Ok, !Z.ltb_ge. tauto.
Qed.

Lemma plan_check_passes job (plans : gmap string (ScenarioExecutionPlan W)) cfg plan :
  job_max_retries job = worker_max_retries cfg -> plans !! job_scenario_id job = Some plan ->
  job_load job = slice_load (plan_scenario plan) (total (job_slice job)) (index (job_slice job)) (node_startup_burst cfg) ->
  job_plan_fingerprint job = execution_plan_fingerprint plan (total (job_slice job)) (node_startup_burst cfg) (worker_max_retries cfg) ->
  deterministic_job_plan_error job plans cfg = None.
Proof.
  intros Hr Hp Hl Hf. unfold deterministic_job_plan_error. rewrite Hr, Z.ltb_irrefl, Hp, Hf, Hl. cbn [mbind option_bind].
  unfold load_eqb. rewrite !Z.eqb_refl, String.eqb_refl. by destruct (_ <? 2).
Qed.

Variable app : AppConfig.
Variable plan : ScenarioExecutionPlan W.
Notation scenario := (plan_scenario plan).
Notation cfg := (config scenario).
Notation id := (scenario_name scenario).
Notation node := (node_runtime_config app).
Notation slices := (calculate_slices (cfg_scenarios_per_sec cfg) (cfg_max_concurrency cfg) (cfg_duration cfg)).
Notation spec := (dispatch_spec (worker_max_retries node) (node_startup_burst node) id plan).

(** The ranges of the settings' types, and the retry ceiling the configuration
    is checked for. *)
Hypothesis retry_delay_typed : 0 <= app_worker_retry_max_delay app.
Hypothesis concurrency_typed : 0 <= cfg_max_concurrency cfg.
Hypothesis retries_bounded : 0 <= app_worker_max_retries app <= MAX_WORKER_RETRIES.
(** Durations are read in whole seconds. *)
Hypothesis duration_read : from_secs 1 <= cfg_duration cfg.
Hypothesis accepted : validate_scenario app scenario = Ok tt.

Lemma accepted_limits :
  blank id = false /\ validate_scenario_identity_budget id = Ok tt
  /\ match cfg_repeat cfg with Every i => cfg_duration cfg <= i | Once => True end
  /\ cfg_duration cfg <= max_duration app
  /\ 0 < cfg_max_concurrency cfg <= app_max_concurrency app /\ app_startup_burst app <= cfg_max_concurrency cfg.
Proof.
  pose proof accepted as Ha. unfold validate_scenario in Ha. inv_ok. bool_hyps. unfold validate_repeat in *.
  split_and!; try done; try lia. destruct (cfg_repeat cfg); [done|]. inv_ok. by bool_hyps.
Qed.

Lemma slices_bounds : 1 <= slices <= Z.min (cfg_max_concurrency cfg) MAX_AUTO_SLICES.
Proof.
  destruct accepted_limits as (_ & _ & _ & _ & Hc & _). split; [apply calculate_slices_pos; lia|].
  apply calculate_slices_max; unfold MAX_AUTO_SLICES; lia.
Qed.

Lemma accepted_spec_ok now :
  now + Schedule.r_repeat (spec_request spec) < 10 ^ 14 -> spec_ok spec now.
Proof.
  intros Ht. destruct accepted_limits as (Hb & _ & Hr & _). pose proof slices_bounds as Hs. unfold MAX_AUTO_SLICES in Hs.
  constructor; try done.
  - simpl. unfold MAX_DISPATCH_SLICES. lia.
  - simpl. apply fnv128_text_not_blank.
  - simpl. destruct (cfg_repeat cfg); [done|]. apply Z.div_le_lower_bound; [done|].
    unfold from_secs, nanos_per_sec, nanos_per_milli in *. lia.
Qed.

(** The one thing startup does not settle: that the scenario's rate, divided by
    the number of slices and rounded, is still a rate within the limits. *)
Definition slice_rate_ok : Prop :=
  let rate := f64_div (cfg_scenarios_per_sec cfg) (f64_of_Z (Z.max slices 1)) in
  rate_ok rate /\ f64_ltb (app_max_scenarios_per_sec app) rate = false.

Lemma runs_after_clock {M W' H' A : Type} (k : Z -> prog (wanswer (M := M) (W := W') (H := H')) A) t tr o :
  runs (now_unix_ms ≫= k) (Answered WUnixMs t :: tr) o <-> runs (k t) tr o.
Proof.
  split.
  - intros [[[=] _]|[[[=] _]|(t' & tr' & E & Hr)]].
    assert (t' = t) as -> by (by apply (f_equal (fun l => match l with Answered WUnixMs x :: _ => x | _ => 0 end)) in E).
    assert (tr' = tr) as -> by (by apply (f_equal tail) in E). exact Hr.
  - intros Hr. exact (runs_answer (answer := wanswer) WUnixMs k t tr o Hr).
Qed.

(** What the worker does with a job that it can decode, that fits its limits and
    its plans, and that is not deferred. *)
Lemma process_fresh_job {M H' : Type} `{LatencyHistogram H'} job (plans : gmap string (ScenarioExecutionPlan W)) fuel t tr o :
  ScenarioJob_validate_limits job (max_job_duration node) (max_scenarios_per_sec node) (node_max_concurrency node) = Ok tt ->
  deterministic_job_plan_error job plans node = None -> job_not_before_unix_ms job = 0 -> 0 <= t ->
  runs (process_job (M := M) (H := H') node plans fuel job) (Answered WUnixMs t :: tr) o
  <-> runs (if starts_nothing (job_load job)
            then dead_letter node job "invalid load plan: no paced scenario can start inside this window without an explicit startup burst"
            else claim_and_execute node plans fuel job) tr o.
Proof.
  intros Hlimits Hplan Hfresh Ht. unfold process_job. rewrite Hlimits, Hplan.
  assert (deferred_job_delay job t = 0) as Hd.
  { unfold deferred_job_delay, saturating_sub. by rewrite Hfresh, Z.max_l by lia. }
  assert ((worker_retry_max_delay node <? deferred_job_delay job t) = false) as Hlt by (rewrite Hd; by apply Z.ltb_ge).
  rewrite runs_after_clock. cbv beta zeta. rewrite Hlt. reflexivity.
Qed.

(** C9: the scheduler and the workers agree. Take a scenario that startup
    accepts, any state of its schedule, and a window the dispatch store hands out
    for the scenario's plan. Every missing slice has a job, and that job passes the
    contract with its identities, the load limits, and the comparison with the plan
    of a worker with the same settings; provided only that the slice's share of
    the rate, as rounded, is itself within the limits. Such a worker then reads the
    clock and claims the execution, unless the slice by itself has too short a
    window for one start, and only then it sends the job to the dead letters. *)
Theorem dispatched_job_is_accepted {M H' : Type} `{LatencyHistogram H'}
    (plans : gmap string (ScenarioExecutionPlan W)) link leader (d d' : db) st w i
    (Hplans : plans !! id = Some plan) (Hrate : slice_rate_ok)
    (Hlead : leader_current d leader) (Hclock : clock_exact d)
    (Htime : now_ms d + Schedule.r_repeat (spec_request spec) < 10 ^ 14)
    (Htracks : tracks_schedule self d id st) (Hnamed : named_after id st)
    (Hprepare : prepare_window self link spec leader d = (Ok (DispatchReady w), d'))
    (Hi : i ∈ win_missing_slices w) :
  exists key, window_execution_key w i = Some key
  /\ let job := scheduled_job (worker_max_retries node) (node_startup_burst node) id plan w i key in
     ScenarioJob_validate_limits job (max_job_duration node) (max_scenarios_per_sec node) (node_max_concurrency node) = Ok tt
     /\ deterministic_job_plan_error job plans node = None
     /\ forall fuel t tr o, 0 <= t ->
          runs (process_job (M := M) (H := H') node plans fuel job) (Answered WUnixMs t :: tr) o
          <-> runs (if starts_nothing (slice_load scenario slices i (node_startup_burst node))
                    then dead_letter node job
                           "invalid load plan: no paced scenario can start inside this window without an explicit startup burst"
                    else claim_and_execute node plans fuel job) tr o.
Proof.
  destruct accepted_limits as (Hb & Hbudget & _ & Hd & Hc & Hburst). pose proof slices_bounds as Hs.
  pose proof (prepared_window link spec leader d d' st w Hlead Hclock (accepted_spec_ok _ Htime) Htracks Hnamed Hprepare) as Hw.
  cbv zeta in Hw. destruct Hw as (at_ms & missing & Hat & Hm & ->). simpl in Hi, Hm. specialize (Hm i Hi).
  assert (Z.max slices 1 = slices) as Hmax by lia.
  destruct (worst_identity_len id at_ms slices i Hbudget Hat Hm ltac:(lia)) as (Hl1 & Hl2 & Hl3).
  unfold window_execution_key. simpl. destruct (Z.ltb_spec i slices); [|lia]. eexists. split; [done|]. cbv zeta.
  match goal with |- ScenarioJob_validate_limits ?j _ _ _ = _ /\ _ => set (job := j) end.
  assert (deterministic_job_plan_error job plans node = None) as Hplan by (by apply (plan_check_passes _ _ _ plan)).
  match goal with |- ?v = _ /\ _ => assert (v = Ok tt) as Hlimits end.
  - apply ScenarioJob_limits_Ok. destruct Hrate as [Hr Hmaxr]. simpl. split_and!; [|done|done|].
    + unfold MAX_AUTO_SLICES, MAX_WORKER_RETRIES in *. constructor; simpl.
      * done.
      * split_and!; split; try done; apply v_not_blank.
      * split; [unfold execution_plan_fingerprint, scenario_plan_fingerprint; rewrite fnv128_text_len; lia|]. intros _. apply fnv128_text_not_blank.
      * unfold slice_ok. simpl. lia.
      * done.
      * unfold from_secs, nanos_per_sec in duration_read. lia.
      * pose proof (slice_share_pos (cfg_max_concurrency cfg) slices i ltac:(lia)) as Hp.
        unfold slice_startup_burst in Hp. split; [lia|]. apply slice_share_mono; lia.
      * lia.
      * lia.
    + rewrite Hmax. assert (cfg_max_concurrency cfg / slices + (if i <? cfg_max_concurrency cfg mod slices then 1 else 0) <= cfg_max_concurrency cfg); [|lia].
      pose proof (Z.div_mod (cfg_max_concurrency cfg) slices ltac:(lia)). pose proof (Z.mod_pos_bound (cfg_max_concurrency cfg) slices ltac:(lia)).
      assert (1 <= cfg_max_concurrency cfg / slices) by (apply Z.div_le_lower_bound; lia).
      destruct (Z.ltb_spec i (cfg_max_concurrency cfg mod slices)); nia.
  - split; [done|]. split; [done|]. intros fuel t tr o Ht. by apply process_fresh_job.
Qed.
End accepted.

(** ** A scenario all the way *)

#[local] Existing Instance plain_urls.

Definition checkout_plan : ScenarioExecutionPlan unit :=
  mkPlan (mkScenario "checkout" [mkStep "call" "call" (fun _ => Ok tt) false None (fun ctx _ w => (Ok tt, ctx, w))]
            (mkScenarioConfig "http://127.0.0.1:8080" (f64_of_Z 12) 30 (from_secs 60) Once ScenarioId))
    (mkPorts "http://127.0.0.1:8080" ∅) "semantics".

Definition checkout_spec (app : AppConfig) : DispatchSpec :=
  dispatch_spec (worker_max_retries (node_runtime_config app)) (node_startup_burst (node_runtime_config app)) "checkout" checkout_plan.

Definition checkout_slices : Z :=
  let cfg := config (plan_scenario checkout_plan) in
  calculate_slices (cfg_scenarios_per_sec cfg) (cfg_max_concurrency cfg) (cfg_duration cfg).

Definition ready_window (r : result CoordinationError DispatchOutcome) : option (list Z) :=
  match r with Ok (DispatchReady w) => Some (win_missing_slices w) | _ => None end.

Lemma checkout_facts :
  match from_sources empty_env no_files "node-1" with
  | Ok app =>
      (0 <=? app_worker_retry_max_delay app) && (0 <=? app_worker_max_retries app) && (app_worker_max_retries app <=? 32)
      && is_ok (validate_scenario app (plan_scenario checkout_plan))
      && bool_decide (rate_ok (f64_div (f64_of_Z 12) (f64_of_Z 2))) && negb (f64_ltb (app_max_scenarios_per_sec app) (f64_div (f64_of_Z 12) (f64_of_Z 2)))
      && negb (starts_nothing (slice_load (plan_scenario checkout_plan) checkout_slices 1 (node_startup_burst (node_runtime_config app))))
      && bool_decide (ready_window (prepare_window sample_due LinkUp (checkout_spec app) lease_a dispatch_0).1 = Some [0; 1])
  | Err _ => false
  end = true.
Proof. by vm_compute. Qed.

Lemma dispatched_job_is_accepted_witness :
  match from_sources empty_env no_files "node-1" with
  | Ok app => exists w key,
      let job := scheduled_job (worker_max_retries (node_runtime_config app)) (node_startup_burst (node_runtime_config app))
                   "checkout" checkout_plan w 1 key in
      (prepare_window sample_due LinkUp (checkout_spec app) lease_a dispatch_0).1 = Ok (DispatchReady w)
      /\ (forall tr o,
            runs (process_job (M := unit) (H := kept_histogram) (node_runtime_config app) {[ "checkout" := checkout_plan ]} 3 job)
              (Answered WUnixMs 0 :: tr) o
            <-> runs (claim_and_execute (node_runtime_config app) {[ "checkout" := checkout_plan ]} 3 job) tr o)
  | Err _ => False
  end.
Proof.
  pose proof checkout_facts as Hf. destruct (from_sources empty_env no_files "node-1") as [app|]; [|done].
  rewrite !andb_true_iff in Hf. destruct Hf as (((((((Hd0 & Hr0) & Hr) & Hv) & Hrate) & Hmax) & Hstarts) & Hp).
  destruct (prepare_window sample_due LinkUp (checkout_spec app) lease_a dispatch_0) as [r d'] eqn:Ep.
  apply bool_decide_eq_true in Hp. cbn [fst] in Hp. destruct r as [[w| |]|]; try discriminate Hp. injection Hp as Hp.
  assert (forall m : result string unit, is_ok m = true -> m = Ok tt) as Hok by (intros [[]|]; done).
  apply Hok in Hv as Hvalid. clear Hok Hv.
  destruct (dispatched_job_is_accepted (M := unit) (H' := kept_histogram) sample_due app checkout_plan (proj1 (Z.leb_le _ _) Hd0) ltac:(by vm_compute)
    (conj (proj1 (Z.leb_le _ _) Hr0) (proj1 (Z.leb_le _ _) Hr)) ltac:(by vm_compute) Hvalid {[ "checkout" := checkout_plan ]} LinkUp lease_a dispatch_0 d'
    Schedule.initial w 1) as (key & _ & Hjob).
  - apply lookup_singleton_eq.
  - split; [exact (proj1 (bool_decide_eq_true _) Hrate)|exact (proj1 (negb_true_iff _) Hmax)].
  - exact lease_a_current.
  - vm_compute. reflexivity.
  - vm_compute. reflexivity.
  - exact dispatch_0_idle.
  - exact I.
  - exact Ep.
  - rewrite Hp. right. left.
  - exists w, key. split; [reflexivity|]. intros tr o.
    refine (iff_trans (proj2 (proj2 Hjob) 3%nat 0 tr o (Z.le_refl 0)) _).
    apply negb_true_iff in Hstarts. unfold checkout_slices in Hstarts. cbv zeta in Hstarts. rewrite Hstarts. reflexivity.
Defined.
