(* ===== verification/Aggregator.v ===== *)
(** * The aggregation service

    [src/src/application/aggregation_service.rs]: the task that reads slice results,
    has the aggregation store ingest them, finalizes overdue runs and publishes
    the summaries of the outbox. The store, the Kafka clients, the clock, the scan
    timer and the shutdown signal are calls. Logging and counters are left out. *)

From S2P Require Import Prelude RustStr F64 Contracts Domain Planning Aggregation Coordination Metrics Effects Runner Worker.

Record AggregationRuntimeConfig := mkAggregationConfig {
  scan_interval : duration;
  scan_batch_limit : Z;
  outbox_batch_limit : Z;
  agg_shutdown_drain_timeout : duration;
  agg_max_processing_interval : duration;
}.

Definition AggregationRuntimeConfig_default : AggregationRuntimeConfig :=
  mkAggregationConfig (from_secs 1) 128 128 (from_secs 10) (from_secs 299).

(** [RunAggregationRuntime::new]. *)
Definition check_aggregation_config (config : AggregationRuntimeConfig) : result string unit :=
  reject_if (duration_is_zero (scan_interval config)) "aggregation scan interval must be greater than zero";;
  reject_if ((scan_batch_limit config =? 0) || (outbox_batch_limit config =? 0))
    "aggregation scan and outbox limits must be greater than zero";;
  reject_if (duration_is_zero (agg_shutdown_drain_timeout config)) "aggregation shutdown drain timeout must be greater than zero";;
  reject_if (duration_is_zero (agg_max_processing_interval config)) "aggregation processing interval must be greater than zero".

(** What a received record offers. *)
Class CommitableResult (M : Type) := {
  record_result : M -> result ContractError ScenarioRunResult;
  result_poison_record : M -> string -> PoisonMessageRecord;
}.

Section aggregator.
Context {M : Type} `{CommitableResult M}.
Variable config : AggregationRuntimeConfig.

Inductive acall :=
| AUnixMs
| ASleep (d : duration)
| AScanTick
| AShutdownRequested
| AShutdownChanged
| AReceive
| AIngest (r : ScenarioRunResult) (now : Z)
| APoison (p : PoisonMessageRecord)
| ACommit (m : M)
| ADueRuns (now limit : Z)
| AMarkExpired (run_id : string) (now : Z)
| APendingSummaries (limit : Z)
| APublishSummary (e : ScenarioRunSummaryEvent)
| AAcknowledge (run_id : string) (revision : Z)
| AJoinOrder (tasks : nat)
| AForever.

(** [AShutdownChanged] answers whether the sender is gone, [AJoinOrder] in which
    order tasks that ran beside each other were joined. *)
Definition aanswer (c : acall) : Type :=
  match c with
  | AUnixMs => Z
  | ASleep _ | AScanTick => unit
  | AShutdownRequested | AShutdownChanged => bool
  | AReceive => result string (option M)
  | AIngest _ _ => result RunAggregationStoreError RunAggregationUpdate
  | APoison _ | ACommit _ | APublishSummary _ => result string unit
  | ADueRuns _ _ => result RunAggregationStoreError (list string)
  | AMarkExpired _ _ => result RunAggregationStoreError RunExpiryOutcome
  | APendingSummaries _ => result RunAggregationStoreError (list DurableRunSummary)
  | AAcknowledge _ _ => result RunAggregationStoreError SummaryAcknowledgement
  | AJoinOrder _ => list nat
  | AForever => Empty_set
  end.

Notation aprog := (prog aanswer).

Definition acall_of (c : acall) : aprog (aanswer c) := Call c Ret.

(** A step that may end the program with an error: the [?] of the code. *)
Definition try_then {A B} (m : aprog (result string A)) (f : A -> aprog (result string B)) : aprog (result string B) :=
  r ← m; match r with Ok a => f a | Err e => mret (Err e) end.

Definition fail_with {E A} (text : E -> string) (m : aprog (result E A)) : aprog (result string A) :=
  r ← m; mret (map_err text r).

(** [timeout]. *)
Definition within {A} (d : duration) (expired : string) (m : aprog (result string A)) : aprog (result string A) :=
  select m (acall_of (ASleep d);; mret (Err expired)).

(** ** Outbox *)

(** [first_error] of a [JoinSet]: the first error among the tasks as joined. *)
Definition first_error (order : list nat) (results : list (result string unit)) : result string unit :=
  try_for (fun i => default (Ok tt) (results !! i)) (order ++ seq 0 (length results)).

Definition join_tasks (tasks : list (aprog (result string unit))) : aprog (result string unit) :=
  results ← join_all tasks;
  order ← acall_of (AJoinOrder (length tasks));
  mret (first_error order results).

Definition summary_event (durable : DurableRunSummary) : ScenarioRunSummaryEvent :=
  mkSummaryEvent CURRENT_CONTRACT_VERSION (dur_event_id durable) (dur_revision durable) (dur_summary durable).

Definition publish_one (durable : DurableRunSummary) : aprog (result string unit) :=
  let event := summary_event durable in
  try_then (fail_with (fun error => "summary '" +:+ evt_event_id event +:+ "' publication failed; Redis outbox remains pending: " +:+ error)
              (acall_of (APublishSummary event))) (fun _ =>
  try_then (fail_with (fun error => "summary '" +:+ evt_event_id event +:+ "' was published but its Redis outbox acknowledgement failed: "
                                    +:+ show_RunAggregationStoreError error)
              (acall_of (AAcknowledge (sum_run_id (evt_summary event)) (evt_revision event)))) (fun ack =>
  mret (match ack with
        | MissingSummary => Err ("summary '" +:+ evt_event_id event +:+ "' was published but its durable run disappeared")
        | _ => Ok tt
        end))).

Definition publish_pending : aprog (result string unit) :=
  try_then (fail_with (fun error => "aggregation outbox scan failed: " +:+ show_RunAggregationStoreError error)
              (acall_of (APendingSummaries (outbox_batch_limit config)))) (fun pending =>
  join_tasks (map publish_one pending)).

Definition expire_one (now : Z) (run_id : string) : aprog (result string unit) :=
  try_then (fail_with (fun error => "failed to finalize expired aggregate '" +:+ run_id +:+ "': " +:+ show_RunAggregationStoreError error)
              (acall_of (AMarkExpired run_id now))) (fun _ => mret (Ok tt)).

Definition expire_due_runs : aprog (result string unit) :=
  now ← acall_of AUnixMs;
  try_then (fail_with (fun error => "aggregation deadline scan failed: " +:+ show_RunAggregationStoreError error)
              (acall_of (ADueRuns now (scan_batch_limit config)))) (fun due =>
  join_tasks (map (expire_one now) due)).

Definition maintenance : aprog (result string unit) := try_then expire_due_runs (fun _ => publish_pending).

Definition maintenance_with_deadline (phase : string) : aprog (result string unit) :=
  within (agg_max_processing_interval config)
    ("aggregation " +:+ phase +:+ " maintenance exceeded its " +:+ show (as_millis (agg_max_processing_interval config)) +:+ " ms Kafka-safe bound")
    maintenance.

(** ** Results *)

Definition dead_letter_and_commit (record : M) (reason : string) : aprog (result string unit) :=
  try_then (fail_with (fun error => "result poison DLQ publication failed; source offset remains uncommitted: " +:+ error)
              (acall_of (APoison (result_poison_record record reason)))) (fun _ =>
  fail_with (fun error => "result poison was published but synchronous source commit failed: " +:+ error) (acall_of (ACommit record))).

(** Inputs that cannot become valid by a retry. *)
Definition is_permanent (e : RunAggregationStoreError) : bool :=
  match e with StoreContract _ | StoreInconsistentResult _ | StoreErrorKindCapacity _ => true | _ => false end.

Definition process_record (record : M) : aprog (result string unit) :=
  match record_result record with
  | Err error => dead_letter_and_commit record ("invalid result contract: " +:+ show_ContractError error)
  | Ok r =>
      now ← acall_of AUnixMs;
      ingested ← acall_of (AIngest r now);
      match ingested : result RunAggregationStoreError RunAggregationUpdate with
      | Ok _ =>
          fail_with (fun error => "result was durably aggregated but synchronous source commit failed; duplicate redelivery is safe: " +:+ error)
            (acall_of (ACommit record))
      | Err error =>
          if is_permanent error then dead_letter_and_commit record (show_RunAggregationStoreError error)
          else mret (Err ("result aggregation failed before durable acceptance; source offset remains uncommitted: "
                          +:+ show_RunAggregationStoreError error))
      end
  end.

Definition process_record_with_deadline (record : M) : aprog (result string unit) :=
  within (agg_max_processing_interval config)
    ("result processing exceeded its " +:+ show (as_millis (agg_max_processing_interval config))
     +:+ " ms Kafka-safe bound; source offset remains unsettled")
    (process_record record).

(** ** The loop *)

Inductive aggregator_event :=
| EvShutdownChanged (gone : bool)
| EvScan
| EvRecord (r : result string (option M)).

Fixpoint aggregator_loop (fuel : nat) : aprog (result string unit) :=
  match fuel with
  | O => Call AForever (fun r : Empty_set => match r with end)
  | S fuel' =>
      stop ← acall_of AShutdownRequested;
      if stop : bool then mret (Ok tt) else
      event ← select (gone ← acall_of AShutdownChanged; mret (EvShutdownChanged gone))
                (select (acall_of AScanTick;; mret EvScan) (r ← acall_of AReceive; mret (EvRecord r)));
      match event with
      | EvShutdownChanged true => mret (Ok tt)
      | EvShutdownChanged false =>
          stop ← acall_of AShutdownRequested;
          if stop : bool then mret (Ok tt) else aggregator_loop fuel'
      | EvScan => try_then (maintenance_with_deadline "periodic") (fun _ => aggregator_loop fuel')
      | EvRecord (Ok (Some record)) => try_then (process_record_with_deadline record) (fun _ => aggregator_loop fuel')
      | EvRecord (Ok None) => aggregator_loop fuel'
      | EvRecord (Err error) => mret (Err error)
      end
  end.

Definition aggregator_run (fuel : nat) : aprog (result string unit) :=
  try_then (maintenance_with_deadline "startup") (fun _ =>
  try_then (aggregator_loop fuel) (fun _ =>
  select (publish_pending;; mret tt) (acall_of (ASleep (agg_shutdown_drain_timeout config)));;
  mret (Ok tt))).
End aggregator.
#[global] Arguments acall : clear implicits.
