(* ===== verification/AggregatorProtocol.v ===== *)
(** * What the aggregation service guarantees

    Two facts about every run of the aggregation service, whatever its store, its
    brokers and its timers do: a result is settled before its offset is committed
    and before the next one is taken, and a summary leaves the outbox only after
    it was published. *)

From S2P Require Import Prelude RustStr Contracts Planning Aggregation Effects Runner Worker Aggregator.

Section protocol.
Context {M : Type} `{EqDecision M} `{CommitableResult M}.
Variable config : AggregationRuntimeConfig.
Notation aanswer := (aanswer (M := M)).
Notation aprog := (prog aanswer).
Notation aobs := (obs aanswer).
Implicit Types m : M.

(** ** Settlement of results *)

(** Of the record in hand: nothing is settled yet; the store refused its result
    for good; its disposition is durable. Or the service has failed. *)
Inductive settle_phase :=
| NoRecord
| Holding m
| RefusedFor m (reason : string)
| Settled m
| Failed.

Definition dead_letters (ph : settle_phase) (p : PoisonMessageRecord) : option M :=
  match ph with
  | Holding m =>
      match record_result m with
      | Err e => if bool_decide (p = result_poison_record m ("invalid result contract: " +:+ show_ContractError e)) then Some m else None
      | Ok _ => None
      end
  | RefusedFor m reason => if bool_decide (p = result_poison_record m reason) then Some m else None
  | _ => None
  end.

Definition ingests (ph : settle_phase) (r : ScenarioRunResult) : option M :=
  match ph with
  | Holding m => match record_result m with
                 | Ok r0 => if bool_decide (r = r0) then Some m else None
                 | Err _ => None
                 end
  | _ => None
  end.

Definition commits (ph : settle_phase) m : option M :=
  match ph with Settled m0 => if bool_decide (m = m0) then Some m else None | _ => None end.

Definition on_settle (ph : settle_phase) (c : acall M) : aanswer c -> option settle_phase :=
  match c return aanswer c -> option settle_phase with
  | AReceive => fun r =>
      match ph with
      | NoRecord => Some (match r with Ok (Some m) => Holding m | Ok None => NoRecord | Err _ => Failed end)
      | _ => None
      end
  | AIngest res _ => fun r =>
      m ← ingests ph res;
      Some (match r with
            | Ok _ => Settled m
            | Err e => if is_permanent e then RefusedFor m (show_RunAggregationStoreError e) else Failed
            end)
  | APoison p => fun r => m ← dead_letters ph p; Some (match r with Ok _ => Settled m | Err _ => Failed end)
  | ACommit m => fun r => _ ← commits ph m; Some (match r with Ok _ => NoRecord | Err _ => Failed end)
  | _ => fun _ => Some ph
  end.

Definition on_settle_drop (ph : settle_phase) (c : acall M) : option settle_phase :=
  match c with
  | AReceive => match ph with NoRecord => Some NoRecord | _ => None end
  | AIngest res _ => _ ← ingests ph res; Some Failed
  | APoison p => _ ← dead_letters ph p; Some Failed
  | ACommit m => _ ← commits ph m; Some Failed
  | _ => Some ph
  end.

Definition result_protocol (ph : settle_phase) (x : aobs) : option settle_phase :=
  match x with Answered c r => on_settle ph c r | Dropped c => on_settle_drop ph c end.

Notation safe := (safe result_protocol).
Notation quiet := (quiet result_protocol).
Notation anywhere := (fun _ : settle_phase => True).

(** The calls the protocol does not mention. *)
Definition no_record_call (c : acall M) : bool :=
  match c with AReceive | AIngest _ _ | APoison _ | ACommit _ => false | _ => true end.

Lemma quiet_other {A} c (k : aanswer c -> aprog A) : no_record_call c = true -> (forall r, quiet (k r)) -> quiet (Call c k).
Proof. intros Hc Hk. apply quiet_call; [intros ph; by destruct c|]. intros r. split; [intros ph; by destruct c|done]. Qed.

Lemma quiet_other_of c : no_record_call c = true -> quiet (acall_of c).
Proof. intros Hc. apply quiet_other; [done|]. intros. apply quiet_ret. Qed.

Lemma quiet_try {A B} (m : aprog (result string A)) (f : A -> aprog (result string B)) :
  quiet m -> (forall a, quiet (f a)) -> quiet (try_then m f).
Proof. intros Hm Hf. apply quiet_bind; [done|]. intros [a|e]; [done|apply quiet_ret]. Qed.

Lemma quiet_fail {E A} (text : E -> string) (m : aprog (result E A)) : quiet m -> quiet (fail_with text m).
Proof. intros Hm. apply quiet_bind; [done|]. intros. apply quiet_ret. Qed.

Lemma quiet_publish_pending : quiet (publish_pending config).
Proof.
  apply quiet_try; [apply quiet_fail, (quiet_other_of (APendingSummaries _)); done|]. intros pending.
  apply quiet_bind; [apply quiet_join_all, Forall_fmap, Forall_true|].
  - intros durable. apply quiet_try; [apply quiet_fail, (quiet_other_of (APublishSummary _)); done|]. intros _.
    apply quiet_try; [apply quiet_fail, (quiet_other_of (AAcknowledge _ _)); done|]. intros. apply quiet_ret.
  - intros results. apply quiet_other; [done|]. intros. apply quiet_ret.
Qed.

Lemma quiet_maintenance phase : quiet (maintenance_with_deadline config phase).
Proof.
  apply quiet_race; [|apply quiet_other; [done|]; intros; apply quiet_ret|intros; apply quiet_ret].
  apply quiet_try; [|intros; apply quiet_publish_pending].
  apply quiet_other; [done|]. intros now.
  apply quiet_try; [apply quiet_fail, (quiet_other_of (ADueRuns _ _)); done|]. intros due.
  apply quiet_bind; [apply quiet_join_all, Forall_fmap, Forall_true|].
  - intros run_id. apply quiet_try; [apply quiet_fail, (quiet_other_of (AMarkExpired _ _)); done|]. intros. apply quiet_ret.
  - intros results. apply quiet_other; [done|]. intros. apply quiet_ret.
Qed.

Lemma settle_call {A} c (k : aanswer c -> aprog A) ph Q :
  is_Some (on_settle_drop ph c) -> (forall r, exists ph', on_settle ph c r = Some ph' /\ safe (k r) ph' anywhere Q) ->
  safe (acall_of c ≫= k) ph anywhere Q.
Proof.
  intros [pd Hd] Hk. apply safe_call; [done|by exists pd|]. intros r. destruct (Hk r) as (ph' & Ha & Hs). by exists ph'.
Qed.

(** Where the processing of a record ends. *)
Definition record_done (r : result string unit) (ph : settle_phase) : Prop := is_ok r = true -> ph = NoRecord.

Lemma commit_safe m (text : string -> string) : safe (fail_with text (acall_of (ACommit m))) (Settled m) anywhere record_done.
Proof.
  apply settle_call; [simpl; by rewrite bool_decide_true|]. intros r. eexists.
  split; [simpl; by rewrite bool_decide_true|]. apply safe_ret. by destruct r.
Qed.

Lemma result_dead_letter_safe m reason ph :
  dead_letters ph (result_poison_record m reason) = Some m -> safe (dead_letter_and_commit m reason) ph anywhere record_done.
Proof.
  intros Hd. apply safe_bind, settle_call; [simpl; by rewrite Hd|]. intros r. eexists. split; [simpl; by rewrite Hd|].
  apply safe_ret. destruct r; [apply commit_safe|by apply safe_ret].
Qed.

Lemma process_record_safe m : safe (process_record m) (Holding m) anywhere record_done.
Proof.
  unfold process_record. destruct (record_result m) as [res|e] eqn:Er.
  - apply settle_call; [done|]. intros now. eexists. split; [done|].
    assert (ingests (Holding m) res = Some m) as Hi by (simpl; by rewrite Er, bool_decide_true).
    apply settle_call; [cbn [on_settle_drop]; by rewrite Hi|]. intros r. eexists. split; [cbn [on_settle]; by rewrite Hi|].
    destruct r as [u|e]; cbn [mbind option_bind]; [apply commit_safe|]. destruct (is_permanent e) eqn:Ep; [|by apply safe_ret].
    apply result_dead_letter_safe. simpl. by rewrite bool_decide_true.
  - apply result_dead_letter_safe. simpl. by rewrite Er, bool_decide_true.
Qed.

Lemma within_safe {A} d text (m : aprog (result string A)) ph Q :
  (forall ph', Q (Err text) ph') -> safe m ph anywhere Q -> safe (within d text m) ph anywhere Q.
Proof.
  intros Hq Hm. apply safe_race; [apply quiet_other; [done|]; intros; apply quiet_ret|].
  eapply safe_mono; [exact Hm| |].
  - intros ph' _. split; [done|]. intros b [tr Hr]. apply safe_ret.
    destruct Hr as [[_ [=]]|[[_ [=]]|(r & tr' & _ & [_ [= ->]])]]. done.
  - intros b ph' Hb. by apply safe_ret.
Qed.

Lemma aggregator_loop_safe fuel : safe (aggregator_loop config fuel) NoRecord anywhere (fun r ph => is_ok r = true -> ph = NoRecord).
Proof.
  induction fuel as [|fuel IH]; [apply safe_call; [done|by eexists|]; intros []|].
  cbn [aggregator_loop]. apply settle_call; [done|]. intros stop. eexists. split; [done|]. destruct stop; [by apply safe_ret|].
  assert (safe (select (gone ← acall_of AShutdownChanged; mret (EvShutdownChanged gone))
      (select (acall_of AScanTick;; mret EvScan) (r ← acall_of AReceive; mret (EvRecord r)))) NoRecord (fun ph => ph = NoRecord)
    (fun e ph => match e with
                 | EvRecord (Ok (Some m)) => ph = Holding m
                 | EvRecord (Err _) => ph = Failed
                 | _ => ph = NoRecord
                 end)) as Hev.
  { do 2 (apply safe_race_r; [apply quiet_other; [done|]; intros; apply quiet_ret|]).
    apply safe_call.
    - split; [split; [done|]|]; intros b [tr Hr]; apply safe_ret;
        destruct Hr as [[_ [=]]|[[_ [=]]|(r & tr' & _ & [_ [= ->]])]]; [done|by apply safe_ret].
    - eexists. split; [done|]. split; [split; [done|]|]; intros b [tr Hr]; apply safe_ret;
        destruct Hr as [[_ [=]]|[[_ [=]]|(r & tr' & _ & [_ [= ->]])]]; [done|by apply safe_ret].
    - intros r. eexists. split; [done|]. apply safe_ret, safe_ret, safe_ret. by destruct r as [[m|]|]. }
  apply safe_bind. eapply safe_mono; [exact Hev|done|]. intros e ph He. destruct e as [[]| |[[m|]|e]]; subst ph.
  - by apply safe_ret.
  - apply settle_call; [done|]. intros stop. eexists. split; [done|]. destruct stop; [by apply safe_ret|apply IH].
  - apply safe_bind, safe_quiet; [apply quiet_maintenance|done|]. intros [a|e]; [apply IH|by apply safe_ret].
  - apply safe_bind. eapply safe_mono; [apply within_safe; [|apply process_record_safe]; done|done|].
    intros [[]|e] ph Hd; [rewrite (Hd eq_refl); apply IH|by apply safe_ret].
  - apply IH.
  - by apply safe_ret.
Qed.

(** C13: the aggregation service settles a result before it commits its offset and
    before it takes the next one. In every run a record is taken only when none is
    in hand; its result goes to the store; the offset is committed only when the
    store has accepted the result, or when the record was published as a poison
    record because it does not decode or the store refused it for good; and after
    any other failure nothing is taken, ingested, published as poison or committed
    any more, so the record is delivered again. *)
Theorem results_settle_before_commit fuel tr o (Hrun : runs (aggregator_run config fuel) tr o) :
  is_Some (watch result_protocol NoRecord tr).
Proof.
  assert (safe (aggregator_run config fuel) NoRecord anywhere (fun _ _ => True)) as Hs.
  { apply safe_bind, safe_quiet; [apply quiet_maintenance|done|]. intros [[]|e]; [|by apply safe_ret].
    apply safe_bind. eapply safe_mono; [apply aggregator_loop_safe|done|]. intros [[]|e] ph _; [|by apply safe_ret].
    apply safe_quiet; [|done..]. apply quiet_bind; [|intros; apply quiet_ret].
    apply quiet_race; [apply quiet_bind; [apply quiet_publish_pending|intros; apply quiet_ret]| |intros; apply quiet_ret].
    exact (quiet_other_of (ASleep _) eq_refl). }
  destruct (Hs tr o Hrun) as (ph & -> & _). by eexists.
Qed.
End protocol.

Section outbox.
Context {M : Type} `{CommitableResult M}.
Variable config : AggregationRuntimeConfig.
Notation aanswer := (aanswer (M := M)).
Notation aprog := (prog aanswer).
Notation aobs := (obs aanswer).

(** ** The outbox *)

Definition call_of (x : aobs) : acall M := match x with Answered c _ | Dropped c => c end.

Definition outbox_needs (x : aobs) : Prop :=
  match call_of x with APublishSummary _ | AAcknowledge _ _ => True | _ => False end.

Definition outbox_cause (y x : aobs) : Prop :=
  match call_of x with
  | APublishSummary e =>
      exists limit l durable, y = Answered (APendingSummaries limit) (Ok l) /\ durable ∈ l /\ e = summary_event durable
  | AAcknowledge run_id revision =>
      exists e, y = Answered (APublishSummary e) (Ok tt) /\ sum_run_id (evt_summary e) = run_id /\ evt_revision e = revision
  | _ => False
  end.

Notation causal := (causal outbox_needs outbox_cause).

Definition outbox_call (c : acall M) : bool := match c with APublishSummary _ | AAcknowledge _ _ => true | _ => false end.

Lemma causal_other past {A} c (k : aanswer c -> aprog A) :
  outbox_call c = false -> (forall r, causal (past ++ [Answered c r]) (k r)) -> causal past (acall_of c ≫= k).
Proof. intros Hc Hk. apply causal_call; [by destruct c|]. intros r. split; [by destruct c|done]. Qed.

Lemma causal_last past c : outbox_call c = false -> causal past (acall_of c).
Proof. intros Hc. apply causal_call; [by destruct c|]. intros r. split; [by destruct c|]. apply causal_ret. Qed.

Lemma causal_free past {A B} (m : aprog A) (f : A -> aprog B) :
  causal past m -> (forall a past', past ⊆ past' -> causal past' (f a)) -> causal past (m ≫= f).
Proof. intros Hm Hf. apply causal_bind; [done|]. intros a t _. apply Hf. set_solver. Qed.

Lemma publish_one_causal past limit l durable :
  Answered (APendingSummaries limit) (Ok l) ∈ past -> durable ∈ l -> causal past (publish_one durable).
Proof.
  intros Hp Hd. unfold publish_one, try_then, fail_with.
  assert (exists y, y ∈ past /\ exists limit l durable', y = Answered (APendingSummaries limit) (Ok l) /\ durable' ∈ l /\ summary_event durable = summary_event durable')
    as Hpub by (eexists; split; [exact Hp|]; by eexists _, _, _).
  apply causal_call; [done|]. intros r. split; [done|]. destruct r as [[]|e]; [|apply causal_ret].
  assert (exists y, y ∈ past ++ [Answered (APublishSummary (summary_event durable)) (Ok tt)]
    /\ exists e, y = Answered (APublishSummary e) (Ok tt) /\ sum_run_id (evt_summary e) = sum_run_id (evt_summary (summary_event durable))
       /\ evt_revision e = evt_revision (summary_event durable))
    as Hack by (eexists; split; [apply elem_of_app; right; by apply list_elem_of_singleton|]; by eexists).
  apply causal_call; [done|]. intros r. split; [done|]. destruct r; apply causal_ret.
Qed.

Lemma join_tasks_causal past tasks : Forall (causal past) tasks -> causal past (join_tasks tasks).
Proof.
  intros Ht. apply causal_free; [by apply causal_join_all|]. intros results past' _. apply causal_other; [done|]. intros. apply causal_ret.
Qed.

Lemma publish_pending_causal past : causal past (publish_pending config).
Proof.
  unfold publish_pending, try_then, fail_with. apply causal_call; [done|]. intros r. split; [done|].
  destruct r as [pending|e]; [|apply causal_ret]. apply join_tasks_causal, Forall_fmap, Forall_forall. intros durable Hd.
  eapply publish_one_causal; [|exact Hd]. apply elem_of_app. right. by apply list_elem_of_singleton.
Qed.

Lemma within_causal past {A} d text (m : aprog (result string A)) : causal past m -> causal past (within d text m).
Proof. intros Hm. apply causal_race; [done|apply causal_other; [done|]; intros; apply causal_ret|intros; apply causal_ret]. Qed.

Lemma try_causal past {A B} (m : aprog (result string A)) (f : A -> aprog (result string B)) :
  causal past m -> (forall a past', past ⊆ past' -> causal past' (f a)) -> causal past (try_then m f).
Proof. intros Hm Hf. apply causal_free; [done|]. intros [a|e] past' Hp; [by apply Hf|apply causal_ret]. Qed.

Lemma fail_causal past {E A} (text : E -> string) (m : aprog (result E A)) : causal past m -> causal past (fail_with text m).
Proof. intros Hm. apply causal_free; [done|]. intros. apply causal_ret. Qed.

Lemma maintenance_causal past phase : causal past (maintenance_with_deadline config phase).
Proof.
  apply within_causal, try_causal; [|intros; apply publish_pending_causal].
  apply causal_other; [done|]. intros now. apply try_causal; [exact (fail_causal _ _ _ (causal_last _ (ADueRuns _ _) eq_refl))|].
  intros due past' _. apply join_tasks_causal, Forall_fmap, Forall_true. intros run_id.
  apply try_causal; [exact (fail_causal _ _ _ (causal_last _ (AMarkExpired _ _) eq_refl))|]. intros. apply causal_ret.
Qed.

Lemma process_record_causal past m : causal past (process_record_with_deadline config m).
Proof.
  assert (forall past reason, causal past (dead_letter_and_commit m reason)) as Hdl.
  { intros past0 reason. apply try_causal; [exact (fail_causal _ _ _ (causal_last _ (APoison _) eq_refl))|]. intros _ past' _.
    exact (fail_causal _ _ _ (causal_last _ (ACommit _) eq_refl)). }
  apply within_causal. unfold process_record. destruct (record_result m); [|apply Hdl].
  apply causal_other; [done|]. intros now. apply causal_other; [done|]. intros [u|e].
  - exact (fail_causal _ _ _ (causal_last _ (ACommit _) eq_refl)).
  - destruct (is_permanent e); [apply Hdl|apply causal_ret].
Qed.

Lemma aggregator_loop_causal fuel past : causal past (aggregator_loop config fuel).
Proof.
  revert past. induction fuel as [|fuel IH]; intros past; [apply causal_call; [done|]; intros []|].
  cbn [aggregator_loop]. apply causal_other; [done|]. intros stop. destruct stop; [apply causal_ret|].
  apply causal_free.
  - repeat (apply causal_race; [apply causal_other; [done|]; intros; apply causal_ret| |intros; apply causal_ret]).
    apply causal_other; [done|]. intros. apply causal_ret.
  - intros e past' _. destruct e as [[]| |[[m|]|e]].
    + apply causal_ret.
    + apply causal_other; [done|]. intros stop. destruct stop; [apply causal_ret|apply IH].
    + apply try_causal; [apply maintenance_causal|]. intros. apply IH.
    + apply try_causal; [apply process_record_causal|]. intros. apply IH.
    + apply IH.
    + apply causal_ret.
Qed.

Lemma aggregator_run_causal fuel past : causal past (aggregator_run config fuel).
Proof.
  apply try_causal; [apply maintenance_causal|]. intros _ past1 _. apply try_causal; [apply aggregator_loop_causal|]. intros _ past2 _.
  apply causal_free; [|intros; apply causal_ret]. apply causal_race; [|exact (causal_last _ (ASleep _) eq_refl)|intros; apply causal_ret].
  apply causal_free; [apply publish_pending_causal|]. intros. apply causal_ret.
Qed.

(** C14: a summary leaves the outbox only when it was published. Publications run
    beside each other and are cut short by deadlines and shutdowns; still, whenever
    the service acknowledges a revision of a run to the store, it has read that
    very revision from the outbox before, and the broker has acknowledged the
    event made of it. *)
Theorem acknowledged_summaries_were_published fuel before x after o run_id revision
    (Hrun : runs (aggregator_run config fuel) (before ++ x :: after) o) (Hack : call_of x = AAcknowledge run_id revision) :
  exists limit pending durable, Answered (APendingSummaries limit) (Ok pending) ∈ before /\ durable ∈ pending
    /\ Answered (APublishSummary (summary_event durable)) (Ok tt) ∈ before
    /\ sum_run_id (dur_summary durable) = run_id /\ dur_revision durable = revision.
Proof.
  pose proof (aggregator_run_causal fuel [] _ _ Hrun) as Hp.
  destruct (Hp before x after eq_refl) as (y & Hy & Hc); [unfold outbox_needs; by rewrite Hack|].
  unfold outbox_cause in Hc. rewrite Hack in Hc. destruct Hc as (e & -> & Hr & Hv).
  cbn [app] in Hy. apply list_elem_of_split in Hy as (b1 & b2 & ->).
  destruct (Hp b1 (Answered (APublishSummary e) (Ok tt)) (b2 ++ x :: after)) as (z & Hz & limit & l & durable & -> & Hd & ->);
    [by rewrite <- app_assoc|done|].
  exists limit, l, durable. split_and!; try done; set_solver.
Qed.
End outbox.

(** ** A run of the service *)

Section sample.
#[local] Arguments runs : simpl never.

(** Records that do not decode. *)
#[global] Instance undecodable_results : CommitableResult nat := {|
  record_result _ := Err (MissingField "run_id");
  result_poison_record n reason := mkPoison 2 "poison" 1 "results" 0 (Z.of_nat n) None None false None None false reason |}.

Notation aanswer := (aanswer (M := nat)).
Variable durable : DurableRunSummary.
Notation event := (summary_event durable).

Lemma runs_within {A} d text (m : prog aanswer (result string A)) t r : runs m t (Some r) -> runs (within d text m) t (Some r).
Proof. intros Hm. rewrite <- (app_nil_r t). eapply runs_first; [exact Hm|by left|done]. Qed.

Definition outbox_calls (config : AggregationRuntimeConfig) : list (obs aanswer) :=
  [Answered AUnixMs 5; Answered (ADueRuns 5 (scan_batch_limit config)) (Ok []); Answered (AJoinOrder 0) [];
   Answered (APendingSummaries (outbox_batch_limit config)) (Ok [durable]);
   Answered (APublishSummary event) (Ok tt); Answered (AAcknowledge (sum_run_id (dur_summary durable)) (dur_revision durable)) (Ok Acknowledged);
   Answered (AJoinOrder 1) [0%nat]].

Definition poison_reason : string := "invalid result contract: " +:+ show_ContractError (MissingField "run_id").

Definition record_calls : list (obs aanswer) :=
  [Answered (APoison (result_poison_record 7%nat poison_reason)) (Ok tt); Answered (ACommit 7%nat) (Ok tt)].

Lemma maintenance_runs config : runs (maintenance config) (outbox_calls config) (Some (Ok tt)).
Proof.
  unfold maintenance, expire_due_runs, publish_pending, try_then, fail_with, join_tasks.
  do 2 (apply (runs_answer (answer := aanswer)); simpl). apply (runs_answer (answer := aanswer)); simpl.
  apply (runs_answer (answer := aanswer)); simpl.
  set (published := [Answered (APublishSummary event) (Ok tt);
    Answered (AAcknowledge (sum_run_id (dur_summary durable)) (dur_revision durable)) (Ok Acknowledged)] : list (obs aanswer)).
  exists published, [], published. split; [repeat constructor|]. right.
  exists (Ok tt), [], [Answered (AJoinOrder 1) [0%nat]]. split_and!; [|done| |done].
  - do 2 (apply (runs_answer (answer := aanswer)); simpl). done.
  - by apply (runs_answer (answer := aanswer)).
Qed.

Definition sample_run (config : AggregationRuntimeConfig) : list (obs aanswer) :=
  outbox_calls config ++ [Answered AShutdownRequested false; Answered AReceive (Ok (Some 7%nat))] ++ record_calls.

Lemma record_runs config : runs (process_record_with_deadline config 7%nat) record_calls (Some (Ok tt)).
Proof. apply runs_within. do 2 (apply (runs_answer (answer := aanswer)); simpl). done. Qed.

Lemma sample_runs config : runs (aggregator_run config 2) (sample_run config) None.
Proof.
  unfold aggregator_run, sample_run. eapply runs_then; [apply runs_within, maintenance_runs|].
  unfold try_then at 1. cbn [aggregator_loop app]. apply (runs_answer (answer := aanswer)).
  cbn beta iota.
  apply runs_cut. exists [], [Answered AReceive (Ok (Some 7%nat))], [Answered AReceive (Ok (Some 7%nat))].
  split; [repeat constructor|]. right. exists (EvRecord (Ok (Some 7%nat))), record_calls. split_and!; [|done|].
  - rewrite <- (app_nil_r record_calls).
    eapply runs_then; [apply record_runs|]. by left.
  - right. split; [by left|]. exists [], [Answered AReceive (Ok (Some 7%nat))], [Answered AReceive (Ok (Some 7%nat))].
    split; [repeat constructor|]. right. eexists _, []. split_and!; [done|done|]. right. split; [by left|]. by apply (runs_answer (answer := aanswer)).
Qed.
End sample.

Definition sample_durable : DurableRunSummary :=
  mkDurable 1 "run:summary:r1:complete" true (mkSummary 2 "checkout" "run" SummaryComplete 1 1 [] 3 3 0 10 10 10 [] [] 1 2).

Lemma results_settle_before_commit_witness :
  is_Some (watch result_protocol NoRecord (sample_run sample_durable AggregationRuntimeConfig_default)).
Proof.
  exact (results_settle_before_commit AggregationRuntimeConfig_default 2 _ _ (sample_runs sample_durable AggregationRuntimeConfig_default)).
Defined.

Lemma acknowledged_summaries_were_published_witness :
  let c := AggregationRuntimeConfig_default in
  exists limit pending durable,
    Answered (APendingSummaries limit) (Ok pending) ∈ firstn 5 (sample_run sample_durable c) /\ durable ∈ pending
    /\ Answered (APublishSummary (summary_event durable)) (Ok tt) ∈ firstn 5 (sample_run sample_durable c)
    /\ sum_run_id (dur_summary durable) = "run" /\ dur_revision durable = 1.
Proof.
  exact (acknowledged_summaries_were_published AggregationRuntimeConfig_default 2 (firstn 5 (sample_run sample_durable AggregationRuntimeConfig_default))
    (Answered (AAcknowledge "run" 1) (Ok Acknowledged)) (skipn 6 (sample_run sample_durable AggregationRuntimeConfig_default)) None "run" 1
    (sample_runs sample_durable AggregationRuntimeConfig_default) eq_refl).
Defined.
