(* ===== verification/Kafka.v ===== *)
(** * Kafka

    [src/src/infrastructure/kafka/mod.rs]: client settings, what is published and
    what is refused, the decoding of consumed records with the evidence kept of
    poison ones, offset commits fenced against rebalances, and topic readiness.
    [librdkafka], the JSON of [serde] and base64 are parameters. *)

From S2P Require Import Prelude RustStr F64 Contracts Domain Planning Wire Effects.

Definition POISON_REASON_TRUNCATION_MARKER : string := "...[truncated]".
Definition KAFKA_RESPONSE_OVERHEAD_BYTES : Z := 512.

(** ** Client settings *)

Record KafkaProducerConfig := mkProducerConfig {
  queue_capacity_messages : Z;
  message_max_bytes : Z;
  message_timeout : duration;
  delivery_timeout : duration;
  producer_request_timeout : duration;
  acks : string;
  enable_idempotence : bool;
}.

Definition KafkaProducerConfig_default : KafkaProducerConfig :=
  mkProducerConfig 1024 1000000 (from_secs 10) (from_secs 10) (from_secs 5) "all" true.

Definition with_queue_capacity (capacity : Z) : KafkaProducerConfig :=
  mkProducerConfig capacity 1000000 (from_secs 10) (from_secs 10) (from_secs 5) "all" true.

Record KafkaConsumerConfig := mkConsumerConfig {
  max_poll_interval : duration;
  session_timeout : duration;
  consumer_request_timeout : duration;
  prefetch_kib : Z;
  partition_fetch_max_bytes : Z;
  fetch_max_bytes : Z;
  record_max_bytes : Z;
}.

Definition KafkaConsumerConfig_default : KafkaConsumerConfig :=
  mkConsumerConfig (from_secs 300) (from_secs 10) (from_secs 5) 4096 524288 4194304 1000000.

Definition with_prefetch_kib (kib : Z) : KafkaConsumerConfig :=
  mkConsumerConfig (from_secs 300) (from_secs 10) (from_secs 5) kib 524288 4194304 1000000.

Definition kafka_validate_duration (name : string) (d : duration) : result string unit :=
  let milliseconds := as_millis d in
  reject_if (milliseconds =? 0) (name +:+ " must be at least one millisecond");;
  reject_if (i32_max <? milliseconds) (name +:+ " exceeds Kafka's signed 32-bit millisecond limit").

Definition kafka_validate_capacity (name : string) (value : Z) : result string unit :=
  reject_if (value =? 0) (name +:+ " must be greater than zero");;
  reject_if (i32_max <? value) (name +:+ " exceeds Kafka's signed 32-bit limit").

Definition KafkaProducerConfig_validate (self : KafkaProducerConfig) : result string unit :=
  kafka_validate_capacity "Kafka producer queue capacity" (queue_capacity_messages self);;
  kafka_validate_capacity "Kafka producer message max bytes" (message_max_bytes self);;
  kafka_validate_duration "Kafka message timeout" (message_timeout self);;
  kafka_validate_duration "Kafka delivery timeout" (delivery_timeout self);;
  kafka_validate_duration "Kafka request timeout" (producer_request_timeout self);;
  reject_if (negb (message_timeout self =? delivery_timeout self))
    "Kafka message timeout must equal delivery timeout because librdkafka treats message.timeout.ms and delivery.timeout.ms as aliases";;
  reject_if (delivery_timeout self <? producer_request_timeout self) "Kafka request timeout must not exceed delivery timeout";;
  reject_if (negb (bool_decide (acks self = "all") || bool_decide (acks self = "-1")))
    "Kafka producer acks must be 'all' or '-1' for durable disposition publication".

Definition KafkaConsumerConfig_validate (self : KafkaConsumerConfig) : result string unit :=
  kafka_validate_duration "Kafka max poll interval" (max_poll_interval self);;
  kafka_validate_duration "Kafka session timeout" (session_timeout self);;
  kafka_validate_duration "Kafka consumer request timeout" (consumer_request_timeout self);;
  kafka_validate_capacity "Kafka consumer prefetch KiB" (prefetch_kib self);;
  kafka_validate_capacity "Kafka consumer partition fetch max bytes" (partition_fetch_max_bytes self);;
  kafka_validate_capacity "Kafka consumer fetch max bytes" (fetch_max_bytes self);;
  kafka_validate_capacity "Kafka consumer record max bytes" (record_max_bytes self);;
  poison_evidence_bytes ← ok_or (checked_mul usize_max MAX_POISON_EVIDENCE_FIELD_BYTES 2) "Kafka poison evidence byte bound overflowed";
  reject_if (max_poll_interval self <=? session_timeout self) "Kafka session timeout must be less than max poll interval";;
  reject_if (max_poll_interval self <=? consumer_request_timeout self) "Kafka consumer request timeout must be less than max poll interval";;
  reject_if (fetch_max_bytes self <? partition_fetch_max_bytes self)
    "Kafka consumer fetch max bytes must be at least the partition fetch max bytes";;
  reject_if (fetch_max_bytes self <? record_max_bytes self)
    "Kafka consumer fetch max bytes must be at least the consumed-record max bytes";;
  reject_if (record_max_bytes self <? poison_evidence_bytes)
    ("Kafka consumer record max bytes must be at least " +:+ show poison_evidence_bytes
     +:+ " to retain bounded key and payload poison prefixes");;
  _ ← ok_or (bytes ← checked_add usize_max (fetch_max_bytes self) KAFKA_RESPONSE_OVERHEAD_BYTES;
             if bytes <=? i32_max then Some bytes else None)
    "Kafka consumer fetch max bytes leaves no room for protocol response overhead";
  Ok tt.

(** [ClientConfig]: the properties set, in order. *)
Definition producer_client_config (brokers : string) (config : KafkaProducerConfig) : result string (list (string * string)) :=
  KafkaProducerConfig_validate config;;
  Ok [("bootstrap.servers", brokers);
      ("acks", acks config);
      ("enable.idempotence", show_bool (enable_idempotence config));
      ("queue.buffering.max.messages", show (queue_capacity_messages config));
      ("message.max.bytes", show (message_max_bytes config));
      ("message.timeout.ms", show (as_millis (message_timeout config)));
      ("delivery.timeout.ms", show (as_millis (delivery_timeout config)));
      ("request.timeout.ms", show (as_millis (producer_request_timeout config)))].

Definition consumer_client_config (brokers group_id : string) (config : KafkaConsumerConfig) : result string (list (string * string)) :=
  KafkaConsumerConfig_validate config;;
  receive_max_bytes ← ok_or (checked_add usize_max (fetch_max_bytes config) KAFKA_RESPONSE_OVERHEAD_BYTES)
    "Kafka receive-message byte limit overflowed";
  Ok [("bootstrap.servers", brokers);
      ("group.id", group_id);
      ("enable.auto.commit", "false");
      ("enable.auto.offset.store", "false");
      ("enable.partition.eof", "false");
      ("auto.offset.reset", "earliest");
      ("max.poll.interval.ms", show (as_millis (max_poll_interval config)));
      ("session.timeout.ms", show (as_millis (session_timeout config)));
      ("socket.timeout.ms", show (as_millis (consumer_request_timeout config)));
      ("queued.max.messages.kbytes", show (prefetch_kib config));
      ("fetch.message.max.bytes", show (partition_fetch_max_bytes config));
      ("fetch.max.bytes", show (fetch_max_bytes config));
      ("receive.message.max.bytes", show receive_max_bytes)].

(** ** What is published *)

(** [serde_json] on the messages; an error is its text. *)
Class MessageJson := {
  job_json : ScenarioJob -> result string string;
  result_json : ScenarioRunResult -> result string string;
  summary_json : ScenarioRunSummaryEvent -> result string string;
  failed_json : FailedScenarioJob -> result string string;
  poison_json : PoisonMessageRecord -> result string string;
  json_job : list Z -> result string ScenarioJob;
  json_result : list Z -> result string ScenarioRunResult;
}.

(** [while !reason.is_char_boundary(keep) { keep -= 1 }]; 0 is a boundary. *)
Definition bounded_dlq_reason (reason : string) : string :=
  if str_len reason <=? MAX_CONTRACT_ID_BYTES then reason
  else
    let keep := MAX_CONTRACT_ID_BYTES - str_len POISON_REASON_TRUNCATION_MARKER in
    str_truncate reason (char_boundary_at_most (Z.to_nat keep) reason keep) +:+ POISON_REASON_TRUNCATION_MARKER.

Definition validate_dlq_text (field value : string) : result string unit :=
  reject_if (blank value || (MAX_CONTRACT_ID_BYTES <? str_len value)) ("refusing to publish DLQ record with invalid " +:+ field).

Definition validate_dlq_slice (slice : JobSlice) : result string unit :=
  reject_if ((total slice =? 0) || (MAX_CONTRACT_SLICES <? total slice) || (total slice <=? index slice))
    "refusing to publish failed job with invalid slice metadata".

Definition with_failed_reason (job : FailedScenarioJob) (reason : string) : FailedScenarioJob :=
  mkFailed (fail_schema_version job) (fail_event_id job) (fail_scenario_id job) (fail_run_id job) (fail_execution_key job)
    (fail_slice job) (fail_failed_at_unix_ms job) (fail_attempt job) (fail_max_retries job) reason.

Definition with_poison_reason (r : PoisonMessageRecord) (reason : string) : PoisonMessageRecord :=
  mkPoison (poi_schema_version r) (poi_event_id r) (poi_failed_at_unix_ms r) (poi_source_topic r) (poi_source_partition r)
    (poi_source_offset r) (poi_source_key_base64 r) (poi_source_key_original_bytes r) (poi_source_key_truncated r)
    (poi_payload_base64 r) (poi_payload_original_bytes r) (poi_payload_truncated r) reason.

Definition poison_event_id (topic : string) (partition offset : Z) : string :=
  "poison:" +:+ topic +:+ ":" +:+ show partition +:+ ":" +:+ show offset.

Section publish.
Context `{MessageJson} `{Base64}.

Definition serialize_validated_job (job : ScenarioJob) : result string string :=
  map_err (fun error => "refusing to publish invalid scenario job: " +:+ show_ContractError error) (ScenarioJob_validate job);;
  map_err (fun error => "failed to serialize scenario job: " +:+ error) (job_json job).

Definition serialize_validated_result (r : ScenarioRunResult) : result string string :=
  map_err (fun error => "refusing to publish invalid scenario result: " +:+ show_ContractError error) (ScenarioRunResult_validate r);;
  map_err (fun error => "failed to serialize scenario result: " +:+ error) (result_json r).

Definition validate_failed_job (job : FailedScenarioJob) : result string unit :=
  map_err (fun error => "refusing to publish invalid failed job: " +:+ show_ContractError error)
    (validate_contract_version (fail_schema_version job));;
  try_for (fun '(field, value) => validate_dlq_text field value)
    [("scenario_id", fail_scenario_id job); ("run_id", fail_run_id job); ("execution_key", fail_execution_key job);
     ("reason", fail_reason job)];;
  validate_dlq_slice (fail_slice job);;
  reject_if ((fail_max_retries job <? fail_attempt job) || (MAX_CONTRACT_ATTEMPT <? fail_max_retries job))
    "refusing to publish failed job with invalid attempt metadata";;
  if 2 <=? fail_schema_version job then
    validate_dlq_text "event_id" (fail_event_id job);;
    reject_if (negb (bool_decide (fail_event_id job = build_terminal_event_id (fail_execution_key job) (fail_attempt job) "dlq")))
      "refusing to publish failed job with a non-deterministic event_id"
  else Ok tt.

Definition serialize_validated_failed_job (job : FailedScenarioJob) : result string string :=
  let job := with_failed_reason job (bounded_dlq_reason (fail_reason job)) in
  validate_failed_job job;;
  map_err (fun error => "failed to serialize failed scenario job: " +:+ error) (failed_json job).

Definition validate_poison_evidence_for_publish (schema_version : Z) (field : string) (encoded : option string)
    (original_bytes : option Z) (truncated : bool) : result string unit :=
  match encoded with
  | None =>
      reject_if (bool_decide (is_Some original_bytes) || truncated) ("invalid poison " +:+ field +:+ " evidence metadata")
  | Some encoded =>
      let exceeds := "poison " +:+ field +:+ " evidence exceeds its prefix bound" in
      let max_encoded_bytes := (MAX_POISON_EVIDENCE_FIELD_BYTES + 2) / 3 * 4 in
      reject_if (max_encoded_bytes <? str_len encoded) exceeds;;
      decoded ← map_err (fun error => "invalid poison " +:+ field +:+ " base64: " +:+ error) (b64_decode encoded);
      let retained_bytes := Z.of_nat (length decoded) in
      reject_if (MAX_POISON_EVIDENCE_FIELD_BYTES <? retained_bytes) exceeds;;
      match original_bytes with
      | None => reject_if (negb ((schema_version <? 2) && negb truncated)) ("poison " +:+ field +:+ " evidence lacks its original byte count")
      | Some original_bytes =>
          reject_if ((truncated && (original_bytes <=? retained_bytes)) || (negb truncated && negb (original_bytes =? retained_bytes)))
            ("poison " +:+ field +:+ " evidence length metadata is inconsistent")
      end
  end.

Definition validate_poison (record : PoisonMessageRecord) : result string unit :=
  map_err (fun error => "refusing to publish invalid poison record: " +:+ show_ContractError error)
    (validate_contract_version (poi_schema_version record));;
  try_for (fun '(field, value) => validate_dlq_text field value)
    [("event_id", poi_event_id record); ("source_topic", poi_source_topic record); ("reason", poi_reason record)];;
  reject_if ((poi_source_partition record <? 0) || (poi_source_offset record <? 0))
    "refusing to publish poison record with invalid source coordinates";;
  reject_if (negb (bool_decide (poi_event_id record
      = poison_event_id (poi_source_topic record) (poi_source_partition record) (poi_source_offset record))))
    "refusing to publish poison record with a non-deterministic event_id";;
  validate_poison_evidence_for_publish (poi_schema_version record) "source_key" (poi_source_key_base64 record)
    (poi_source_key_original_bytes record) (poi_source_key_truncated record);;
  validate_poison_evidence_for_publish (poi_schema_version record) "payload" (poi_payload_base64 record)
    (poi_payload_original_bytes record) (poi_payload_truncated record).

Definition serialize_validated_poison (record : PoisonMessageRecord) : result string string :=
  let record := with_poison_reason record (bounded_dlq_reason (poi_reason record)) in
  validate_poison record;;
  map_err (fun error => "failed to serialize poison message record: " +:+ error) (poison_json record).
End publish.

(** ** Consumed records *)

Definition byte_len (bytes : list Z) : Z := Z.of_nat (length bytes).

Record BoundedPoisonEvidence := mkEvidence {
  prefix : option (list Z);
  original_bytes : option Z;
  truncated : bool;
}.

Definition capture (value : option (list Z)) : BoundedPoisonEvidence :=
  match value with
  | None => mkEvidence None None false
  | Some value =>
      let retained_bytes := Z.min (byte_len value) MAX_POISON_EVIDENCE_FIELD_BYTES in
      mkEvidence (Some (take (Z.to_nat retained_bytes) value)) (Some (Z.min (byte_len value) u64_max))
        (retained_bytes <? byte_len value)
  end.

Definition consumed_record_size (source_key payload : option (list Z)) : result ContractError Z :=
  let key_bytes := from_option byte_len 0 source_key in
  let payload_bytes := from_option byte_len 0 payload in
  ok_or (checked_add usize_max key_bytes payload_bytes)
    (Malformed ("Kafka record byte length overflowed (key=" +:+ show key_bytes +:+ ", payload=" +:+ show payload_bytes +:+ ")")).

Definition enforce_consumed_record_size (source_key payload : option (list Z)) (record_max_bytes : Z) : result ContractError unit :=
  observed ← consumed_record_size source_key payload;
  let key_bytes := from_option byte_len 0 source_key in
  let payload_bytes := from_option byte_len 0 payload in
  reject_if (record_max_bytes <? observed)
    (Malformed ("Kafka record exceeds configured " +:+ show record_max_bytes +:+ "-byte consumer limit (total=" +:+ show observed
                +:+ ", key=" +:+ show key_bytes +:+ ", payload=" +:+ show payload_bytes +:+ ")")).

Section consume.
Context `{MessageJson} `{Base64}.

Definition decode_job (payload : option (list Z)) : result ContractError ScenarioJob :=
  payload ← ok_or payload (Malformed "Kafka message has no payload");
  job ← map_err (fun err => Malformed ("invalid scenario job JSON: " +:+ err)) (json_job payload);
  ScenarioJob_validate job;;
  Ok job.

Definition decode_result (payload : option (list Z)) : result ContractError ScenarioRunResult :=
  payload ← ok_or payload (Malformed "Kafka result has no payload");
  r ← map_err (fun error => Malformed ("invalid scenario result JSON: " +:+ error)) (json_result payload);
  ScenarioRunResult_validate r;;
  Ok r.

Definition decode_consumed_job (source_key payload : option (list Z)) (record_max_bytes : Z) : result ContractError ScenarioJob :=
  enforce_consumed_record_size source_key payload record_max_bytes;;
  decode_job payload.

Definition decode_consumed_result (source_key payload : option (list Z)) (record_max_bytes : Z) : result ContractError ScenarioRunResult :=
  enforce_consumed_record_size source_key payload record_max_bytes;;
  decode_result payload.

Definition poison_record_from_evidence (topic : string) (partition offset : Z) (source_key payload : BoundedPoisonEvidence)
    (reason : string) (now_unix_ms : Z) : PoisonMessageRecord := {|
  poi_schema_version := CURRENT_CONTRACT_VERSION;
  poi_event_id := poison_event_id topic partition offset;
  poi_failed_at_unix_ms := now_unix_ms;
  poi_source_topic := topic;
  poi_source_partition := partition;
  poi_source_offset := offset;
  poi_source_key_base64 := b64_encode <$> prefix source_key;
  poi_source_key_original_bytes := original_bytes source_key;
  poi_source_key_truncated := truncated source_key;
  poi_payload_base64 := b64_encode <$> prefix payload;
  poi_payload_original_bytes := original_bytes payload;
  poi_payload_truncated := truncated payload;
  poi_reason := bounded_dlq_reason reason;
|}.
End consume.

(** ** The client *)

(** A record as librdkafka hands it over. *)
Record Message := mkMessage {
  msg_topic : string;
  msg_partition : Z;
  msg_offset : Z;
  msg_key : option (list Z);
  msg_payload : option (list Z);
}.

(** Calls into librdkafka, [KJoin], the end of a blocking task, and [KElapsed],
    the time since the task began; an error is its text. *)
Inductive kcall :=
| KSend (topic key payload : string) (queue_timeout : duration)
| KRecv
| KEpoch
| KAssignment
| KBuildOffsets (topic : string) (partition offset : Z)
| KCommit (topic : string) (partition offset : Z)
| KNewClient (properties : list (string * string))
| KSubscribe (topic : string)
| KCreateTopics (topics : list (string * Z * Z))
| KMetadata (topic : option string) (timeout : duration)
| KElapsed
| KJoin.

(** What a cluster reports of a topic, and how a topic's creation may fail. *)
Record PartitionReadinessMetadata := mkPartition {
  part_id : Z;
  part_leader : Z;
  part_error : option string;
}.

Record TopicReadinessMetadata := mkTopic {
  top_name : string;
  top_error : option string;
  top_partitions : list PartitionReadinessMetadata;
}.

Record Metadata := mkMetadata {
  meta_brokers : Z;
  meta_topics : list TopicReadinessMetadata;
}.

Inductive topic_outcome :=
| TopicCreated
| TopicAlreadyExists
| TopicFailed (topic code : string).

Definition kanswer (c : kcall) : Type :=
  match c with
  | KRecv => result string Message
  | KEpoch => Z
  | KAssignment => result string (list (string * Z))
  | KSend _ _ _ _ | KBuildOffsets _ _ _ | KCommit _ _ _ | KNewClient _ | KSubscribe _ | KJoin => result string unit
  | KCreateTopics _ => result string (list topic_outcome)
  | KMetadata _ _ => result string Metadata
  | KElapsed => duration
  end.

Notation kprog := (prog kanswer).

Definition kcall_of (c : kcall) : kprog (kanswer c) := Call c Ret.

(** [?] on the error of a call. *)
Definition ktry {A B} (text : string -> string) (m : kprog (result string A)) (f : A -> kprog (result string B)) : kprog (result string B) :=
  r ← m; match r with Ok a => f a | Err e => Ret (Err (text e)) end.

Record KafkaPublisher := mkPublisher { topic : string; queue_timeout : duration }.

(** Of each of the publishers. *)
Definition publisher_new_with_config (brokers topic : string) (config : KafkaProducerConfig) : kprog (result string KafkaPublisher) :=
  let queue_timeout := delivery_timeout config in
  ktry id (Ret (producer_client_config brokers config)) (fun client =>
  ktry (fun e => "failed to create Kafka producer: " +:+ e) (kcall_of (KNewClient client)) (fun _ =>
  Ret (Ok (mkPublisher topic queue_timeout)))).

(** A consumer is subscribed to its topic when it is made; [what] is how its
    errors call it. *)
Record KafkaConsumer := mkConsumer { consumer_topic : string; consumer_record_max : Z }.

Definition consumer_new_with_config (what subscribed : string) (brokers group_id topic : string) (config : KafkaConsumerConfig)
    : kprog (result string KafkaConsumer) :=
  ktry id (Ret (consumer_client_config brokers group_id config)) (fun client =>
  ktry (fun error => "failed to create Kafka " +:+ what +:+ ": " +:+ error) (kcall_of (KNewClient client)) (fun _ =>
  ktry (fun error => "failed to subscribe " +:+ subscribed +:+ ": " +:+ error) (kcall_of (KSubscribe topic)) (fun _ =>
  Ret (Ok (mkConsumer topic (record_max_bytes config)))))).

Definition job_consumer_new := consumer_new_with_config "consumer" "topic".
Definition result_consumer_new := consumer_new_with_config "result consumer" "result topic".

Section publishers.
Context `{MessageJson} `{Base64}.
Variable self : KafkaPublisher.

(** [producer.send(...).await.map_err(...)] of a payload that serialized. *)
Definition send_payload (key what : string) (payload : result string string) : kprog (result string unit) :=
  match payload with
  | Err e => Ret (Err e)
  | Ok payload =>
      outcome ← kcall_of (KSend (topic self) key payload (queue_timeout self));
      Ret (map_err (fun e => "failed to publish " +:+ what +:+ ": " +:+ e) outcome)
  end.

Definition publish_job (key : string) (job : ScenarioJob) : kprog (result string unit) :=
  send_payload key "job" (serialize_validated_job job).

Definition publish_result (r : ScenarioRunResult) : kprog (result string unit) :=
  send_payload (res_execution_key r) "result" (serialize_validated_result r).

Definition publish_failed_job (key : string) (job : FailedScenarioJob) : kprog (result string unit) :=
  if negb (bool_decide (key = fail_execution_key job)) then Ret (Err "refusing to publish failed job under a non-execution key")
  else send_payload key "dead-letter job" (serialize_validated_failed_job job).

Definition publish_poison (record : PoisonMessageRecord) : kprog (result string unit) :=
  send_payload (poi_event_id record) "poison message" (serialize_validated_poison record).

Definition publish_summary (event : ScenarioRunSummaryEvent) : kprog (result string unit) :=
  send_payload (sum_run_id (evt_summary event)) "run summary"
    (map_err (fun error => "failed to serialize run summary: " +:+ error) (summary_json event)).
End publishers.

(** ** Receiving and committing *)

(** [RebalanceFence::pre_rebalance]: [fetch_add] wraps. *)
Definition pre_rebalance (epoch : Z) : Z := (epoch + 1) mod 2 ^ 64.

Record Consumed (A : Type) := mkConsumed {
  con_topic : string;
  con_partition : Z;
  con_offset : Z;
  con_source_key : BoundedPoisonEvidence;
  con_payload : BoundedPoisonEvidence;
  con_decoded : result ContractError A;
  con_rebalance_epoch : Z;
}.
Arguments mkConsumed {A}.
Arguments con_topic {A}.
Arguments con_partition {A}.
Arguments con_offset {A}.
Arguments con_source_key {A}.
Arguments con_payload {A}.
Arguments con_decoded {A}.
Arguments con_rebalance_epoch {A}.

Section receive.
Context `{MessageJson}.

Definition recv {A} (what : string) (decode : option (list Z) -> option (list Z) -> Z -> result ContractError A)
    (record_max_bytes : Z) : kprog (result string (option (Consumed A))) :=
  r ← kcall_of KRecv;
  match r with
  | Err e => Ret (Err (what +:+ e))
  | Ok msg =>
      rebalance_epoch ← kcall_of KEpoch;
      Ret (Ok (Some (mkConsumed (msg_topic msg) (msg_partition msg) (msg_offset msg) (capture (msg_key msg)) (capture (msg_payload msg))
                       (decode (msg_key msg) (msg_payload msg) record_max_bytes) rebalance_epoch)))
  end.

Definition recv_job := recv "Kafka receive error: " decode_consumed_job.
Definition recv_result := recv "Kafka result receive error: " decode_consumed_result.
End receive.

(** The partition is ours and no rebalance was seen since the record came. *)
Definition check_fence (consumed_epoch : Z) (topic : string) (partition : Z)
    (raced : Z -> string) (inspect : string -> string) (revoked : string) : kprog (result string unit) :=
  current_epoch ← kcall_of KEpoch;
  if negb (current_epoch =? consumed_epoch) then Ret (Err (raced current_epoch))
  else
    assignment ← kcall_of KAssignment;
    Ret (assignment ← map_err inspect assignment;
         reject_if (negb (bool_decide ((topic, partition) ∈ assignment))) revoked).

(** The closure given to [spawn_blocking]: it is not cancelled with the task that
    waits for it. *)
Definition commit_blocking (consumed_epoch : Z) (topic : string) (partition next_offset : Z) : kprog (result string unit) :=
  let place := topic +:+ "[" +:+ show partition +:+ "]" in
  let epochs current := "consumed epoch " +:+ show consumed_epoch +:+ ", current epoch " +:+ show current in
  before ← check_fence consumed_epoch topic partition
    (fun current => "refusing Kafka offset commit after rebalance: " +:+ epochs current)
    (fun error => "failed to inspect Kafka assignment before commit: " +:+ error)
    ("refusing Kafka offset commit for revoked assignment " +:+ place);
  match before with
  | Err e => Ret (Err e)
  | Ok _ =>
      offsets ← kcall_of (KBuildOffsets topic partition next_offset);
      match offsets with
      | Err error => Ret (Err ("failed to build Kafka commit offset: " +:+ error))
      | Ok _ =>
          committed ← kcall_of (KCommit topic partition next_offset);
          after ← check_fence consumed_epoch topic partition
            (fun current => "Kafka rebalance raced with offset commit acknowledgement: " +:+ epochs current)
            (fun error => "failed to inspect Kafka assignment after commit: " +:+ error)
            ("Kafka assignment " +:+ place +:+ " was revoked during commit acknowledgement");
          Ret (after;; map_err (fun error => "failed to commit Kafka message: " +:+ error) committed)
      end
  end.

Definition commit_offset (consumed_epoch : Z) (topic : string) (partition offset : Z) : kprog (result string unit) :=
  match (if offset + 1 <=? i64_max then Some (offset + 1) else None) with
  | None => Ret (Err "cannot commit Kafka offset because it overflowed")
  | Some next_offset =>
      outcome ← commit_blocking consumed_epoch topic partition next_offset;
      joined ← kcall_of KJoin;
      Ret (map_err (fun error => "Kafka commit task failed: " +:+ error) joined;; outcome)
  end.

Definition commit {A} (self : Consumed A) : kprog (result string unit) :=
  commit_offset (con_rebalance_epoch self) (con_topic self) (con_partition self) (con_offset self).

Definition poison_record `{Base64} {A} (self : Consumed A) (reason : string) (now_unix_ms : Z) : PoisonMessageRecord :=
  poison_record_from_evidence (con_topic self) (con_partition self) (con_offset self) (con_source_key self) (con_payload self)
    reason now_unix_ms.

(** ** Topic readiness *)

(** [for (index, x) in l.iter().enumerate()] with [l[..index]] in sight. *)
Definition try_indexed {E A} (f : list A -> A -> result E unit) (l : list A) : result E unit :=
  try_for (fun index => match l !! index with Some x => f (take index l) x | None => Ok tt end) (seq 0 (length l)).

Definition validate_partition (required : string) (earlier : list PartitionReadinessMetadata) (partition : PartitionReadinessMetadata)
    : result string unit :=
  let who := "required Kafka topic '" +:+ required +:+ "'" in
  let id := show (part_id partition) in
  reject_if (part_id partition <? 0) (who +:+ " has invalid partition id " +:+ id);;
  reject_if (existsb (fun existing => part_id existing =? part_id partition) earlier) (who +:+ " has duplicate partition id " +:+ id);;
  match part_error partition with
  | Some error => Err (who +:+ " partition " +:+ id +:+ " has metadata error " +:+ error)
  | None => Ok tt
  end;;
  reject_if (part_leader partition <? 0) (who +:+ " partition " +:+ id +:+ " has no leader").

Definition validate_required_topic (observed : list TopicReadinessMetadata) (earlier : list string) (required : string)
    : result string unit :=
  let who := "required Kafka topic '" +:+ required +:+ "'" in
  reject_if (bool_decide (required ∈ earlier)) ("duplicate Kafka required topic '" +:+ required +:+ "'");;
  match List.filter (fun topic => bool_decide (top_name topic = required)) observed with
  | [] => Err (who +:+ " is missing")
  | [topic] =>
      match top_error topic with
      | Some error => Err (who +:+ " has metadata error " +:+ error)
      | None => Ok tt
      end;;
      reject_if (bool_decide (length (top_partitions topic) = 0%nat)) (who +:+ " has no partitions");;
      try_indexed (validate_partition required) (top_partitions topic)
  | _ => Err ("Kafka metadata contained duplicate entries for required topic '" +:+ required +:+ "'")
  end.

Definition validate_required_topic_metadata (required_topics : list string) (observed : list TopicReadinessMetadata)
    : result string unit :=
  try_indexed (validate_required_topic observed) required_topics.

(** The end of [spawn_blocking(..).await.map_err(..)?]. *)
Definition join_blocking {A} (text : string -> string) (m : kprog (result string A)) : kprog (result string A) :=
  outcome ← m;
  joined ← kcall_of KJoin;
  Ret (map_err text joined;; outcome).

Definition probe_brokers (brokers : string) (probe_timeout : duration) : kprog (result string unit) :=
  join_blocking (fun error => "Kafka metadata probe task failed: " +:+ error)
    (ktry (fun error => "failed to create Kafka readiness client: " +:+ error) (kcall_of (KNewClient [("bootstrap.servers", brokers)])) (fun _ =>
     ktry (fun error => "Kafka metadata probe failed: " +:+ error) (kcall_of (KMetadata None probe_timeout)) (fun metadata =>
     Ret (reject_if (meta_brokers metadata =? 0) "Kafka metadata probe returned no brokers")))).

(** The metadata of the topics in order, each asked for in what remains of the time. *)
Fixpoint observe_topics (probe_timeout : duration) (required_topics : list string) (observed : list TopicReadinessMetadata)
    : kprog (result string (list TopicReadinessMetadata)) :=
  match required_topics with
  | [] => Ret (Ok observed)
  | required_topic :: required_topics =>
      elapsed ← kcall_of KElapsed;
      match (if elapsed <=? probe_timeout then Some (probe_timeout - elapsed) else None) with
      | Some remaining =>
          if duration_is_zero remaining then Ret (Err ("Kafka required-topic probe exceeded its " +:+ show (as_millis probe_timeout) +:+ " ms deadline"))
          else
            let who := "Kafka metadata probe for topic '" +:+ required_topic +:+ "'" in
            ktry (fun error => who +:+ " failed: " +:+ error) (kcall_of (KMetadata (Some required_topic) remaining)) (fun metadata =>
            if meta_brokers metadata =? 0 then Ret (Err (who +:+ " returned no brokers"))
            else observe_topics probe_timeout required_topics
                   (observed ++ List.filter (fun topic => bool_decide (top_name topic = required_topic)) (meta_topics metadata)))
      | None => Ret (Err ("Kafka required-topic probe exceeded its " +:+ show (as_millis probe_timeout) +:+ " ms deadline"))
      end
  end.

Definition probe_required_topics (brokers : string) (required_topics : list string) (probe_timeout : duration) : kprog (result string unit) :=
  join_blocking (fun error => "Kafka required-topic probe task failed: " +:+ error)
    (if bool_decide (length required_topics = 0%nat) then Ret (Err "Kafka required-topic probe received no topics")
     else
       ktry (fun error => "failed to create Kafka topic readiness client: " +:+ error)
         (kcall_of (KNewClient [("bootstrap.servers", brokers); ("allow.auto.create.topics", "false")])) (fun _ =>
       observed ← observe_topics probe_timeout required_topics [];
       Ret (observed ← observed; validate_required_topic_metadata required_topics observed))).

Definition ensure_topics (brokers : string) (topics : list (string * Z * Z)) : kprog (result string unit) :=
  ktry (fun e => "failed to create Kafka admin client: " +:+ e) (kcall_of (KNewClient [("bootstrap.servers", brokers)])) (fun _ =>
  let new_topics := map (fun '(name, partitions, replication) => (name, partitions, Z.max replication 1)) topics in
  ktry (fun e => "failed to create Kafka topics: " +:+ e) (kcall_of (KCreateTopics new_topics)) (fun results =>
  Ret (try_for (fun outcome => match outcome with
                               | TopicCreated | TopicAlreadyExists => Ok tt
                               | TopicFailed topic code => Err ("failed to ensure Kafka topic " +:+ topic +:+ ": " +:+ code)
                               end) results))).
