(* ===== verification/KafkaProperties.v ===== *)
(** * What the Kafka adapter guarantees

    Evidence captured of a consumed record can always be published, and an offset
    whose commit succeeds was committed for a record of the current assignment; and
    topics that pass the readiness probe can serve. *)

From S2P Require Import Prelude RustStr F64 Contracts Domain Planning Wire Effects Kafka.

(** ** Poison evidence *)

(** What the adapter relies on of the base64 engine (RFC 4648 with padding). *)
Class Base64Laws `{Base64} := {
  b64_round_trip bytes : Forall (fun b => 0 <= b < 256) bytes -> b64_decode (b64_encode bytes) = Ok bytes;
  b64_len bytes : str_len (b64_encode bytes) = (byte_len bytes + 2) / 3 * 4;
}.

Lemma bounded_dlq_reason_len reason : str_len (bounded_dlq_reason reason) <= MAX_CONTRACT_ID_BYTES.
Proof.
  unfold bounded_dlq_reason. destruct (Z.leb_spec (str_len reason) MAX_CONTRACT_ID_BYTES) as [|H]; [done|].
  change (MAX_CONTRACT_ID_BYTES - str_len POISON_REASON_TRUNCATION_MARKER) with 1010. cbv zeta.
  destruct (char_boundary_at_most_spec (Z.to_nat 1010) reason 1010 ltac:(lia)) as (Hr & _ & _).
  unfold MAX_CONTRACT_ID_BYTES in *. rewrite str_len_app, str_len_substring by lia.
  change (str_len POISON_REASON_TRUNCATION_MARKER) with 14. lia.
Qed.

Lemma bounded_dlq_reason_idemp reason : bounded_dlq_reason (bounded_dlq_reason reason) = bounded_dlq_reason reason.
Proof.
  pose proof (bounded_dlq_reason_len reason) as Hl. set (r := bounded_dlq_reason reason) in *.
  unfold bounded_dlq_reason. by rewrite (proj2 (Z.leb_le _ _) Hl).
Qed.

Lemma bounded_dlq_reason_not_blank reason : blank reason = false -> blank (bounded_dlq_reason reason) = false.
Proof.
  intros Hb. unfold bounded_dlq_reason. destruct (str_len reason <=? MAX_CONTRACT_ID_BYTES); [done|]. cbv zeta.
  apply (has_not_blank "."); [done..|]. rewrite has_app. apply orb_true_iff. by right.
Qed.

Lemma validate_dlq_text_Ok field value :
  blank value = false -> str_len value <= MAX_CONTRACT_ID_BYTES -> validate_dlq_text field value = Ok tt.
Proof. intros Hb Hl. unfold validate_dlq_text. rewrite Hb. by rewrite (proj2 (Z.ltb_ge _ _) Hl). Qed.

Section evidence.
Context `{MessageJson} `{Base64Laws}.

Lemma evidence_valid field bytes original (tr : bool) :
  Forall (fun b => 0 <= b < 256) bytes -> byte_len bytes <= MAX_POISON_EVIDENCE_FIELD_BYTES ->
  (if tr then byte_len bytes < original else original = byte_len bytes) ->
  validate_poison_evidence_for_publish CURRENT_CONTRACT_VERSION field (Some (b64_encode bytes)) (Some original) tr = Ok tt.
Proof.
  intros Hb Hm Ho. unfold validate_poison_evidence_for_publish. rewrite b64_len, b64_round_trip by done.
  unfold reject_if at 1. rewrite (proj2 (Z.ltb_ge _ _)) by (apply Z.mul_le_mono_nonneg_r; [lia|]; apply Z.div_le_mono; lia).
  simpl. unfold reject_if at 1. fold (byte_len bytes). rewrite (proj2 (Z.ltb_ge _ _) Hm). simpl.
  destruct tr; simpl; [by rewrite (proj2 (Z.leb_gt _ _) Ho)|]. by rewrite Ho, Z.eqb_refl.
Qed.

Lemma captured_evidence_valid field value :
  Forall (fun b => 0 <= b < 256) (default [] value) ->
  validate_poison_evidence_for_publish CURRENT_CONTRACT_VERSION field (b64_encode <$> prefix (capture value))
    (original_bytes (capture value)) (truncated (capture value)) = Ok tt.
Proof.
  destruct value as [bytes|]; [|done]. cbn [default from_option id]. intros Hb.
  set (n := Z.min (byte_len bytes) MAX_POISON_EVIDENCE_FIELD_BYTES).
  assert (byte_len (take (Z.to_nat n) bytes) = n) as Hn.
  { unfold byte_len in *. rewrite length_take. unfold n, MAX_POISON_EVIDENCE_FIELD_BYTES. lia. }
  apply evidence_valid; [by apply Forall_take|change (byte_len (take (Z.to_nat n) bytes) <= MAX_POISON_EVIDENCE_FIELD_BYTES); lia|].
  cbn [capture truncated]. fold n. rewrite Hn. unfold n, MAX_POISON_EVIDENCE_FIELD_BYTES.
  destruct (Z.ltb_spec (Z.min (byte_len bytes) (256 * 1024)) (byte_len bytes)); lia.
Qed.

Lemma poison_event_id_ok t partition offset :
  str_len t <= 249 -> 0 <= partition <= i32_max -> 0 <= offset <= i64_max ->
  validate_dlq_text "event_id" (poison_event_id t partition offset) = Ok tt.
Proof.
  intros Ht Hp Ho. pose proof (show_len 10 partition ltac:(lia) ltac:(lia)). pose proof (show_len 19 offset ltac:(lia) ltac:(lia)).
  apply validate_dlq_text_Ok; [by apply (has_not_blank "p")|]. unfold poison_event_id, MAX_CONTRACT_ID_BYTES.
  rewrite !str_len_app. change (str_len "poison:") with 7. change (str_len ":") with 1. lia.
Qed.

(** C32: the poison record a consumer makes of a record it could not decode is
    never refused by the dead-letter publisher: whatever the key and the payload
    were, however long, and however long the reason, the record is serialized
    exactly as it was made.  Topic names follow Kafka's limit of 249 bytes. *)
Theorem consumed_poison_is_publishable {A} (c : Consumed A) (key payload : option (list Z)) reason now :
  con_source_key c = capture key -> con_payload c = capture payload ->
  Forall (fun b => 0 <= b < 256) (default [] key) -> Forall (fun b => 0 <= b < 256) (default [] payload) ->
  blank (con_topic c) = false -> str_len (con_topic c) <= 249 ->
  0 <= con_partition c <= i32_max -> 0 <= con_offset c <= i64_max -> blank reason = false ->
  serialize_validated_poison (poison_record c reason now)
  = map_err (fun error => "failed to serialize poison message record: " +:+ error) (poison_json (poison_record c reason now)).
Proof.
  intros Ek Ep Hk Hp Hbt Hlt Hpart Hoff Hr.
  assert (with_poison_reason (poison_record c reason now) (bounded_dlq_reason (poi_reason (poison_record c reason now)))
          = poison_record c reason now) as E.
  { unfold with_poison_reason, poison_record, poison_record_from_evidence. cbn -[bounded_dlq_reason].
    by rewrite bounded_dlq_reason_idemp. }
  unfold serialize_validated_poison. rewrite E. clear E.
  enough (validate_poison (poison_record c reason now) = Ok tt) as -> by done.
  unfold validate_poison, poison_record, poison_record_from_evidence. rewrite Ek, Ep.
  cbn -[validate_dlq_text bounded_dlq_reason poison_event_id validate_poison_evidence_for_publish capture].
  rewrite poison_event_id_ok, (validate_dlq_text_Ok "source_topic"), (validate_dlq_text_Ok "reason")
    by (eauto using bounded_dlq_reason_not_blank, bounded_dlq_reason_len; unfold MAX_CONTRACT_ID_BYTES; lia).
  cbn -[bounded_dlq_reason poison_event_id validate_poison_evidence_for_publish capture].
  rewrite (proj2 (Z.ltb_ge _ _) (proj1 Hpart)), (proj2 (Z.ltb_ge _ _) (proj1 Hoff)), bool_decide_true by done.
  cbn -[poison_event_id validate_poison_evidence_for_publish capture]. by rewrite !captured_evidence_valid.
Qed.
End evidence.

(** ** Commits are fenced *)

Section fence.
Notation kobs := (obs kanswer).
Implicit Types (tr : list kobs).

(** A history of the consumer: the calls that were seen, with the rebalances that
    librdkafka announced between them. *)
Inductive kevent :=
| Seen (x : kobs)
| Rebalanced.

Definition seen (h : list kevent) : list kobs := omap (fun e => match e with Seen x => Some x | Rebalanced => None end) h.
Definition rebalances (h : list kevent) : Z := byte_len (omap (fun e => match e with Rebalanced => Some 0 | Seen _ => None end) h).

(** Every read of the epoch gives what [pre_rebalance] made of it so far. *)
Fixpoint consistent (epoch : Z) (h : list kevent) : Prop :=
  match h with
  | [] => True
  | Rebalanced :: h => consistent (pre_rebalance epoch) h
  | Seen x :: h =>
      match x with
      | Answered c r => (match c return kanswer c -> Prop with KEpoch => fun r => r = epoch | _ => fun _ => True end) r
      | Dropped _ => True
      end /\ consistent epoch h
  end.

(** The two checks of a commit and what lies between them. *)
Definition fence_passed (epoch : Z) (t : string) (partition : Z) (tr : list kobs) : Prop :=
  exists assignment, (t, partition) ∈ assignment
    /\ tr = [Answered KEpoch epoch; Answered KAssignment (Ok assignment)].

Lemma check_fence_Ok epoch t partition raced inspect revoked tr :
  runs (check_fence epoch t partition raced inspect revoked) tr (Some (Ok tt)) -> fence_passed epoch t partition tr.
Proof.
  intros [[_ [=]]|[[_ [=]]|(e & tr1 & -> & Hr)]]. simpl in Hr.
  destruct (Z.eqb_spec e epoch) as [->|]; simpl in Hr; [|by destruct Hr as [_ [=]]].
  destruct Hr as [[_ [=]]|[[_ [=]]|(a & tr2 & -> & Hr)]]. destruct Hr as [-> Hr]. injection Hr as Hr.
  destruct a as [a|]; simpl in Hr; [|done]. case_bool_decide; simpl in Hr; [|done]. by exists a.
Qed.

Lemma runs_call_inv {A} c (f : kanswer c -> prog kanswer A) tr o :
  runs (kcall_of c ≫= f) tr o -> tr = [] \/ tr = [Dropped c] \/ exists r t, tr = Answered c r :: t /\ runs (f r) t o.
Proof. intros [[-> _]|[[-> _]|(r & t & -> & Hr)]]; eauto 6. Qed.

Lemma runs_call_done {A} c (f : kanswer c -> prog kanswer A) tr b :
  runs (kcall_of c ≫= f) tr (Some b) -> exists r t, tr = Answered c r :: t /\ runs (f r) t (Some b).
Proof. intros [[_ [=]]|[[_ [=]]|(r & t & -> & Hr)]]. by exists r, t. Qed.

Lemma commit_blocking_Ok epoch t partition next tr :
  runs (commit_blocking epoch t partition next) tr (Some (Ok tt)) ->
  exists before after, fence_passed epoch t partition before /\ fence_passed epoch t partition after
    /\ tr = before ++ [Answered (KBuildOffsets t partition next) (Ok tt); Answered (KCommit t partition next) (Ok tt)] ++ after.
Proof.
  intros (r1 & before & t1 & -> & Hbefore & Hr)%runs_bind_done. destruct r1 as [[]|]; [|by destruct Hr as [_ [=]]].
  apply runs_call_done in Hr as (r2 & t2 & -> & Hr). destruct r2 as [[]|]; [|by destruct Hr as [_ [=]]].
  apply runs_call_done in Hr as (r3 & t3 & -> & Hr). apply runs_bind_done in Hr as (r4 & after & t4 & -> & Hafter & [-> Hr]).
  destruct r4 as [[]|], r3 as [[]|]; try done. exists before, after. rewrite app_nil_r. eauto using check_fence_Ok.
Qed.

Lemma seen_split h t1 x t2 : seen h = t1 ++ x :: t2 -> exists h1 h2, h = h1 ++ Seen x :: h2 /\ seen h1 = t1.
Proof.
  revert t1. induction h as [|e h IH]; intros t1 Hs; [by destruct t1|]. destruct e as [y|]; cbn in Hs.
  - destruct t1 as [|z t1]; injection Hs as -> Hs; [by exists [], h|].
    destruct (IH t1 Hs) as (h1 & h2 & -> & <-). by exists (Seen z :: h1), h2.
  - destruct (IH t1 Hs) as (h1 & h2 & -> & <-). by exists (Rebalanced :: h1), h2.
Qed.

Lemma rebalances_cons e h : rebalances (e :: h) = (match e with Rebalanced => 1 | Seen _ => 0 end) + rebalances h.
Proof. unfold rebalances, byte_len. destruct e; cbn; lia. Qed.

Lemma rebalances_nonneg h : 0 <= rebalances h.
Proof. unfold rebalances, byte_len. lia. Qed.

Lemma rebalances_app h1 h2 : rebalances (h1 ++ h2) = rebalances h1 + rebalances h2.
Proof. induction h1 as [|e h1 IH]; [done|]. rewrite <- app_comm_cons, !rebalances_cons, IH. lia. Qed.

Lemma rebalances_none h : rebalances h = 0 -> Rebalanced ∉ h.
Proof.
  induction h as [|e h IH]; intros Hn; [by intros ?%not_elem_of_nil|]. rewrite rebalances_cons in Hn.
  pose proof (rebalances_nonneg h). destruct e; [|lia]. intros [[=]|Hin]%elem_of_cons. revert Hin. apply IH. lia.
Qed.

Lemma consistent_app epoch h1 h2 :
  0 <= epoch < 2 ^ 64 -> consistent epoch (h1 ++ h2) -> consistent ((epoch + rebalances h1) mod 2 ^ 64) h2.
Proof.
  revert epoch. induction h1 as [|e h1 IH]; intros epoch He Hc.
  - change (rebalances []) with 0. by rewrite Z.add_0_r, Z.mod_small.
  - rewrite rebalances_cons. destruct e; cbn in Hc; [rewrite Z.add_0_l; by apply IH, Hc|].
    apply IH in Hc; [|apply Z.mod_pos_bound; lia]. unfold pre_rebalance in Hc.
    rewrite Z.add_mod_idemp_l in Hc by lia. by rewrite Z.add_assoc.
Qed.

(** The epoch reads the same only if no rebalance came in between. *)
Lemma same_epoch_no_rebalance epoch h1 h2 :
  0 <= epoch < 2 ^ 64 -> rebalances h1 < 2 ^ 64 -> consistent epoch (h1 ++ Seen (Answered KEpoch epoch) :: h2) -> Rebalanced ∉ h1.
Proof.
  intros He Hn Hc. apply consistent_app in Hc as [Hc _]; [|done]. cbn in Hc. apply rebalances_none.
  pose proof (rebalances_nonneg h1). destruct (Z.lt_ge_cases (epoch + rebalances h1) (2 ^ 64)).
  - rewrite Z.mod_small in Hc by lia. lia.
  - assert ((epoch + rebalances h1) mod 2 ^ 64 = epoch + rebalances h1 - 2 ^ 64) as E
      by (symmetry; apply Z.mod_unique_pos with 1; lia). lia.
Qed.

(** The broker is asked to commit, whatever comes of it. *)
Definition asks_commit (x : kobs) : option (string * Z * Z) :=
  match x with
  | Answered (KCommit t partition next) _ | Dropped (KCommit t partition next) => Some (t, partition, next)
  | _ => None
  end.

Definition no_commit (x : kobs) : Prop := asks_commit x = None.

Lemma check_fence_quiet epoch t partition raced inspect revoked tr o :
  runs (check_fence epoch t partition raced inspect revoked) tr o -> Forall no_commit tr.
Proof.
  intros [[-> _]|[[-> _]|(e & tr1 & -> & Hr)]]; [by repeat constructor..|]. constructor; [done|]. simpl in Hr.
  destruct (e =? epoch); simpl in Hr; [|by destruct Hr as [-> _]].
  destruct Hr as [[-> _]|[[-> _]|(a & tr2 & -> & [-> _])]]; by repeat constructor.
Qed.

(** Requests to commit come right after a passed fence, and are for one offset. *)
Definition commits_fenced (epoch : Z) (t : string) (partition next : Z) (tr : list kobs) : Prop :=
  forall t1 x t2 request, tr = t1 ++ x :: t2 -> asks_commit x = Some request ->
    request = (t, partition, next)
    /\ exists before, fence_passed epoch t partition before /\ t1 = before ++ [Answered (KBuildOffsets t partition next) (Ok tt)].

Lemma no_commit_fenced epoch t partition next tr : Forall no_commit tr -> commits_fenced epoch t partition next tr.
Proof.
  intros Hn t1 x t2 request -> Hx. apply Forall_app in Hn as [_ Hn]. apply Forall_cons in Hn as [Hn _].
  unfold no_commit in Hn. congruence.
Qed.

(** One request, in its place. *)
Lemma one_commit_fenced epoch t partition next before x rest :
  fence_passed epoch t partition before -> asks_commit x = Some (t, partition, next) -> Forall no_commit rest ->
  commits_fenced epoch t partition next (before ++ Answered (KBuildOffsets t partition next) (Ok tt) :: x :: rest).
Proof.
  intros Hb Hx Hrest t1 y t2 request E Hy. pose proof Hb as (a & _ & Eb). rewrite Eb in E.
  destruct t1 as [|y1 t1]; simpl in E; [injection E as <- _; done|].
  destruct t1 as [|y2 t1]; simpl in E; [injection E as _ <- _; done|].
  destruct t1 as [|y3 t1]; simpl in E; [injection E as _ _ <- _; done|]. destruct t1 as [|y4 t1]; simpl in E.
  - injection E as <- <- <- <- <-. split; [congruence|]. exists before. split; [done|]. by rewrite Eb.
  - injection E as _ _ _ _ ->. apply Forall_app in Hrest as [_ Hn]. apply Forall_cons in Hn as [Hn _].
    unfold no_commit in Hn. congruence.
Qed.

Lemma commit_blocking_fenced epoch t partition next tr o rest :
  runs (commit_blocking epoch t partition next) tr o -> Forall no_commit rest ->
  commits_fenced epoch t partition next (tr ++ rest).
Proof.
  intros Hr Hrest. apply runs_bind in Hr as [[Hf _]|(r1 & before & t1 & Hf & Hr & ->)].
  { apply no_commit_fenced, Forall_app. eauto using check_fence_quiet. }
  pose proof (check_fence_quiet _ _ _ _ _ _ _ _ Hf) as Hq. rewrite <- app_assoc.
  destruct r1 as [[]|]; [|destruct Hr as [-> _]; by apply no_commit_fenced, Forall_app]. apply check_fence_Ok in Hf.
  apply runs_call_inv in Hr as [->|[->|(r2 & t2 & -> & Hr)]];
    [by apply no_commit_fenced, Forall_app|by apply no_commit_fenced, Forall_app; split; [|constructor]|].
  destruct r2 as [[]|]; [|destruct Hr as [-> _]; by apply no_commit_fenced, Forall_app; split; [|constructor]].
  apply runs_call_inv in Hr as [->|[->|(r3 & t3 & -> & Hr)]];
    [by apply no_commit_fenced, Forall_app; split; [|constructor]|by apply one_commit_fenced|].
  simpl. apply one_commit_fenced; [done..|]. apply Forall_app. split; [|done].
  apply runs_bind in Hr as [[Ha _]|(r4 & after & t4 & Ha & [-> _] & ->)]; [|rewrite app_nil_r]; eauto using check_fence_quiet.
Qed.

(** C16: offset commits are fenced against rebalances.  Whatever librdkafka
    answers and wherever the task is dropped, the broker is asked to commit only
    right after the epoch was found unchanged and the partition assigned, and then
    for the offset after the record's.  When the commit reports success, the broker
    acknowledged it, the partition was still assigned afterwards, and no rebalance
    happened from the moment the record's epoch was read to the final check. *)
Theorem committed_offset_was_fenced {A} (c : Consumed A) :
  0 <= con_rebalance_epoch c < 2 ^ 64 ->
  let next := con_offset c + 1 in
  let passed := fence_passed (con_rebalance_epoch c) (con_topic c) (con_partition c) in
  (forall tr o, runs (commit c) tr o -> commits_fenced (con_rebalance_epoch c) (con_topic c) (con_partition c) next tr)
  /\ (forall h, consistent (con_rebalance_epoch c) h -> rebalances h < 2 ^ 64 -> runs (commit c) (seen h) (Some (Ok tt)) ->
      next <= i64_max
      /\ exists h1 h2 before after, passed before /\ passed after /\ h = h1 ++ h2 /\ Rebalanced ∉ h1
           /\ seen h1 = before ++ [Answered (KBuildOffsets (con_topic c) (con_partition c) next) (Ok tt);
                                  Answered (KCommit (con_topic c) (con_partition c) next) (Ok tt)]
           /\ seen h2 = after ++ [Answered KJoin (Ok tt)]).
Proof.
  intros He next passed. unfold commit, commit_offset. fold next. split.
  - intros tr o. destruct (next <=? i64_max); [|by intros [-> _]; apply no_commit_fenced].
    intros [[Hb _]|(out & t1 & t2 & Hb & Hj & ->)]%runs_bind.
    + rewrite <- (app_nil_r tr). by eapply commit_blocking_fenced.
    + eapply commit_blocking_fenced; [done|]. destruct Hj as [[-> _]|[[-> _]|(r & t3 & -> & [-> _])]]; by repeat constructor.
  - intros h Hc Hn. destruct (Z.leb_spec next i64_max); [|by intros [_ [=]]].
    intros (out & t1 & t2 & Es & Hb & Hj)%runs_bind_done. split; [done|].
    apply runs_call_done in Hj as (r & t3 & -> & [-> Hj]). destruct r as [[]|], out as [[]|]; try done.
    apply commit_blocking_Ok in Hb as (before & after & Hbefore & Hafter & ->).
    pose proof Hafter as (a & _ & Ea). rewrite Ea, <- !app_assoc in Es. simpl in Es.
    destruct (seen_split h (before ++ [Answered (KBuildOffsets (con_topic c) (con_partition c) next) (Ok tt);
        Answered (KCommit (con_topic c) (con_partition c) next) (Ok tt)]) (Answered KEpoch (con_rebalance_epoch c))
        [Answered KAssignment (Ok a); Answered KJoin (Ok tt)]) as (h1 & h2 & -> & Hs1); [by rewrite Es, <- app_assoc|].
    exists h1, (Seen (Answered KEpoch (con_rebalance_epoch c)) :: h2), before, after. split_and!; try done.
    + eapply same_epoch_no_rebalance; [done| |done]. rewrite rebalances_app in Hn. pose proof (rebalances_nonneg (Seen (Answered KEpoch (con_rebalance_epoch c)) :: h2)). lia.
    + unfold seen in *. rewrite omap_app, Hs1 in Es. rewrite <- app_assoc in Es. apply app_inv_head in Es. injection Es as Es.
      rewrite Ea. simpl. by rewrite Es.
Qed.
End fence.

(** ** Topic readiness *)

Lemma try_indexed_Ok {E A} (f : list A -> A -> result E unit) l :
  try_indexed f l = Ok tt <-> forall i x, l !! i = Some x -> f (take i l) x = Ok tt.
Proof.
  unfold try_indexed. rewrite try_for_Ok, Forall_forall. split.
  - intros Hf i x Hi. specialize (Hf i). rewrite Hi in Hf. apply Hf, elem_of_seq. apply lookup_lt_Some in Hi. lia.
  - intros Hf i _. destruct (l !! i) eqn:Hi; [by apply Hf|done].
Qed.

(** No element repeats an earlier one. *)
Lemma NoDup_by_prefix {A B} (f : A -> B) (l : list A) :
  NoDup (f <$> l) <-> forall i x, l !! i = Some x -> f x ∉ f <$> take i l.
Proof.
  split.
  - intros Hn i x Hi Hin. rewrite <- (take_drop_middle l i x Hi), fmap_app in Hn.
    apply NoDup_app in Hn as (_ & Hd & _). by eapply Hd; [|by left].
  - induction l as [|x l IH] using rev_ind; intros Hf; [constructor|]. rewrite fmap_app. apply NoDup_app. split_and!.
    + apply IH. intros i y Hi. pose proof (lookup_lt_Some _ _ _ Hi).
      specialize (Hf i y). rewrite take_app_le in Hf by lia. apply Hf. by apply lookup_app_l_Some.
    + intros y Hy Hx. apply list_elem_of_singleton in Hx as ->.
      specialize (Hf (length l) x). rewrite take_app_length, lookup_app_r, Nat.sub_diag in Hf by lia. by apply Hf.
    + apply NoDup_singleton.
Qed.

(** A topic that can serve: no error, partitions with distinct ids, each with a
    leader. *)
Definition topic_ready (topic : TopicReadinessMetadata) : Prop :=
  top_error topic = None /\ top_partitions topic <> [] /\ NoDup (part_id <$> top_partitions topic)
  /\ Forall (fun p => 0 <= part_id p /\ part_error p = None /\ 0 <= part_leader p) (top_partitions topic).

Lemma no_error_Ok {E} (o : option string) (e : string -> E) :
  match o with Some error => Err (e error) | None => Ok tt end = Ok tt <-> o = None.
Proof. by destruct o. Qed.

Lemma validate_partition_Ok required earlier p :
  validate_partition required earlier p = Ok tt
  <-> part_id p ∉ part_id <$> earlier /\ 0 <= part_id p /\ part_error p = None /\ 0 <= part_leader p.
Proof.
  unfold validate_partition. rewrite !then_Ok, no_error_Ok, !reject_if_Ok, !Z.ltb_ge.
  assert (existsb (fun existing => part_id existing =? part_id p) earlier = false <-> part_id p ∉ part_id <$> earlier) as ->; [|tauto].
  rewrite list_elem_of_fmap, <- not_true_iff_false, existsb_exists. setoid_rewrite <- list_elem_of_In. setoid_rewrite Z.eqb_eq.
  naive_solver.
Qed.

Lemma validate_required_topic_Ok observed earlier required :
  validate_required_topic observed earlier required = Ok tt
  <-> required ∉ earlier
      /\ exists topic, List.filter (fun topic => bool_decide (top_name topic = required)) observed = [topic] /\ topic_ready topic.
Proof.
  unfold validate_required_topic. rewrite then_Ok, reject_if_Ok, bool_decide_eq_false. apply and_iff_compat_l.
  destruct (List.filter _ observed) as [|topic [|topic2 rest]]; [naive_solver| |naive_solver].
  rewrite !then_Ok, no_error_Ok, reject_if_Ok, bool_decide_eq_false, length_zero_iff_nil, try_indexed_Ok.
  setoid_rewrite validate_partition_Ok. trans (topic_ready topic); [|naive_solver].
  unfold topic_ready. rewrite NoDup_by_prefix, Forall_lookup. naive_solver.
Qed.

(** Metadata is accepted exactly when the required topics are distinct and it
    holds exactly one entry for each of them, for a topic that can serve. *)
Lemma topics_ready_exactly required observed :
  validate_required_topic_metadata required observed = Ok tt
  <-> NoDup required
      /\ Forall (fun name => exists topic,
           List.filter (fun topic => bool_decide (top_name topic = name)) observed = [topic] /\ topic_ready topic) required.
Proof.
  unfold validate_required_topic_metadata. rewrite try_indexed_Ok. setoid_rewrite validate_required_topic_Ok.
  pose proof (NoDup_by_prefix id required) as Hn. setoid_rewrite list_fmap_id in Hn. rewrite Hn, Forall_lookup. naive_solver.
Qed.

Section probe.
Notation kobs := (obs kanswer).

Lemma runs_ktry_Ok {A B} text (m : prog kanswer (result string A)) (f : A -> prog kanswer (result string B)) tr b :
  runs (ktry text m f) tr (Some (Ok b)) -> exists a t1 t2, tr = t1 ++ t2 /\ runs m t1 (Some (Ok a)) /\ runs (f a) t2 (Some (Ok b)).
Proof.
  intros (r & t1 & t2 & -> & Hm & Hr)%runs_bind_done. destruct r as [a|]; [|by destruct Hr as [_ [=]]]. by exists a, t1, t2.
Qed.

Lemma runs_one_call c tr r : runs (kcall_of c) tr (Some r) -> tr = [Answered c r].
Proof. intros [[_ [=]]|[[_ [=]]|(r' & t & -> & [-> [= ->]])]]. done. Qed.

(** The broker reported this topic when asked for it by name, with time left. *)
Definition reported (tr : list kobs) (topic : TopicReadinessMetadata) : Prop :=
  exists remaining metadata, 0 < remaining
    /\ Answered (KMetadata (Some (top_name topic)) remaining) (Ok metadata) ∈ tr /\ topic ∈ meta_topics metadata.

Lemma reported_mono tr tr' topic : tr ⊆ tr' -> reported tr topic -> reported tr' topic.
Proof. intros Hs (remaining & metadata & Hr & Ha & Ht). exists remaining, metadata. auto. Qed.

Lemma observe_topics_Ok probe_timeout required observed tr topics :
  runs (observe_topics probe_timeout required observed) tr (Some (Ok topics)) ->
  forall topic, topic ∈ topics -> topic ∈ observed \/ reported tr topic.
Proof.
  revert observed tr. induction required as [|name required IH]; intros observed tr Hr topic Ht.
  - destruct Hr as [_ [= ->]]. by left.
  - apply runs_call_done in Hr as (elapsed & t1 & -> & Hr). simpl in Hr.
    destruct (elapsed <=? probe_timeout) eqn:He; [|by destruct Hr as [_ [=]]].
    destruct (duration_is_zero (probe_timeout - elapsed)) eqn:Hz; [by destruct Hr as [_ [=]]|].
    apply runs_ktry_Ok in Hr as (metadata & u1 & u2 & -> & ->%(runs_one_call (KMetadata _ _)) & Hr).
    destruct (meta_brokers metadata =? 0); [by destruct Hr as [_ [=]]|].
    destruct (IH _ _ Hr topic Ht) as [[Hin|Hin]%elem_of_app|Hrep]; [by left|right|right].
    + apply list_elem_of_In, filter_In in Hin as [Hin <-%bool_decide_eq_true]. apply list_elem_of_In in Hin.
      unfold duration_is_zero in Hz. exists (probe_timeout - elapsed), metadata. split_and!; [lia|set_solver|done].
    + eapply reported_mono; [|exact Hrep]. set_solver.
Qed.

Lemma probe_reports_ready brokers required probe_timeout tr :
  runs (probe_required_topics brokers required probe_timeout) tr (Some (Ok tt)) ->
  required <> [] /\ NoDup required
  /\ Forall (fun name => exists topic, top_name topic = name /\ reported tr topic /\ topic_ready topic) required.
Proof.
  intros Hrun. apply runs_bind_done in Hrun as (outcome & t1 & t2 & -> & Hrun & Hj).
  apply runs_call_done in Hj as (joined & t3 & -> & [-> Hj]). destruct joined as [[]|], outcome as [[]|]; try done.
  case_bool_decide as Hempty; [by destruct Hrun as [_ [=]]|].
  split; [intros ->; by apply Hempty|].
  apply runs_ktry_Ok in Hrun as ([] & u1 & u2 & -> & _ & Hrun).
  apply runs_bind_done in Hrun as (topics & u3 & u4 & -> & Hobs & [-> Hv]). destruct topics as [topics|]; [|done].
  injection Hv as Hv. symmetry in Hv. apply topics_ready_exactly in Hv as [Hn Hall]. split; [done|].
  eapply Forall_impl; [exact Hall|]. intros name (topic & Hf & Hready).
  assert (In topic (List.filter (fun topic => bool_decide (top_name topic = name)) topics)) as Hin by (rewrite Hf; by left).
  apply filter_In in Hin as [Hin Hname%bool_decide_eq_true]. exists topic. split; [done|]. split; [|done].
  destruct (observe_topics_Ok _ _ _ _ _ Hobs topic) as [?%not_elem_of_nil|Hrep]; [by apply list_elem_of_In|done|].
  eapply reported_mono; [|exact Hrep]. set_solver.
Qed.
(** When the readiness probe succeeds, the topics can serve.  It was given
    topics, all distinct, and the brokers, asked for each of them by name with time
    left on the one deadline, reported it without an error, with at least one
    partition, the partitions having distinct nonnegative ids, no error and a
    leader. *)
Theorem probed_topics_can_serve brokers required probe_timeout tr
    (Hrun : runs (probe_required_topics brokers required probe_timeout) tr (Some (Ok tt))) :
  required <> [] /\ NoDup required
  /\ Forall (fun name => exists topic, top_name topic = name /\ reported tr topic /\ topic_ready topic) required.
Proof. by eapply probe_reports_ready. Qed.
End probe.

(** ** Samples *)

(** An engine that keeps the laws: each group of up to three bytes becomes four
    characters, the bytes themselves and how many they are. *)
Section sample_engine.
Definition ch (b : Z) : ascii := ascii_of_N (Z.to_N b).

Fixpoint pack (bytes : list Z) : string :=
  match bytes with
  | a :: b :: c :: rest => String (ch a) (String (ch b) (String (ch c) (String "3" (pack rest))))
  | [a; b] => String (ch a) (String (ch b) "_2")
  | [a] => String (ch a) "__1"
  | [] => EmptyString
  end.

Fixpoint unpack (s : string) : list Z :=
  match s with
  | String a (String b (String c (String n rest))) =>
      (if Ascii.eqb n "3" then [byte_of a; byte_of b; byte_of c] else if Ascii.eqb n "2" then [byte_of a; byte_of b] else [byte_of a])
      ++ unpack rest
  | _ => []
  end.

#[local] Instance packing : Base64 := {| b64_encode := pack; b64_decode s := Ok (unpack s) |}.

Lemma byte_of_ch b : 0 <= b < 256 -> byte_of (ch b) = b.
Proof. intros Hb. unfold byte_of, ch. rewrite N_ascii_embedding by lia. lia. Qed.

Lemma unpack_pack bytes : Forall (fun b => 0 <= b < 256) bytes -> unpack (pack bytes) = bytes.
Proof.
  induction bytes as [bytes IH] using (induction_ltof1 _ (@length Z)); intros Hb. unfold ltof in IH.
  destruct bytes as [|a [|b [|c rest]]]; [done|..]; rewrite ?Forall_cons in Hb; cbn [pack unpack];
    rewrite ?byte_of_ch by tauto; [done..|]. rewrite IH; [done|simpl; lia|tauto].
Qed.

Lemma pack_len bytes : str_len (pack bytes) = (byte_len bytes + 2) / 3 * 4.
Proof.
  induction bytes as [bytes IH] using (induction_ltof1 _ (@length Z)). unfold ltof in IH.
  destruct bytes as [|a [|b [|c rest]]]; [done..|].
  assert (byte_len (a :: b :: c :: rest) + 2 = byte_len rest + 2 + 1 * 3) as -> by (unfold byte_len; simpl; lia).
  rewrite Z.div_add by lia. assert (str_len (pack (a :: b :: c :: rest)) = 4 + str_len (pack rest)) as -> by (unfold str_len; simpl; lia).
  rewrite IH by (simpl; lia). lia.
Qed.

#[local] Instance packing_laws : Base64Laws.
Proof. split; [intros bytes Hb; simpl; by rewrite unpack_pack|apply pack_len]. Qed.

#[local] Instance silent_json : MessageJson := {|
  job_json _ := Ok "job"; result_json _ := Ok "result"; summary_json _ := Ok "summary"; failed_json _ := Ok "failed";
  poison_json _ := Ok "poison"; json_job _ := Err "no job"; json_result _ := Err "no result" |}.

(** A record of 300 000 bytes that is no job. *)
Definition huge_payload : list Z := replicate (Z.to_nat 300000) 123.

Definition huge_record : Consumed ScenarioJob :=
  mkConsumed "jobs" 0 41 (capture None) (capture (Some huge_payload)) (Err (Malformed "no job")) 7.

Lemma consumed_poison_is_publishable_witness :
  truncated (con_payload huge_record) = true
  /\ serialize_validated_poison (poison_record huge_record "malformed" 5)
     = map_err (fun error => "failed to serialize poison message record: " +:+ error) (poison_json (poison_record huge_record "malformed" 5)).
Proof.
  split.
  - unfold huge_record, huge_payload. cbn [con_payload capture truncated]. unfold byte_len. rewrite length_replicate, Z2Nat.id by lia. reflexivity.
  - apply (consumed_poison_is_publishable huge_record None (Some huge_payload) "malformed" 5);
      [exact eq_refl|exact eq_refl|constructor|apply Forall_replicate; lia|exact eq_refl|discriminate|split; discriminate|split; discriminate
      |exact eq_refl].
Defined.

(** The epoch stands at 7; a rebalance comes after the final check. *)
Definition calm_history : list kevent :=
  [Seen (Answered KEpoch 7); Seen (Answered KAssignment (Ok [("jobs", 0)]));
   Seen (Answered (KBuildOffsets "jobs" 0 42) (Ok tt)); Seen (Answered (KCommit "jobs" 0 42) (Ok tt));
   Seen (Answered KEpoch 7); Rebalanced; Seen (Answered KAssignment (Ok [("jobs", 0); ("jobs", 1)])); Seen (Answered KJoin (Ok tt))].

Lemma calm_commit_runs : runs (commit huge_record) (seen calm_history) (Some (Ok tt)).
Proof.
  do 7 (apply (runs_answer (answer := kanswer))). by split.
Qed.

Lemma committed_offset_was_fenced_witness :
  (forall tr o, runs (commit huge_record) tr o -> commits_fenced 7 "jobs" 0 42 tr)
  /\ exists h1 h2, calm_history = h1 ++ h2 /\ Rebalanced ∉ h1 /\ Answered (KCommit "jobs" 0 42) (Ok tt) ∈ seen h1.
Proof.
  destruct (committed_offset_was_fenced huge_record) as [Hall Hok]; [split; [discriminate|reflexivity]|]. split; [exact Hall|].
  destruct (Hok calm_history) as (_ & h1 & h2 & before & after & _ & _ & E & Hn & Hs & _).
  - repeat split.
  - reflexivity.
  - exact calm_commit_runs.
  - exists h1, h2. split; [exact E|]. split; [exact Hn|]. rewrite Hs. set_solver.
Defined.

(** One topic with one partition, reported in time. *)
Definition jobs_topic : TopicReadinessMetadata := mkTopic "jobs" None [mkPartition 0 1 None].

Definition ready_probe : list (obs kanswer) :=
  [Answered (KNewClient [("bootstrap.servers", "b:9092"); ("allow.auto.create.topics", "false")]) (Ok tt); Answered KElapsed 0;
   Answered (KMetadata (Some "jobs") (from_secs 1)) (Ok (mkMetadata 1 [jobs_topic])); Answered KJoin (Ok tt)].

Lemma ready_probe_runs : runs (probe_required_topics "b:9092" ["jobs"] (from_secs 1)) ready_probe (Some (Ok tt)).
Proof. do 4 (apply (runs_answer (answer := kanswer))). by split. Qed.

Lemma probed_topics_can_serve_witness :
  NoDup ["jobs"] /\ Forall (fun name => exists topic, top_name topic = name /\ reported ready_probe topic /\ topic_ready topic) ["jobs"].
Proof. exact (proj2 (probed_topics_can_serve "b:9092" ["jobs"] (from_secs 1) ready_probe ready_probe_runs)). Defined.
End sample_engine.
