(* ===== verification/Runtime.v ===== *)
(** * The process

    [src/src/main.rs]: from the configuration to running components and back. The
    scenarios are loaded, checked and planned offline; a dry run prints the plans
    and ends. Otherwise Redis, Kafka and the targets are awaited within the startup
    deadline, the clients and the stores are made, and the node and the
    aggregator are started beside a task that goes on probing the dependencies. A
    signal, or a component that ends, makes the process drain and stop. The health
    flags it sets are those of [Health]; the clients, the clock, the signal, the
    shutdown channel and the spawned components are calls. Logging is left out. *)

From S2P Require Import Prelude RustStr F64 Contracts Domain Planning Aggregation Coordination Metrics Effects Wire Gateway Template Runner Worker Scenarios Config Startup Leader Dispatch ExecutionLease RunStore Aggregator Kafka Health.

(** ** Settings of the clients and the stores *)

Definition aggregation_runtime_config (config : AppConfig) : AggregationRuntimeConfig := {|
  scan_interval := aggregation_scan_interval config;
  scan_batch_limit := aggregation_scan_batch config;
  outbox_batch_limit := aggregation_scan_batch config;
  agg_shutdown_drain_timeout := app_shutdown_drain_timeout config;
  agg_max_processing_interval := kafka_safe_processing_interval config |}.

Definition producer_config (config : AppConfig) : KafkaProducerConfig := {|
  queue_capacity_messages := producer_queue_messages config;
  message_max_bytes := kafka_producer_message_max_bytes config;
  message_timeout := kafka_message_timeout config;
  delivery_timeout := kafka_delivery_timeout config;
  producer_request_timeout := kafka_request_timeout config;
  acks := kafka_producer_acks config;
  enable_idempotence := kafka_producer_idempotence config |}.

Definition consumer_config (config : AppConfig) : KafkaConsumerConfig := {|
  max_poll_interval := kafka_max_poll_interval config;
  session_timeout := kafka_session_timeout config;
  consumer_request_timeout := kafka_request_timeout config;
  prefetch_kib := consumer_queue_kbytes config;
  partition_fetch_max_bytes := consumer_partition_fetch_max_bytes config;
  fetch_max_bytes := consumer_fetch_max_bytes config;
  record_max_bytes := consumer_record_max_bytes config |}.

Definition runtime_elector (config : AppConfig) : RedisLeaderElector :=
  leader_elector_new (redis_leader_key config) (app_node_id config) (leader_lock_ttl_ms config).

Definition runtime_dispatch_store (config : AppConfig) : RedisDueStateStore :=
  let store := due_store_new (redis_schedule_prefix config) in
  if aggregation_enabled config
  then with_aggregation_registration store (redis_aggregation_prefix config) (aggregation_partial_timeout config)
         (aggregation_retention config) (aggregation_max_active_runs config)
  else store.

Definition runtime_execution_store (config : AppConfig) : RedisIdempotencyStore :=
  mkIdemStore (redis_idempotency_prefix config) (execution_lease_ttl config) (execution_terminal_retention config).

Definition runtime_aggregation_store (config : AppConfig) : result RunAggregationStoreError RedisRunAggregationStore :=
  store ← run_store_new (redis_aggregation_prefix config) (aggregation_partial_timeout config) (aggregation_retention config);
  store ← with_operation_timeout store (redis_operation_timeout config);
  store ← with_max_error_kinds store (aggregation_max_error_kinds config);
  store ← with_max_active_runs store (aggregation_max_active_runs config);
  with_max_scan_limit store (aggregation_scan_batch config).

Record InitializedAggregation := mkInitializedAggregation {
  agg_store : RedisRunAggregationStore;
  agg_consumer : KafkaConsumer;
  agg_publisher : KafkaPublisher;
}.

Record InitializedRuntime (W : Type) := mkInitialized {
  rt_elector : RedisLeaderElector;
  rt_dispatch_store : RedisDueStateStore;
  rt_execution_store : RedisIdempotencyStore;
  rt_job_publisher : KafkaPublisher;
  rt_result_publisher : KafkaPublisher;
  rt_dlq_publisher : KafkaPublisher;
  rt_job_consumer : KafkaConsumer;
  rt_aggregation : option InitializedAggregation;
  rt_plans : list (ScenarioExecutionPlan W);
}.
#[global] Arguments mkInitialized {W}.
#[global] Arguments rt_elector {W}.
#[global] Arguments rt_dispatch_store {W}.
#[global] Arguments rt_execution_store {W}.
#[global] Arguments rt_job_publisher {W}.
#[global] Arguments rt_result_publisher {W}.
#[global] Arguments rt_dlq_publisher {W}.
#[global] Arguments rt_job_consumer {W}.
#[global] Arguments rt_aggregation {W}.
#[global] Arguments rt_plans {W}.

(** ** What a dry run prints *)

(** [{:?}] of a [Duration]: whole units and the fraction without its trailing
    zeros, in the largest unit that is not zero. *)
Fixpoint drop_trailing_zeros (digits : nat) (fraction : Z) : nat * Z :=
  match digits with
  | O => (O, fraction)
  | S digits' => if fraction mod 10 =? 0 then drop_trailing_zeros digits' (fraction / 10) else (digits, fraction)
  end.

Definition show_decimal (whole fraction : Z) (digits : nat) : string :=
  match drop_trailing_zeros digits fraction with
  | (O, _) => show whole
  | (digits, fraction) =>
      let text := show fraction in show whole +:+ "." +:+ zeros (Z.of_nat digits - str_len text) +:+ text
  end.

Definition debug_duration (d : duration) : string :=
  if 1000000000 <=? d then show_decimal (d / 1000000000) (d mod 1000000000) 9 +:+ "s"
  else if 1000000 <=? d then show_decimal (d / 1000000) (d mod 1000000) 6 +:+ "ms"
  else if 1000 <=? d then show_decimal (d / 1000) (d mod 1000) 3 +:+ String "194" (String "181" "s")
  else show d +:+ "ns".

Definition debug_repeat (r : RepeatPolicy) : string :=
  match r with
  | Once => "Once"
  | Every interval => "Every(" +:+ debug_duration interval +:+ ")"
  end.

Definition dry_run_slice (total : Z) (index : nat) (load : JobLoadConfig) : string :=
  "  slice=" +:+ show (Z.of_nat index) +:+ "/" +:+ show total
  +:+ " scenarios_per_sec=" +:+ show_fixed 12 (scenarios_per_sec load)
  +:+ " max_concurrency=" +:+ show (max_concurrency load)
  +:+ " startup_burst=" +:+ show (startup_burst load)
  +:+ " duration_ms=" +:+ show (as_millis (load_duration load)).

Definition dry_run_plan {W} (global_startup_burst : Z) (plan : ScenarioExecutionPlan W) : list string :=
  let scenario := plan_scenario plan in
  let loads := planned_slice_loads scenario global_startup_burst in
  let total := Z.of_nat (length loads) in
  ("scenario=" +:+ scenario_name scenario +:+ " endpoint=" +:+ cfg_endpoint (config scenario)
   +:+ " duration_ms=" +:+ show (as_millis (cfg_duration (config scenario)))
   +:+ " repeat=" +:+ debug_repeat (cfg_repeat (config scenario)) +:+ " slices=" +:+ show total)
  :: imap (dry_run_slice total) loads.

Definition print_dry_run {W} (plans : list (ScenarioExecutionPlan W)) (global_startup_burst : Z) : list string :=
  "Pulse dry run (no target traffic, Kafka, or Redis operations):" :: concat (map (dry_run_plan global_startup_burst) plans).

(** ** Calls *)

Section runtime.
Context {W : Type} `{Generators W} `{Base64} `{JsonText} `{UrlParsers}.

Inductive rcall :=
| RHealth (field : health_field) (ready : bool)
| RKafka (c : kcall)
| RRedisConnect
| RRedisPing
| RReadFile (path : string)
| ROfflineGateway (endpoint descriptor_path : string) (request_timeout : duration)
| RConnectGateway (endpoint descriptor_path : string) (connect_timeout request_timeout : duration)
| RSleep (d : duration)
| RShutdown
| RShutdownChanged
| RSendShutdown
| RSignal
| RPeerFailed
| RSpawnServer (bind : string)
| RServerExit
| RAbortServer
| RSpawnNode (config : NodeRuntimeConfig) (plans : list (ScenarioExecutionPlan W))
| RSpawnAggregator (config : AggregationRuntimeConfig) (aggregation : InitializedAggregation)
| RJoinNext
| RAbortAll
| RPrint (line : string)
| RForever.

(** [RShutdownChanged] answers whether the sender is gone. [RPeerFailed] answers
    with the error of the other side of a [try_join!], once it has failed.
    [RJoinNext] and [RServerExit] answer when a component or the server has
    ended. *)
Definition ranswer (c : rcall) : Type :=
  match c with
  | RKafka c => kanswer c
  | RHealth _ _ | RSleep _ | RSendShutdown | RSignal | RSpawnServer _ | RAbortServer | RSpawnNode _ _ | RSpawnAggregator _ _
  | RAbortAll | RPrint _ => unit
  | RRedisConnect | RRedisPing => result string unit
  | RReadFile _ => result string (list Z)
  | ROfflineGateway _ _ _ | RConnectGateway _ _ _ _ => result string (DynamicGrpcGateway W)
  | RShutdown | RShutdownChanged => bool
  | RPeerFailed | RServerExit => string
  | RJoinNext => option (result string (result string string))
  | RForever => Empty_set
  end.

Notation rprog := (prog ranswer).

Definition rcall_of (c : rcall) : rprog (ranswer c) := Call c Ret.
Definition process_forever {A} : rprog A := Call RForever (fun r : Empty_set => match r with end).

(** [?]. *)
Definition rtry {A B} (m : rprog (result string A)) (f : A -> rprog (result string B)) : rprog (result string B) :=
  r ← m; match r with Ok a => f a | Err e => mret (Err e) end.

Definition kafka {A} (p : prog kanswer A) : rprog A := interp (pass (answer2 := ranswer) RKafka (fun _ r => r)) p.

(** [tokio::time::timeout]. *)
Definition with_timeout {A} (d : duration) (p : rprog A) : rprog (option A) :=
  select (a ← p; mret (Some a)) (rcall_of (RSleep d);; mret None).

(** [tokio::try_join!] of two: the first error ends both. *)
Definition try_join {A B} (p : rprog (result string A)) (q : rprog (result string B)) : rprog (result string (A * B)) :=
  Both (select p (e ← rcall_of RPeerFailed; mret (Err e))) (select q (e ← rcall_of RPeerFailed; mret (Err e)))
    (fun a b => mret (a ← a; b ← b; Ok (a, b))).

Fixpoint set_health (stores : list (health_field * bool)) : rprog unit :=
  match stores with
  | [] => mret tt
  | (field, ready) :: stores => rcall_of (RHealth field ready);; set_health stores
  end.

(** ** Waiting *)

Definition process_wait_or_shutdown (delay : duration) : rprog (result string unit) :=
  stop ← rcall_of RShutdown;
  if stop : bool then mret (Err "shutdown requested") else
  select (rcall_of (RSleep delay);; mret (Ok tt))
         (gone ← rcall_of RShutdownChanged;
          if gone : bool then mret (Err "shutdown signal channel closed") else
          stop ← rcall_of RShutdown;
          mret (if stop : bool then Err "shutdown requested" else Ok tt)).

Fixpoint shutdown_changes (fuel : nat) : rprog unit :=
  match fuel with
  | O => process_forever
  | S fuel' =>
      gone ← rcall_of RShutdownChanged;
      if gone : bool then mret tt else
      stop ← rcall_of RShutdown;
      if stop : bool then mret tt else shutdown_changes fuel'
  end.

Definition wait_for_shutdown (fuel : nat) : rprog unit :=
  stop ← rcall_of RShutdown;
  if stop : bool then mret tt else shutdown_changes fuel.

(** The loops that probe until they succeed, half a second apart. *)
Fixpoint until_ready {A} (fuel : nat) (probe : rprog (option A)) : rprog (result string A) :=
  match fuel with
  | O => process_forever
  | S fuel' =>
      ready ← probe;
      match ready with
      | Some a => mret (Ok a)
      | None => rtry (process_wait_or_shutdown (from_millis 500)) (fun _ => until_ready fuel' probe)
      end
  end.

Definition ok {A} (r : result string A) : option A := match r with Ok a => Some a | Err _ => None end.

Definition redis_probe : rprog (result string unit) :=
  rtry (rcall_of RRedisConnect) (fun _ => rcall_of RRedisPing).

Definition wait_for_redis (fuel : nat) : rprog (result string unit) :=
  until_ready fuel (r ← with_timeout (from_secs 2) redis_probe; mret (r ≫= ok)).

Definition wait_for_kafka (fuel : nat) (brokers : string) (probe_timeout : duration) : rprog (result string unit) :=
  until_ready fuel (r ← kafka (probe_brokers brokers probe_timeout); mret (ok r)).

Definition ensure_topics_with_retry (fuel : nat) (config : AppConfig) : rprog (result string unit) :=
  let topics := map (fun name => (name, kafka_topic_partitions config, kafka_topic_replication_factor config))
    [kafka_jobs_topic config; kafka_results_topic config; kafka_summaries_topic config; kafka_dlq_topic config] in
  until_ready fuel (r ← kafka (ensure_topics (kafka_brokers config) topics); mret (ok r)).

Definition wait_for_required_kafka_topics (fuel : nat) (brokers : string) (required_topics : list string) (probe_timeout : duration)
    : rprog (result string unit) :=
  until_ready fuel (r ← kafka (probe_required_topics brokers required_topics probe_timeout); mret (ok r)).

Definition connect_gateway_with_retry (fuel : nat) (connect_timeout request_timeout : duration) (endpoint descriptor_path : string)
    : rprog (result string (DynamicGrpcGateway W)) :=
  let budget := Z.max (duration_saturating_mul connect_timeout 3) (from_secs 1) in
  connected ← with_timeout budget (until_ready fuel
    (r ← rcall_of (RConnectGateway endpoint descriptor_path connect_timeout request_timeout); mret (ok r)));
  mret (match connected : option (result string (DynamicGrpcGateway W)) with
        | Some r => r
        | None => Err ("gRPC target '" +:+ endpoint +:+ "' did not become ready within " +:+ show (as_millis budget) +:+ " ms")
        end).

(** The task that keeps the flags of the dependencies up to date. *)
Fixpoint dependency_health_loop (fuel : nat) (brokers : string) (required_topics : list string) (probe_timeout : duration) : rprog unit :=
  match fuel with
  | O => process_forever
  | S fuel' =>
      waited ← process_wait_or_shutdown (from_secs 2);
      match waited : result string unit with
      | Err _ => mret tt
      | Ok _ =>
          r ← with_timeout (from_secs 2) redis_probe;
          rcall_of (RHealth RedisReady (bool_decide (is_Some (r ≫= ok))));;
          topics ← kafka (probe_required_topics brokers required_topics probe_timeout);
          rcall_of (RHealth KafkaTopicsReady (is_ok topics));;
          dependency_health_loop fuel' brokers required_topics probe_timeout
      end
  end.

(** ** Initialization *)

Section process.
(** The order in which a [HashSet] yields its elements. *)
Variable iteration : gset string -> list string.
(** The bound of every loop. *)
Variable fuel : nat.

Definition read_descriptor (path : string) : rprog (result string (list Z)) := rcall_of (RReadFile path).

Definition offline_plans (config : AppConfig) (scenarios : list (Scenario W)) : rprog (result string (list (ScenarioExecutionPlan W))) :=
  build_scenario_plans config iteration
    (fun endpoint path => rcall_of (ROfflineGateway endpoint path (grpc_request_timeout config))) read_descriptor scenarios.

Definition connected_plans (config : AppConfig) (scenarios : list (Scenario W)) : rprog (result string (list (ScenarioExecutionPlan W))) :=
  build_scenario_plans config iteration
    (connect_gateway_with_retry fuel (grpc_connect_timeout config) (grpc_request_timeout config)) read_descriptor scenarios.

(** [enabled.then(..).transpose()?]. *)
Definition when {A} (enabled : bool) (m : rprog (result string A)) : rprog (result string (option A)) :=
  if enabled then rtry m (fun a => mret (Ok (Some a))) else mret (Ok None).

Definition initialize_aggregation (config : AppConfig) (consumer : option KafkaConsumer) (publisher : option KafkaPublisher)
    : result string (option InitializedAggregation) :=
  match consumer, publisher with
  | Some consumer, Some publisher =>
      store ← map_err show_RunAggregationStoreError (runtime_aggregation_store config);
      Ok (Some (mkInitializedAggregation store consumer publisher))
  | None, None => Ok None
  | _, _ => Err "aggregation dependencies initialized inconsistently"
  end.

(** The brokers and Redis, then the topics. *)
Definition await_dependencies (config : AppConfig) : rprog (result string unit) :=
  rtry (mret (map_err (fun e => "failed to create Redis client: " +:+ e) (open_redis_url (redis_url config)))) (fun _ =>
  rtry (try_join (wait_for_redis fuel) (wait_for_kafka fuel (kafka_brokers config) (kafka_request_timeout config))) (fun _ =>
  rcall_of (RHealth RedisReady true);;
  rtry (if kafka_topic_management_enabled config then ensure_topics_with_retry fuel config else mret (Ok tt)) (fun _ =>
  rtry (wait_for_required_kafka_topics fuel (kafka_brokers config) (required_kafka_topics config) (kafka_request_timeout config)) (fun _ =>
  rcall_of (RHealth KafkaTopicsReady true);;
  mret (Ok tt))))).

Definition initialize_runtime (config : AppConfig) (scenarios : list (Scenario W)) : rprog (result string (InitializedRuntime W)) :=
  let brokers := kafka_brokers config in
  let publisher topic := kafka (publisher_new_with_config brokers topic (producer_config config)) in
  rtry (await_dependencies config) (fun _ =>
  rtry (publisher (kafka_jobs_topic config)) (fun job_publisher =>
  rtry (publisher (kafka_results_topic config)) (fun result_publisher =>
  rtry (publisher (kafka_dlq_topic config)) (fun dlq_publisher =>
  rtry (when (aggregation_enabled config) (publisher (kafka_summaries_topic config))) (fun summary_publisher =>
  rcall_of (RHealth KafkaProducersReady true);;
  rtry (kafka (job_consumer_new brokers (kafka_group_id config) (kafka_jobs_topic config) (consumer_config config))) (fun job_consumer =>
  rtry (when (aggregation_enabled config)
          (kafka (result_consumer_new brokers (kafka_aggregator_group_id config) (kafka_results_topic config) (consumer_config config))))
    (fun result_consumer =>
  rcall_of (RHealth KafkaConsumerReady true);;
  rtry (connected_plans config scenarios) (fun plans =>
  rcall_of (RHealth ScenariosInitialized true);;
  rtry (mret (initialize_aggregation config result_consumer summary_publisher)) (fun aggregation =>
  mret (Ok (mkInitialized (runtime_elector config) (runtime_dispatch_store config) (runtime_execution_store config)
              job_publisher result_publisher dlq_publisher job_consumer aggregation plans))))))))))).

(** ** Running *)

(** The components that are left, until there are none or the time is up. *)
Fixpoint join_components (fuel : nat) : rprog unit :=
  match fuel with
  | O => process_forever
  | S fuel' =>
      component ← rcall_of RJoinNext;
      match component : option (result string (result string string)) with
      | Some _ => join_components fuel'
      | None => mret tt
      end
  end.

Definition drain_components (drain_timeout : duration) : rprog unit :=
  drained ← with_timeout drain_timeout (join_components fuel);
  match drained with
  | Some _ => mret tt
  | None => rcall_of RAbortAll
  end.

(** What ends the wait for the components: [None] when it was a shutdown. *)
Definition await_exit (server : bool) : rprog (option string) :=
  let component :=
    component ← rcall_of RJoinNext;
    stopping ← rcall_of RShutdown;
    mret (component_exit component stopping) in
  select (wait_for_shutdown fuel;; mret None)
    (if server then
       select component
         (exit ← rcall_of RServerExit;
          mret (Some ("metrics/health server exited while the runtime was active: " +:+ exit)))
     else component).

(** What follows the start of the components. *)
Definition finish (config : AppConfig) (server : bool) : rprog (result string unit) :=
  unexpected_exit ← await_exit server;
  set_health begin_draining;;
  rcall_of RSendShutdown;;
  drain_components (runtime_join_timeout config);;
  (if server then rcall_of RAbortServer else mret tt);;
  set_health begin_draining;;
  mret (match unexpected_exit with Some error => Err error | None => Ok tt end).

Definition start_aggregator (config : AppConfig) (runtime : InitializedRuntime W) : rprog (result string unit) :=
  match rt_aggregation runtime with
  | Some aggregation =>
      let aggregation_config := aggregation_runtime_config config in
      rtry (mret (check_aggregation_config aggregation_config)) (fun _ =>
      rcall_of (RSpawnAggregator aggregation_config aggregation);;
      mret (Ok tt))
  | None => mret (Ok tt)
  end.

Definition serve (config : AppConfig) (server : bool) (runtime : InitializedRuntime W) : rprog (result string unit) :=
  rcall_of (RSpawnNode (node_runtime_config config) (rt_plans runtime));;
  rtry (start_aggregator config runtime) (fun _ => finish config server).

Definition signal_task : rprog unit :=
  rcall_of RSignal;;
  set_health begin_draining;;
  rcall_of RSendShutdown.

(** [serde_yaml::from_str], [fs::read_to_string], and whether the default file
    exists. *)
Variable from_yaml : string -> result string ScenarioFile.
Variable read_to_string : string -> result string string.
Variable default_exists : bool.

Fixpoint print_lines (lines : list string) : rprog unit :=
  match lines with
  | [] => mret tt
  | line :: lines => rcall_of (RPrint line);; print_lines lines
  end.

Definition start_runtime (config : AppConfig) (scenarios : list (Scenario W)) : rprog (result string (InitializedRuntime W)) :=
  select
    (started ← with_timeout (startup_deadline config) (initialize_runtime config scenarios);
     mret (match started : option (result string (InitializedRuntime W)) with
           | Some r => r
           | None => Err ("startup deadline of " +:+ show (as_millis (startup_deadline config))
                          +:+ " ms expired before all required dependencies became ready")
           end))
    (wait_for_shutdown fuel;; mret (Err "shutdown requested during startup")).

(** The dependency monitor runs beside the components. *)
Definition run_started (config : AppConfig) (server : bool) (runtime : InitializedRuntime W) : rprog (result string unit) :=
  rcall_of (RHealth WorkerAccepting true);;
  select (serve config server runtime)
         (dependency_health_loop fuel (kafka_brokers config) (required_kafka_topics config) (kafka_request_timeout config);;
          process_forever).

Definition run_configured (config : AppConfig) (server : bool) : rprog (result string unit) :=
  rtry (mret (load_scenarios from_yaml read_to_string (scenarios_file config) (pulse_endpoint config) default_exists)) (fun scenarios =>
  rtry (mret (validate_scenario_limits config scenarios)) (fun _ =>
  rtry (offline_plans config scenarios) (fun plans =>
  if dry_run config then print_lines (print_dry_run plans (app_startup_burst config));; mret (Ok tt) else
  rtry (start_runtime config scenarios) (run_started config server)))).

Definition spawn_server (config : AppConfig) : rprog bool :=
  if negb (dry_run config) && metrics_enabled config then rcall_of (RSpawnServer (metrics_bind config));; mret true else mret false.

(** The task that waits for a signal runs beside everything else. *)
Definition process_run (loaded : result string AppConfig) : rprog (result string unit) :=
  rtry (mret loaded) (fun config =>
  rcall_of (RHealth ConfigLoaded true);;
  server ← spawn_server config;
  select (run_configured config server) (signal_task;; process_forever)).
End process.
End runtime.
#[global] Arguments rcall : clear implicits.
