(* ===== verification/RuntimeSettings.v ===== *)
(** * The settings of the process

    What a configuration that loads means for the clients, the stores and the
    runtimes made of it. *)

From S2P Require Import Prelude RustStr F64 Contracts Domain Planning Aggregation Coordination Metrics Effects Wire Gateway Template Runner Worker Scenarios Config Startup Leader Dispatch ExecutionLease RunStore Aggregator Kafka KafkaProperties Health Runtime.

(** ** Settings *)

Section settings.
Context `{UrlParsers}.
Variable env : string -> result ConfigError (option string).
Variable read_file : string -> result string string.
Implicit Types self : AppConfig.

Lemma read_settings_millis node self :
  read_settings env read_file node = Ok self ->
  Forall millis_setting
    [kafka_max_poll_interval self; kafka_session_timeout self; kafka_message_timeout self; kafka_delivery_timeout self;
     kafka_request_timeout self; aggregation_partial_timeout self; aggregation_retention self; aggregation_scan_interval self;
     app_shutdown_drain_timeout self; max_duration self; grpc_scenario_timeout self; app_worker_retry_max_delay self;
     app_worker_retry_base_delay self].
Proof.
  intros Hr. unfold read_settings in Hr. repeat (apply bind_Ok in Hr as (? & ? & Hr)). injection Hr as <-. simpl.
  rewrite !Forall_cons. split_and!; [..|constructor]; (eapply source_duration_ms_Ok; [|eassumption]; lia).
Qed.

Lemma millis_setting_as_millis d : millis_setting d -> d = from_millis (as_millis d) /\ 1 <= as_millis d.
Proof. intros (ms & Hm & ->). rewrite as_millis_from_millis. split; [done|lia]. Qed.

Lemma try_fold_backoff base maximum l total backoff :
  0 <= base -> 0 <= maximum ->
  try_fold (fun total attempt => ok_or (duration_checked_add total (backoff_upper base maximum attempt))
    (InvalidConfig "PULSE_KAFKA_MAX_POLL_INTERVAL_MS" "bounded retry backoff sum overflowed Duration")) total l = Ok backoff ->
  total <= backoff.
Proof.
  intros Hb Hm. revert total. induction l as [|a l IH]; intros total Hf; simpl in Hf; [inv_ok; lia|].
  apply bind_Ok in Hf as (t & Ht & Hf). apply ok_or_Ok, checked_add_Some in Ht as [-> _]. apply IH in Hf.
  assert (0 <= backoff_upper base maximum a); [|lia]. unfold backoff_upper, duration_saturating_mul, saturating_mul.
  assert (0 <= base * Z.shiftl 1 (Z.min a 16)) by (apply Z.mul_nonneg_nonneg; [done|apply Z.shiftl_nonneg; lia]).
  apply Z.min_glb; [|done]. apply Z.div_pos; unfold duration_max; lia.
Qed.

(** The longest publication and request fit the interval between polls. *)
Lemma poll_budget_bounds self :
  0 <= app_worker_max_retries self <= MAX_WORKER_RETRIES ->
  0 <= app_worker_retry_base_delay self -> 0 <= app_worker_retry_max_delay self -> 0 <= max_duration self ->
  0 <= grpc_scenario_timeout self -> 0 <= kafka_request_timeout self -> 0 <= kafka_delivery_timeout self ->
  validate_poll_budget self = Ok tt ->
  kafka_delivery_timeout self < kafka_safe_processing_interval self /\ kafka_request_timeout self < kafka_safe_processing_interval self.
Proof.
  intros Hr Hb Hm Hd Hg Hq Hk Hv. apply validate_poll_budget_Ok in Hv as (backoff & Hf & Hlt); [|lia..].
  apply try_fold_backoff in Hf; [|done..]. unfold settlement_budget, local_settlement_attempt_limit in Hlt. simpl in Hlt.
  unfold saturating_add in Hlt. unfold MAX_WORKER_RETRIES in Hr. nia.
Qed.

Lemma capacity_Ok name value maximum : validate_capacity name value maximum = Ok tt -> value <> 0 /\ value <= maximum.
Proof. unfold validate_capacity. intros Hv. inv_ok. bool_hyps. lia. Qed.

Lemma duration_bound_Ok name d maximum : validate_duration_upper_bound name d maximum = Ok tt -> d <= maximum.
Proof. unfold validate_duration_upper_bound. intros Hv. inv_ok. bool_hyps. lia. Qed.

Lemma kafka_duration_accepted name d : 1 <= as_millis d -> d <= from_millis i32_max -> kafka_validate_duration name d = Ok tt.
Proof.
  intros Hd Hm. unfold kafka_validate_duration, reject_if. rewrite (proj2 (Z.eqb_neq _ _)) by lia.
  assert (as_millis d <= i32_max) by (rewrite <- (as_millis_from_millis i32_max); by apply Z.div_le_mono).
  rewrite (proj2 (Z.ltb_ge _ _)) by done. done.
Qed.

Lemma kafka_capacity_accepted name value : value <> 0 -> value <= i32_max -> kafka_validate_capacity name value = Ok tt.
Proof.
  intros Hv Hm. unfold kafka_validate_capacity, reject_if. rewrite (proj2 (Z.eqb_neq _ _)) by lia.
  rewrite (proj2 (Z.ltb_ge _ _)) by done. done.
Qed.

(** What validation leaves of the Kafka settings. *)
Definition kafka_settings_ok self : Prop :=
  Forall (fun d => 1 <= as_millis d /\ d <= MAX_KAFKA_POLL_INTERVAL)
    [kafka_max_poll_interval self; kafka_session_timeout self; kafka_delivery_timeout self; kafka_request_timeout self]
  /\ Forall (fun n => n <> 0 /\ n <= MAX_KAFKA_MESSAGE_BYTES)
    [producer_queue_messages self; consumer_queue_kbytes self; kafka_producer_message_max_bytes self;
     consumer_partition_fetch_max_bytes self; consumer_fetch_max_bytes self; consumer_record_max_bytes self]
  /\ kafka_message_timeout self = kafka_delivery_timeout self /\ kafka_request_timeout self <= kafka_delivery_timeout self
  /\ (kafka_producer_acks self = "all" \/ kafka_producer_acks self = "-1")
  /\ kafka_session_timeout self < kafka_max_poll_interval self /\ kafka_request_timeout self < kafka_max_poll_interval self
  /\ consumer_partition_fetch_max_bytes self <= consumer_fetch_max_bytes self
  /\ consumer_record_max_bytes self <= consumer_fetch_max_bytes self
  /\ 2 * MAX_POISON_EVIDENCE_FIELD_BYTES <= consumer_record_max_bytes self
  /\ kafka_delivery_timeout self < kafka_safe_processing_interval self.

Lemma kafka_settings_producer self : kafka_settings_ok self -> KafkaProducerConfig_validate (producer_config self) = Ok tt.
Proof.
  intros (Hd & Hn & Hm & Hq & Ha & _). rewrite !Forall_cons in Hd. rewrite !Forall_cons in Hn.
  destruct Hd as ([_ _] & [_ _] & [Hd1 Hd2] & [Hq1 Hq2] & _), Hn as ([Hp1 Hp2] & [_ _] & [Hb1 Hb2] & _).
  assert (MAX_KAFKA_POLL_INTERVAL <= from_millis i32_max) by done. assert (MAX_KAFKA_MESSAGE_BYTES <= i32_max) by done.
  unfold KafkaProducerConfig_validate. simpl. rewrite !kafka_capacity_accepted, !kafka_duration_accepted by (rewrite ?Hm; lia). simpl.
  unfold reject_if. rewrite Hm, Z.eqb_refl, (proj2 (Z.ltb_ge _ _)) by done. simpl.
  destruct Ha as [-> | ->]; done.
Qed.

Lemma kafka_settings_consumer self : kafka_settings_ok self -> KafkaConsumerConfig_validate (consumer_config self) = Ok tt.
Proof.
  intros (Hd & Hn & _ & _ & _ & Hs & Hq & Hf & Hr & He & _). rewrite !Forall_cons in Hd. rewrite !Forall_cons in Hn.
  destruct Hd as ([Hm1 Hm2] & [Hs1 Hs2] & [_ _] & [Hq1 Hq2] & _), Hn as ([_ _] & [Hp1 Hp2] & [_ _] & [Hf1 Hf2] & [Hx1 Hx2] & [Hr1 Hr2] & _).
  assert (MAX_KAFKA_POLL_INTERVAL <= from_millis i32_max) by done. assert (MAX_KAFKA_MESSAGE_BYTES <= i32_max - 512) by done.
  unfold KafkaConsumerConfig_validate. simpl. rewrite !kafka_capacity_accepted, !kafka_duration_accepted by lia. simpl.
  unfold reject_if. rewrite !(proj2 (Z.leb_gt _ _)), !(proj2 (Z.ltb_ge _ _)) by lia. simpl.
  unfold checked_add, KAFKA_RESPONSE_OVERHEAD_BYTES. rewrite (proj2 (Z.leb_le _ usize_max)) by lia. simpl.
  by rewrite (proj2 (Z.leb_le _ i32_max)) by lia.
Qed.

Lemma millis_setting_bounds d : millis_setting d -> 1 <= as_millis d /\ 0 < d.
Proof. intros (ms & Hm & ->). rewrite as_millis_from_millis. unfold from_millis, nanos_per_milli. lia. Qed.

Lemma record_covers_evidence self : validate_kafka_capacities self = Ok tt -> 2 * MAX_POISON_EVIDENCE_FIELD_BYTES <= consumer_record_max_bytes self.
Proof.
  unfold validate_kafka_capacities. intros Hv.
  do 11 (apply bind_Ok in Hv as ([] & ? & Hv)). apply bind_Ok in Hv as (e & He & Hv). apply bind_Ok in Hv as (b & Hb & Hv).
  apply ok_or_Ok in He, Hb. injection He as <-. injection Hb as <-. inv_ok. bool_hyps.
  assert (2 * MAX_POISON_EVIDENCE_FIELD_BYTES <= kafka_producer_message_max_bytes self); [|lia].
  etransitivity; [|eassumption]. done.
Qed.

Lemma loaded_kafka_settings node self : from_sources env read_file node = Ok self -> kafka_settings_ok self.
Proof.
  unfold from_sources. intros Hload. apply bind_Ok in Hload as (c & Hread & Hload). apply bind_Ok in Hload as ([] & Hv & [= ->]).
  pose proof (read_settings_millis _ _ Hread) as Hms. eapply Forall_impl in Hms; [|exact millis_setting_bounds].
  rewrite !Forall_cons in Hms. destruct Hms as (Hpoll & Hsession & Hmessage & Hdelivery & Hrequest & _ & _ & _ & _ & Hmax & Hscenario & Hretry & Hbase & _).
  pose proof (read_settings_retries _ _ _ _ Hread) as Hretries.
  unfold AppConfig_validate in Hv. do 9 (apply bind_Ok in Hv as ([] & ? & Hv)).
  repeat match goal with
  | Hx : validate_retries _ = Ok _ |- _ => apply bind_Ok in Hx as ([] & Hx%reject_if_Ok & _); bool_hyps
  | Hx : validate_poll_budget _ = Ok _ |- _ => apply poll_budget_bounds in Hx as [Hb1 Hb2]; [|lia..]
  | Hx : validate_kafka_capacities _ = Ok _ |- _ =>
      pose proof (record_covers_evidence _ Hx) as Hev; unfold validate_kafka_capacities in Hx;
      do 11 (apply bind_Ok in Hx as ([] & ? & Hx)); clear Hx
  | Hx : validate_capacity _ _ _ = Ok _ |- _ => apply capacity_Ok in Hx
  | Hx : validate_kafka_timeouts _ = Ok _ |- _ => unfold validate_kafka_timeouts in Hx; inv_ok; bool_hyps
  | Hx : validate_duration_upper_bound _ _ _ = Ok _ |- _ => apply duration_bound_Ok in Hx
  end.
  inv_ok. bool_hyps.
  assert (kafka_safe_processing_interval self <= kafka_max_poll_interval self) as Hsafe.
  { unfold kafka_safe_processing_interval, duration_saturating_sub, saturating_sub. change KAFKA_POLL_SAFETY_MARGIN with 1000000000. lia. }
  assert (MAX_QUEUE_CAPACITY <= MAX_KAFKA_MESSAGE_BYTES /\ MAX_CONSUMER_QUEUE_KBYTES <= MAX_KAFKA_MESSAGE_BYTES
    /\ MAX_KAFKA_SESSION_TIMEOUT <= MAX_KAFKA_POLL_INTERVAL) as (? & ? & ?) by done.
  unfold kafka_settings_ok. rewrite !Forall_cons, !Forall_nil. split_and!; try tauto; try lia.
  match goal with Ha : _ || _ = true |- _ => apply orb_true_iff in Ha end. rewrite !bool_decide_eq_true in *. done.
Qed.

(** The aggregation settings that validation leaves, but for the key prefix and
    the retention. *)
Lemma loaded_aggregation_settings node self :
  from_sources env read_file node = Ok self ->
  blank (redis_aggregation_prefix self) = false /\ millis_setting (aggregation_partial_timeout self)
  /\ millis_setting (aggregation_retention self) /\ aggregation_partial_timeout self < aggregation_retention self
  /\ Forall (fun n => n <> 0 /\ n <= MAX_QUEUE_CAPACITY)
       [aggregation_scan_batch self; aggregation_max_active_runs self; aggregation_max_error_kinds self]
  /\ 0 < aggregation_scan_interval self /\ 0 < app_shutdown_drain_timeout self /\ 0 < kafka_request_timeout self
  /\ 0 < kafka_safe_processing_interval self /\ open_redis_url (redis_url self) = Ok tt.
Proof.
  intros Hload. pose proof (loaded_kafka_settings _ _ Hload) as (_ & _ & _ & _ & _ & _ & _ & _ & _ & _ & Hsafe).
  unfold from_sources in Hload. apply bind_Ok in Hload as (c & Hread & Hload). apply bind_Ok in Hload as ([] & Hv & [= ->]).
  pose proof (read_settings_millis _ _ Hread) as Hms. rewrite !Forall_cons in Hms.
  destruct Hms as (_ & _ & _ & Hdel & Hreq & Hpart & Hret & Hscan & Hdrain & _).
  unfold AppConfig_validate in Hv. do 4 (apply bind_Ok in Hv as ([] & ? & Hv)). clear Hv.
  match goal with Hx : validate_names _ = Ok _ |- _ => rename Hx into Hn end. unfold validate_names in Hn.
  match goal with Hx : validate_aggregation _ = Ok _ |- _ => rename Hx into Ha end. unfold validate_aggregation in Ha.
  do 4 (apply bind_Ok in Ha as ([] & ?%capacity_Ok & Ha)). inv_ok. bool_hyps.
  assert (10000 <= MAX_QUEUE_CAPACITY) by done.
  repeat match goal with Hx : millis_setting ?d |- _ => lazymatch goal with
    | _ : 0 < d |- _ => fail | _ => pose proof (proj2 (millis_setting_bounds _ Hx)) end end.
  rewrite !Forall_cons, Forall_nil. split_and!; try done; try tauto; try lia.
  match goal with Hx : validate_non_empty "PULSE_REDIS_AGGREGATION_PREFIX" _ = Ok _ |- _ => unfold validate_non_empty, trimmed_non_empty in Hx end.
  by destruct (blank (redis_aggregation_prefix self)).
Qed.

Lemma limit_accepted message n : n <> 0 -> n <= MAX_QUEUE_CAPACITY -> redis_limit message n = Ok tt.
Proof.
  intros H0 Hm. assert (MAX_QUEUE_CAPACITY <= MAX_EXACT_LUA_INTEGER) by done.
  unfold redis_limit, reject_if. by rewrite (proj2 (Z.eqb_neq _ _)), (proj2 (Z.ltb_ge _ _)) by lia.
Qed.

Lemma lua_duration_accepted operation d :
  millis_setting d -> is_ok (checked_lua_duration_ms operation d) = bool_decide (as_millis d <= MAX_EXACT_LUA_INTEGER).
Proof.
  intros Hd. destruct (millis_setting_bounds _ Hd) as [H1 H2]. assert (MAX_EXACT_LUA_INTEGER < i64_max) as Hmax by done.
  assert (duration_is_zero d = false) as Hz by (apply Z.eqb_neq; lia).
  unfold checked_lua_duration_ms, checked_duration_ms, try_from. rewrite Hz, (proj2 (Z.leb_le 0 (as_millis d))) by lia. cbn [andb].
  destruct (Z.leb_spec (as_millis d) i64_max); simpl; [|by rewrite bool_decide_eq_false_2 by lia].
  rewrite (proj2 (Z.leb_le 0 (as_millis d))), (proj2 (Z.leb_le _ u64_max)) by lia. simpl. unfold reject_if.
  destruct (Z.ltb_spec MAX_EXACT_LUA_INTEGER (as_millis d)); simpl; [by rewrite bool_decide_eq_false_2 by lia|by rewrite bool_decide_eq_true_2].
Qed.

(** The aggregation store accepts the key prefix. *)
Definition prefix_accepted (prefix : string) : Prop :=
  str_len prefix <= MAX_IDENTITY_BYTES /\ str_contains "{" prefix = false /\ str_contains "}" prefix = false.

Lemma aggregation_store_built node self :
  from_sources env read_file node = Ok self ->
  is_ok (runtime_aggregation_store self) = true
  <-> prefix_accepted (redis_aggregation_prefix self) /\ as_millis (aggregation_retention self) <= MAX_EXACT_LUA_INTEGER.
Proof.
  intros (Hb & Hp & Hr & Hlt & Hn & _ & _ & Hq & _)%loaded_aggregation_settings. rewrite !Forall_cons in Hn.
  destruct Hn as ([Hs1 Hs2] & [Hm1 Hm2] & [He1 He2] & _).
  assert (as_millis (aggregation_partial_timeout self) <= as_millis (aggregation_retention self)) as Hle by (apply Z.div_le_mono; unfold nanos_per_milli; lia).
  pose proof (lua_duration_accepted "aggregation_config" _ Hp) as Ep. pose proof (lua_duration_accepted "aggregation_config" _ Hr) as Er.
  assert (is_ok (checked_duration_ms "aggregation_config" (redis_operation_timeout self)) = true) as Eo.
  { unfold checked_duration_ms, redis_operation_timeout. change REDIS_OPERATION_TIMEOUT_CEILING with 2000000000.
    assert (duration_is_zero (Z.min 2000000000 (kafka_request_timeout self)) = false) as -> by (apply Z.eqb_neq; lia).
    unfold try_from. assert (0 <= as_millis (Z.min 2000000000 (kafka_request_timeout self)) <= 2000) as [H0 H1].
    { unfold as_millis, nanos_per_milli. split; [apply Z.div_pos; lia|]. change 2000 with (2000000000 / 1000000). apply Z.div_le_mono; lia. }
    rewrite (proj2 (Z.leb_le 0 _)), (proj2 (Z.leb_le _ i64_max)) by lia. done. }
  unfold runtime_aggregation_store, run_store_new, with_operation_timeout, with_max_error_kinds, with_max_active_runs, with_max_scan_limit,
    prefix_accepted.
  rewrite Hb. cbn [orb]. unfold reject_if at 1.
  destruct (Z.ltb_spec MAX_IDENTITY_BYTES (str_len (redis_aggregation_prefix self))); [simpl; split; [done|lia]|].
  destruct (str_contains "{" (redis_aggregation_prefix self)); [simpl; naive_solver|].
  destruct (str_contains "}" (redis_aggregation_prefix self)); [simpl; naive_solver|]. cbn [orb mbind result_bind].
  destruct (checked_lua_duration_ms "aggregation_config" (aggregation_partial_timeout self)); cbn [is_ok] in Ep; symmetry in Ep;
    [apply bool_decide_eq_true in Ep|apply bool_decide_eq_false in Ep; simpl; split; [done|lia]].
  cbn [mbind result_bind].
  destruct (checked_lua_duration_ms "aggregation_config" (aggregation_retention self)); cbn [is_ok] in Er; symmetry in Er;
    [apply bool_decide_eq_true in Er|apply bool_decide_eq_false in Er; simpl; split; [done|lia]].
  cbn [mbind result_bind]. unfold reject_if. rewrite (proj2 (Z.leb_gt _ _)) by done. cbn [mbind result_bind].
  destruct (checked_duration_ms "aggregation_config" (redis_operation_timeout self)); [|done].
  cbn [mbind result_bind]. rewrite !limit_accepted by done. cbn [mbind result_bind is_ok]. split; [|done]. intros _. by split_and!.
Qed.

Lemma aggregator_settings_accepted node self :
  from_sources env read_file node = Ok self -> check_aggregation_config (aggregation_runtime_config self) = Ok tt.
Proof.
  intros (_ & _ & _ & _ & Hn & Hi & Hd & _ & Hs & _)%loaded_aggregation_settings. rewrite !Forall_cons in Hn. destruct Hn as ([Hs1 Hs2] & _).
  unfold check_aggregation_config, reject_if, duration_is_zero. simpl. by rewrite !(proj2 (Z.eqb_neq _ _)) by lia.
Qed.

(** Settings that load are settings the process can be built from. The Kafka
    clients, the Redis client and the aggregation runtime accept what is made of
    them, without exception; and the aggregation store does exactly when its key
    prefix is at most 1024 bytes without braces and its retention is one Redis
    counts exactly, two things that loading does not look at. *)
Theorem loaded_settings_build_the_runtime node self (Hload : from_sources env read_file node = Ok self) :
  KafkaProducerConfig_validate (producer_config self) = Ok tt
  /\ KafkaConsumerConfig_validate (consumer_config self) = Ok tt
  /\ check_aggregation_config (aggregation_runtime_config self) = Ok tt
  /\ open_redis_url (redis_url self) = Ok tt
  /\ (is_ok (runtime_aggregation_store self) = true
      <-> prefix_accepted (redis_aggregation_prefix self) /\ as_millis (aggregation_retention self) <= MAX_EXACT_LUA_INTEGER).
Proof.
  pose proof (loaded_kafka_settings _ _ Hload) as Hk. split; [by apply kafka_settings_producer|].
  split; [by apply kafka_settings_consumer|]. split; [by eapply aggregator_settings_accepted|].
  split; [apply (loaded_aggregation_settings _ _ Hload)|by eapply aggregation_store_built].
Qed.
End settings.

#[local] Existing Instance plain_urls.

Lemma loaded_settings_build_the_runtime_witness :
  match from_sources empty_env no_files "node-1" with
  | Ok self => KafkaConsumerConfig_validate (consumer_config self) = Ok tt
  | Err _ => False
  end.
Proof.
  pose proof empty_env_loads as Hok. destruct (from_sources empty_env no_files "node-1") as [self|] eqn:E; [|done].
  exact (proj1 (proj2 (loaded_settings_build_the_runtime empty_env no_files "node-1" self E))).
Defined.
