(* ===== verification/RuntimeInit.v ===== *)
(** * Initialization

    What has happened when [initialize_runtime] of [Runtime] succeeds. *)

From S2P Require Import Prelude RustStr F64 Contracts Domain Planning Aggregation Coordination Metrics Effects Wire Gateway Template Runner Worker Scenarios Config Startup Leader Dispatch ExecutionLease RunStore Aggregator Kafka KafkaProperties Health Runtime.

(** ** Parts of runs *)

Section process.
Context {W : Type} `{Generators W} `{Base64} `{JsonText} `{UrlParsers}.
Notation ranswer := (ranswer (W := W)).
Notation rprog := (prog ranswer).
Notation robs := (obs ranswer).

Lemma runs_rtry_Ok {A B} (m : rprog (result string A)) (f : A -> rprog (result string B)) tr b :
  runs (rtry m f) tr (Some (Ok b)) -> exists a t1 t2, tr = t1 ++ t2 /\ runs m t1 (Some (Ok a)) /\ runs (f a) t2 (Some (Ok b)).
Proof.
  intros (r & t1 & t2 & -> & Hm & Hf)%runs_bind_done. destruct r as [a|]; [|by destruct Hf as [_ [=]]]. by exists a, t1, t2.
Qed.

Lemma runs_ret_Ok {A B} (r : result string A) (f : A -> rprog (result string B)) tr b :
  runs (rtry (mret r) f) tr (Some (Ok b)) -> exists a, r = Ok a /\ runs (f a) tr (Some (Ok b)).
Proof. intros (a & t1 & t2 & -> & [-> [= <-]] & Hf)%runs_rtry_Ok. by exists a. Qed.

Lemma runs_rcall {A} c (f : ranswer c -> rprog A) tr b :
  runs (rcall_of c ≫= f) tr (Some b) -> exists r t, tr = Answered c r :: t /\ runs (f r) t (Some b).
Proof. intros [[_ [=]]|[[_ [=]]|(r & t & -> & Hr)]]. by exists r, t. Qed.

Lemma interleaves_sublist (t1 t2 t : list robs) : interleaves t1 t2 t -> t1 `sublist_of` t /\ t2 `sublist_of` t.
Proof. induction 1; split; naive_solver (by constructor). Qed.

(** The winner of a race made a subsequence of its calls. *)
Lemma runs_select {A} (p q : rprog A) tr a :
  runs (select p q) tr (Some a) -> exists t, t `sublist_of` tr /\ (runs p t (Some a) \/ runs q t (Some a)).
Proof.
  intros (t1 & t2 & t & Hi & [(_ & _ & _ & [=])|(b & tr' & [-> [= ->]] & -> & [[Hp _]|[_ Hq]])]);
    apply interleaves_sublist in Hi as [? ?]; rewrite app_nil_r; [exists t1|exists t2]; auto.
Qed.

Lemma runs_with_timeout {A} d (p : rprog A) tr a :
  runs (with_timeout d p) tr (Some (Some a)) -> exists t, t `sublist_of` tr /\ runs p t (Some a).
Proof.
  intros (t & Hs & [Hr|Hr])%runs_select.
  - apply runs_bind_done in Hr as (a' & t1 & t2 & -> & Hp & [-> [= ->]]). exists t1. by rewrite app_nil_r in Hs.
  - by apply runs_rcall in Hr as ([] & t' & -> & [_ [=]]).
Qed.

Lemma runs_try_join {A B} (p : rprog (result string A)) (q : rprog (result string B)) tr a b :
  runs (try_join p q) tr (Some (Ok (a, b))) ->
  exists t1 t2, t1 `sublist_of` tr /\ t2 `sublist_of` tr /\ runs p t1 (Some (Ok a)) /\ runs q t2 (Some (Ok b)).
Proof.
  intros (t1 & t2 & t & Hi & [(? & ? & _ & _ & _ & [=])|(ra & rb & tr' & Hp & Hq & [-> [= Hr]] & ->)]).
  apply interleaves_sublist in Hi as [Hs1 Hs2]. rewrite app_nil_r. destruct ra as [a'|], rb as [b'|]; simplify_eq/=.
  assert (forall X (r : rprog (result string X)) u x, runs (select r (e ← rcall_of RPeerFailed; mret (Err e))) u (Some (Ok x)) ->
    exists u', u' `sublist_of` u /\ runs r u' (Some (Ok x))) as Hside.
  { intros X r u x (u' & Hu & [Hr|Hr])%runs_select; [by exists u'|]. by apply runs_rcall in Hr as (e & u2 & -> & [_ [=]]). }
  apply Hside in Hp as (u1 & Hu1 & Hp), Hq as (u2 & Hu2 & Hq). exists u1, u2. split_and!; [by etransitivity..|done|done].
Qed.

Lemma runs_until_ready {A} fuel (probe : rprog (option A)) tr a :
  runs (until_ready fuel probe) tr (Some (Ok a)) -> exists before t, tr = before ++ t /\ runs probe t (Some (Some a)).
Proof.
  revert tr. induction fuel as [|fuel IH]; intros tr Hr; [by destruct Hr as [[_ [=]]|[[_ [=]]|([] & _)]]|].
  apply runs_bind_done in Hr as ([a'|] & t1 & t2 & -> & Hp & Hr).
  - destruct Hr as [-> [= ->]]. exists [], t1. by rewrite app_nil_r.
  - apply runs_rtry_Ok in Hr as ([] & t3 & t4 & -> & _ & Hr). apply IH in Hr as (before & t & -> & Ht).
    exists (t1 ++ t3 ++ before), t. by rewrite <- !app_assoc.
Qed.

(** What the Kafka clients see. *)
Definition seen_kafka (x : robs) : option (obs kanswer) :=
  match x with Answered (RKafka c) r => Some (Answered c r) | Dropped (RKafka c) => Some (Dropped c) | _ => None end.

Lemma runs_kafka {A} (p : prog kanswer A) tr o : runs (kafka p) tr o -> runs p (omap seen_kafka tr) o.
Proof. by apply runs_interp_pass. Qed.

Lemma runs_probe_until {A} fuel (p : prog kanswer (result string A)) tr a :
  runs (until_ready fuel (r ← kafka p; mret (ok r))) tr (Some (Ok a)) ->
  exists t, t `sublist_of` tr /\ runs p (omap seen_kafka t) (Some (Ok a)).
Proof.
  intros (before & t & -> & Hp)%runs_until_ready. apply runs_bind_done in Hp as (r & t1 & t2 & -> & Hp & [-> [= Hr]]).
  destruct r as [a'|]; [|done]. injection Hr as ->. exists t1. rewrite app_nil_r. split; [by apply sublist_inserts_l|by apply runs_kafka].
Qed.

Definition by_kafka (y : obs kanswer) : robs :=
  match y with Answered c r => Answered (RKafka c : rcall W) r | Dropped c => Dropped (RKafka c) end.

Lemma elem_of_seen_kafka y (tr : list robs) : y ∈ omap seen_kafka tr -> by_kafka y ∈ tr.
Proof.
  intros (x & Hx & E)%list_elem_of_omap. assert (x = by_kafka y) as <-; [|done].
  destruct x as [c r|c]; destruct c; simpl in E; try done; by injection E as <-.
Qed.

Lemma sublist_elem (t tr : list robs) x : t `sublist_of` tr -> x ∈ t -> x ∈ tr.
Proof. intros Hs%sublist_submseteq Hx. by eapply elem_of_submseteq. Qed.

(** *** Clients *)

Lemma runs_new_publisher brokers name config tr p :
  runs (kafka (publisher_new_with_config brokers name config)) tr (Some (Ok p)) ->
  topic p = name /\ exists properties, producer_client_config brokers config = Ok properties
    /\ Answered (RKafka (KNewClient properties) : rcall W) (Ok tt) ∈ tr.
Proof.
  intros Hr%runs_kafka. unfold publisher_new_with_config in Hr.
  apply runs_ktry_Ok in Hr as (properties & t1 & t2 & Et & [-> [= Hc]] & Hr).
  apply runs_ktry_Ok in Hr as ([] & t3 & t4 & -> & ->%(runs_one_call (KNewClient _)) & [-> [= ->]]).
  split; [done|]. exists properties. split; [done|]. apply (elem_of_seen_kafka (Answered (KNewClient properties) (Ok tt))). rewrite Et. set_solver.
Qed.

Lemma runs_new_consumer what subscribed brokers group_id name config tr c :
  runs (kafka (consumer_new_with_config what subscribed brokers group_id name config)) tr (Some (Ok c)) ->
  consumer_topic c = name /\ Answered (RKafka (KSubscribe name) : rcall W) (Ok tt) ∈ tr.
Proof.
  intros Hr%runs_kafka. unfold consumer_new_with_config in Hr.
  apply runs_ktry_Ok in Hr as (properties & t1 & t2 & Et & [-> [= Hc]] & Hr).
  apply runs_ktry_Ok in Hr as ([] & t3 & t4 & -> & ->%(runs_one_call (KNewClient _)) & Hr).
  apply runs_ktry_Ok in Hr as ([] & t5 & t6 & -> & ->%(runs_one_call (KSubscribe _)) & [-> [= ->]]).
  split; [done|]. apply (elem_of_seen_kafka (Answered (KSubscribe name) (Ok tt))). rewrite Et. set_solver.
Qed.

(** *** Initialization *)

Section init.
Variable iteration : gset string -> list string.
Hypothesis iteration_complete : forall s x, x ∈ iteration s <-> x ∈ s.
Variable fuel : nat.
Variable config : AppConfig.

Definition flag_set (tr : list robs) (field : health_field) : Prop := Answered (RHealth field true : rcall W) tt ∈ tr.

(** Redis answered, and the required topics were reported ready. *)
Record dependencies_ready (tr : list robs) : Prop := {
  redis_answered : Answered (RRedisPing : rcall W) (Ok tt) ∈ tr;
  topics_probed : exists t, t `sublist_of` tr
    /\ runs (probe_required_topics (kafka_brokers config) (required_kafka_topics config) (kafka_request_timeout config))
         (omap seen_kafka t) (Some (Ok tt))
    /\ Forall (fun name => exists topic, top_name topic = name /\ reported (omap seen_kafka t) topic /\ topic_ready topic)
         (required_kafka_topics config);
  dependencies_flagged : flag_set tr RedisReady /\ flag_set tr KafkaTopicsReady;
}.

Lemma runs_wait_for_redis tr : runs (wait_for_redis fuel) tr (Some (Ok tt)) -> Answered (RRedisPing : rcall W) (Ok tt) ∈ tr.
Proof.
  intros (before & t & -> & Hp)%runs_until_ready. apply runs_bind_done in Hp as (r & t1 & t2 & -> & Hp & [-> [= Hr]]).
  destruct r as [[[]|]|]; [|done..]. apply runs_with_timeout in Hp as (t3 & Hs & Hp).
  apply runs_rtry_Ok in Hp as ([] & t4 & t5 & -> & _ & Hp).
  destruct Hp as [[_ [=]]|[[_ [=]]|(r & t & -> & [-> [= ->]])]].
  apply elem_of_app. right. apply elem_of_app. left. eapply sublist_elem; [exact Hs|]. set_solver.
Qed.

Lemma runs_await_dependencies tr : runs (await_dependencies fuel config) tr (Some (Ok tt)) -> dependencies_ready tr.
Proof.
  intros Hr. apply runs_ret_Ok in Hr as ([] & _ & Hr).
  apply runs_rtry_Ok in Hr as ([[] []] & t1 & t2 & -> & Hj & Hr). apply runs_try_join in Hj as (u1 & u2 & Hs1 & _ & Hp & _).
  apply runs_wait_for_redis in Hp. eapply sublist_elem in Hp; [|exact Hs1].
  apply runs_rcall in Hr as ([] & t3 & -> & Hr). apply runs_rtry_Ok in Hr as ([] & t4 & t5 & -> & _ & Hr).
  apply runs_rtry_Ok in Hr as ([] & t6 & t7 & -> & Ht & Hr). apply runs_probe_until in Ht as (t & Hs & Ht).
  apply runs_rcall in Hr as ([] & t8 & -> & _). split.
  - set_solver.
  - exists t. split_and!; [|done|by apply probe_reports_ready in Ht as (_ & _ & ?)]. apply sublist_inserts_l, sublist_cons, sublist_inserts_l, sublist_inserts_r, Hs.
  - unfold flag_set. split; set_solver.
Qed.

(** Everything the runtime needs is there. *)
Record initialized (scenarios : list (Scenario W)) (tr : list robs) (runtime : InitializedRuntime W) : Prop := {
  init_dependencies : dependencies_ready tr;
  init_publishers : exists properties, producer_client_config (kafka_brokers config) (producer_config config) = Ok properties
    /\ Answered (RKafka (KNewClient properties) : rcall W) (Ok tt) ∈ tr
    /\ topic (rt_job_publisher runtime) = kafka_jobs_topic config /\ topic (rt_result_publisher runtime) = kafka_results_topic config
    /\ topic (rt_dlq_publisher runtime) = kafka_dlq_topic config;
  init_consumer : Answered (RKafka (KSubscribe (kafka_jobs_topic config)) : rcall W) (Ok tt) ∈ tr
    /\ consumer_topic (rt_job_consumer runtime) = kafka_jobs_topic config;
  init_aggregation : match rt_aggregation runtime with
    | Some aggregation =>
        aggregation_enabled config = true /\ runtime_aggregation_store config = Ok (agg_store aggregation)
        /\ topic (agg_publisher aggregation) = kafka_summaries_topic config
        /\ Answered (RKafka (KSubscribe (kafka_results_topic config)) : rcall W) (Ok tt) ∈ tr
    | None => aggregation_enabled config = false
    end;
  init_plans : rt_plans runtime <> [] /\ map plan_scenario (rt_plans runtime) `sublist_of` scenarios
    /\ Forall plan_ready (rt_plans runtime);
  init_flags : Forall (flag_set tr) [KafkaProducersReady; KafkaConsumerReady; ScenariosInitialized];
}.

Lemma runs_when {A} enabled (m : rprog (result string A)) tr a :
  runs (when enabled m) tr (Some (Ok a)) ->
  match a with Some a => enabled = true /\ runs m tr (Some (Ok a)) | None => enabled = false end.
Proof.
  destruct enabled; simpl; [|by intros [_ [= ->]]]. intros (a' & t1 & t2 & -> & Hm & [-> [= ->]])%runs_rtry_Ok.
  by rewrite app_nil_r.
Qed.

Lemma runs_initialize_runtime scenarios tr runtime :
  runs (initialize_runtime iteration fuel config scenarios) tr (Some (Ok runtime)) -> initialized scenarios tr runtime.
Proof.
  intros Hr. apply runs_rtry_Ok in Hr as ([] & t1 & tr1 & -> & Hd%runs_await_dependencies & Hr).
  apply runs_rtry_Ok in Hr as (jobs & t2 & tr2 & -> & [Hj (properties & Hc & Hn)]%runs_new_publisher & Hr).
  apply runs_rtry_Ok in Hr as (results & t3 & tr3 & -> & [Hres _]%runs_new_publisher & Hr).
  apply runs_rtry_Ok in Hr as (dlq & t4 & tr4 & -> & [Hdlq _]%runs_new_publisher & Hr).
  apply runs_rtry_Ok in Hr as (summaries & t5 & tr5 & -> & Hsum%runs_when & Hr).
  apply runs_rcall in Hr as ([] & tr6 & -> & Hr).
  apply runs_rtry_Ok in Hr as (consumer & t6 & tr7 & -> & [Hcon Hsub]%runs_new_consumer & Hr).
  apply runs_rtry_Ok in Hr as (rconsumer & t7 & tr8 & -> & Hrcon%runs_when & Hr).
  apply runs_rcall in Hr as ([] & tr9 & -> & Hr).
  apply runs_rtry_Ok in Hr as (plans & t8 & tr10 & -> & Hplans & Hr).
  apply runs_rcall in Hr as ([] & tr11 & -> & Hr). apply runs_ret_Ok in Hr as (aggregation & Ha & [-> [= ->]]).
  eapply built_plans_ready in Hplans as (Hne & Hsl & Hready & _); [|exact iteration_complete].
  split.
  - destruct Hd as [Hping (t & Hs & Ht) [Hf1 Hf2]]. split; [set_solver| |unfold flag_set in *; set_solver].
    exists t. split; [by apply sublist_inserts_r|done].
  - exists properties. split_and!; [done|set_solver|done..].
  - split; [set_solver|done].
  - unfold initialize_aggregation in Ha. simpl.
    destruct rconsumer as [rconsumer|], summaries as [summaries|]; try done; [|by injection Ha as <-].
    apply bind_Ok in Ha as (store & Hst%map_err_Ok & [= <-]). simpl.
    destruct Hsum as [He [Ht _]%runs_new_publisher], Hrcon as [_ [_ Hrs]%runs_new_consumer]. split_and!; [done..|set_solver].
  - done.
  - unfold flag_set. rewrite !Forall_cons, Forall_nil. split_and!; [set_solver..|done].
Qed.
End init.
End process.
