(* ===== verification/RuntimeProtocol.v ===== *)
(** * The life of the process

    What every run of the process of [Runtime] obeys, whatever its environment
    does: what has happened before its components start, what its health flags
    mean, and how it ends. *)

From S2P Require Import Prelude RustStr F64 Contracts Domain Planning Aggregation Coordination Metrics Effects Wire Gateway Template Runner Worker Scenarios Config Startup Leader Dispatch ExecutionLease RunStore Aggregator Kafka KafkaProperties Health Runtime RuntimeInit.

Section process.
Context {W : Type} `{Generators W} `{Base64} `{JsonText} `{UrlParsers}.
Notation ranswer := (ranswer (W := W)).
Notation rprog := (prog ranswer).
Notation robs := (obs ranswer).

(** ** Calls that are not made *)

Definition call_of (x : robs) : rcall W := match x with Answered c _ | Dropped c => c end.

(** The calls of a kind. *)
Definition only (kind : rcall W -> bool) (x : robs) : option robs := if kind (call_of x) then Some x else None.

Definition waits (c : rcall W) : bool :=
  match c with RSleep _ | RShutdown | RShutdownChanged | RPeerFailed | RForever => true | _ => false end.

Section never.
Variable kind : rcall W -> bool.
Hypothesis waits_plain : forall c, waits c = true -> kind c = false.

(** A program that makes no call of the kind. *)
Notation never := (unseen (only kind)).

Lemma never_call {A} c (k : ranswer c -> rprog A) : kind c = false -> (forall r, never (k r)) -> never (Call c k).
Proof. intros Hc Hk. unfold only. apply unseen_call; [simpl; by rewrite Hc|]. intros r. split; [simpl; by rewrite Hc|apply Hk]. Qed.

Lemma never_call_of c : kind c = false -> never (rcall_of c).
Proof. intros Hc. apply never_call; [done|]. intros. apply unseen_ret. Qed.

Lemma never_rtry {A B} (m : rprog (result string A)) (f : A -> rprog (result string B)) :
  never m -> (forall a, never (f a)) -> never (rtry m f).
Proof. intros Hm Hf. apply unseen_bind; [done|]. intros []; [apply Hf|apply unseen_ret]. Qed.

Lemma never_select {A} (p q : rprog A) : never p -> never q -> never (select p q).
Proof. intros Hp Hq. apply unseen_race; [done..|]. intros. apply unseen_ret. Qed.

Lemma never_with_timeout {A} d (p : rprog A) : never p -> never (with_timeout d p).
Proof.
  intros Hp. apply never_select; [apply unseen_bind; [done|]; intros; apply unseen_ret|].
  apply never_call; [by apply waits_plain|]. intros. apply unseen_ret.
Qed.

Lemma never_forever {A} : never (process_forever : rprog A).
Proof. apply never_call; [by apply waits_plain|]. intros []. Qed.

Lemma never_wait_or_shutdown d : never (process_wait_or_shutdown d).
Proof.
  apply never_call; [by apply waits_plain|]. intros []; [apply unseen_ret|]. apply never_select.
  - apply never_call; [by apply waits_plain|]. intros. apply unseen_ret.
  - apply never_call; [by apply waits_plain|]. intros []; [apply unseen_ret|]. apply never_call; [by apply waits_plain|]. intros. apply unseen_ret.
Qed.

Lemma never_until_ready {A} fuel (probe : rprog (option A)) : never probe -> never (until_ready fuel probe).
Proof.
  intros Hp. induction fuel as [|fuel IH]; [apply never_forever|]. apply unseen_bind; [done|]. intros [a|]; [apply unseen_ret|].
  apply never_rtry; [apply never_wait_or_shutdown|done].
Qed.

Lemma never_wait_for_shutdown fuel : never (wait_for_shutdown fuel).
Proof.
  apply never_call; [by apply waits_plain|]. intros []; [apply unseen_ret|]. induction fuel as [|fuel IH]; [apply never_forever|].
  apply never_call; [by apply waits_plain|]. intros []; [apply unseen_ret|].
  apply never_call; [by apply waits_plain|]. intros []; [apply unseen_ret|done].
Qed.

Lemma never_try_join {A B} (p : rprog (result string A)) (q : rprog (result string B)) : never p -> never q -> never (try_join p q).
Proof.
  intros Hp Hq. apply unseen_both; [| |intros; apply unseen_ret]; (apply never_select; [done|]);
    (apply never_call; [by apply waits_plain|]; intros; apply unseen_ret).
Qed.

Lemma never_set_health stores : Forall (fun p => kind (RHealth p.1 p.2) = false) stores -> never (set_health stores).
Proof. induction 1 as [|[field ready] stores Hk _ IH]; [apply unseen_ret|]. apply never_call; [done|]. intros. done. Qed.

Lemma never_signal_task :
  kind RSignal = false -> kind RSendShutdown = false -> Forall (fun p => kind (RHealth p.1 p.2) = false) begin_draining -> never signal_task.
Proof.
  intros Hs1 Hs2 Hs3. apply never_call; [done|]. intros. apply unseen_bind; [by apply never_set_health|]. intros. by apply never_call_of.
Qed.

Section kafka.
Hypothesis kafka_plain : forall c, kind (RKafka c) = false.

Lemma never_kafka {A} (p : prog kanswer A) : never (kafka p).
Proof. apply unseen_interp. intros c. apply never_call; [done|]. intros. apply unseen_ret. Qed.

Lemma never_probe_until {A} fuel (p : prog kanswer (result string A)) : never (until_ready fuel (r ← kafka p; mret (ok r))).
Proof. apply never_until_ready, unseen_bind; [apply never_kafka|]. intros. apply unseen_ret. Qed.
End kafka.

Section plans.
Variable app : AppConfig.
Variable iteration : gset string -> list string.
Variable open_gateway : string -> string -> rprog (result string (DynamicGrpcGateway W)).
Variable read_file : string -> rprog (result string (list Z)).
Hypothesis open_never : forall endpoint path, never (open_gateway endpoint path).
Hypothesis read_never : forall path, never (read_file path).

Lemma never_open_gateways path endpoints sc cs : never (open_gateways open_gateway path endpoints sc cs).
Proof.
  revert sc cs. induction endpoints as [|endpoint endpoints IH]; intros sc cs; cbn [open_gateways]; [apply unseen_ret|].
  destruct (cs !! endpoint); [apply IH|]. apply unseen_bind; [apply open_never|]. intros []; [apply IH|apply unseen_ret].
Qed.

Lemma never_build_plans fingerprint scenarios cs plans failures :
  never (build_plans app iteration open_gateway fingerprint scenarios cs plans failures).
Proof.
  revert cs plans failures. induction scenarios as [|scenario scenarios IH]; intros cs plans failures; cbn [build_plans]; [apply unseen_ret|].
  apply unseen_bind.
  - apply unseen_bind; [|intros []; apply unseen_ret]. unfold scenario_gateways. case_bool_decide; [apply unseen_ret|].
    destruct (grpc_descriptor_set app); [apply never_open_gateways|apply unseen_ret].
  - intros [[plan|error] clients]; [apply IH|]. destruct (allow_partial_start app); [apply IH|apply unseen_ret].
Qed.

Lemma never_build_scenario_plans scenarios : never (build_scenario_plans app iteration open_gateway read_file scenarios).
Proof.
  apply unseen_bind.
  - destruct (grpc_descriptor_set app); [|apply unseen_ret]. apply unseen_bind; [apply read_never|]. intros. apply unseen_ret.
  - intros [bytes|]; [|apply unseen_ret]. apply unseen_bind; [apply never_build_plans|]. intros. apply unseen_ret.
Qed.
End plans.

(** *** What has happened before a call of the kind *)

Definition guarded (before : list robs -> robs -> Prop) {A} (p : rprog A) : Prop :=
  forall tr o, runs p tr o -> forall a x b, tr = a ++ x :: b -> kind (call_of x) = true -> before a x.

Implicit Types before : list robs -> robs -> Prop.

(** It stays so when more has happened. *)
Definition lasting before : Prop := forall a a' x, a `sublist_of` a' -> before a x -> before a' x.

Lemma only_elem (a b : list robs) x : kind (call_of x) = true -> omap (only kind) (a ++ x :: b) <> [].
Proof.
  intros Hx. rewrite omap_app. simpl. unfold only at 2. rewrite Hx. by intros [_ ?]%app_eq_nil.
Qed.

Lemma never_guarded before {A} (p : rprog A) : never p -> guarded before p.
Proof. intros Hp tr o Hr a x b -> Hx. destruct (only_elem a b x Hx). by eapply Hp. Qed.

Lemma guarded_bind before {A B} (m : rprog A) (f : A -> rprog B) :
  guarded before m -> (forall a t, runs m t (Some a) -> guarded (fun l => before (t ++ l)) (f a)) -> guarded before (m ≫= f).
Proof.
  intros Hm Hf tr o Hr a x b E Hx. destruct (runs_bind m f tr o Hr) as [[Hr1 _]|(r & t1 & t2 & Hr1 & Hr2 & ->)]; [by eapply Hm|].
  apply app_eq_app in E as (l & [[-> E]|[-> E]]).
  - destruct l as [|y l].
    + rewrite app_nil_r in *. rewrite <- (app_nil_r a). by eapply (Hf _ _ Hr1 _ _ Hr2 [] x b).
    + injection E as <- ->. by eapply (Hm _ _ Hr1 a x l).
  - by eapply (Hf _ _ Hr1 _ _ Hr2 l x b).
Qed.

Lemma guarded_rtry before {A B} (m : rprog (result string A)) (f : A -> rprog (result string B)) :
  guarded before m -> (forall a t, runs m t (Some (Ok a)) -> guarded (fun l => before (t ++ l)) (f a)) -> guarded before (rtry m f).
Proof.
  intros Hm Hf. apply guarded_bind; [done|]. intros [a|e] t Hr; [by apply Hf|]. apply never_guarded, unseen_ret.
Qed.

Lemma guarded_mono before before' {A} (p : rprog A) : (forall a x, before a x -> before' a x) -> guarded before p -> guarded before' p.
Proof. intros Hb Hp tr o Hr a x b E Hx. by eapply Hb, Hp. Qed.

Lemma guarded_call before {A} c (k : ranswer c -> rprog A) :
  (kind c = true -> before [] (Dropped c) /\ forall r, before [] (Answered c r)) ->
  (forall r, guarded (fun l => before (Answered c r :: l)) (k r)) -> guarded before (Call c k).
Proof.
  intros Hc Hk tr o Hr a x b E Hx. destruct Hr as [[-> _]|[[-> _]|(r & t & -> & Hr)]].
  - by destruct a.
  - destruct a as [|y [|]]; simplify_eq/=. by apply Hc.
  - destruct a as [|y a]; simplify_eq/=; [by apply Hc|]. by eapply (Hk r _ _ Hr a x b).
Qed.

Lemma guarded_race before {A B} (p q : rprog B) (k : B -> rprog A) :
  lasting before -> guarded before p -> never q -> (forall b, never (k b)) -> guarded before (Race p q k).
Proof.
  intros Hl Hp Hq Hk tr o (t1 & t2 & t & Hi & Hr) a x b E Hx.
  assert (exists o1, runs p t1 o1) as [o1 Hr1] by (destruct Hr as [?|?]; naive_solver).
  assert (omap (only kind) t2 = []) as E2 by (destruct Hr as [?|?]; naive_solver).
  assert (exists b', t = a ++ x :: b') as [b' ->].
  { destruct Hr as [(_ & _ & -> & _)|(r & tr' & Hr & -> & _)]; [by exists b|]. apply app_eq_app in E as (l & [[-> E]|[-> E]]).
    - destruct l as [|y l]; [|injection E as -> ->; by exists l]. destruct (only_elem [] b x Hx). rewrite E. by eapply Hk.
    - destruct (only_elem l b x Hx). rewrite <- E. by eapply Hk. }
  destruct (interleaves_split _ _ _ _ _ _ Hi eq_refl) as (a1 & a2 & Ha & [[b1 ->]|[b2 ->]]).
  - eapply Hl; [by apply interleaves_sublist in Ha as [? _]|]. by eapply (Hp _ _ Hr1 a1 x b1).
  - by destruct (only_elem a2 b2 x Hx).
Qed.

Lemma guarded_select before {A} (p q : rprog A) : lasting before -> guarded before p -> never q -> guarded before (select p q).
Proof. intros Hl Hp Hq. apply guarded_race; [done..|]. intros. apply unseen_ret. Qed.
End never.

(** ** Before the components start *)

(** The worker is announced, or a component is started. *)
Definition starts (c : rcall W) : bool :=
  match c with RHealth WorkerAccepting true | RSpawnNode _ _ | RSpawnAggregator _ _ => true | _ => false end.

(** Something outside the process is asked, or a component is started, or a
    milestone past the configuration is reported. *)
Definition reaches_out (c : rcall W) : bool :=
  match c with
  | RKafka _ | RRedisConnect | RRedisPing | RConnectGateway _ _ _ _ | RSpawnNode _ _ | RSpawnAggregator _ _ => true
  | RHealth ConfigLoaded _ | RHealth Draining _ | RHealth WorkerAccepting false => false
  | RHealth _ _ => true
  | _ => false
  end.

Lemma starts_waits c : waits c = true -> starts c = false.
Proof. by destruct c. Qed.
Lemma reaches_out_waits c : waits c = true -> reaches_out c = false.
Proof. by destruct c. Qed.

Section life.
Variable iteration : gset string -> list string.
Hypothesis iteration_complete : forall s x, x ∈ iteration s <-> x ∈ s.
Variable fuel : nat.
Variable from_yaml : string -> result string ScenarioFile.
Variable read_to_string : string -> result string string.
Variable default_exists : bool.
Implicit Types (config : AppConfig) (runtime : InitializedRuntime W) (scenarios : list (Scenario W)).

Notation run := (process_run iteration fuel from_yaml read_to_string default_exists).
Notation initialize := (initialize_runtime iteration fuel).

(** The scenarios the process runs with. *)
Definition accepted_scenarios config scenarios : Prop :=
  load_scenarios from_yaml read_to_string (scenarios_file config) (pulse_endpoint config) default_exists = Ok scenarios
  /\ validate_scenario_limits config scenarios = Ok tt.

Section offline.
Variable kind : rcall W -> bool.
Hypothesis waits_plain : forall c, waits c = true -> kind c = false.
Hypothesis files_plain : forall endpoint path d, kind (ROfflineGateway endpoint path d) = false.
Hypothesis read_plain : forall path, kind (RReadFile path) = false.

Lemma never_offline_plans config scenarios : unseen (only kind) (offline_plans iteration config scenarios).
Proof.
  apply never_build_scenario_plans; intros.
  - by apply (never_call_of kind (ROfflineGateway _ _ _)).
  - by apply (never_call_of kind (RReadFile _)).
Qed.
End offline.

Lemma never_print_lines kind lines : (forall line, kind (RPrint line) = false) -> unseen (only kind) (print_lines lines : rprog unit).
Proof. intros Hk. induction lines as [|line lines IH]; [apply unseen_ret|]. apply never_call; [done|]. by intros. Qed.

(** The calls of initialization. *)
Definition initializes (c : rcall W) : bool :=
  match c with
  | RKafka _ | RRedisConnect | RRedisPing | RReadFile _ | RConnectGateway _ _ _ _ => true
  | RHealth (RedisReady | KafkaTopicsReady | KafkaProducersReady | KafkaConsumerReady | ScenariosInitialized) _ => true
  | c => waits c
  end.

Section initialization.
Variable kind : rcall W -> bool.
Hypothesis initializes_plain : forall c, initializes c = true -> kind c = false.
Notation never := (unseen (only kind)).

Lemma initialization_waits c : waits c = true -> kind c = false.
Proof. intros Hc. apply initializes_plain. by destruct c. Qed.

Lemma never_redis_probe d : never (with_timeout d redis_probe).
Proof.
  apply never_with_timeout; [apply initialization_waits|]. apply never_call; [by apply initializes_plain|].
  intros []; [by apply (never_call_of kind RRedisPing), initializes_plain|apply unseen_ret].
Qed.

Lemma never_when {A} (m : rprog (result string A)) enabled : never m -> never (when enabled m).
Proof. intros Hm. destruct enabled; [|apply unseen_ret]. apply never_rtry; [done|]. intros. apply unseen_ret. Qed.

Lemma never_await_dependencies config : never (await_dependencies fuel config).
Proof.
  pose proof initialization_waits as Hw. assert (forall c, kind (RKafka c) = false) as Hk by (intros; by apply initializes_plain).
  apply never_rtry; [apply unseen_ret|]. intros _. apply never_rtry.
  - apply never_try_join; [done| |by apply never_probe_until]. apply never_until_ready; [done|].
    apply unseen_bind; [apply never_redis_probe|intros; apply unseen_ret].
  - intros _. apply never_call; [by apply initializes_plain|]. intros _. apply never_rtry; [|intros _].
    + destruct (kafka_topic_management_enabled config); [by apply never_probe_until|apply unseen_ret].
    + apply never_rtry; [by apply never_probe_until|]. intros _. apply never_call; [by apply initializes_plain|]. intros. apply unseen_ret.
Qed.

Lemma never_connected_plans config scenarios : never (connected_plans iteration fuel config scenarios).
Proof.
  pose proof initialization_waits as Hw.
  apply never_build_scenario_plans; [|intros; by apply (never_call_of kind (RReadFile _)), initializes_plain]. intros endpoint path.
  apply unseen_bind; [|intros; apply unseen_ret]. apply never_with_timeout; [done|]. apply never_until_ready; [done|].
  apply never_call; [by apply initializes_plain|]. intros. apply unseen_ret.
Qed.

Lemma never_initialize config scenarios : never (initialize config scenarios).
Proof.
  assert (forall A (p : prog kanswer A), never (kafka p)) as Hk by (intros; apply never_kafka; intros; by apply initializes_plain).
  apply never_rtry; [apply never_await_dependencies|]. intros _.
  do 3 (apply never_rtry; [apply Hk|]; intros ?). apply never_rtry; [apply never_when, Hk|]. intros ?.
  apply never_call; [by apply initializes_plain|]. intros _. apply never_rtry; [apply Hk|]. intros ?.
  apply never_rtry; [apply never_when, Hk|]. intros ?. apply never_call; [by apply initializes_plain|]. intros _.
  apply never_rtry; [apply never_connected_plans|]. intros ?. apply never_call; [by apply initializes_plain|]. intros _.
  apply never_rtry; [apply unseen_ret|]. intros. apply unseen_ret.
Qed.

Lemma never_start_runtime config scenarios : never (start_runtime iteration fuel config scenarios).
Proof.
  pose proof initialization_waits as Hw. apply never_select.
  - apply unseen_bind; [|intros; apply unseen_ret]. apply never_with_timeout; [done|apply never_initialize].
  - apply unseen_bind; [by apply never_wait_for_shutdown|]. intros. apply unseen_ret.
Qed.

Lemma never_health_loop n brokers topics d : never (dependency_health_loop n brokers topics d).
Proof.
  pose proof initialization_waits as Hw. induction n as [|n IH]; [by apply never_forever|]. apply unseen_bind; [by apply never_wait_or_shutdown|].
  intros [|]; [|apply unseen_ret]. apply unseen_bind; [apply never_redis_probe|].
  intros r. apply never_call; [by apply initializes_plain|]. intros _.
  apply unseen_bind; [apply never_kafka; intros; by apply initializes_plain|]. intros topics'.
  apply never_call; [by apply initializes_plain|]. intros _. exact IH.
Qed.
End initialization.

Lemma starts_nothing c : initializes c = true -> starts c = false.
Proof. by destruct c as [[] | | | | | | | | | | | | | | | | | | | | |]. Qed.

Lemma runs_start_runtime config scenarios tr runtime :
  runs (start_runtime iteration fuel config scenarios) tr (Some (Ok runtime)) ->
  exists t, t `sublist_of` tr /\ runs (initialize config scenarios) t (Some (Ok runtime)).
Proof.
  intros (t & Hs & [Hr|Hr])%runs_select.
  - apply runs_bind_done in Hr as ([r|] & t1 & t2 & -> & Hr & [-> [= Hr']]). subst r.
    apply runs_with_timeout in Hr as (t & Ht & Hr). exists t. rewrite app_nil_r in Hs. split; [by etransitivity|done].
  - by apply runs_bind_done in Hr as (? & ? & ? & _ & _ & [_ [=]]).
Qed.

(** What is started is what was initialized. *)
Definition starts_as config runtime (c : rcall W) : Prop :=
  match c with
  | RSpawnNode node_config plans => node_config = node_runtime_config config /\ plans = rt_plans runtime
  | RSpawnAggregator aggregation_config aggregation =>
      aggregation_config = aggregation_runtime_config config /\ rt_aggregation runtime = Some aggregation
  | _ => True
  end.

(** The calls of its end. *)
Definition ends (c : rcall W) : bool :=
  match c with
  | RJoinNext | RServerExit | RAbortAll | RAbortServer | RSendShutdown | RSignal => true
  | RHealth WorkerAccepting false | RHealth Draining true => true
  | c => waits c
  end.

Section ending.
Variable kind : rcall W -> bool.
Hypothesis ends_plain : forall c, ends c = true -> kind c = false.
Notation never := (unseen (only kind)).

Lemma ending_waits c : waits c = true -> kind c = false.
Proof. intros Hc. apply ends_plain. by destruct c. Qed.

Lemma never_join_components n : never (join_components n).
Proof.
  induction n as [|n IH]; [apply never_forever, ending_waits|]. apply never_call; [by apply ends_plain|].
  intros [|]; [exact IH|apply unseen_ret].
Qed.

Lemma never_drain d : never (drain_components fuel d).
Proof.
  apply unseen_bind; [apply never_with_timeout; [apply ending_waits|apply never_join_components]|].
  intros []; [apply unseen_ret|by apply (never_call_of kind RAbortAll), ends_plain].
Qed.

Lemma never_await_exit server : never (await_exit fuel server).
Proof.
  assert (never (component ← rcall_of RJoinNext; stopping ← rcall_of RShutdown; mret (component_exit component stopping))) as Hc.
  { apply never_call; [by apply ends_plain|]. intros. apply never_call; [by apply ends_plain|]. intros. apply unseen_ret. }
  apply never_select; [apply unseen_bind; [apply never_wait_for_shutdown, ending_waits|intros; apply unseen_ret]|].
  destruct server; [|done]. apply never_select; [done|]. apply never_call; [by apply ends_plain|]. intros. apply unseen_ret.
Qed.

Lemma never_begin_draining : never (set_health begin_draining).
Proof. apply never_set_health. repeat constructor; by apply ends_plain. Qed.

Lemma never_finish config server : never (finish fuel config server).
Proof.
  apply unseen_bind; [apply never_await_exit|]. intros exit. apply unseen_bind; [apply never_begin_draining|]. intros _.
  apply never_call; [by apply ends_plain|]. intros _. apply unseen_bind; [apply never_drain|]. intros _.
  apply unseen_bind; [destruct server; [by apply (never_call_of kind RAbortServer), ends_plain|apply unseen_ret]|]. intros _.
  apply unseen_bind; [apply never_begin_draining|]. intros _. apply unseen_ret.
Qed.

Lemma never_signal : never (signal_task;; process_forever : rprog (result string unit)).
Proof.
  apply unseen_bind; [apply never_signal_task; [by apply ends_plain..|repeat constructor; by apply ends_plain]|].
  intros _. apply never_forever, ending_waits.
Qed.
End ending.

Lemma ends_starts_nothing c : ends c = true -> starts c = false.
Proof. by destruct c as [[] []| | | | | | | | | | | | | | | | | | | | |]. Qed.

Lemma serve_starts config server runtime :
  guarded starts (fun _ x => starts_as config runtime (call_of x)) (serve fuel config server runtime).
Proof.
  apply guarded_call; [by intros _|]. intros _. apply guarded_rtry.
  - unfold start_aggregator. destruct (rt_aggregation runtime) as [aggregation|] eqn:Ea; [|apply never_guarded, unseen_ret].
    apply guarded_rtry; [apply never_guarded, unseen_ret|]. intros [] t _. apply guarded_call; [by intros _|].
    intros _. apply never_guarded, unseen_ret.
  - intros [] t _. apply never_guarded, (never_finish starts ends_starts_nothing).
Qed.

(** The process is initialized, for scenarios it accepted. *)
Definition started_after (loaded : result string AppConfig) (past : list robs) (x : robs) : Prop :=
  exists config scenarios runtime t, loaded = Ok config /\ dry_run config = false /\ accepted_scenarios config scenarios
  /\ t `sublist_of` past /\ initialized config scenarios t runtime /\ starts_as config runtime (call_of x).

Lemma started_after_lasts loaded : lasting (started_after loaded).
Proof.
  intros a a' x Ha (config & scenarios & runtime & t & Hl & Hd & Hs & Ht & Hi). exists config, scenarios, runtime, t.
  split_and!; [done..|by etransitivity|apply Hi|apply Hi].
Qed.

Lemma run_starts loaded : guarded starts (started_after loaded) (run loaded).
Proof.
  pose proof starts_waits as Hw.
  apply guarded_rtry; [apply never_guarded, unseen_ret|]. intros config t0 [-> [= <-]].
  apply guarded_call; [done|]. intros []. apply guarded_bind.
  { apply never_guarded. unfold spawn_server. destruct (_ && _); [|apply unseen_ret].
    apply never_call; [done|]. intros. apply unseen_ret. }
  intros server ts _. apply (guarded_mono _ (started_after (Ok config))).
  { intros a x Ha. eapply started_after_lasts; [|exact Ha]. apply sublist_cons, sublist_inserts_l. done. }
  apply guarded_select; [apply started_after_lasts| |].
  - apply guarded_rtry; [apply never_guarded, unseen_ret|]. intros scenarios t [-> [= Hsc]].
    apply guarded_rtry; [apply never_guarded, unseen_ret|]. intros [] t [-> [= Hv]].
    apply guarded_rtry; [by apply never_guarded, never_offline_plans|]. intros plans toff _.
    destruct (dry_run config) eqn:Ed.
    + apply never_guarded, unseen_bind; [by apply never_print_lines|]. intros. apply unseen_ret.
    + apply guarded_rtry; [apply never_guarded, never_start_runtime, starts_nothing|]. intros runtime tst Hst.
      apply runs_start_runtime in Hst as (tin & Htin & Hin). apply runs_initialize_runtime in Hin; [|done].
      assert (forall a x, starts_as config runtime (call_of x) -> started_after (Ok config) ([] ++ [] ++ toff ++ tst ++ a) x) as Hall.
      { intros a x Hx. exists config, scenarios, runtime, tin. split_and!; [done|done|by split|by simpl; apply sublist_inserts_l, sublist_inserts_r|done|done]. }
      unfold run_started. apply guarded_call; [split; [|intros]; by apply (Hall [])|]. intros [].
      apply guarded_select.
      * intros a a' x Ha Hb. eapply started_after_lasts; [|exact Hb]. simpl.
        apply sublist_app; [done|]. apply sublist_app; [done|]. by apply sublist_skip.
      * eapply guarded_mono; [|apply serve_starts]. intros a x Hx. by apply Hall.
      * apply unseen_bind; [apply never_health_loop, starts_nothing|]. intros _. by apply never_forever.
  - apply (never_signal starts ends_starts_nothing).
Qed.


(** The plans were made and validated offline, and it is no dry run. *)
Definition planned_before (loaded : result string AppConfig) (past : list robs) (x : robs) : Prop :=
  exists config scenarios plans t, loaded = Ok config /\ dry_run config = false /\ accepted_scenarios config scenarios
  /\ t `sublist_of` past /\ runs (offline_plans iteration config scenarios) t (Some (Ok plans)) /\ plans <> [] /\ Forall plan_ready plans.

Lemma planned_before_lasts loaded : lasting (planned_before loaded).
Proof.
  intros a a' x Ha (config & scenarios & plans & t & Hl & Hd & Hs & Ht & Hi). exists config, scenarios, plans, t.
  split_and!; [done..|by etransitivity|apply Hi|apply Hi|apply Hi].
Qed.

Lemma run_plans_first loaded : guarded reaches_out (planned_before loaded) (run loaded).
Proof.
  pose proof reaches_out_waits as Hw.
  apply guarded_rtry; [apply never_guarded, unseen_ret|]. intros config t0 [-> [= <-]].
  apply guarded_call; [done|]. intros []. apply guarded_bind.
  { apply never_guarded. unfold spawn_server. destruct (_ && _); [|apply unseen_ret].
    apply never_call; [done|]. intros. apply unseen_ret. }
  intros server ts _. apply (guarded_mono _ (planned_before (Ok config))).
  { intros a x Ha. eapply planned_before_lasts; [|exact Ha]. apply sublist_cons, sublist_inserts_l. done. }
  apply guarded_select; [apply planned_before_lasts| |].
  - apply guarded_rtry; [apply never_guarded, unseen_ret|]. intros scenarios t [-> [= Hsc]].
    apply guarded_rtry; [apply never_guarded, unseen_ret|]. intros [] t [-> [= Hv]].
    apply guarded_rtry; [by apply never_guarded, never_offline_plans|]. intros plans toff Hoff.
    destruct (dry_run config) eqn:Ed.
    + apply never_guarded, unseen_bind; [by apply never_print_lines|]. intros. apply unseen_ret.
    + intros tr o _ a x b _ _. pose proof Hoff as Hready. eapply built_plans_ready in Hready as (Hne & _ & Hr & _); [|done].
      exists config, scenarios, plans, toff. split_and!; [done|done|by split|simpl; by apply sublist_inserts_r|done|done|done].
  - apply unseen_bind; [by apply never_signal_task; [..|repeat constructor]|]. intros _. by apply never_forever.
Qed.

(** A malformed plan costs nothing outside the process. Before Kafka, Redis or
    a target is asked anything, before a component is started and before any
    milestone past the configuration is reported, the scenarios were accepted
    and every plan was validated offline; and a dry run never gets that far. *)
Theorem plans_precede_all_traffic loaded before x after o
    (Hrun : runs (run loaded) (before ++ x :: after) o) (Hout : reaches_out (call_of x) = true) :
  planned_before loaded before x.
Proof. by eapply run_plans_first. Qed.

(** ** Readiness *)

(** The flags after some calls. A store is no point at which a task is dropped:
    one that is not answered was not made. *)
Definition store_of (h : HealthState) (x : robs) : HealthState :=
  match x with Answered (RHealth field ready) _ => health_set field ready h | _ => h end.
Definition health_at (tr : list robs) : HealthState := foldl store_of HealthState_new tr.

Lemma health_at_true (tr : list robs) field :
  health_at tr field = true -> exists before after, tr = before ++ Answered (RHealth field true : rcall W) tt :: after.
Proof.
  unfold health_at. induction tr as [|x tr IH] using rev_ind; [done|]. rewrite foldl_app. simpl. intros Hf.
  assert (foldl store_of HealthState_new tr field = true \/ x = Answered (RHealth field true : rcall W) tt) as [Ht| ->].
  { destruct x as [c r|c]; [|by left]. destruct c; try by left. simpl in Hf. unfold health_set in Hf.
    destruct (decide (field = field0)) as [->|]; [|by left]. right. subst ready. by destruct r. }
  - destruct (IH Ht) as (before & after & ->). exists before, (after ++ [x]). by rewrite <- app_assoc.
  - by exists tr, [].
Qed.

Definition undrains (c : rcall W) : bool := match c with RHealth Draining false => true | _ => false end.

Lemma health_at_draining before after :
  omap (only undrains) (before ++ Answered (RHealth Draining true : rcall W) tt :: after) = [] ->
  health_at (before ++ Answered (RHealth Draining true : rcall W) tt :: after) Draining = true.
Proof.
  unfold health_at. rewrite foldl_app. simpl. rewrite omap_app. intros [_ Ha]%app_eq_nil. simpl in Ha.
  set (h := health_set Draining true _). assert (h Draining = true) as Hh by done. revert Ha Hh. generalize h. clear h.
  induction after as [|x after IH]; intros h Ha Hh; [done|]. simpl in Ha |- *. unfold only at 1 in Ha.
  destruct (undrains (call_of x)) eqn:Eu; [done|]. apply IH; [done|].
  destruct x as [c r|c]; [|done]. destruct c; try done. simpl in *. unfold health_set.
  destruct field; try done. destruct ready; done.
Qed.

Lemma undrains_waits c : waits c = true -> undrains c = false.
Proof. by destruct c. Qed.

Lemma initializes_undrains c : initializes c = true -> undrains c = false.
Proof. by destruct c as [[] []| | | | | | | | | | | | | | | | | | | | |]. Qed.
Lemma ends_undrains c : ends c = true -> undrains c = false.
Proof. by destruct c as [[] []| | | | | | | | | | | | | | | | | | | | |]. Qed.

Lemma run_never_undrains loaded : unseen (only undrains) (run loaded).
Proof.
  apply never_rtry; [apply unseen_ret|]. intros config. apply never_call; [done|]. intros _. apply unseen_bind.
  { unfold spawn_server. destruct (_ && _); [|apply unseen_ret]. apply never_call; [done|]. intros. apply unseen_ret. }
  intros server. apply never_select; [|apply (never_signal undrains ends_undrains)].
  apply never_rtry; [apply unseen_ret|]. intros scenarios. apply never_rtry; [apply unseen_ret|]. intros _.
  apply never_rtry; [by apply never_offline_plans|]. intros plans. destruct (dry_run config).
  { apply unseen_bind; [by apply never_print_lines|]. intros. apply unseen_ret. }
  apply never_rtry; [apply never_start_runtime, initializes_undrains|]. intros runtime. apply never_call; [done|]. intros _.
  apply never_select.
  - apply never_call; [done|]. intros _. apply never_rtry; [|intros _; apply (never_finish undrains ends_undrains)].
    unfold start_aggregator. destruct (rt_aggregation runtime); [|apply unseen_ret]. apply never_rtry; [apply unseen_ret|]. intros _.
    apply never_call; [done|]. intros. apply unseen_ret.
  - apply unseen_bind; [apply never_health_loop, initializes_undrains|]. intros _. apply never_forever, undrains_waits.
Qed.

(** Readiness fails closed. Whenever the readiness endpoint would answer 200,
    the process is initialized for the scenarios it accepted, and it has not
    begun to drain; so a process that has begun to drain, for a signal or for a
    component that ended, never reports ready again. *)
Theorem ready_process_is_serving loaded tr o
    (Hrun : runs (run loaded) tr o) (Hready : (readiness_handler (health_at tr)).1 = 200) :
  (exists config scenarios runtime t, loaded = Ok config /\ dry_run config = false /\ accepted_scenarios config scenarios
     /\ t `sublist_of` tr /\ initialized config scenarios t runtime)
  /\ Answered (RHealth Draining true : rcall W) tt ∉ tr.
Proof.
  apply readiness_answer, is_ready_true in Hready as [Hall Hd]. split.
  - unfold prerequisites in Hall. rewrite !Forall_cons in Hall. destruct Hall as (_ & _ & _ & _ & _ & _ & Hw & _). simpl in Hw.
    apply health_at_true in Hw as (before & after & ->).
    destruct (run_starts loaded _ _ Hrun before _ after eq_refl eq_refl) as (config & scenarios & runtime & t & Hl & Hn & Hs & Ht & Hi & _).
    exists config, scenarios, runtime, t. split_and!; [done..| |done]. by apply sublist_inserts_r.
  - intros (before & after & ->)%list_elem_of_split. rewrite health_at_draining in Hd; [done|]. by eapply run_never_undrains.
Qed.

(** *** The flags of the dependencies *)

Definition sets_flag (c : rcall W) : bool := match c with RHealth _ _ => true | _ => false end.

(** What was just probed is what is stored. *)
Definition flag_follows_probe (brokers : string) (required_topics : list string) (probe_timeout : duration) (past : list robs) (x : robs) : Prop :=
  match call_of x with
  | RHealth RedisReady ready => exists before t r, past = before ++ t /\ runs (with_timeout (from_secs 2) redis_probe) t (Some r)
      /\ ready = bool_decide (is_Some (r ≫= ok))
  | RHealth KafkaTopicsReady ready => exists before t r, past = before ++ t
      /\ runs (probe_required_topics brokers required_topics probe_timeout) (omap seen_kafka t) (Some r) /\ ready = is_ok r
  | _ => False
  end.

Lemma flag_follows_later brokers topics d t past x :
  flag_follows_probe brokers topics d past x -> flag_follows_probe brokers topics d (t ++ past) x.
Proof.
  unfold flag_follows_probe. destruct (call_of x); try done. destruct field; try done;
    intros (before & u & r & -> & Hr); exists (t ++ before), u, r; by rewrite <- app_assoc.
Qed.

Lemma health_loop_follows n brokers topics d :
  guarded sets_flag (flag_follows_probe brokers topics d) (dependency_health_loop n brokers topics d).
Proof.
  assert (forall c, waits c = true -> sets_flag c = false) as Hw by (by intros []).
  induction n as [|n IH]; [by apply never_guarded, never_forever|].
  apply guarded_bind; [by apply never_guarded, never_wait_or_shutdown|]. intros [|] t1 _; [|apply never_guarded, unseen_ret].
  apply guarded_bind.
  { apply never_guarded, never_with_timeout; [done|]. apply never_call; [done|].
    intros []; [by apply (never_call_of sets_flag RRedisPing)|apply unseen_ret]. }
  intros r t2 Hr. apply guarded_call; [intros _; split; [|intros ?]; exists t1, t2, r; by rewrite app_nil_r|]. intros [].
  apply guarded_bind; [by apply never_guarded, never_kafka|]. intros outcome t3 Ht%runs_kafka. apply guarded_call.
  { intros _. split; [|intros ?]; eexists (t1 ++ t2 ++ [_]), t3, outcome; rewrite app_nil_r, <- !app_assoc; by split. }
  intros []. eapply guarded_mono; [|exact IH]. intros past y Hy. do 2 apply flag_follows_later.
  apply (flag_follows_later _ _ _ [_]), flag_follows_later. by apply (flag_follows_later _ _ _ [_]).
Qed.

(** The flags of Redis and of the topics follow the probes: the task that
    watches the dependencies stores nothing else, and what it stores for one of
    them is the outcome of the probe of it that it has just made, a probe that
    took too long counting as failed. A stored success for the topics means that
    the brokers had just reported every one of them able to serve. *)
Theorem dependency_flags_follow_probes n brokers topics d before x after o
    (Hrun : runs (dependency_health_loop n brokers topics d) (before ++ x :: after) o) (Hflag : sets_flag (call_of x) = true) :
  flag_follows_probe brokers topics d before x
  /\ (call_of x = RHealth KafkaTopicsReady true ->
      exists t, t `sublist_of` before
        /\ Forall (fun name => exists topic, top_name topic = name /\ reported (omap seen_kafka t) topic /\ topic_ready topic) topics).
Proof.
  assert (flag_follows_probe brokers topics d before x) as Hf by (by eapply health_loop_follows). split; [done|].
  intros Hx. unfold flag_follows_probe in Hf. rewrite Hx in Hf. destruct Hf as (b & t & [[]|] & -> & Hr & Hok); [|done].
  exists t. split; [by apply sublist_inserts_l|]. by apply probe_reports_ready in Hr as (_ & _ & Hr).
Qed.

(** ** The end *)

(** The process stopped announcing itself, told its components to stop, and joined
    them all or aborted those that were left. *)
Record drained (tr : list robs) : Prop := {
  drained_unready : Answered (RHealth Draining true : rcall W) tt ∈ tr;
  drained_told : Answered (RSendShutdown : rcall W) tt ∈ tr;
  drained_joined : Answered (RJoinNext : rcall W) None ∈ tr \/ Answered (RAbortAll : rcall W) tt ∈ tr;
}.

Definition shutdown_seen (tr : list robs) : Prop :=
  Answered (RShutdown : rcall W) true ∈ tr \/ Answered (RShutdownChanged : rcall W) true ∈ tr.

Lemma drained_more t tr : t ⊆ tr -> drained t -> drained tr.
Proof. intros Ht [H1' H2' H3']. split; set_solver. Qed.

Lemma shutdown_seen_more t tr : t ⊆ tr -> shutdown_seen t -> shutdown_seen tr.
Proof. unfold shutdown_seen. set_solver. Qed.

Lemma sublist_subseteq (t tr : list robs) : t `sublist_of` tr -> t ⊆ tr.
Proof. intros Hs x. by apply sublist_elem. Qed.

Lemma runs_wait_for_shutdown n tr : runs (wait_for_shutdown n) tr (Some tt) -> shutdown_seen tr.
Proof.
  intros Hr. apply runs_rcall in Hr as ([] & t & -> & Hr); [left; set_solver|].
  apply (shutdown_seen_more t); [set_solver|]. revert t Hr. induction n as [|n IH]; intros t Hr.
  { by destruct Hr as [[_ [=]]|[[_ [=]]|([] & _)]]. }
  apply runs_rcall in Hr as ([] & t1 & -> & Hr); [right; set_solver|].
  apply runs_rcall in Hr as ([] & t2 & -> & Hr); [left; set_solver|].
  apply (shutdown_seen_more t2); [set_solver|]. by apply IH.
Qed.

Lemma runs_await_exit server tr : runs (await_exit fuel server) tr (Some None) -> shutdown_seen tr.
Proof.
  assert (forall u, runs (component ← rcall_of RJoinNext; stopping ← rcall_of RShutdown; mret (component_exit component stopping) : rprog _)
    u (Some None) -> shutdown_seen u) as Hc.
  { intros u Hr. apply runs_rcall in Hr as (c & t1 & -> & Hr). apply runs_rcall in Hr as ([] & t2 & -> & [-> Hr]); [left; set_solver|].
    by destruct c as [[[|]|]|]. }
  intros (t & Hs%sublist_subseteq & Hr)%runs_select. apply (shutdown_seen_more t); [done|]. destruct Hr as [Hr|Hr].
  - apply runs_bind_done in Hr as ([] & t1 & t2 & -> & Hr & _). apply (shutdown_seen_more t1); [set_solver|].
    by apply runs_wait_for_shutdown in Hr.
  - destruct server; [|by apply Hc]. apply runs_select in Hr as (t' & Hs'%sublist_subseteq & [Hr|Hr]).
    + apply (shutdown_seen_more t'); [done|by apply Hc].
    + by apply runs_rcall in Hr as (e & u & -> & [_ [=]]).
Qed.

Lemma runs_join_components n tr : runs (join_components n : rprog unit) tr (Some tt) -> Answered (RJoinNext : rcall W) None ∈ tr.
Proof.
  revert tr. induction n as [|n IH]; intros tr Hr; [by destruct Hr as [[_ [=]]|[[_ [=]]|([] & _)]]|].
  apply runs_rcall in Hr as ([c|] & t & -> & Hr); [|set_solver]. apply IH in Hr. set_solver.
Qed.

Lemma runs_finish config server tr r :
  runs (finish fuel config server) tr (Some r) -> drained tr /\ (r = Ok tt -> shutdown_seen tr).
Proof.
  intros Hr. apply runs_bind_done in Hr as (exit & t1 & t2 & -> & Hexit & Hr).
  apply runs_bind_done in Hr as ([] & t3 & t4 & -> & Hh & Hr).
  apply runs_rcall in Hh as ([] & t3' & -> & Hh). apply runs_rcall in Hh as ([] & t3'' & -> & _).
  apply runs_rcall in Hr as ([] & t5 & -> & Hr). apply runs_bind_done in Hr as ([] & t6 & t7 & -> & Hd & Hr).
  apply runs_bind_done in Hr as ([] & t8 & t9 & -> & _ & Hr). apply runs_bind_done in Hr as ([] & t10 & t11 & -> & _ & [-> [= ->]]).
  split.
  - split; [set_solver..|]. apply runs_bind_done in Hd as ([[]|] & u1 & u2 & -> & Hj & Hd).
    + apply runs_with_timeout in Hj as (u & Hu%sublist_subseteq & Hj). apply runs_join_components in Hj. left. set_solver.
    + apply (runs_rcall RAbortAll Ret) in Hd as ([] & u & -> & _). right. set_solver.
  - destruct exit; [done|]. intros _. apply runs_await_exit in Hexit. eapply shutdown_seen_more; [|done]. set_solver.
Qed.

(** How a run that returns has ended. *)
Definition ended config (tr : list robs) (r : result string unit) : Prop :=
  (dry_run config = true /\ r = Ok tt) \/ (omap (only starts) tr = [] /\ is_ok r = false) \/ (drained tr /\ (r = Ok tt -> shutdown_seen tr)).

Lemma ended_more config t1 t2 tr r : interleaves t1 t2 tr -> omap (only starts) t2 = [] -> ended config t1 r -> ended config tr r.
Proof.
  intros Hi E [Hd|[[Hs Hr]|[Hd Hs]]]; [by left|right; left|right; right].
  - by rewrite (omap_interleaves_l _ _ _ _ Hi E).
  - apply interleaves_subseteq in Hi as [Ht _]. split; [by eapply drained_more|]. intros Hr. eapply shutdown_seen_more; [done|by apply Hs].
Qed.

Lemma ended_later config t1 t2 r : omap (only starts) t1 = [] -> ended config t2 r -> ended config (t1 ++ t2) r.
Proof. intros E. apply (ended_more config t2 t1); [apply interleaves_sym, interleaves_app|done]. Qed.

(** A race against a task that never returns. *)
Lemma runs_beside {A B} (p : rprog A) (q : rprog B) tr a :
  runs (select p (q;; process_forever)) tr (Some a) -> exists t1 t2, interleaves t1 t2 tr /\ runs p t1 (Some a) /\ runs (q;; process_forever : rprog A) t2 None.
Proof.
  intros (t1 & t2 & t & Hi & [(_ & _ & _ & [=])|(b & tr' & [-> [= ->]] & -> & [[Hp Hq]|[_ Hq]])]); rewrite app_nil_r.
  - by exists t1, t2.
  - apply runs_bind_done in Hq as (? & ? & ? & _ & _ & [[_ [=]]|[[_ [=]]|([] & _)]]).
Qed.

Lemma run_started_ends config server runtime tr r :
  check_aggregation_config (aggregation_runtime_config config) = Ok tt ->
  runs (run_started fuel config server runtime) tr (Some r) -> ended config tr r.
Proof.
  intros Hagg Hr. right. right. apply runs_rcall in Hr as ([] & t & -> & Hr). apply runs_beside in Hr as (t1 & t2 & Hi & Hr & _).
  apply runs_rcall in Hr as ([] & t3 & -> & Hr). apply runs_bind_done in Hr as (a & t4 & t5 & -> & Ha & Hr).
  assert (a = Ok tt) as ->.
  { unfold start_aggregator in Ha. destruct (rt_aggregation runtime); [|by destruct Ha as [_ [= ->]]].
    rewrite Hagg in Ha. by apply runs_rcall in Ha as ([] & u & -> & [_ [= ->]]). }
  apply runs_finish in Hr as [Hd Hs]. apply interleaves_subseteq in Hi as [Hi _].
  assert (t5 ⊆ Answered (RHealth WorkerAccepting true : rcall W) tt :: t) as Hsub.
  { intros x Hx. apply elem_of_cons. right. apply Hi, elem_of_cons. right. apply elem_of_app. by right. }
  split; [by eapply drained_more|]. intros Hr. eapply shutdown_seen_more; [done|by apply Hs].
Qed.

Lemma run_configured_ends config server tr r :
  check_aggregation_config (aggregation_runtime_config config) = Ok tt ->
  runs (run_configured iteration fuel from_yaml read_to_string default_exists config server) tr (Some r) -> ended config tr r.
Proof.
  intros Hagg Hr. apply runs_bind_done in Hr as ([scenarios|e] & t1 & t2 & -> & [-> _] & Hr); [|destruct Hr as [-> [= ->]]; right; by left].
  apply runs_bind_done in Hr as ([[]|e] & t3 & t4 & -> & [-> _] & Hr); [|destruct Hr as [-> [= ->]]; right; by left].
  apply runs_bind_done in Hr as (plans & t5 & t6 & -> & Hoff & Hr).
  assert (omap (only starts) t5 = []) as E5 by (by eapply (never_offline_plans starts)).
  simpl. apply ended_later; [done|]. destruct plans as [plans|e]; [|destruct Hr as [-> [= ->]]; right; by left].
  destruct (dry_run config) eqn:Ed; [left; by apply runs_bind_done in Hr as ([] & ? & ? & _ & _ & [_ [= ->]])|].
  apply runs_bind_done in Hr as (runtime & t7 & t8 & -> & Hst & Hr).
  assert (omap (only starts) t7 = []) as E7 by (by eapply (never_start_runtime starts starts_nothing)).
  apply ended_later; [done|]. destruct runtime as [runtime|e]; [|destruct Hr as [-> [= ->]]; right; by left].
  by eapply run_started_ends.
Qed.

(** The process ends in order. If it returns after it has started a component,
    it has stopped reporting ready, told its components to stop, and joined them
    all or, past the drain timeout, aborted the rest; and then it returns success
    only if a shutdown was requested. If it has started none, it returns an error,
    unless it was a dry run. *)
Theorem process_ends_drained config tr r
    (Hsettings : check_aggregation_config (aggregation_runtime_config config) = Ok tt)
    (Hrun : runs (run (Ok config)) tr (Some r)) :
  ended config tr r.
Proof.
  apply runs_bind_done in Hrun as (c & t1 & t2 & -> & [-> [= ->]] & Hr). apply runs_rcall in Hr as ([] & t3 & -> & Hr).
  apply runs_bind_done in Hr as (server & t4 & t5 & -> & Hserver & Hr).
  apply runs_beside in Hr as (u1 & u2 & Hi & Hr & Hsig). apply (ended_later config [_]); [done|].
  apply ended_later.
  - unfold spawn_server in Hserver. destruct (_ && _); [|by destruct Hserver as [-> _]].
    by apply runs_rcall in Hserver as ([] & u & -> & [-> _]).
  - eapply ended_more; [exact Hi| |by eapply run_configured_ends]. by eapply (never_signal starts ends_starts_nothing).
Qed.
End life.
End process.
