(* ===== verification/RuntimeSample.v ===== *)
(** * A life of the process

    A run of the process of [Runtime] from its configuration to its end, at which
    the theorems of [RuntimeProtocol] are applied. *)

From S2P Require Import Prelude RustStr F64 Contracts Domain Planning Aggregation Coordination Metrics Effects Wire WireRoundtrip Gateway Template Steps Runner Worker Scenarios Config Startup Leader Dispatch ExecutionLease RunStore Aggregator Kafka KafkaProperties Health Runtime RuntimeSettings RuntimeInit RuntimeProtocol.

#[local] Arguments runs : simpl never.
#[local] Existing Instance no_base64.
#[local] Existing Instance plain_text.
#[local] Existing Instance fixed_draws.
#[local] Existing Instance plain_urls.
Notation ranswer := (ranswer (W := unit)).
Notation robs := (obs ranswer).

(** ** The configuration and its scenario *)

Definition shop_env (name : string) : result ConfigError (option string) :=
  Ok (if String.eqb name "PULSE_GRPC_DESCRIPTOR_SET" then Some "shop.pb"
      else if String.eqb name "PULSE_AGGREGATION_ENABLED" || String.eqb name "PULSE_METRICS_ENABLED" then Some "false"
      else None).

Definition shop_file : ScenarioFile :=
  mkScenarioFile 1
    [mkScenarioEntry "checkout" None (f64_of_Z 5) 2 "10s" RepeatOnce None [GrpcEntry None "shop.Orders" "Get" None None None None]].

Definition shop_yaml (raw : string) : result string ScenarioFile := Ok shop_file.
Definition shop_text (path : string) : result string string := Ok "scenarios".
Definition shop_target : string := "http://127.0.0.1:8080".

Definition shop_gateway : DynamicGrpcGateway unit :=
  mkGateway unit (fun _ w => (Ok (mkGrpcResponse []), w)) (fun _ _ => Ok tt) (fun _ _ _ => Ok []) (fun _ _ _ => Ok JNull).


Definition shop_config : result string AppConfig := map_err show_ConfigError (from_sources shop_env no_files "node-1").

(** ** The environment *)

(** Every call succeeds at once; whether a shutdown is asked for may be left open. *)
Definition shop_reply (shutdown : option bool) (c : rcall unit) : option (ranswer c) :=
  match c with
  | RKafka c =>
      match c with
      | KNewClient _ | KSubscribe _ => Some (Ok tt)
      | KMetadata None _ => Some (Ok (mkMetadata 1 []))
      | KMetadata (Some name) _ => Some (Ok (mkMetadata 1 [mkTopic name None [mkPartition 0 1 None]]))
      | KElapsed => Some 0
      | KJoin => Some (Ok tt)
      | _ => None
      end
  | RHealth _ _ | RSleep _ | RSendShutdown | RAbortServer | RSpawnServer _ | RSpawnNode _ _ | RSpawnAggregator _ _
  | RAbortAll | RPrint _ => Some tt
  | RRedisConnect | RRedisPing => Some (Ok tt)
  | RReadFile _ => Some (Ok [])
  | ROfflineGateway _ _ _ | RConnectGateway _ _ _ _ => Some (Ok shop_gateway)
  | RShutdown => shutdown
  | RJoinNext => match shutdown with Some _ => Some None | None => None end
  | _ => None
  end.

Definition shop_process : prog ranswer (result string unit) :=
  process_run elements 4 shop_yaml shop_text true shop_config.

(** ** The theorems at a run *)

(** The first call of a kind, with what comes before and after it. *)
Fixpoint cut (kind : rcall unit -> bool) (tr : list robs) : option (list robs * robs * list robs) :=
  match tr with
  | [] => None
  | x :: tr => if kind (call_of x) then Some ([], x, tr) else '(before, y, after) ← cut kind tr; Some (x :: before, y, after)
  end.

Lemma cut_Some kind tr before x after : cut kind tr = Some (before, x, after) -> tr = before ++ x :: after /\ kind (call_of x) = true.
Proof.
  revert before. induction tr as [|y tr IH]; intros before; [done|]. simpl. destruct (kind (call_of y)) eqn:E; [by intros [= <- <- <-]|].
  intros ([[b z] c] & Hc & [= <- -> ->])%bind_Some. destruct (IH _ Hc) as [-> Hz]. done.
Qed.

Definition spawns_node (c : rcall unit) : bool := match c with RSpawnNode _ _ => true | _ => false end.

(** The process that nobody stops starts the node, and is ready. *)
Lemma shop_serves :
  match play (shop_reply None) shop_process with
  | Some (tr, None) => match cut spawns_node tr with Some _ => ((readiness_handler (health_at tr)).1 =? 200) | None => false end
  | _ => false
  end = true.
Proof. vm_compute. reflexivity. Qed.

(** The process that is told to stop once it runs. *)
Lemma shop_stops :
  match shop_config with
  | Ok config =>
      is_ok (check_aggregation_config (aggregation_runtime_config config))
      && match play (shop_reply (Some true)) (process_run elements 4 shop_yaml shop_text true (Ok config)) with
         | Some (tr, Some (Ok _)) => negb (dry_run config) && match cut spawns_node tr with Some _ => true | None => false end
         | _ => false
         end
  | Err _ => false
  end = true.
Proof. vm_compute. reflexivity. Qed.

Lemma elements_complete (s : gset string) (x : string) : x ∈ elements s <-> x ∈ s.
Proof. apply elem_of_elements. Qed.

Lemma spawns_node_starts c : spawns_node c = true -> starts c = true /\ reaches_out c = true.
Proof. by destruct c. Qed.


Lemma plans_precede_all_traffic_witness :
  exists before x after, runs shop_process (before ++ x :: after) None /\ spawns_node (call_of x) = true
  /\ planned_before elements shop_yaml shop_text true shop_config before x.
Proof.
  pose proof shop_serves as Hs. destruct (play (shop_reply None) shop_process) as [[tr [r|]]|] eqn:Hp; [discriminate| |discriminate].
  destruct (cut spawns_node tr) as [[[before x] after]|] eqn:Hc; [|discriminate].
  apply cut_Some in Hc as [-> Hx]. apply play_runs in Hp. exists before, x, after. split; [exact Hp|]. split; [exact Hx|].
  exact (plans_precede_all_traffic elements elements_complete 4 shop_yaml shop_text true shop_config before x after None Hp
           (proj2 (spawns_node_starts _ Hx))).
Defined.

Lemma ready_process_is_serving_witness :
  exists tr, runs shop_process tr None /\ (readiness_handler (health_at tr)).1 = 200
  /\ Answered (RHealth Draining true : rcall unit) tt ∉ tr.
Proof.
  pose proof shop_serves as Hs. destruct (play (shop_reply None) shop_process) as [[tr [r|]]|] eqn:Hp; [discriminate| |discriminate].
  destruct (cut spawns_node tr) as [[[before x] after]|]; [|discriminate].
  apply play_runs in Hp. apply Z.eqb_eq in Hs. exists tr. split; [exact Hp|]. split; [exact Hs|].
  exact (proj2 (ready_process_is_serving elements elements_complete 4 shop_yaml shop_text true shop_config tr None Hp Hs)).
Defined.

Lemma process_ends_drained_witness :
  match shop_config with
  | Ok config => exists tr r, runs (process_run elements 4 shop_yaml shop_text true (Ok config)) tr (Some r) /\ ended config tr r
  | Err _ => False
  end.
Proof.
  pose proof shop_stops as Hs. destruct shop_config as [config|]; [|discriminate Hs]. apply andb_true_iff in Hs as [Ha Hs].
  destruct (play (shop_reply (Some true)) _) as [[tr [r|]]|] eqn:Hp; [|discriminate..]. apply play_runs in Hp.
  exists tr, r. split; [exact Hp|]. apply (process_ends_drained elements elements_complete 4 shop_yaml shop_text true config tr r); [|exact Hp].
  destruct (check_aggregation_config _) as [[]|]; [reflexivity|discriminate Ha].
Defined.

(** *** The probes of the dependencies *)

Definition shop_topics : list string := ["jobs"; "results"].

Definition stores_topics (c : rcall unit) : bool := match c with RHealth KafkaTopicsReady true => true | _ => false end.

Definition probing_reply (c : rcall unit) : option (ranswer c) :=
  match c with RShutdown => Some false | c => shop_reply None c end.

Lemma shop_probes :
  match play probing_reply (dependency_health_loop 1 "127.0.0.1:9092" shop_topics (from_secs 2)) with
  | Some (tr, None) => match cut stores_topics tr with Some _ => true | None => false end
  | _ => false
  end = true.
Proof. vm_compute. reflexivity. Qed.

Lemma dependency_flags_follow_probes_witness :
  exists before x after, runs (dependency_health_loop 1 "127.0.0.1:9092" shop_topics (from_secs 2)) (before ++ x :: after) None
  /\ stores_topics (call_of x) = true
  /\ exists t, t `sublist_of` before
       /\ Forall (fun name => exists topic, top_name topic = name /\ reported (omap seen_kafka t) topic /\ topic_ready topic) shop_topics.
Proof.
  pose proof shop_probes as Hs. destruct (play probing_reply _) as [[tr [r|]]|] eqn:Hp; [discriminate| |discriminate].
  destruct (cut stores_topics tr) as [[[before x] after]|] eqn:Hc; [|discriminate].
  apply cut_Some in Hc as [-> Hx]. apply play_runs in Hp. exists before, x, after. split; [exact Hp|]. split; [exact Hx|].
  assert (call_of x = RHealth KafkaTopicsReady true) as Hf.
  { destruct (call_of x) as [[] []| | | | | | | | | | | | | | | | | | | | |]; try discriminate Hx. reflexivity. }
  apply (dependency_flags_follow_probes 1 "127.0.0.1:9092" shop_topics (from_secs 2) before x after None Hp); [by rewrite Hf|exact Hf].
Defined.
