(* ===== verification/DlqReplay.v ===== *)
(** * Replay of dead letters

    [src/src/application/dlq_replay.rs]: recognizing the records of the dead-letter
    topic, filtering them, and building the job that replays one. The JSON of
    [serde], the base64 engines and the Unicode lower-case mapping are parameters. *)

From S2P Require Import Prelude RustStr F64 Contracts Domain Planning Wire Effects Kafka.

(** ** Recognizing records *)

(** [serde_json::from_slice] and [from_value]; an error is its text. *)
Class ReplayJson := {
  json_value : list Z -> result string Value;
  value_failed : Value -> result string FailedScenarioJob;
  value_poison : Value -> result string PoisonMessageRecord;
}.

(** [URL_SAFE_NO_PAD]. *)
Class UrlBase64 := { url_encode : list Z -> string }.

Inductive ReplayRecord :=
| FailedJob (job : FailedScenarioJob)
| Poison (record : PoisonMessageRecord).

Definition reject_unknown_fields (object : list (string * Value)) (allowed : list string) (kind : string) : result string unit :=
  match List.find (fun field => negb (existsb (String.eqb field) allowed)) (map fst object) with
  | Some field => Err ("unknown " +:+ kind +:+ " DLQ field: " +:+ field)
  | None => Ok tt
  end.

Definition validate_text (field value : string) : result string unit :=
  reject_if (blank value) ("DLQ " +:+ field +:+ " must not be empty");;
  reject_if (MAX_CONTRACT_ID_BYTES <? str_len value) ("DLQ " +:+ field +:+ " exceeds " +:+ show MAX_CONTRACT_ID_BYTES +:+ " bytes").

Definition validate_replay_slice (slice : JobSlice) : result string unit :=
  reject_if ((total slice =? 0) || (MAX_CONTRACT_SLICES <? total slice) || (total slice <=? index slice))
    ("invalid failed-job slice " +:+ show (index slice) +:+ " of " +:+ show (total slice)).

Definition validate_failed_job (job : FailedScenarioJob) : result string unit :=
  map_err (fun error => "invalid failed-job contract: " +:+ show_ContractError error)
    (validate_contract_version (fail_schema_version job));;
  validate_text "scenario_id" (fail_scenario_id job);;
  validate_text "run_id" (fail_run_id job);;
  validate_text "execution_key" (fail_execution_key job);;
  (if 2 <=? fail_schema_version job then
     validate_text "event_id" (fail_event_id job);;
     reject_if (negb (bool_decide (fail_event_id job = build_terminal_event_id (fail_execution_key job) (fail_attempt job) "dlq")))
       "failed-job event_id is not the deterministic terminal identity"
   else Ok tt);;
  validate_text "reason" (fail_reason job);;
  validate_replay_slice (fail_slice job);;
  reject_if ((fail_max_retries job <? fail_attempt job) || (MAX_CONTRACT_ATTEMPT <? fail_max_retries job))
    ("invalid failed-job attempt metadata: attempt=" +:+ show (fail_attempt job) +:+ ", max_retries=" +:+ show (fail_max_retries job)).

Section records.
Context `{Base64} `{ReplayJson}.

Definition validate_poison_evidence (field : string) (encoded : option string) (original_bytes : option Z) (truncated : bool)
    : result string unit :=
  match encoded with
  | None =>
      reject_if (bool_decide (is_Some original_bytes) || truncated)
        ("poison " +:+ field +:+ " evidence metadata exists without encoded evidence")
  | Some encoded =>
      let exceeds := "poison " +:+ field +:+ " evidence exceeds its bounded prefix" in
      let max_encoded_bytes := (MAX_POISON_EVIDENCE_FIELD_BYTES + 2) / 3 * 4 in
      reject_if (max_encoded_bytes <? str_len encoded) exceeds;;
      decoded ← map_err (fun error => "invalid poison " +:+ field +:+ "_base64: " +:+ error) (b64_decode encoded);
      let retained_bytes := byte_len decoded in
      reject_if (MAX_POISON_EVIDENCE_FIELD_BYTES <? retained_bytes) exceeds;;
      match original_bytes with
      | None => reject_if truncated ("poison " +:+ field +:+ " claims truncation without an original byte count")
      | Some original_bytes =>
          reject_if ((truncated && (original_bytes <=? retained_bytes)) || (negb truncated && negb (original_bytes =? retained_bytes)))
            ("poison " +:+ field +:+ " original byte count is inconsistent with retained evidence")
      end
  end.

Definition validate_poison_record (record : PoisonMessageRecord) : result string unit :=
  map_err (fun error => "invalid poison-message contract: " +:+ show_ContractError error)
    (validate_contract_version (poi_schema_version record));;
  validate_text "event_id" (poi_event_id record);;
  validate_text "source_topic" (poi_source_topic record);;
  validate_text "reason" (poi_reason record);;
  reject_if (poi_source_partition record <? 0) "poison source_partition must be non-negative";;
  reject_if (poi_source_offset record <? 0) "poison source_offset must be non-negative";;
  reject_if (negb (bool_decide (poi_event_id record
      = poison_event_id (poi_source_topic record) (poi_source_partition record) (poi_source_offset record))))
    "poison event_id is not the deterministic source identity";;
  validate_poison_evidence "source_key" (poi_source_key_base64 record) (poi_source_key_original_bytes record)
    (poi_source_key_truncated record);;
  validate_poison_evidence "payload" (poi_payload_base64 record) (poi_payload_original_bytes record) (poi_payload_truncated record).

Definition failed_markers : list string := ["scenario_id"; "run_id"; "execution_key"; "slice"].
Definition poison_markers : list string := ["source_topic"; "source_partition"; "source_offset"].
Definition failed_fields : list string :=
  ["schema_version"; "event_id"; "scenario_id"; "run_id"; "execution_key"; "slice"; "failed_at_unix_ms"; "attempt"; "max_retries"; "reason"].
Definition poison_fields : list string :=
  ["schema_version"; "event_id"; "failed_at_unix_ms"; "source_topic"; "source_partition"; "source_offset"; "source_key_base64";
   "source_key_original_bytes"; "source_key_truncated"; "payload_base64"; "payload_original_bytes"; "payload_truncated"; "reason"].

Definition looks_like (markers : list string) (object : list (string * Value)) : bool :=
  existsb (fun field => bool_decide (is_Some (map_get field object))) markers.

Definition decode_replay_record (payload : list Z) : result string ReplayRecord :=
  value ← map_err (fun error => "invalid DLQ JSON: " +:+ error) (json_value payload);
  match value with
  | JObject object =>
      match looks_like failed_markers object, looks_like poison_markers object with
      | true, false =>
          reject_unknown_fields object failed_fields "failed-job";;
          failed ← map_err (fun error => "invalid failed-job DLQ envelope: " +:+ error) (value_failed value);
          validate_failed_job failed;;
          Ok (FailedJob failed)
      | false, true =>
          reject_unknown_fields object poison_fields "poison-message";;
          poison ← map_err (fun error => "invalid poison-message DLQ envelope: " +:+ error) (value_poison value);
          validate_poison_record poison;;
          Ok (Poison poison)
      | true, true => Err "ambiguous DLQ payload contains both failed-job and poison-message identity fields"
      | false, false => Err "unknown DLQ envelope shape"
      end
  | _ => Err "DLQ payload must be a JSON object"
  end.
End records.

(** ** Filters *)

Record ReplayFilters := mkFilters {
  scenario_ids : gset string;
  reason_contains : option string;
  since_unix_ms : option Z;
  until_unix_ms : option Z;
  replay_limit : option Z;
}.

Section filters.
(** [str::to_lowercase]. *)
Variable to_lowercase : string -> string.

Definition matches (self : ReplayFilters) (job : FailedScenarioJob) : bool :=
  if negb (bool_decide (scenario_ids self = ∅)) && negb (bool_decide (fail_scenario_id job ∈ scenario_ids self)) then false
  else if from_option (fun since => fail_failed_at_unix_ms job <? since) false (since_unix_ms self) then false
  else if from_option (fun until => until <? fail_failed_at_unix_ms job) false (until_unix_ms self) then false
  else match reason_contains self with
       | Some needle => str_contains (to_lowercase needle) (to_lowercase (fail_reason job))
       | None => true
       end.
End filters.

(** ** The job of a replay *)

Record ReplayOptions := mkReplayOptions {
  opt_rate_per_sec : f64;
  opt_scale : f64;
  replay_max_retries : Z;
  replay_semantics_fingerprint : string;
  opt_dry_run : bool;
  opt_idempotent_ack : bool;
}.

Record ReplaySource := mkSource {
  src_topic : string;
  src_partition : Z;
  src_offset : Z;
}.

Definition ReplaySource_new (topic : string) (partition offset : Z) : result string ReplaySource :=
  reject_if (blank topic) "replay source topic must not be empty";;
  reject_if (249 <? str_len topic) "replay source topic exceeds Kafka's 249-byte limit";;
  reject_if (partition <? 0) "replay source partition must be non-negative";;
  reject_if (offset <? 0) "replay source offset must be non-negative";;
  Ok (mkSource topic partition offset).

Section replay.
Context `{UrlBase64} {W : Type}.

Definition replay_run_id (failed : FailedScenarioJob) (source : ReplaySource) : string :=
  let failed_event_identity :=
    if str_is_empty (fail_event_id failed) then build_terminal_event_id (fail_execution_key failed) (fail_attempt failed) "dlq"
    else fail_event_id failed in
  "v" +:+ show CURRENT_CONTRACT_VERSION +:+ ":replay:t" +:+ url_encode (bytes_of (src_topic source))
  +:+ ":p" +:+ show (src_partition source) +:+ ":o" +:+ show (src_offset source)
  +:+ ":e" +:+ show_hex 32 (fnv1a_128 (bytes_of failed_event_identity)).

Definition build_replay_job (failed : FailedScenarioJob) (source : ReplaySource) (scenario : Scenario W) (global_startup_burst : Z)
    (options : ReplayOptions) : result string ScenarioJob :=
  reject_if (negb (f64_eqb (opt_scale options) f64_one))
    "v2 replay scale must be exactly 1.0 so the job matches the deterministic local plan";;
  reject_if (cfg_max_concurrency (config scenario) <? global_startup_burst)
    ("startup burst " +:+ show global_startup_burst +:+ " exceeds scenario concurrency " +:+ show (cfg_max_concurrency (config scenario)));;
  let run_id := replay_run_id failed source in
  let execution_key := run_id +:+ ":slice-0-of-1" in
  try_for (fun '(field, value) =>
      reject_if (MAX_CONTRACT_ID_BYTES <? str_len value)
        (field +:+ " exceeds the " +:+ show MAX_CONTRACT_ID_BYTES +:+ "-byte contract identity bound"))
    [("replay run_id", run_id); ("replay execution_key", execution_key)];;
  Ok {| job_schema_version := CURRENT_CONTRACT_VERSION;
        job_scenario_id := fail_scenario_id failed;
        job_run_id := run_id;
        job_execution_key := execution_key;
        job_plan_fingerprint := scenario_plan_fingerprint scenario 1 global_startup_burst (replay_max_retries options)
                                  (replay_semantics_fingerprint options);
        job_scheduled_at_unix_ms := fail_failed_at_unix_ms failed;
        job_not_before_unix_ms := 0;
        job_slice := mkSlice 0 1;
        job_load := mkLoad (cfg_scenarios_per_sec (config scenario)) (cfg_duration (config scenario))
                      (cfg_max_concurrency (config scenario)) global_startup_burst;
        job_attempt := 0;
        job_max_retries := replay_max_retries options |}.
End replay.
