(* ===== verification/DlqTool.v ===== *)
(** * The replay tool

    [src/src/bin/pulse_dlq.rs]: its settings, its summaries and the loop that reads
    the dead-letter topic and republishes jobs. Its process exits are errors, its
    terminal output is not modelled. *)

From S2P Require Import Prelude RustStr F64 Contracts Domain Planning Metrics Effects Runner Wire Config Kafka DlqReplay.

Definition DEFAULT_REPLAY_LIMIT : Z := 1000.
Definition MAX_REPLAY_LIMIT : Z := 10000.
Definition MAX_REASON_SUMMARY_KEYS : Z := 64.
Definition MAX_REASON_SUMMARY_BYTES : Z := 160.
Definition REASON_SUMMARY_OVERFLOW : string := "<other reasons>".
Definition REASON_TRUNCATION_MARKER : string := "...[truncated]".

(** ** Settings *)

(** [invalid_replay_env]: the process ends with this message. *)
Definition invalid_replay_env {A} (name reason : string) : result string A :=
  Err ("invalid configuration for " +:+ name +:+ ": " +:+ reason).

Section environment.
(** [std::env::var(..).ok()]. *)
Variable var : string -> option string.

Definition env_bool (name : string) (default : bool) : result string bool :=
  match var name with
  | None => Ok default
  | Some raw =>
      let raw := to_ascii_lowercase (trim raw) in
      if existsb (String.eqb raw) ["true"; "1"; "yes"; "y"] then Ok true
      else if existsb (String.eqb raw) ["false"; "0"; "no"; "n"] then Ok false
      else invalid_replay_env name "expected a boolean"
  end.

Definition env_parse {A} (parse : string -> option A) (reason : string) (name : string) (default : A) : result string A :=
  match var name with
  | None => Ok default
  | Some raw => match parse (trim raw) with Some a => Ok a | None => invalid_replay_env name reason end
  end.

Definition env_f64 := env_parse (fun s => f64_of_bits <$> parse_float 52 11 s) "expected a finite decimal number".
Definition env_u64 := env_parse (parse_uint u64_max) "expected a non-negative integer".
Definition env_u32 := env_parse (parse_uint u32_max) "expected a non-negative integer".
Definition env_opt_u128 (name : string) : result string (option Z) :=
  env_parse (fun s => Some <$> parse_uint u128_max s) "expected a non-negative integer" name None.

Definition env_opt_string (name : string) : option string :=
  raw ← var name; let trimmed := trim raw in if str_is_empty trimmed then None else Some trimmed.

Definition parse_scenario_ids (raw : option string) : gset string :=
  match raw with
  | None => ∅
  | Some list => list_to_set (List.filter (fun s => negb (str_is_empty s)) (map trim (split_char "," list)))
  end.

Definition replay_poll_budget (rate : f64) (delivery_timeout request_timeout : duration) : result string duration :=
  reject_if (negb (f64_is_finite rate) || f64_leb rate f64_zero) "replay rate must be finite and greater than zero";;
  pacing_delay ← ok_or (from_secs_f64 (f64_div f64_one rate)) "replay pacing interval exceeds Duration's range";
  ok_or (budget ← duration_checked_add pacing_delay delivery_timeout; duration_checked_add budget request_timeout)
    "replay poll budget overflowed Duration".

(** The settings of [main], in the order they are read. *)
Definition replay_settings (app : AppConfig) (fingerprint : string) : result string (ReplayOptions * ReplayFilters) :=
  v_dry_run ← env_bool "PULSE_DLQ_REPLAY_DRY_RUN" true;
  v_ack ← env_bool "PULSE_DLQ_REPLAY_CONFIRM_IDEMPOTENT" false;
  reject_if (negb v_dry_run && negb v_ack) "refusing to replay without PULSE_DLQ_REPLAY_CONFIRM_IDEMPOTENT=true";;
  let rate_name := "PULSE_DLQ_REPLAY_RATE_PER_SEC" in
  rate ← env_f64 rate_name (f64_of_Z 5);
  (if negb (f64_is_finite rate) || f64_leb rate f64_zero then invalid_replay_env rate_name "must be finite and greater than zero" else Ok tt);;
  (if f64_ltb (app_max_scenarios_per_sec app) rate then invalid_replay_env rate_name "must not exceed PULSE_MAX_SCENARIOS_PER_SEC" else Ok tt);;
  poll_budget ← match replay_poll_budget rate (kafka_delivery_timeout app) (kafka_request_timeout app) with
                | Ok budget => Ok budget
                | Err reason => invalid_replay_env rate_name reason
                end;
  (if kafka_max_poll_interval app <=? poll_budget
   then invalid_replay_env rate_name
          ("pacing plus publish and commit can occupy " +:+ show (as_millis poll_budget)
           +:+ " ms, which must be less than PULSE_KAFKA_MAX_POLL_INTERVAL_MS (" +:+ show (as_millis (kafka_max_poll_interval app)) +:+ ")")
   else Ok tt);;
  v_scale ← env_f64 "PULSE_DLQ_REPLAY_SCALE" f64_one;
  (if negb (f64_eqb v_scale f64_one)
   then invalid_replay_env "PULSE_DLQ_REPLAY_SCALE"
          "arbitrary load scaling is no longer accepted because it violates the v2 deterministic plan contract; use 1.0 and bound replay record pacing with PULSE_DLQ_REPLAY_RATE_PER_SEC"
   else Ok tt);;
  limit ← env_u64 "PULSE_DLQ_REPLAY_LIMIT" DEFAULT_REPLAY_LIMIT;
  (if (limit =? 0) || (MAX_REPLAY_LIMIT <? limit) then invalid_replay_env "PULSE_DLQ_REPLAY_LIMIT" "must be between 1 and 10000 records" else Ok tt);;
  retries ← env_u32 "PULSE_WORKER_MAX_RETRIES" 2;
  v_since ← env_opt_u128 "PULSE_DLQ_REPLAY_SINCE_UNIX_MS";
  v_until ← env_opt_u128 "PULSE_DLQ_REPLAY_UNTIL_UNIX_MS";
  Ok (mkReplayOptions rate v_scale retries fingerprint v_dry_run v_ack,
      mkFilters (parse_scenario_ids (env_opt_string "PULSE_DLQ_REPLAY_SCENARIO_IDS")) (env_opt_string "PULSE_DLQ_REPLAY_REASON_CONTAINS")
        v_since v_until (Some limit)).
End environment.

(** ** Summaries *)

(** [char::is_control] on UTF-8: U+0000 to U+001F, U+007F, U+0080 to U+009F. *)
Fixpoint blank_controls (s : string) : string :=
  match s with
  | EmptyString => EmptyString
  | String a rest =>
      if (byte_of a <? 32) || (byte_of a =? 127) then String " " (blank_controls rest)
      else match rest with
           | String b rest' =>
               if (byte_of a =? 194) && (128 <=? byte_of b) && (byte_of b <? 160) then String " " (blank_controls rest')
               else String a (blank_controls rest)
           | EmptyString => String a EmptyString
           end
  end.

Definition summarize_reason (reason : string) : string :=
  let summary := blank_controls reason in
  if str_len summary <=? MAX_REASON_SUMMARY_BYTES then summary
  else
    let keep := MAX_REASON_SUMMARY_BYTES - str_len REASON_TRUNCATION_MARKER in
    str_truncate summary (char_boundary_at_most (Z.to_nat keep) summary keep) +:+ REASON_TRUNCATION_MARKER.

Definition record_reason_summary (counts : gmap string Z) (reason : string) : gmap string Z :=
  let reason := summarize_reason reason in
  match counts !! reason with
  | Some count => <[reason := saturating_add u64_max count 1]> counts
  | None =>
      let detailed_keys := Z.of_nat (size (dom counts ∖ {[REASON_SUMMARY_OVERFLOW]})) in
      let key := if detailed_keys <? MAX_REASON_SUMMARY_KEYS then reason else REASON_SUMMARY_OVERFLOW in
      <[key := saturating_add u64_max (default 0 (counts !! key)) 1]> counts
  end.

Definition validate_consumed_record_size (source_key payload : option (list Z)) (record_max_bytes : Z) : result string unit :=
  let key_bytes := from_option byte_len 0 source_key in
  let payload_bytes := from_option byte_len 0 payload in
  total ← ok_or (checked_add usize_max key_bytes payload_bytes) "consumed Kafka record byte length overflowed";
  reject_if (record_max_bytes <? total)
    ("Kafka record exceeds configured " +:+ show record_max_bytes +:+ "-byte consumer limit (total=" +:+ show total
     +:+ ", key=" +:+ show key_bytes +:+ ", payload=" +:+ show payload_bytes +:+ ")").

(** ** The loop *)

Record ReplayState := mkReplayState {
  st_seen : Z;
  st_matched : Z;
  st_skipped_poison : Z;
  st_skipped_unknown : Z;
  st_per_scenario : gmap string Z;
  st_per_reason : gmap string Z;
  st_bucket : TokenBucket;
}.

(** Nothing read yet. *)
Definition replay_start (bucket : TokenBucket) : ReplayState := mkReplayState 0 0 0 0 ∅ ∅ bucket.

Definition count_seen (st : ReplayState) : ReplayState :=
  mkReplayState (saturating_add u64_max (st_seen st) 1) (st_matched st) (st_skipped_poison st) (st_skipped_unknown st)
    (st_per_scenario st) (st_per_reason st) (st_bucket st).

Definition count_poison (st : ReplayState) : ReplayState :=
  mkReplayState (st_seen st) (st_matched st) (saturating_add u64_max (st_skipped_poison st) 1) (st_skipped_unknown st)
    (st_per_scenario st) (st_per_reason st) (st_bucket st).

Definition count_unknown (st : ReplayState) : ReplayState :=
  mkReplayState (st_seen st) (st_matched st) (st_skipped_poison st) (saturating_add u64_max (st_skipped_unknown st) 1)
    (st_per_scenario st) (st_per_reason st) (st_bucket st).

Definition count_matched (failed : FailedScenarioJob) (st : ReplayState) : ReplayState :=
  let id := fail_scenario_id failed in
  mkReplayState (st_seen st) (saturating_add u64_max (st_matched st) 1) (st_skipped_poison st) (st_skipped_unknown st)
    (<[id := default 0 (st_per_scenario st !! id) + 1]> (st_per_scenario st))
    (record_reason_summary (st_per_reason st) (fail_reason failed)) (st_bucket st).

Definition with_bucket (bucket : TokenBucket) (st : ReplayState) : ReplayState :=
  mkReplayState (st_seen st) (st_matched st) (st_skipped_poison st) (st_skipped_unknown st)
    (st_per_scenario st) (st_per_reason st) bucket.

Inductive rcall :=
| RCtrlC
| RRecv
| RNow
| RSleep (d : duration)
| RPublish (key : string) (job : ScenarioJob)
| RCommit (msg : Message)
| RPanic
| RForever.

Definition ranswer (c : rcall) : Type :=
  match c with
  | RCtrlC | RSleep _ => unit
  | RRecv => result string Message
  | RNow => Z
  | RPublish _ _ | RCommit _ => result string unit
  | RPanic | RForever => Empty_set
  end.

Notation rprog := (prog ranswer).

Definition rcall_of (c : rcall) : rprog (ranswer c) := Call c Ret.

Definition replay_forever {A} : rprog A := Call RForever (fun r : Empty_set => match r with end).
Definition replay_panic {A} : rprog A := Call RPanic (fun r : Empty_set => match r with end).

(** [TokenBucket::acquire]. *)
Fixpoint replay_acquire (fuel : nat) (b : TokenBucket) : rprog TokenBucket :=
  match fuel with
  | O => replay_forever
  | S fuel' =>
      now ← rcall_of RNow;
      match acquire_attempt now b with
      | None => replay_panic
      | Some (None, b) => mret b
      | Some (Some wait, b) => rcall_of (RSleep wait);; replay_acquire fuel' b
      end
  end.

Section loop.
Context `{Base64} `{ReplayJson} `{UrlBase64} {W : Type}.
Variable to_lowercase : string -> string.
Variable app : AppConfig.
Variable options : ReplayOptions.
Variable filters : ReplayFilters.
Variable scenarios : gmap string (Scenario W).

(** What is left to do of a record: [true] is [continue], [false] [break]. *)
Definition settle_letter (msg : Message) (st : ReplayState) : rprog (ReplayState * bool) :=
  if opt_dry_run options then mret (st, true)
  else committed ← rcall_of (RCommit msg); mret (st, is_ok committed).

(** The replacement job of a failed job read from [msg]. *)
Definition replacement (msg : Message) (failed : FailedScenarioJob) (scenario : Scenario W) : result string ScenarioJob :=
  source ← ReplaySource_new (msg_topic msg) (msg_partition msg) (msg_offset msg);
  job ← build_replay_job failed source scenario (app_startup_burst app) options;
  map_err show_ContractError
    (ScenarioJob_validate_limits job (max_duration app) (app_max_scenarios_per_sec app) (app_max_concurrency app));;
  Ok job.

Definition republish (fuel : nat) (msg : Message) (failed : FailedScenarioJob) (scenario : Scenario W) (st : ReplayState)
    : rprog (ReplayState * bool) :=
  bucket ← replay_acquire fuel (st_bucket st);
  let st := with_bucket bucket st in
  match replacement msg failed scenario with
  | Err _ => mret (st, false)
  | Ok job =>
      published ← rcall_of (RPublish (key_for (cfg_partition_key_strategy (config scenario)) job) job);
      match published : result string unit with
      | Err _ => mret (st, false)
      | Ok _ => committed ← rcall_of (RCommit msg); mret (st, is_ok committed)
      end
  end.

Definition replay_record (fuel : nat) (msg : Message) (st : ReplayState) : rprog (ReplayState * bool) :=
  let st := count_seen st in
  match validate_consumed_record_size (msg_key msg) (msg_payload msg) (consumer_record_max_bytes app) with
  | Err _ => mret (st, false)
  | Ok _ =>
      match msg_payload msg with
      | None => mret (st, false)
      | Some payload =>
          match decode_replay_record payload with
          | Err _ => mret (st, false)
          | Ok (Poison _) => settle_letter msg (count_poison st)
          | Ok (FailedJob failed) =>
              if negb (matches to_lowercase filters failed) then settle_letter msg st
              else match scenarios !! fail_scenario_id failed with
                   | None => mret (count_unknown st, opt_dry_run options)
                   | Some scenario =>
                       let st := count_matched failed st in
                       if opt_dry_run options then mret (st, true) else republish fuel msg failed scenario st
                   end
          end
      end
  end.

Fixpoint replay_loop (fuel : nat) (limit : Z) (st : ReplayState) : rprog ReplayState :=
  match fuel with
  | O => replay_forever
  | S fuel' =>
      if limit <=? st_seen st then mret st
      else
        event ← select (rcall_of RCtrlC;; mret None) (r ← rcall_of RRecv; mret (Some r));
        match event : option (result string Message) with
        | None => mret st
        | Some (Err _) => replay_loop fuel' limit st
        | Some (Ok msg) =>
            '(st, continue) ← replay_record fuel' msg st;
            if continue : bool then replay_loop fuel' limit st else mret st
        end
  end.
End loop.
