(* ===== verification/DlqProperties.v ===== *)
(** * What replay guarantees

    The dead letters that Pulse publishes are the ones its replay tool recognizes,
    the jobs it makes of them are accepted by the workers and never share an
    identity, and the tool settles a dead letter only when it is done with it. *)

From S2P Require Import Prelude RustStr F64 Contracts Domain Planning Lua Coordination Dispatch Metrics Effects Runner Wire Config Startup EndToEnd Kafka KafkaProperties DlqReplay DlqTool.

(** ** Recognition *)

(** What recognition relies on of [serde_json]: a derived [Serialize] writes every
    field under its name, and reading the text gives the record back. A timestamp
    beyond [u64] does not pass through [serde_json::Value]. *)
Class ReplayJsonLaws `{MessageJson} `{ReplayJson} := {
  failed_reads_back job text :
    0 <= fail_failed_at_unix_ms job <= u64_max -> failed_json job = Ok text ->
    exists object, json_value (bytes_of text) = Ok (JObject object) /\ map fst object ≡ₚ failed_fields
      /\ value_failed (JObject object) = Ok job;
  poison_reads_back record text :
    0 <= poi_failed_at_unix_ms record <= u64_max -> poison_json record = Ok text ->
    exists object, json_value (bytes_of text) = Ok (JObject object) /\ map fst object ≡ₚ poison_fields
      /\ value_poison (JObject object) = Ok record;
}.

Lemma map_get_key {A} key (m : list (string * A)) : is_Some (map_get key m) <-> key ∈ map fst m.
Proof.
  induction m as [|[k v] m IH]; simpl; [split; [by intros [? [=]]|by intros ?%not_elem_of_nil]|].
  rewrite elem_of_cons. destruct (String.eqb_spec k key) as [->|Hne]; [split; [auto|by eexists]|]. rewrite IH.
  split; [auto|intros [?|?]; [congruence|done]].
Qed.

(** Classification depends on the field names alone. *)
Lemma looks_like_fields markers object fields :
  map fst object ≡ₚ fields -> looks_like markers object = existsb (fun m => bool_decide (m ∈ fields)) markers.
Proof.
  intros Hp. unfold looks_like. induction markers as [|m markers IH]; [done|]. simpl. rewrite IH. f_equal.
  apply bool_decide_ext. by rewrite map_get_key, Hp.
Qed.

Lemma known_fields_pass object allowed kind : map fst object ≡ₚ allowed -> reject_unknown_fields object allowed kind = Ok tt.
Proof.
  intros Hp. unfold reject_unknown_fields. destruct (List.find _ _) as [field|] eqn:E; [|done].
  apply find_some in E as [Hin Hn]. exfalso. apply negb_true_iff, not_true_iff_false in Hn. apply Hn, existsb_exists.
  exists field. split; [|apply String.eqb_refl]. apply list_elem_of_In. rewrite <- Hp. by apply list_elem_of_In.
Qed.

Lemma validate_text_dlq field field' value : validate_text field value = Ok tt <-> validate_dlq_text field' value = Ok tt.
Proof. unfold validate_text, validate_dlq_text. by rewrite then_Ok, !reject_if_Ok, orb_false_iff. Qed.

(** The publisher and the tool ask the same of a failed job. *)
Lemma failed_job_checks_agree job : Kafka.validate_failed_job job = Ok tt <-> validate_failed_job job = Ok tt.
Proof.
  unfold Kafka.validate_failed_job, validate_failed_job. rewrite !then_Ok, !map_err_Ok, try_for_Ok, !Forall_cons.
  unfold validate_dlq_slice, validate_replay_slice.
  rewrite (validate_text_dlq "scenario_id" "scenario_id"), (validate_text_dlq "run_id" "run_id"),
    (validate_text_dlq "execution_key" "execution_key"), (validate_text_dlq "reason" "reason"), !reject_if_Ok.
  destruct (2 <=? fail_schema_version job); rewrite ?then_Ok, ?(validate_text_dlq "event_id" "event_id"), ?reject_if_Ok;
    naive_solver constructor.
Qed.

Section recognition.
Context `{ReplayJsonLaws} `{Base64}.

(** The tool takes every piece of evidence the publisher lets out. *)
Lemma evidence_checks_agree version field encoded original tr :
  validate_poison_evidence_for_publish version field encoded original tr = Ok tt ->
  validate_poison_evidence field encoded original tr = Ok tt.
Proof.
  unfold validate_poison_evidence_for_publish, validate_poison_evidence. destruct encoded as [encoded|]; [|by rewrite !reject_if_Ok].
  rewrite !then_Ok, !reject_if_Ok, !bind_Ok. intros (Hl & decoded & Hd & Hr). split; [done|].
  apply map_err_Ok in Hd. exists decoded. rewrite map_err_Ok. split; [done|]. rewrite !then_Ok, !reject_if_Ok in *.
  destruct Hr as [Hm Hr]. split; [done|]. destruct original; rewrite !reject_if_Ok in *; [done|].
  apply negb_false_iff, andb_true_iff in Hr as [_ Hr]. by apply negb_true_iff.
Qed.

Lemma poison_checks_agree record : validate_poison record = Ok tt -> validate_poison_record record = Ok tt.
Proof.
  unfold validate_poison, validate_poison_record. rewrite !then_Ok, !map_err_Ok, try_for_Ok, !Forall_cons, !reject_if_Ok, orb_false_iff.
  rewrite (validate_text_dlq "event_id" "event_id"), (validate_text_dlq "source_topic" "source_topic"), (validate_text_dlq "reason" "reason").
  intros (Hv & (He & Ht & Hr & _) & [Hp Ho] & Hid & Hk & Hpl). split_and!; eauto using evidence_checks_agree.
Qed.

(** C30: every dead letter that the publisher lets out is recognized by the replay
    tool for what it is: the text of a failed job decodes to that failed job, with
    its reason as bounded for publication, and the text of a poison record to that
    poison record; neither is refused, and neither is taken for the other. *)
Theorem published_dead_letter_is_recognized :
  (forall job text, 0 <= fail_failed_at_unix_ms job <= u64_max -> serialize_validated_failed_job job = Ok text ->
     decode_replay_record (bytes_of text) = Ok (FailedJob (with_failed_reason job (bounded_dlq_reason (fail_reason job)))))
  /\ (forall record text, 0 <= poi_failed_at_unix_ms record <= u64_max -> serialize_validated_poison record = Ok text ->
     decode_replay_record (bytes_of text) = Ok (Poison (with_poison_reason record (bounded_dlq_reason (poi_reason record))))).
Proof.
  split.
  - intros job text Ht Hs. unfold serialize_validated_failed_job in Hs. set (job' := with_failed_reason _ _) in *.
    apply then_Ok in Hs as [Hv Hj]. apply map_err_Ok in Hj.
    destruct (failed_reads_back job' text Ht Hj) as (object & Hval & Hp & Hread).
    unfold decode_replay_record. rewrite Hval. cbn [map_err mbind result_bind].
    rewrite !(looks_like_fields _ _ _ Hp). cbn -[reject_unknown_fields validate_failed_job].
    rewrite (known_fields_pass object failed_fields _ Hp), Hread. cbn -[validate_failed_job].
    by rewrite (proj1 (failed_job_checks_agree job') Hv).
  - intros record text Ht Hs. unfold serialize_validated_poison in Hs. set (record' := with_poison_reason _ _) in *.
    apply then_Ok in Hs as [Hv Hj]. apply map_err_Ok in Hj.
    destruct (poison_reads_back record' text Ht Hj) as (object & Hval & Hp & Hread).
    unfold decode_replay_record. rewrite Hval. cbn [map_err mbind result_bind].
    rewrite !(looks_like_fields _ _ _ Hp). cbn -[reject_unknown_fields validate_poison_record].
    rewrite (known_fields_pass object poison_fields _ Hp), Hread. cbn -[validate_poison_record].
    by rewrite (poison_checks_agree record' Hv).
Qed.
End recognition.

(** ** The job of a replay *)

(** What identities rely on of the URL-safe engine (RFC 4648 without padding). *)
Class UrlBase64Laws `{UrlBase64} := {
  url_inj s t : url_encode (bytes_of s) = url_encode (bytes_of t) -> s = t;
  url_no_colon bytes : all_chars (fun c => negb (Ascii.eqb c ":")) (url_encode bytes) = true;
}.

Lemma colon_delimited_inj s1 s2 r1 r2 :
  all_chars (fun c => negb (Ascii.eqb c ":")) s1 = true -> all_chars (fun c => negb (Ascii.eqb c ":")) s2 = true ->
  s1 +:+ String ":" r1 = s2 +:+ String ":" r2 -> s1 = s2 /\ r1 = r2.
Proof.
  revert s2. induction s1 as [|a s1 IH]; intros [|b s2]; rewrite ?str_app_cons; simpl; intros H1 H2 E.
  - by injection E as ->.
  - injection E as <- _. by rewrite Ascii.eqb_refl in H2.
  - injection E as -> _. by rewrite Ascii.eqb_refl in H1.
  - injection E as -> E. apply andb_true_iff in H1 as [_ H1], H2 as [_ H2]. by destruct (IH s2 H1 H2 E) as [-> ->].
Qed.

Section replayed.
Context `{UrlBase64Laws} {W : Type}.
Implicit Types (scenario : Scenario W).

(** The scenario of a job runs in one slice as it would on its own. *)
Lemma whole_slice_load scenario burst :
  SpecFloat.valid_binary f64_prec f64_emax (cfg_scenarios_per_sec (config scenario)) = true ->
  slice_load scenario 1 0 burst
  = mkLoad (cfg_scenarios_per_sec (config scenario)) (cfg_duration (config scenario)) (cfg_max_concurrency (config scenario)) burst.
Proof.
  intros Hv. unfold slice_load, slice_startup_burst. change (Z.max 1 1) with 1. change (f64_of_Z 1) with f64_one.
  rewrite f64_div_one, !Z.div_1_r, !Z.mod_1_r by done. simpl. by rewrite !Z.add_0_r.
Qed.

Variable app : AppConfig.
Variable options : ReplayOptions.
Notation replacement := (replacement app options).

Lemma replacement_Ok msg failed scenario job :
  replacement msg failed scenario = Ok job ->
  exists source, source = mkSource (msg_topic msg) (msg_partition msg) (msg_offset msg)
    /\ 0 <= msg_partition msg /\ 0 <= msg_offset msg
    /\ build_replay_job failed source scenario (app_startup_burst app) options = Ok job
    /\ ScenarioJob_validate_limits job (max_duration app) (app_max_scenarios_per_sec app) (app_max_concurrency app) = Ok tt.
Proof.
  unfold DlqTool.replacement. intros (source & Hs & (job' & Hb & (Hl & [= <-])%then_Ok)%bind_Ok)%bind_Ok.
  apply map_err_Ok in Hl. unfold ReplaySource_new in Hs. rewrite !then_Ok, !reject_if_Ok, !Z.ltb_ge in Hs.
  destruct Hs as (_ & _ & Hp & Ho & [= <-]). eexists. split_and!; done.
Qed.

Lemma build_replay_job_Ok failed source scenario burst job :
  build_replay_job failed source scenario burst options = Ok job ->
  job_schema_version job = CURRENT_CONTRACT_VERSION /\ job_scenario_id job = fail_scenario_id failed
  /\ job_run_id job = replay_run_id failed source /\ job_execution_key job = replay_run_id failed source +:+ ":slice-0-of-1"
  /\ job_plan_fingerprint job = scenario_plan_fingerprint scenario 1 burst (replay_max_retries options) (replay_semantics_fingerprint options)
  /\ job_slice job = mkSlice 0 1 /\ job_max_retries job = replay_max_retries options
  /\ job_load job = mkLoad (cfg_scenarios_per_sec (config scenario)) (cfg_duration (config scenario))
                      (cfg_max_concurrency (config scenario)) burst.
Proof. unfold build_replay_job. cbv zeta. rewrite !then_Ok. intros (_ & _ & _ & E). injection E as <-. done. Qed.

(** C29: what the replay tool publishes, the workers accept.  When the tool makes a
    job of a dead letter, a worker that runs the same scenario under the same
    settings finds nothing wrong with it: the job is within the contract and the
    limits, and its load and its fingerprint are those of the worker's own plan for
    the whole scenario in one slice. *)
Theorem replayed_job_is_accepted msg failed scenario job (plans : gmap string (ScenarioExecutionPlan W)) plan
    (Hjob : replacement msg failed scenario = Ok job)
    (Hplan : plans !! fail_scenario_id failed = Some plan) (Hscenario : plan_scenario plan = scenario)
    (Hsemantics : plan_semantics_fingerprint plan = replay_semantics_fingerprint options)
    (Hretries : replay_max_retries options = app_worker_max_retries app)
    (Hrate : SpecFloat.valid_binary f64_prec f64_emax (cfg_scenarios_per_sec (config scenario)) = true) :
  let node := node_runtime_config app in
  ScenarioJob_validate_limits job (max_job_duration node) (max_scenarios_per_sec node) (node_max_concurrency node) = Ok tt
  /\ deterministic_job_plan_error job plans node = None.
Proof.
  apply replacement_Ok in Hjob as (source & _ & _ & _ & Hb & Hl). split; [done|].
  apply build_replay_job_Ok in Hb as (_ & Hid & _ & _ & Hf & Hslice & Hr & Hload).
  apply (plan_check_passes _ _ _ plan); [by rewrite Hr|by rewrite Hid|..].
  - by rewrite Hload, Hslice, Hscenario, whole_slice_load.
  - rewrite Hf, Hslice. unfold execution_plan_fingerprint. by rewrite Hscenario, Hsemantics, Hretries.
Qed.

(** The coordinates can be read off the run identity. *)
Lemma replay_run_id_inj failed1 failed2 t1 t2 p1 p2 o1 o2 r1 r2 :
  0 <= p1 -> 0 <= p2 -> 0 <= o1 -> 0 <= o2 ->
  replay_run_id failed1 (mkSource t1 p1 o1) +:+ r1 = replay_run_id failed2 (mkSource t2 p2 o2) +:+ r2 -> t1 = t2 /\ p1 = p2 /\ o1 = o2.
Proof.
  intros Hp1 Hp2 Ho1 Ho2. unfold replay_run_id. cbn [src_topic src_partition src_offset]. rewrite !str_app_assoc. intros E.
  do 3 apply str_app_inj_l in E. apply colon_delimited_inj in E as [Et E]; [|apply url_no_colon..].
  apply url_inj in Et. apply (str_app_inj_l "p") in E. apply show_delimited_inj in E as [-> E]; [|done..].
  apply (str_app_inj_l "o") in E. apply show_delimited_inj in E as [-> _]; done.
Qed.

(** C31: replays have identities of their own.  Two replay jobs share an execution
    key only when they replay the same dead letter, the one at the same topic,
    partition and offset, so a redelivered dead letter is the only one that can
    repeat an execution; and no replay shares its key with any slice of any window
    the scheduler dispatches. *)
Theorem replay_identities_are_unique msg1 msg2 failed1 failed2 scenario1 scenario2 job1 job2
    (H1 : replacement msg1 failed1 scenario1 = Ok job1) (H2 : replacement msg2 failed2 scenario2 = Ok job2) :
  (job_execution_key job1 = job_execution_key job2 ->
     msg_topic msg1 = msg_topic msg2 /\ msg_partition msg1 = msg_partition msg2 /\ msg_offset msg1 = msg_offset msg2)
  /\ forall window i key version scenario_id at_ms slices,
       0 <= version -> win_window_id window = window_id_of (show version) scenario_id at_ms slices ->
       window_execution_key window i = Some key -> job_execution_key job1 <> key.
Proof.
  apply replacement_Ok in H1 as (s1 & -> & Hp1 & Ho1 & Hb1 & _). apply replacement_Ok in H2 as (s2 & -> & Hp2 & Ho2 & Hb2 & _).
  apply build_replay_job_Ok in Hb1 as (_ & _ & _ & -> & _). apply build_replay_job_Ok in Hb2 as (_ & _ & _ & -> & _).
  split; [by apply replay_run_id_inj|]. intros window i key version scenario_id at_ms slices Hv Hw Hk E. subst key.
  unfold window_execution_key in Hk. destruct (_ <? _); [|done]. injection Hk as Hk. rewrite Hw in Hk.
  unfold window_id_of, replay_run_id in Hk. rewrite !str_app_assoc in Hk. apply str_app_inj_l in Hk.
  apply show_delimited_inj in Hk as [_ Hk]; [|done..]. discriminate Hk.
Qed.
End replayed.

(** ** Settlement of dead letters *)

#[global] Instance Message_eq_dec : EqDecision Message.
Proof. solve_decision. Defined.

Section settlement.
Context `{Base64} `{ReplayJson} `{UrlBase64} {W : Type}.
Variable to_lowercase : string -> string.
Variable app : AppConfig.
Variable options : ReplayOptions.
Variable filters : ReplayFilters.
Variable scenarios : gmap string (Scenario W).
Notation dry := (opt_dry_run options).
Notation robs := (obs ranswer).
Implicit Types (msg : Message) (st : ReplayState).

(** What a dead letter is: evidence, a failed job that is not asked for, or a
    failed job to replay as this job under this key. *)
Definition read_letter msg : option ReplayRecord :=
  match validate_consumed_record_size (msg_key msg) (msg_payload msg) (consumer_record_max_bytes app), msg_payload msg with
  | Ok _, Some payload => result_ok (decode_replay_record payload)
  | _, _ => None
  end.

Definition not_replayable msg : bool :=
  match read_letter msg with
  | Some (Poison _) => true
  | Some (FailedJob failed) => negb (matches to_lowercase filters failed)
  | None => false
  end.

Definition due_job msg : option (string * ScenarioJob) :=
  match read_letter msg with
  | Some (FailedJob failed) =>
      if matches to_lowercase filters failed then
        scenario ← scenarios !! fail_scenario_id failed;
        job ← result_ok (replacement app options msg failed scenario);
        Some (key_for (cfg_partition_key_strategy (config scenario)) job, job)
      else None
  | _ => None
  end.

(** Nothing in hand; a dead letter in hand; its replacement is published; the
    tool has stopped. *)
Inductive replay_phase :=
| Ready
| Have msg
| Replayed msg
| Stopped.

Definition may_receive (ph : replay_phase) : bool :=
  match ph with Ready => true | Have _ => dry | _ => false end.

Definition may_publish (ph : replay_phase) (key : string) (job : ScenarioJob) : option Message :=
  match ph with
  | Have msg => if negb dry && bool_decide (due_job msg = Some (key, job)) then Some msg else None
  | _ => None
  end.

Definition may_commit (ph : replay_phase) msg : bool :=
  match ph with
  | Have msg' => negb dry && bool_decide (msg = msg') && not_replayable msg
  | Replayed msg' => bool_decide (msg = msg')
  | _ => false
  end.

Definition on_replay (ph : replay_phase) (c : rcall) : ranswer c -> option replay_phase :=
  match c return ranswer c -> option replay_phase with
  | RRecv => fun r => if may_receive ph then Some (match r with Ok msg => Have msg | Err _ => ph end) else None
  | RPublish key job => fun r => msg ← may_publish ph key job; Some (match r with Ok _ => Replayed msg | Err _ => Stopped end)
  | RCommit msg => fun r => if may_commit ph msg then Some (match r with Ok _ => Ready | Err _ => Stopped end) else None
  | _ => fun _ => Some ph
  end.

Definition on_replay_drop (ph : replay_phase) (c : rcall) : option replay_phase :=
  match c with
  | RRecv => if may_receive ph then Some ph else None
  | RPublish key job => _ ← may_publish ph key job; Some Stopped
  | RCommit msg => if may_commit ph msg then Some Stopped else None
  | _ => Some ph
  end.

Definition replay_protocol (ph : replay_phase) (x : robs) : option replay_phase :=
  match x with Answered c r => on_replay ph c r | Dropped c => on_replay_drop ph c end.

Notation safe := (safe replay_protocol).
Notation quiet := (quiet replay_protocol).
Notation anywhere := (fun _ : replay_phase => True).

(** The loop goes on only where it may receive. *)
Definition goes_on (r : ReplayState * bool) (ph : replay_phase) : Prop := snd r = true -> may_receive ph = true.

Lemma replay_step {A} c (k : ranswer c -> prog ranswer A) ph Q :
  is_Some (on_replay_drop ph c) -> (forall r, exists ph', on_replay ph c r = Some ph' /\ safe (k r) ph' anywhere Q) ->
  safe (rcall_of c ≫= k) ph anywhere Q.
Proof.
  intros [pd Hd] Hk. apply safe_call; [done|by exists pd|]. intros r. destruct (Hk r) as (ph' & Ha & Hs). by exists ph'.
Qed.

Lemma commit_step_safe msg st ph :
  may_commit ph msg = true -> safe (committed ← rcall_of (RCommit msg); mret (st, is_ok committed)) ph anywhere goes_on.
Proof.
  intros Hm. apply replay_step; [simpl; by rewrite Hm|]. intros r. eexists. split; [simpl; by rewrite Hm|].
  apply safe_ret. by destruct r.
Qed.

Lemma quiet_acquire fuel b : quiet (replay_acquire fuel b).
Proof.
  revert b. induction fuel as [|fuel IH]; intros b; [apply quiet_call; [done|by intros []]|].
  apply quiet_call; [done|]. intros now. split; [done|]. cbn [prog_bind].
  destruct (acquire_attempt now b) as [[[wait|] b']|]; [|apply quiet_ret|apply quiet_call; [done|by intros []]].
  apply quiet_call; [done|]. intros r. split; [done|]. apply IH.
Qed.

Lemma settle_safe msg st : not_replayable msg = true -> safe (settle_letter options msg st) (Have msg) anywhere goes_on.
Proof.
  intros Hn. unfold settle_letter. destruct dry eqn:Ed; [apply safe_ret; by intros _|].
  apply commit_step_safe. simpl. by rewrite Ed, Hn, bool_decide_true.
Qed.

Lemma republish_safe fuel msg failed scenario st :
  dry = false -> read_letter msg = Some (FailedJob failed) -> matches to_lowercase filters failed = true ->
  scenarios !! fail_scenario_id failed = Some scenario ->
  safe (republish app options fuel msg failed scenario st) (Have msg) anywhere goes_on.
Proof.
  intros Ed Hd Hm Hs. apply safe_bind, safe_quiet; [apply quiet_acquire|done|]. intros bucket.
  destruct (replacement app options msg failed scenario) as [job|] eqn:Hr; [|by apply safe_ret].
  set (key := key_for _ job).
  assert (may_publish (Have msg) key job = Some msg) as Hp.
  { simpl. rewrite Ed, bool_decide_true; [done|]. unfold due_job. by rewrite Hd, Hm, Hs; simpl; rewrite Hr. }
  apply replay_step; [cbn [on_replay_drop]; by rewrite Hp|]. intros r. eexists. split; [cbn [on_replay]; by rewrite Hp|].
  destruct r as [[]|]; [|by apply safe_ret]. apply commit_step_safe. simpl. by rewrite bool_decide_true.
Qed.

Lemma replay_record_safe fuel msg st :
  safe (replay_record to_lowercase app options filters scenarios fuel msg st) (Have msg) anywhere goes_on.
Proof.
  unfold replay_record. cbv zeta. destruct (validate_consumed_record_size _ _ _) as [[]|] eqn:Hsize; [|by apply safe_ret].
  destruct (msg_payload msg) as [payload|] eqn:Hpay; [|by apply safe_ret].
  destruct (decode_replay_record payload) as [record|] eqn:Hdec; [|by apply safe_ret].
  assert (read_letter msg = Some record) as Hd by (unfold read_letter; by rewrite Hpay, Hsize, Hdec).
  destruct record as [failed|poison]; [|apply settle_safe; unfold not_replayable; by rewrite Hd].
  destruct (matches to_lowercase filters failed) eqn:Hm; cbn [negb];
    [|apply settle_safe; unfold not_replayable; by rewrite Hd, Hm].
  destruct (scenarios !! fail_scenario_id failed) as [scenario|] eqn:Hs; [|apply safe_ret; by intros Hg].
  destruct dry eqn:Ed; [apply safe_ret; by intros _|by apply republish_safe].
Qed.

Lemma replay_loop_safe fuel limit st ph :
  may_receive ph = true -> safe (replay_loop to_lowercase app options filters scenarios fuel limit st) ph anywhere (fun _ => anywhere).
Proof.
  revert st ph. induction fuel as [|fuel IH]; intros st ph Hr; [apply safe_call; [done|by exists ph|by intros []]|].
  cbn [replay_loop]. destruct (limit <=? st_seen st); [by apply safe_ret|]. apply safe_race_r.
  - apply quiet_call; [done|]. intros r. split; [done|]. apply quiet_ret.
  - assert (forall b, (exists tr, runs (rcall_of RCtrlC;; mret None) tr (Some b)) -> b = @None (result string Message)) as Hnone.
    { intros b (tr & [[_ [=]]|[[_ [=]]|(r & tr' & _ & [_ [= ->]])]]). done. }
    apply safe_call; [split; [done|]; intros b ->%Hnone; by apply safe_ret| |].
    { exists ph. split; [simpl; by rewrite Hr|]. split; [done|]. intros b ->%Hnone. by apply safe_ret. }
    intros r. exists (match r with Ok msg => Have msg | Err _ => ph end). split; [simpl; by rewrite Hr|]. apply safe_ret.
    destruct r as [msg|e]; cbn [prog_bind mbind prog_mbind]; [|by apply IH].
    apply safe_bind. eapply safe_mono; [apply replay_record_safe|done|]. intros [st' go] ph' Hgo.
    destruct go; [by apply IH, Hgo|by apply safe_ret].
Qed.

(** C28: the replay tool settles a dead letter only when it is done with it.  In
    every run, whatever the brokers and the operator do, it commits the offset of a
    dead letter only when that record is evidence or a job the filters leave out,
    or right after the broker acknowledged the one job that replays it; it takes no
    further record while one is unsettled, and after a failed publication or commit
    nothing is received, published or committed any more.  A dry run publishes and
    commits nothing. *)
Theorem replay_settles_in_order fuel limit st tr o
    (Hrun : runs (replay_loop to_lowercase app options filters scenarios fuel limit st) tr o) :
  is_Some (watch replay_protocol Ready tr).
Proof. destruct (replay_loop_safe fuel limit st Ready eq_refl tr o Hrun) as (ph & -> & _). by eexists. Qed.
End settlement.

(** ** Samples *)

Section samples.
#[local] Existing Instance plain_urls.

(** An engine that keeps the laws: two letters per byte. *)
Definition letter (d : Z) : ascii := ch (97 + d).

Fixpoint spell (bytes : list Z) : string :=
  match bytes with
  | [] => EmptyString
  | b :: bytes => String (letter (b / 16 mod 16)) (String (letter (b mod 16)) (spell bytes))
  end.

Fixpoint unspell (s : string) : list Z :=
  match s with
  | String a (String b s) => (byte_of a - 97) * 16 + (byte_of b - 97) :: unspell s
  | _ => []
  end.

#[local] Instance spelling : UrlBase64 := {| url_encode := spell |}.

Lemma letter_range d : 0 <= d mod 16 < 16.
Proof. apply Z.mod_pos_bound. lia. Qed.

Lemma unspell_spell bytes : Forall (fun b => 0 <= b < 256) bytes -> unspell (spell bytes) = bytes.
Proof.
  induction 1 as [|b bytes Hb _ IH]; [done|]. cbn [spell unspell]. rewrite IH. f_equal. unfold letter.
  pose proof (letter_range b). assert (0 <= b / 16 < 16) by (split; [apply Z.div_pos|apply Z.div_lt_upper_bound]; lia).
  rewrite (Z.mod_small (b / 16)), !byte_of_ch by lia. pose proof (Z.div_mod b 16). lia.
Qed.

Lemma bytes_of_range s : Forall (fun b => 0 <= b < 256) (bytes_of s).
Proof.
  apply Forall_fmap, Forall_true. intros a. unfold byte_of. simpl. pose proof (N_ascii_bounded a). lia.
Qed.

Lemma bytes_of_inj s t : bytes_of s = bytes_of t -> s = t.
Proof.
  revert t. induction s as [|a s IH]; intros [|b t] E; try done. cbn in E. injection E as Hb E.
  rewrite (IH t E). f_equal. unfold byte_of in Hb. apply N2Z.inj in Hb.
  by rewrite <- (ascii_N_embedding a), <- (ascii_N_embedding b), Hb.
Qed.

Lemma letter_no_colon d : 0 <= d < 16 -> Ascii.eqb (letter d) ":" = false.
Proof.
  intros Hd. destruct (Ascii.eqb_spec (letter d) ":") as [E|]; [|done].
  apply (f_equal byte_of) in E. unfold letter in E. rewrite byte_of_ch in E by lia. change (byte_of ":") with 58 in E. lia.
Qed.

#[local] Instance spelling_laws : UrlBase64Laws.
Proof.
  split.
  - intros s t E. apply bytes_of_inj. simpl in E. rewrite <- (unspell_spell (bytes_of s)), E by apply bytes_of_range.
    apply unspell_spell, bytes_of_range.
  - intros bytes. simpl. induction bytes as [|b bytes IH]; [done|]. cbn [spell all_chars].
    by rewrite IH, !letter_no_colon by apply letter_range.
Qed.

(** A job that failed, and where its dead letter lies. *)
Definition lost_job : FailedScenarioJob :=
  mkFailed 2 (build_terminal_event_id "k" 1 "dlq") "checkout" "r" "k" (mkSlice 0 2) 7 1 2 "target gone".

Definition letter_at (offset : Z) : Message := mkMessage "dlq" 0 offset None (Some (bytes_of "lost")).

Definition plain_options (app : AppConfig) : ReplayOptions :=
  mkReplayOptions (f64_of_Z 5) f64_one (app_worker_max_retries app) "semantics" false true.

Lemma replay_facts :
  match from_sources empty_env no_files "node-1" with
  | Ok app =>
      (4 <=? consumer_record_max_bytes app)
      && forallb (fun offset => is_ok (replacement app (plain_options app) (letter_at offset) lost_job (plan_scenario checkout_plan))) [3; 4]
  | Err _ => false
  end = true.
Proof. by vm_compute. Qed.

Lemma ok_job {E A} (m : result E A) : is_ok m = true -> exists a, m = Ok a.
Proof. destruct m; [by eexists|done]. Qed.

Lemma replayed_job_is_accepted_witness :
  match from_sources empty_env no_files "node-1" with
  | Ok app => exists job,
      replacement app (plain_options app) (letter_at 3) lost_job (plan_scenario checkout_plan) = Ok job
      /\ deterministic_job_plan_error job {[ "checkout" := checkout_plan ]} (node_runtime_config app) = None
  | Err _ => False
  end.
Proof.
  pose proof replay_facts as Hf. destruct (from_sources empty_env no_files "node-1") as [app|]; [|discriminate].
  apply andb_true_iff in Hf as [_ Hf]. cbn [forallb] in Hf. apply andb_true_iff in Hf as [Hf _].
  apply ok_job in Hf as [job Hjob]. exists job. split; [exact Hjob|].
  apply (replayed_job_is_accepted app (plain_options app) (letter_at 3) lost_job (plan_scenario checkout_plan) job
           {[ "checkout" := checkout_plan ]} checkout_plan Hjob).
  - apply lookup_singleton_eq.
  - reflexivity.
  - reflexivity.
  - reflexivity.
  - vm_compute. reflexivity.
Defined.

Lemma replay_identities_are_unique_witness :
  match from_sources empty_env no_files "node-1" with
  | Ok app => exists job1 job2,
      replacement app (plain_options app) (letter_at 3) lost_job (plan_scenario checkout_plan) = Ok job1
      /\ replacement app (plain_options app) (letter_at 4) lost_job (plan_scenario checkout_plan) = Ok job2
      /\ job_execution_key job1 <> job_execution_key job2
  | Err _ => False
  end.
Proof.
  pose proof replay_facts as Hf. destruct (from_sources empty_env no_files "node-1") as [app|]; [|discriminate].
  apply andb_true_iff in Hf as [_ Hf]. cbn [forallb] in Hf. apply andb_true_iff in Hf as [H1 Hf]. apply andb_true_iff in Hf as [H2 _].
  apply ok_job in H1 as [job1 H1]. apply ok_job in H2 as [job2 H2]. exists job1, job2. split; [exact H1|]. split; [exact H2|].
  intros E. destruct (replay_identities_are_unique app (plain_options app) (letter_at 3) (letter_at 4) lost_job lost_job
    (plan_scenario checkout_plan) (plan_scenario checkout_plan) job1 job2 H1 H2) as [Hu _].
  destruct (Hu E) as (_ & _ & Ho). discriminate Ho.
Defined.

(** A codec that knows two records. *)
#[local] Existing Instance packing.

Definition evidence : PoisonMessageRecord :=
  mkPoison 2 "poison:jobs:0:1" 7 "jobs" 0 1 None None false (Some (pack [1; 2])) (Some 2) false "no job".

Definition object_of (fields : list string) : list (string * Value) := map (fun field => (field, JNull)) fields.

#[local] Instance letters_text : MessageJson := {|
  job_json _ := Ok "job"; result_json _ := Ok "result"; summary_json _ := Ok "summary";
  failed_json job := if bool_decide (job = lost_job) then Ok "lost" else Err "unknown";
  poison_json record := if bool_decide (record = evidence) then Ok "evidence" else Err "unknown";
  json_job _ := Err "no job"; json_result _ := Err "no result" |}.

#[local] Instance letters_values : ReplayJson := {|
  json_value bytes :=
    if bool_decide (bytes = bytes_of "lost") then Ok (JObject (object_of failed_fields))
    else if bool_decide (bytes = bytes_of "evidence") then Ok (JObject (object_of poison_fields)) else Err "unknown";
  value_failed _ := Ok lost_job;
  value_poison _ := Ok evidence |}.

#[local] Instance letters_laws : ReplayJsonLaws.
Proof.
  split.
  - intros job text _ Hj. simpl in Hj. case_bool_decide as Hjob; [|done]. injection Hj as <-. subst job.
    exists (object_of failed_fields). split_and!; by vm_compute.
  - intros record text _ Hj. simpl in Hj. case_bool_decide as Hrec; [|done]. injection Hj as <-. subst record.
    exists (object_of poison_fields). split_and!; by vm_compute.
Qed.

Lemma published_dead_letter_is_recognized_witness :
  serialize_validated_failed_job lost_job = Ok "lost" /\ serialize_validated_poison evidence = Ok "evidence"
  /\ decode_replay_record (bytes_of "lost") = Ok (FailedJob lost_job)
  /\ decode_replay_record (bytes_of "evidence") = Ok (Poison evidence).
Proof.
  destruct published_dead_letter_is_recognized as [Hf Hp]. split; [vm_compute; reflexivity|]. split; [vm_compute; reflexivity|].
  split; [apply (Hf lost_job "lost")|apply (Hp evidence "evidence")]; solve [split; discriminate | vm_compute; reflexivity].
Defined.

(** One dead letter is read, replayed and settled. *)
Definition one_second : Z := from_secs 1.
Definition full_bucket : TokenBucket := default (mkTokens f64_zero f64_zero f64_zero 0) (bucket_new (f64_of_Z 5) 0).
Definition no_filters : ReplayFilters := mkFilters ∅ None None None None.

Definition letter_run (job : ScenarioJob) : list (obs ranswer) :=
  [Answered RRecv (Ok (letter_at 3)); Answered RNow one_second; Answered (RPublish (key_for ScenarioId job) job) (Ok tt);
   Answered (RCommit (letter_at 3)) (Ok tt)].

Lemma letter_paced : exists b, runs (replay_acquire 1 full_bucket) [Answered RNow one_second] (Some b).
Proof.
  assert (exists b, acquire_attempt one_second full_bucket = Some (None, b)) as [b Hb] by (eexists; vm_compute; reflexivity).
  exists b. apply (runs_answer (answer := ranswer) RNow). cbn [prog_bind]. by rewrite Hb.
Qed.

Lemma letter_decodes : decode_replay_record (bytes_of "lost") = Ok (FailedJob lost_job).
Proof. by vm_compute. Qed.

#[local] Arguments decode_replay_record : simpl never.
#[local] Arguments acquire_attempt : simpl never.
#[local] Arguments replacement : simpl never.

Lemma letter_record_runs app job :
  replacement app (plain_options app) (letter_at 3) lost_job (plan_scenario checkout_plan) = Ok job -> 4 <= consumer_record_max_bytes app ->
  exists st, runs (replay_record (fun s => s) app (plain_options app) no_filters {[ "checkout" := plan_scenario checkout_plan ]} 1
                     (letter_at 3) (replay_start full_bucket)) (tail (letter_run job)) (Some (st, true)) /\ st_seen st = 1.
Proof.
  intros Hjob Hmax. destruct letter_paced as [b Hb]. unfold replay_record. cbv zeta.
  assert (validate_consumed_record_size (msg_key (letter_at 3)) (msg_payload (letter_at 3)) (consumer_record_max_bytes app) = Ok tt) as ->.
  { unfold validate_consumed_record_size. apply bind_Ok. exists 4. split; [done|]. apply reject_if_Ok, Z.ltb_ge, Hmax. }
  cbn [letter_at msg_payload]. rewrite letter_decodes.
  change (matches (fun s => s) no_filters lost_job) with true. cbn [negb fail_scenario_id lost_job].
  rewrite lookup_singleton_eq. cbn [opt_dry_run plain_options].
  eexists. split; [apply (runs_then _ _ b [Answered RNow one_second]); [exact Hb|]|].
  - cbv zeta. rewrite Hjob. do 2 apply (runs_answer (answer := ranswer)). by split.
  - done.
Qed.

Lemma letter_loop_runs app job st :
  runs (replay_record (fun s => s) app (plain_options app) no_filters {[ "checkout" := plan_scenario checkout_plan ]} 1
          (letter_at 3) (replay_start full_bucket)) (tail (letter_run job)) (Some (st, true)) -> st_seen st = 1 ->
  runs (replay_loop (fun s => s) app (plain_options app) no_filters {[ "checkout" := plan_scenario checkout_plan ]} 2 1 (replay_start full_bucket))
    (letter_run job) (Some st).
Proof.
  intros Hrec Hseen. apply (runs_second _ _ _ (Some (Ok (letter_at 3))) [Answered RRecv (Ok (letter_at 3))]).
  - by left.
  - by apply (runs_answer (answer := ranswer) RRecv).
  - apply (runs_then _ _ (st, true) (tail (letter_run job)) []); [exact Hrec|].
    cbn [replay_loop]. by rewrite Hseen.
Qed.

Lemma replay_settles_in_order_witness :
  match from_sources empty_env no_files "node-1" with
  | Ok app => exists job,
      replacement app (plain_options app) (letter_at 3) lost_job (plan_scenario checkout_plan) = Ok job
      /\ is_Some (watch (replay_protocol (fun s => s) app (plain_options app) no_filters {[ "checkout" := plan_scenario checkout_plan ]})
                   Ready (letter_run job))
  | Err _ => False
  end.
Proof.
  pose proof replay_facts as Hf. destruct (from_sources empty_env no_files "node-1") as [app|]; [|discriminate].
  apply andb_true_iff in Hf as [Hmax Hf]. cbn [forallb] in Hf. apply andb_true_iff in Hf as [Hf _].
  apply ok_job in Hf as [job Hjob]. exists job. split; [exact Hjob|].
  destruct (letter_record_runs app job Hjob (proj1 (Z.leb_le _ _) Hmax)) as (st & Hrec & Hseen).
  apply (replay_settles_in_order (fun s => s) app (plain_options app) no_filters {[ "checkout" := plan_scenario checkout_plan ]}
           2 1 (replay_start full_bucket) (letter_run job) (Some st)).
  exact (letter_loop_runs app job st Hrec Hseen).
Defined.
End samples.
